(** * Export job of the Maya-to-USD bridge: [UsdMaya_WriteJob]

    Shallow embedding of [lib/mayaUsd/fileio/jobs/writeJob.cpp].

    The job is modelled by explicit state passing over a record [Job] that
    holds the fields of [UsdMaya_WriteJob] (and of its [mJobCtx]) together
    with the part of the outside world the job acts on: the file system,
    the current render layer and time of the Maya scene, and a trace of the
    calls made to external collaborators (prim writers, chasers, the USD
    persistence API, MEL/Python callbacks, diagnostics of error level).

    What the external collaborators answer is given by a record [Env] of
    oracles.  Status-level diagnostics ([TF_STATUS]) and the advancement of
    the progress bar have no influence on the job and are left out of the
    trace; the interrupt flag of the progress bar is an oracle. *)

From Stdlib Require Import PrimFloat Ascii String.
From stdpp Require Import base option list gmap strings.

Open Scope string_scope.

(** ** Primitive data *)

(** C++ [double]: time samples and unit factors are only stored, compared
    and passed on. *)
Abbreviation double := float (only parsing).

(** [TfToken]: an interned string. *)
Abbreviation TfToken := string (only parsing).

(** [MDagPath]: the node names from the world root down to the node.  The
    world root itself is the path of length 0. *)
Abbreviation MDagPath := (list string) (only parsing).

(** [SdfPath]: [None] is the empty path [SdfPath()], [Some l] the absolute
    prim path with elements [l]; [Some []] is the absolute root [/].  Only
    absolute prim paths occur in the job. *)
Abbreviation SdfPath := (option (list string)) (only parsing).

(** [UsdTimeCode]. *)
Inductive UsdTimeCode :=
| TimeDefault
| TimeCode (t : double).

(** ** String helpers of the [Tf] library used by the job *)

Module Tf.

(** Splits [s] at the last occurrence of [c]: what stands before it and
    what stands after it. *)
Fixpoint rsplit (c : ascii) (s : string) : option (string * string) :=
  match s with
  | EmptyString => None
  | String a s' =>
      match rsplit c s' with
      | Some (b, e) => Some (String a b, e)
      | None => if Ascii.eqb a c then Some (EmptyString, s') else None
      end
  end.

(** Splits [s] at every occurrence of [c]. *)
Fixpoint split (c : ascii) (s : string) : list string :=
  match s with
  | EmptyString => [EmptyString]
  | String a s' =>
      if Ascii.eqb a c then EmptyString :: split c s'
      else match split c s' with
           | x :: xs => String a x :: xs
           | [] => [String a EmptyString]
           end
  end.

(** [std::replace(s.begin(), s.end(), from, to)]. *)
Fixpoint replace (from to : ascii) (s : string) : string :=
  match s with
  | EmptyString => EmptyString
  | String a s' => String (if Ascii.eqb a from then to else a) (replace from to s')
  end.

(** Removes the directory delimiters that end [s]. *)
Fixpoint trimRightSlash (s : string) : string :=
  match s with
  | EmptyString => EmptyString
  | String a s' =>
      match trimRightSlash s' with
      | EmptyString => if Ascii.eqb a "/" then EmptyString else String a EmptyString
      | r => String a r
      end
  end.

(** [TfGetPathName]: the directory part, with its trailing delimiter. *)
Definition TfGetPathName (fileName : string) : string :=
  match rsplit "/" fileName with
  | None => ""
  | Some (dir, _) => dir ++ "/"
  end.

(** [TfGetBaseName]: the part after the last delimiter; a name that ends in
    delimiters is taken without them. *)
Definition TfGetBaseName (fileName : string) : string :=
  let f := trimRightSlash fileName in
  match rsplit "/" f with
  | None => f
  | Some (_, base) => base
  end.

(** [TfStringGetSuffix] with the default delimiter ['.']. *)
Definition TfStringGetSuffix (name : string) : string :=
  match rsplit "." name with
  | None => ""
  | Some (_, suffix) => suffix
  end.

(** [TfStringGetBeforeSuffix] with the default delimiter ['.']. *)
Definition TfStringGetBeforeSuffix (name : string) : string :=
  match rsplit "." name with
  | None => name
  | Some (before, _) => before
  end.

(** [TfGetExtension]: the suffix of the base name; empty for an empty path
    and for a dot file without extension. *)
Definition TfGetExtension (path : string) : string :=
  if decide (path = "") then ""
  else
    let fileName := TfGetBaseName path in
    if decide (TfStringGetBeforeSuffix fileName = "") then ""
    else TfStringGetSuffix fileName.

(** [SdfLayer::IsAnonymousLayerIdentifier]: the identifier starts with
    [anon:]. *)
Definition IsAnonymousLayerIdentifier (identifier : string) : bool :=
  String.prefix "anon:" identifier.

End Tf.

(** ** Paths *)

Module Sdf.

(** [SdfPath(const std::string&)] for absolute prim paths: the text after
    the leading ['/'] is cut at every ['/']; an empty element makes the path
    invalid, and an invalid path is the empty path.  (Validity of the
    identifiers themselves is not checked.) *)
Definition ofString (s : string) : SdfPath :=
  match s with
  | String "/" EmptyString => Some []
  | String "/" rest =>
      let elems := Tf.split "/" rest in
      if forallb (fun e => negb (String.eqb e "")) elems then Some elems else None
  | _ => None
  end.

Definition IsEmpty (p : SdfPath) : bool :=
  match p with None => true | Some _ => false end.

(** [GetName]: the last element. *)
Definition GetName (p : SdfPath) : TfToken :=
  match p with
  | Some l => List.last l ""
  | None => ""
  end.

(** [GetParentPath]; the parent of the absolute root is the empty path. *)
Definition GetParentPath (p : SdfPath) : SdfPath :=
  match p with
  | Some (x :: l) => Some (removelast (x :: l))
  | _ => None
  end.

(** [l1] is a prefix of [l2], element by element. *)
Fixpoint isPrefix (l1 l2 : list string) : bool :=
  match l1, l2 with
  | [], _ => true
  | x :: l1', y :: l2' => String.eqb x y && isPrefix l1' l2'
  | _ :: _, [] => false
  end.

(** [p.HasPrefix(q)]. *)
Definition HasPrefix (p q : SdfPath) : bool :=
  match p, q with
  | Some lp, Some lq => isPrefix lq lp
  | _, _ => false
  end.

(** [GetPrefixes()[0]]: the shortest prefix that is a prim path; [None]
    models the out-of-range access on a path without prefixes. *)
Definition firstPrefix (p : SdfPath) : option SdfPath :=
  match p with
  | Some (x :: _) => Some (Some [x])
  | _ => None
  end.

(** [p.ReplacePrefix(oldPrefix, newPrefix)]. *)
Definition ReplacePrefix (p oldPrefix newPrefix : SdfPath) : SdfPath :=
  match p, oldPrefix, newPrefix with
  | Some lp, Some lo, Some ln =>
      if isPrefix lo lp then Some (ln ++ drop (length lo) lp)%list else p
  | _, _, _ => p
  end.

End Sdf.

Module Dag.

(** [MDagPath::fullPathName]: every node name preceded by ['|']. *)
Definition fullPathName (p : MDagPath) : string :=
  foldr (fun n acc => "|" ++ n ++ acc) "" p.

(** [MDagPath::pop]: fails on the world root. *)
Definition pop (p : MDagPath) : option MDagPath :=
  match p with
  | [] => None
  | _ :: _ => Some (removelast p)
  end.

End Dag.

Module UsdMayaUtil.

(** Modelled from the spec: [UsdMayaUtil::isAncestorDescendentRelationship]
    is declared in [mayaUsd/utils/util.h], which is not among the sources.
    Two root nodes are in the relationship when one is an ancestor of the
    other, that is when one DAG path is a prefix of the other. *)
Definition isAncestorDescendentRelationship (path1 path2 : MDagPath) : bool :=
  Sdf.isPrefix path1 path2 || Sdf.isPrefix path2 path1.

End UsdMayaUtil.

(** ** The output stage *)

(** The opinions authored on one prim.  [variantSets] gives, for each
    variant set of the prim, its variants in the order they were added, each
    with the prims that its edit target deactivates; [variantSelection] is
    the selection authored for a variant set, the empty string standing for
    no selection. *)
Record PrimData := mkPrimData {
  typeName : TfToken;
  active : bool;
  hasAuthoredPayloads : bool;
  internalReferences : list (list string);
  timeSamples : list UsdTimeCode;
  variantSets : gmap string (list (string * list (list string)));
  variantSelection : gmap string string
}.

(** The stage with its root layer: a store of prims keyed by the elements of
    their absolute path (the pseudo-root is not stored), the layer metadata
    the job sets, and the namespace order: [primOrder] lists the paths of
    the prims in the order in which their specs were created on the layer,
    which is the order in which the USD library enumerates siblings.  Every
    prim of the store is a defined, concrete prim (the job creates no other
    kind); a prim can be inactive.  The prims below an inactive prim stay
    in the store, as their specs stay on the layer, and the library does not
    populate them: [Usd.isTraversed] tells which prims of the store are on
    the populated stage.  What a reference does to the population
    of the stage is the business of the USD library and is not modelled:
    the prims of the stage are the prims of the store. *)
Record UsdStage := mkUsdStage {
  stagePrims : gmap (list string) PrimData;
  layerDefaultPrim : option TfToken;
  startTimeCode : option double;
  endTimeCode : option double;
  timeCodesPerSecond : option double;
  framesPerSecond : option double;
  stageMetersPerUnit : option double;
  layerCustomData : list (string * string);
  primOrder : list (list string)
}.

Module Usd.

Definition setPrims (f : gmap (list string) PrimData -> gmap (list string) PrimData)
    (st : UsdStage) : UsdStage :=
  {| stagePrims := f (stagePrims st); layerDefaultPrim := layerDefaultPrim st;
     startTimeCode := startTimeCode st; endTimeCode := endTimeCode st;
     timeCodesPerSecond := timeCodesPerSecond st; framesPerSecond := framesPerSecond st;
     stageMetersPerUnit := stageMetersPerUnit st; layerCustomData := layerCustomData st;
     primOrder := primOrder st |}.

Definition setOrder (g : list (list string) -> list (list string)) (st : UsdStage) : UsdStage :=
  {| stagePrims := stagePrims st; layerDefaultPrim := layerDefaultPrim st;
     startTimeCode := startTimeCode st; endTimeCode := endTimeCode st;
     timeCodesPerSecond := timeCodesPerSecond st; framesPerSecond := framesPerSecond st;
     stageMetersPerUnit := stageMetersPerUnit st; layerCustomData := layerCustomData st;
     primOrder := g (primOrder st) |}.

(** [SdfLayer::SetDefaultPrim]. *)
Definition SetDefaultPrim (name : TfToken) (st : UsdStage) : UsdStage :=
  {| stagePrims := stagePrims st; layerDefaultPrim := Some name;
     startTimeCode := startTimeCode st; endTimeCode := endTimeCode st;
     timeCodesPerSecond := timeCodesPerSecond st; framesPerSecond := framesPerSecond st;
     stageMetersPerUnit := stageMetersPerUnit st; layerCustomData := layerCustomData st;
     primOrder := primOrder st |}.

(** [SetStartTimeCode], [SetEndTimeCode], [SetTimeCodesPerSecond] and
    [SetFramesPerSecond], as the job calls them in a row. *)
Definition SetTimeRange (first last perSecond : double) (st : UsdStage) : UsdStage :=
  {| stagePrims := stagePrims st; layerDefaultPrim := layerDefaultPrim st;
     startTimeCode := Some first; endTimeCode := Some last;
     timeCodesPerSecond := Some perSecond; framesPerSecond := Some perSecond;
     stageMetersPerUnit := stageMetersPerUnit st; layerCustomData := layerCustomData st;
     primOrder := primOrder st |}.

(** [UsdGeomSetStageMetersPerUnit]. *)
Definition SetStageMetersPerUnit (m : double) (st : UsdStage) : UsdStage :=
  {| stagePrims := stagePrims st; layerDefaultPrim := layerDefaultPrim st;
     startTimeCode := startTimeCode st; endTimeCode := endTimeCode st;
     timeCodesPerSecond := timeCodesPerSecond st; framesPerSecond := framesPerSecond st;
     stageMetersPerUnit := Some m; layerCustomData := layerCustomData st;
     primOrder := primOrder st |}.

(** [SdfLayer::SetCustomLayerData]. *)
Definition SetCustomLayerData (d : list (string * string)) (st : UsdStage) : UsdStage :=
  {| stagePrims := stagePrims st; layerDefaultPrim := layerDefaultPrim st;
     startTimeCode := startTimeCode st; endTimeCode := endTimeCode st;
     timeCodesPerSecond := timeCodesPerSecond st; framesPerSecond := framesPerSecond st;
     stageMetersPerUnit := stageMetersPerUnit st; layerCustomData := d;
     primOrder := primOrder st |}.

(** A prim that has just been defined. *)
Definition newPrim (type : TfToken) : PrimData :=
  mkPrimData type true false [] [] ∅ ∅.

Definition setActive (b : bool) (d : PrimData) : PrimData :=
  mkPrimData (typeName d) b (hasAuthoredPayloads d) (internalReferences d)
             (timeSamples d) (variantSets d) (variantSelection d).

Definition addReference (target : list string) (d : PrimData) : PrimData :=
  mkPrimData (typeName d) (active d) (hasAuthoredPayloads d)
             (internalReferences d ++ [target]) (timeSamples d) (variantSets d)
             (variantSelection d).

Definition addTimeSample (t : UsdTimeCode) (d : PrimData) : PrimData :=
  mkPrimData (typeName d) (active d) (hasAuthoredPayloads d) (internalReferences d)
             (timeSamples d ++ [t]) (variantSets d) (variantSelection d).

Definition setVariantSets
    (f : gmap string (list (string * list (list string)))
         -> gmap string (list (string * list (list string))))
    (d : PrimData) : PrimData :=
  mkPrimData (typeName d) (active d) (hasAuthoredPayloads d) (internalReferences d)
             (timeSamples d) (f (variantSets d)) (variantSelection d).

Definition setVariantSelection (setName variantName : string) (d : PrimData) : PrimData :=
  mkPrimData (typeName d) (active d) (hasAuthoredPayloads d) (internalReferences d)
             (timeSamples d) (variantSets d) (<[setName := variantName]> (variantSelection d)).

(** [UsdPrim::IsValid] for the prim handle at path [p]: the pseudo-root is
    always there, another prim when the store has it. *)
Definition IsValid (st : UsdStage) (p : SdfPath) : bool :=
  match p with
  | None => false
  | Some [] => true
  | Some l => bool_decide (is_Some (stagePrims st !! l))
  end.

(** [UsdPrim::GetTypeName]; the pseudo-root has no type name. *)
Definition GetTypeName (st : UsdStage) (p : SdfPath) : TfToken :=
  match p with
  | Some (x :: l) => from_option typeName "" (stagePrims st !! (x :: l))
  | _ => ""
  end.

(** The prims of the store, in its enumeration order. *)
Definition allPaths (st : UsdStage) : list (list string) :=
  (map_to_list (stagePrims st)).*1.

(** [l] is the path of a child of the prim at [parent]. *)
Definition isChildOf (parent l : list string) : bool :=
  match l with
  | [] => false
  | _ :: _ => bool_decide (removelast l = parent)
  end.

(** [UsdPrim::GetAllChildren]. *)
Definition GetAllChildren (st : UsdStage) (p : SdfPath) : list (list string) :=
  match p with
  | Some parent => filter (fun l => isChildOf parent l = true) (allPaths st)
  | None => []
  end.

Definition HasAuthoredPayloads (st : UsdStage) (p : SdfPath) : bool :=
  match p with
  | Some l => from_option hasAuthoredPayloads false (stagePrims st !! l)
  | None => false
  end.

Definition HasAuthoredReferences (st : UsdStage) (p : SdfPath) : bool :=
  match p with
  | Some l =>
      from_option (fun d => negb (bool_decide (internalReferences d = []))) false
                  (stagePrims st !! l)
  | None => false
  end.

(** [UsdPrim::IsActive] for the prim at [l]. *)
Definition IsActive (st : UsdStage) (l : list string) : bool :=
  from_option active false (stagePrims st !! l).

(** The prim at [l] is active and so are all the prims above it: an
    inactive prim takes what is below it off the populated stage. *)
Definition isTraversed (st : UsdStage) (l : list string) : bool :=
  forallb (fun n => IsActive st (take n l)) (seq 1 (length l)).

(** [UsdStage::Traverse]: the prims below the pseudo-root that are active;
    the traversal does not go below an inactive prim. *)
Definition Traverse (st : UsdStage) : list (list string) :=
  filter (fun l => isTraversed st l = true) (allPaths st).

(** [UsdPrim::GetChildren]: the active children of the prim at [p], in
    namespace order. *)
Definition GetChildren (st : UsdStage) (p : SdfPath) : list (list string) :=
  match p with
  | Some parent =>
      filter (fun l => isChildOf parent l = true /\ IsActive st l = true) (primOrder st)
  | None => []
  end.

(** The proper prefixes of [l] that are prim paths: the ancestors of the
    prim at [l], the pseudo-root apart. *)
Definition ancestors (l : list string) : list (list string) :=
  map (fun n => take n l) (seq 1 (length l - 1)).

(** [UsdStage::DefinePrim]: defines the prim at [l] with type [type], and
    the ancestors it lacks as typeless prims; a prim that is already there
    keeps its opinions.  The prims it creates come last in the namespace
    order, an ancestor before its descendant. *)
Definition DefinePrim (l : list string) (type : TfToken) (st : UsdStage) : UsdStage :=
  match l with
  | [] => st
  | _ :: _ =>
      setOrder (fun o => o ++ filter (fun a => stagePrims st !! a = None)
                                     (ancestors l ++ [l]))%list
        (setPrims (fun m =>
           let m1 := foldr (fun a acc =>
                       match acc !! a with Some _ => acc | None => <[a := newPrim ""]> acc end)
                       m (ancestors l) in
           match m1 !! l with
           | Some _ => m1
           | None => <[l := newPrim type]> m1
           end) st)
  end.

(** [UsdStage::RemovePrim]: removes the prim at [p] with everything below
    it; nothing happens for the empty path and for the pseudo-root. *)
Definition RemovePrim (p : SdfPath) (st : UsdStage) : UsdStage :=
  match p with
  | Some (x :: l) =>
      setOrder (filter (fun k => Sdf.isPrefix (x :: l) k = false))
        (setPrims (filter (fun kv => Sdf.isPrefix (x :: l) kv.1 = false)) st)
  | _ => st
  end.

(** Applies [f] to the opinions of the prim at [l], when it is there. *)
Definition alterPrim (f : PrimData -> PrimData) (l : list string) (st : UsdStage) : UsdStage :=
  setPrims (alter f l) st.

End Usd.

(** ** Job arguments, collaborators and the environment *)

(** Tokens of [UsdMayaJobExportArgsTokens] and [UsdMayaTranslatorTokens].
    Their declarations are not among the sources; the job only compares
    them, so they are taken as they come. *)
Record Tokens := mkTokens {
  appleArKit : TfToken;
  modelingVariant : TfToken;
  currentLayer : TfToken;
  UsdFileExtensionDefault : TfToken;
  UsdFileExtensionASCII : TfToken;
  UsdFileExtensionCrate : TfToken;
  UsdFileExtensionPackage : TfToken
}.

(** [UsdMayaJobExportArgs], the fields the job reads.  [isExportingMeshes],
    [isExportingLights] and [isExportingCameras] stand for the methods of
    these names, [rootMapFunctionIsNull] for [rootMapFunction.IsNull()]. *)
Record UsdMayaJobExportArgs := mkArgs {
  timeSamplesArg : list double;
  verbose : bool;
  rootPrim : SdfPath;
  exportRoots : list string;
  exportSelected : bool;
  isExportingMeshes : bool;
  isExportingLights : bool;
  isExportingCameras : bool;
  exportStagesAsRefs : bool;
  legacyMaterialScope : bool;
  defaultPrim : string;
  stripNamespaces : bool;
  mergeTransformAndShape : bool;
  dagPaths : list MDagPath;
  compatibility : TfToken;
  renderLayerMode : TfToken;
  rootMapFunctionIsNull : bool;
  usdModelRootOverridePath : SdfPath;
  upAxis : TfToken;
  unit_ : TfToken;
  customLayerData : list (string * string);
  chaserNames : list string;
  metersPerUnit : double;
  exportDistanceUnit : bool;
  includeEmptyTransforms : bool;
  melPerFrameCallback : string;
  pythonPerFrameCallback : string;
  melPostCallback : string;
  pythonPostCallback : string
}.

Definition set_defaultPrim (v : string) (a : UsdMayaJobExportArgs) : UsdMayaJobExportArgs :=
  mkArgs (timeSamplesArg a) (verbose a) (rootPrim a) (exportRoots a) (exportSelected a)
    (isExportingMeshes a) (isExportingLights a) (isExportingCameras a)
    (exportStagesAsRefs a) (legacyMaterialScope a) v (stripNamespaces a)
    (mergeTransformAndShape a) (dagPaths a) (compatibility a) (renderLayerMode a)
    (rootMapFunctionIsNull a) (usdModelRootOverridePath a) (upAxis a) (unit_ a)
    (customLayerData a) (chaserNames a) (metersPerUnit a) (exportDistanceUnit a)
    (includeEmptyTransforms a) (melPerFrameCallback a) (pythonPerFrameCallback a)
    (melPostCallback a) (pythonPostCallback a).

Definition set_usdModelRootOverridePath (v : SdfPath) (a : UsdMayaJobExportArgs)
    : UsdMayaJobExportArgs :=
  mkArgs (timeSamplesArg a) (verbose a) (rootPrim a) (exportRoots a) (exportSelected a)
    (isExportingMeshes a) (isExportingLights a) (isExportingCameras a)
    (exportStagesAsRefs a) (legacyMaterialScope a) (defaultPrim a) (stripNamespaces a)
    (mergeTransformAndShape a) (dagPaths a) (compatibility a) (renderLayerMode a)
    (rootMapFunctionIsNull a) v (upAxis a) (unit_ a)
    (customLayerData a) (chaserNames a) (metersPerUnit a) (exportDistanceUnit a)
    (includeEmptyTransforms a) (melPerFrameCallback a) (pythonPerFrameCallback a)
    (melPostCallback a) (pythonPostCallback a).

(** A prim writer as the registry hands it out: the DAG node it writes, the
    path and type of the prim it defines on the stage (the empty path when
    it defines none), whether its children are to be pruned and what it
    contributes to the DAG-to-USD mapping. *)
Record PrimWriter := mkPrimWriter {
  GetDagPath : MDagPath;
  writerPrimPath : SdfPath;
  writerPrimType : TfToken;
  ShouldPruneChildren : bool;
  GetDagToUsdPathMapping : list (MDagPath * SdfPath)
}.

(** A chaser instance, known by its registered name. *)
Abbreviation Chaser := string (only parsing).

(** The Maya DAG below one node. *)
Inductive DagNode :=
| DagNode_ (name : string) (children : list DagNode).

(** The answers of the external collaborators. *)
Record Env := mkEnv {
  tokens : Tokens;
  (* the Maya scene *)
  dagWorld : list DagNode;
  partialPathName : MDagPath -> string;
  dagPathIsValid : MDagPath -> bool;
  hasParent : MDagPath -> MDagPath -> bool;
  extendToShape : MDagPath -> MDagPath;
  listAllRenderLayers : list string;
  defaultRenderLayer : string;
  listMembers : string -> list MDagPath;
  executePythonCommand : string -> list string;
  internalUnitAsLinearUnit : double;
  sceneTimeUnitAsDouble : double;
  generatedUuid : string;
  isInterruptRequested : nat -> bool;
  (* utilities that are not among the sources *)
  MayaNodeNameToPrimName : string -> bool -> string;
  TfStringCatPaths : string -> string -> string;
  IsA_Xformable : TfToken -> bool;
  (* the job context *)
  OpenFile_stage : string -> bool -> option UsdStage;
  NeedToTraverse : MDagPath -> bool;
  CreatePrimWriter : MDagPath -> option PrimWriter;
  PostProcess : bool;
  MakeModelHierarchy : bool;
  (* chasers *)
  ChaserCreate : string -> bool;
  ExportDefault : Chaser -> bool;
  ExportFrame : Chaser -> double -> bool;
  PostExport : Chaser -> bool;
  GetExtraPrimsPaths : Chaser -> list SdfPath;
  (* persistence *)
  PermissionToSave : string -> bool;
  UsdUtilsCreateNewARKitUsdzPackage : string -> string -> string -> bool;
  UsdUtilsCreateNewUsdzPackage : string -> string -> string -> bool
}.

(** ** The trace *)

(** Diagnostics of error and warning level, by their message and its
    arguments. *)
Inductive Diagnostic :=
| RootsOverlap (path1 path2 : string)
| CannotAppendToPackage
| TemporaryStageExists (fileName : string)
| ExportRootsWithModelingVariant
| NoExportRootIntersection
| NameClash (other self : string)
| FailedToCreateChaser (chaserName : string)
| CouldNotCreatePackage (packageName fileName : string)
| DistanceUnitWarning.

Inductive Event :=
| EvDiagnostic (d : Diagnostic)
| EvPython (cmd : string)
| EvMel (cmd : string)
| EvViewFrame (t : double)
| EvOpenFile (fileName : string) (append : bool)
| EvChangeUpAxisAndUnits (upAxisOption unitsOption : TfToken)
| EvRestoreUpAxisAndUnits
| EvCreatePrimWriter (dagPath : MDagPath)
| EvWrite (w : PrimWriter) (t : UsdTimeCode)
| EvOnWritePrim (w : PrimWriter)
| EvExportShadingEngines
| EvPostProcess
| EvMakeModelHierarchy
| EvChaserCreate (chaserName : string)
| EvExportDefault (c : Chaser)
| EvExportFrame (c : Chaser) (t : double)
| EvChaserPostExport (c : Chaser)
| EvWriterPostExport (w : PrimWriter)
| EvSave (fileName : string)
| EvCreatePackage (arKit : bool) (asset packageName firstLayerName : string)
| EvReleaseStage
| EvReleaseWriters
| EvDeleteFile (fileName : string)
| EvInterruptPoll (n : nat).

(** ** The job *)

Record Job := mkJob {
  (* UsdMaya_WriteJob and its context *)
  mArgs : UsdMayaJobExportArgs;
  mStage : option UsdStage;
  mRootPrimPath : SdfPath;
  mMayaPrimWriterList : list PrimWriter;
  mChasers : list Chaser;
  mDagPathToUsdPathMap : gmap (list string) (option (list string));
  mUsdPathToDagPathMap : gmap (option (list string)) (list string);
  mRenderLayerObjs : list string;
  mCurrentRenderLayerName : string;
  _fileName : string;
  _packageName : string;
  _extrasPrimsPaths : list SdfPath;
  _autoAxisAndUnitsChanger : bool;
  (* the world around it *)
  fileSystem : gset string;
  sceneRenderLayer : string;
  sceneTime : double;
  trace : list Event
}.

(** Field updates. *)
Definition set_mArgs (v : UsdMayaJobExportArgs) (j : Job) : Job :=
  mkJob v (mStage j) (mRootPrimPath j) (mMayaPrimWriterList j) (mChasers j)
    (mDagPathToUsdPathMap j) (mUsdPathToDagPathMap j) (mRenderLayerObjs j)
    (mCurrentRenderLayerName j) (_fileName j) (_packageName j) (_extrasPrimsPaths j)
    (_autoAxisAndUnitsChanger j) (fileSystem j) (sceneRenderLayer j) (sceneTime j)
    (trace j).

Definition set_mStage (v : option UsdStage) (j : Job) : Job :=
  mkJob (mArgs j) v (mRootPrimPath j) (mMayaPrimWriterList j) (mChasers j)
    (mDagPathToUsdPathMap j) (mUsdPathToDagPathMap j) (mRenderLayerObjs j)
    (mCurrentRenderLayerName j) (_fileName j) (_packageName j) (_extrasPrimsPaths j)
    (_autoAxisAndUnitsChanger j) (fileSystem j) (sceneRenderLayer j) (sceneTime j)
    (trace j).

Definition set_mMayaPrimWriterList (v : list PrimWriter) (j : Job) : Job :=
  mkJob (mArgs j) (mStage j) (mRootPrimPath j) v (mChasers j) (mDagPathToUsdPathMap j)
    (mUsdPathToDagPathMap j) (mRenderLayerObjs j) (mCurrentRenderLayerName j)
    (_fileName j) (_packageName j) (_extrasPrimsPaths j) (_autoAxisAndUnitsChanger j)
    (fileSystem j) (sceneRenderLayer j) (sceneTime j) (trace j).

Definition set_mChasers (v : list Chaser) (j : Job) : Job :=
  mkJob (mArgs j) (mStage j) (mRootPrimPath j) (mMayaPrimWriterList j) v
    (mDagPathToUsdPathMap j) (mUsdPathToDagPathMap j) (mRenderLayerObjs j)
    (mCurrentRenderLayerName j) (_fileName j) (_packageName j) (_extrasPrimsPaths j)
    (_autoAxisAndUnitsChanger j) (fileSystem j) (sceneRenderLayer j) (sceneTime j)
    (trace j).

Definition set_mDagPathToUsdPathMap (v : gmap (list string) (option (list string))) (j : Job) : Job :=
  mkJob (mArgs j) (mStage j) (mRootPrimPath j) (mMayaPrimWriterList j) (mChasers j) v
    (mUsdPathToDagPathMap j) (mRenderLayerObjs j) (mCurrentRenderLayerName j)
    (_fileName j) (_packageName j) (_extrasPrimsPaths j) (_autoAxisAndUnitsChanger j)
    (fileSystem j) (sceneRenderLayer j) (sceneTime j) (trace j).

Definition set_mUsdPathToDagPathMap (v : gmap (option (list string)) (list string)) (j : Job) : Job :=
  mkJob (mArgs j) (mStage j) (mRootPrimPath j) (mMayaPrimWriterList j) (mChasers j)
    (mDagPathToUsdPathMap j) v (mRenderLayerObjs j) (mCurrentRenderLayerName j)
    (_fileName j) (_packageName j) (_extrasPrimsPaths j) (_autoAxisAndUnitsChanger j)
    (fileSystem j) (sceneRenderLayer j) (sceneTime j) (trace j).

Definition set_mRenderLayerObjs (v : list string) (j : Job) : Job :=
  mkJob (mArgs j) (mStage j) (mRootPrimPath j) (mMayaPrimWriterList j) (mChasers j)
    (mDagPathToUsdPathMap j) (mUsdPathToDagPathMap j) v (mCurrentRenderLayerName j)
    (_fileName j) (_packageName j) (_extrasPrimsPaths j) (_autoAxisAndUnitsChanger j)
    (fileSystem j) (sceneRenderLayer j) (sceneTime j) (trace j).

Definition set_mCurrentRenderLayerName (v : string) (j : Job) : Job :=
  mkJob (mArgs j) (mStage j) (mRootPrimPath j) (mMayaPrimWriterList j) (mChasers j)
    (mDagPathToUsdPathMap j) (mUsdPathToDagPathMap j) (mRenderLayerObjs j) v
    (_fileName j) (_packageName j) (_extrasPrimsPaths j) (_autoAxisAndUnitsChanger j)
    (fileSystem j) (sceneRenderLayer j) (sceneTime j) (trace j).

Definition set_fileName (v : string) (j : Job) : Job :=
  mkJob (mArgs j) (mStage j) (mRootPrimPath j) (mMayaPrimWriterList j) (mChasers j)
    (mDagPathToUsdPathMap j) (mUsdPathToDagPathMap j) (mRenderLayerObjs j)
    (mCurrentRenderLayerName j) v (_packageName j) (_extrasPrimsPaths j)
    (_autoAxisAndUnitsChanger j) (fileSystem j) (sceneRenderLayer j) (sceneTime j)
    (trace j).

Definition set_packageName (v : string) (j : Job) : Job :=
  mkJob (mArgs j) (mStage j) (mRootPrimPath j) (mMayaPrimWriterList j) (mChasers j)
    (mDagPathToUsdPathMap j) (mUsdPathToDagPathMap j) (mRenderLayerObjs j)
    (mCurrentRenderLayerName j) (_fileName j) v (_extrasPrimsPaths j)
    (_autoAxisAndUnitsChanger j) (fileSystem j) (sceneRenderLayer j) (sceneTime j)
    (trace j).

Definition set_extrasPrimsPaths (v : list SdfPath) (j : Job) : Job :=
  mkJob (mArgs j) (mStage j) (mRootPrimPath j) (mMayaPrimWriterList j) (mChasers j)
    (mDagPathToUsdPathMap j) (mUsdPathToDagPathMap j) (mRenderLayerObjs j)
    (mCurrentRenderLayerName j) (_fileName j) (_packageName j) v
    (_autoAxisAndUnitsChanger j) (fileSystem j) (sceneRenderLayer j) (sceneTime j)
    (trace j).

Definition set_autoAxisAndUnitsChanger (v : bool) (j : Job) : Job :=
  mkJob (mArgs j) (mStage j) (mRootPrimPath j) (mMayaPrimWriterList j) (mChasers j)
    (mDagPathToUsdPathMap j) (mUsdPathToDagPathMap j) (mRenderLayerObjs j)
    (mCurrentRenderLayerName j) (_fileName j) (_packageName j) (_extrasPrimsPaths j) v
    (fileSystem j) (sceneRenderLayer j) (sceneTime j) (trace j).

Definition set_fileSystem (v : gset string) (j : Job) : Job :=
  mkJob (mArgs j) (mStage j) (mRootPrimPath j) (mMayaPrimWriterList j) (mChasers j)
    (mDagPathToUsdPathMap j) (mUsdPathToDagPathMap j) (mRenderLayerObjs j)
    (mCurrentRenderLayerName j) (_fileName j) (_packageName j) (_extrasPrimsPaths j)
    (_autoAxisAndUnitsChanger j) v (sceneRenderLayer j) (sceneTime j) (trace j).

Definition set_sceneRenderLayer (v : string) (j : Job) : Job :=
  mkJob (mArgs j) (mStage j) (mRootPrimPath j) (mMayaPrimWriterList j) (mChasers j)
    (mDagPathToUsdPathMap j) (mUsdPathToDagPathMap j) (mRenderLayerObjs j)
    (mCurrentRenderLayerName j) (_fileName j) (_packageName j) (_extrasPrimsPaths j)
    (_autoAxisAndUnitsChanger j) (fileSystem j) v (sceneTime j) (trace j).

Definition set_sceneTime (v : double) (j : Job) : Job :=
  mkJob (mArgs j) (mStage j) (mRootPrimPath j) (mMayaPrimWriterList j) (mChasers j)
    (mDagPathToUsdPathMap j) (mUsdPathToDagPathMap j) (mRenderLayerObjs j)
    (mCurrentRenderLayerName j) (_fileName j) (_packageName j) (_extrasPrimsPaths j)
    (_autoAxisAndUnitsChanger j) (fileSystem j) (sceneRenderLayer j) v (trace j).

Definition set_trace (v : list Event) (j : Job) : Job :=
  mkJob (mArgs j) (mStage j) (mRootPrimPath j) (mMayaPrimWriterList j) (mChasers j)
    (mDagPathToUsdPathMap j) (mUsdPathToDagPathMap j) (mRenderLayerObjs j)
    (mCurrentRenderLayerName j) (_fileName j) (_packageName j) (_extrasPrimsPaths j)
    (_autoAxisAndUnitsChanger j) (fileSystem j) (sceneRenderLayer j) (sceneTime j) v.

(** Appends events to the trace. *)
Definition emit (evs : list Event) (j : Job) : Job :=
  set_trace (trace j ++ evs)%list j.

(** ** The functions of [writeJob.cpp] *)

Section WriteJob.

Variable E : Env.

(** Applies [f] to the stage when the job holds one. *)
Definition onStage (f : UsdStage -> UsdStage) (j : Job) : Job :=
  set_mStage (f <$> mStage j) j.

(** Validity of the prim handle at [p] on the stage of the job. *)
Definition primIsValid (j : Job) (p : SdfPath) : bool :=
  from_option (fun st => Usd.IsValid st p) false (mStage j).

(** [MGlobal::viewFrame]. *)
Definition viewFrame (t : double) (j : Job) : Job :=
  set_sceneTime t (emit [EvViewFrame t] j).

(** [MGlobal::executeCommand("editRenderLayerGlobals -currentRenderLayer " + name)]. *)
Definition editRenderLayerGlobals (name : string) (j : Job) : Job :=
  set_sceneRenderLayer name
    (emit [EvMel ("editRenderLayerGlobals -currentRenderLayer " ++ name)] j).

(** [_MakeTmpStageName]: a name for a temporary usdc file in [dir]. *)
Definition _MakeTmpStageName (dir : string) : string :=
  let fileName := "tmp-" ++ generatedUuid E ++ "." ++ UsdFileExtensionCrate (tokens E) in
  TfStringCatPaths E dir fileName.

(** [_GetFallbackExtension]. *)
Definition _GetFallbackExtension (compatibilityMode : TfToken) : TfToken :=
  if decide (compatibilityMode = appleArKit (tokens E))
  then UsdFileExtensionPackage (tokens E)
  else UsdFileExtensionDefault (tokens E).

(** The loop of [GetExportDefaultPrimCandidates] over the export roots:
    an empty root is passed over, another one is appended. *)
Definition appendExportRoots (exportRoots : list string) : list string :=
  foldl (fun roots root => if decide (root = "") then roots else roots ++ [root])%list
        [] exportRoots.

Definition pyBool (excluded : bool) : string :=
  if excluded then "True" else "False".

(** The Python command that asks the scene for the default prim
    candidates. *)
Definition defaultPrimCandidatesCommand (exportArgs : UsdMayaJobExportArgs) : string :=
  let getRoots := if exportSelected exportArgs
                  then "updateDefaultPrimCandidatesFromSelection"
                  else "updateDefaultPrimCandidates" in
  "import mayaUsd_exportHelpers; mayaUsd_exportHelpers." ++ getRoots ++ "("
    ++ pyBool (negb (isExportingMeshes exportArgs)) ++ ", "
    ++ pyBool (negb (isExportingLights exportArgs)) ++ ", "
    ++ pyBool (negb (isExportingCameras exportArgs)) ++ ", "
    ++ pyBool (negb (exportStagesAsRefs exportArgs)) ++ ")".

(** [GetExportDefaultPrimCandidates]: the candidates, and the calls made to
    the scene to obtain them. *)
Definition GetExportDefaultPrimCandidates (exportArgs : UsdMayaJobExportArgs)
    : list string * list Event :=
  if negb (Sdf.IsEmpty (rootPrim exportArgs)) then
    ([Sdf.GetName (rootPrim exportArgs)], [])
  else
    let roots := if bool_decide (0 < length (exportRoots exportArgs))
                 then appendExportRoots (exportRoots exportArgs) else [] in
    if bool_decide (0 < length (exportRoots exportArgs)) && bool_decide (0 < length roots)
    then (roots, [])
    else
      let cmd := defaultPrimCandidatesCommand exportArgs in
      (executePythonCommand E cmd, [EvPython cmd]).

(** [_BeginWriting], lines 392-404: the default prim, when none was given,
    is the first candidate; it is then turned into a prim name. *)
Definition selectDefaultPrim (j : Job) : Job :=
  if negb (legacyMaterialScope (mArgs j)) && bool_decide (defaultPrim (mArgs j) = "") then
    let '(roots, evs) := GetExportDefaultPrimCandidates (mArgs j) in
    let j := emit evs j in
    match roots with
    | root0 :: _ => set_mArgs (set_defaultPrim root0 (mArgs j)) j
    | [] => j
    end
  else j.

Definition normalizeDefaultPrim (j : Job) : Job :=
  if bool_decide (defaultPrim (mArgs j) = "") then j
  else set_mArgs (set_defaultPrim
                    (MayaNodeNameToPrimName E (defaultPrim (mArgs j)) (stripNamespaces (mArgs j)))
                    (mArgs j)) j.

(** [_BeginWriting], lines 408-425: the first pair of export DAG paths, in
    the order of the two nested loops, that are ancestor and descendant. *)
Fixpoint findOverlappingRoots (paths : list MDagPath) : option (MDagPath * MDagPath) :=
  match paths with
  | [] => None
  | path1 :: rest =>
      match List.find (UsdMayaUtil.isAncestorDescendentRelationship path1) rest with
      | Some path2 => Some (path1, path2)
      | None => findOverlappingRoots rest
      end
  end.

(** [_BeginWriting], lines 429-442: the extension and the file name with
    a proper USD extension. *)
Definition resolveFileName (compat : TfToken) (fileName : string) : TfToken * string :=
  let fileExt := Tf.TfGetExtension fileName in
  if negb (Tf.IsAnonymousLayerIdentifier fileName
           || bool_decide (fileExt = UsdFileExtensionDefault (tokens E))
           || bool_decide (fileExt = UsdFileExtensionASCII (tokens E))
           || bool_decide (fileExt = UsdFileExtensionCrate (tokens E))
           || bool_decide (fileExt = UsdFileExtensionPackage (tokens E)))
  then
    let fileExt := _GetFallbackExtension compat in
    (fileExt, fileName ++ "." ++ fileExt)
  else (fileExt, fileName).

(** [_BeginWriting], lines 447-468: a flat file is written as it is, a
    package through a temporary stage file. *)
Definition setupFileStructure (fileExt : TfToken) (fileNameWithExt : string) (append : bool)
    (j : Job) : bool * Job :=
  if decide (fileExt = UsdFileExtensionPackage (tokens E)) then
    if append then
      (false, emit [EvDiagnostic CannotAppendToPackage] j)
    else
      let j := set_fileName (_MakeTmpStageName (Tf.TfGetPathName fileNameWithExt)) j in
      if decide (_fileName j ∈ fileSystem j) then
        (false, emit [EvDiagnostic (TemporaryStageExists (_fileName j))] j)
      else (true, set_packageName fileNameWithExt j)
  else
    (true, set_packageName "" (set_fileName fileNameWithExt j)).

(** [_BeginWriting], lines 472-484. *)
Definition setupModelingVariant (j : Job) : bool * Job :=
  if decide (renderLayerMode (mArgs j) = modelingVariant (tokens E)) then
    let j := set_mRenderLayerObjs (listAllRenderLayers E) j in
    if bool_decide (1 < length (mRenderLayerObjs j)) then
      if negb (rootMapFunctionIsNull (mArgs j)) then
        (false, emit [EvDiagnostic ExportRootsWithModelingVariant] j)
      else
        (true, set_mArgs (set_usdModelRootOverridePath (Some ["_BaseModel_"]) (mArgs j)) j)
    else (true, j)
  else (true, j).

(** Modelled from the spec: [UsdMayaWriteJobContext::_OpenFile] is defined
    with the job context, which is not among the sources.  It opens (or
    creates) the destination layer and the stage on it; a layer that is
    created and is not anonymous is a new file. *)
Definition _OpenFile (fileName : string) (append : bool) (j : Job) : bool * Job :=
  let j := emit [EvOpenFile fileName append] j in
  match OpenFile_stage E fileName append with
  | Some st =>
      let fs := if append || Tf.IsAnonymousLayerIdentifier fileName
                then fileSystem j else {[fileName]} ∪ fileSystem j in
      (true, set_mStage (Some st) (set_fileSystem fs j))
  | None => (false, j)
  end.

(** [_BeginWriting], lines 491-506: time range, the change of up-axis and
    units of the scene and the custom layer data.  The construction of the
    [AutoUpAxisAndUnitsChanger] is kept as one call in the trace: what it
    authors on the stage (the meters per unit and the up-axis, for options
    other than [none]) and the script it prepares are those of
    [AutoUpAxisAndUnitsChanger._prepareCommands] below, and are not applied
    to the stage of the job here. *)
Definition setupStage (j : Job) : Job :=
  let ts := timeSamplesArg (mArgs j) in
  let j := match ts with
           | first :: _ =>
               onStage (Usd.SetTimeRange first (List.last ts first) (sceneTimeUnitAsDouble E)) j
           | [] => j
           end in
  let j := set_autoAxisAndUnitsChanger true
             (emit [EvChangeUpAxisAndUnits (upAxis (mArgs j)) (unit_ (mArgs j))] j) in
  match customLayerData (mArgs j) with
  | [] => j
  | d => onStage (Usd.SetCustomLayerData d) j
  end.

(** [_BeginWriting], lines 520-533: the render layer of the export. *)
Definition setupRenderLayer (j : Job) : Job :=
  let j := set_mCurrentRenderLayerName (sceneRenderLayer j) j in
  if negb (bool_decide (renderLayerMode (mArgs j) = currentLayer (tokens E)))
     && negb (bool_decide (sceneRenderLayer j = defaultRenderLayer E))
  then editRenderLayerGlobals (defaultRenderLayer E) j
  else j.

(** [_BeginWriting], lines 566-583: the loop that walks up from
    [curDagPath] and records the partial path names of the parents; it ends
    at a parent that is already recorded and at the world root, where [pop]
    fails.  [n] bounds the number of rounds; the callers give the length of
    the path plus one, which the walk cannot exceed. *)
Fixpoint addDagPathParents (n : nat) (curDagPath : MDagPath) (argDagPathParents : gset string)
    : gset string :=
  match n with
  | 0 => argDagPathParents
  | S n' =>
      if dagPathIsValid E curDagPath then
        let curDagPathStr := partialPathName E curDagPath in
        if decide (curDagPathStr ∈ argDagPathParents) then argDagPathParents
        else
          let argDagPathParents := {[curDagPathStr]} ∪ argDagPathParents in
          match Dag.pop curDagPath with
          | None => argDagPathParents
          | Some up => addDagPathParents n' up argDagPathParents
          end
      else argDagPathParents
  end.

(** [_BeginWriting], lines 541-584: the set of the arg dagPaths and the set
    of all their parents, by partial path name. *)
Definition collectArgDagPaths (paths : list MDagPath) : gset string * gset string :=
  foldl (fun '(argDagPaths, argDagPathParents) curDagPath =>
           if negb (dagPathIsValid E curDagPath) then (argDagPaths, argDagPathParents)
           else
             let argDagPaths := {[partialPathName E curDagPath]} ∪ argDagPaths in
             match Dag.pop curDagPath with
             | None => (argDagPaths, argDagPathParents)
             | Some up =>
                 (argDagPaths, addDagPathParents (S (length up)) up argDagPathParents)
             end)
        (∅, ∅) paths.

(** [_CheckNameClashes]. *)
Definition _CheckNameClashes (path : SdfPath) (dagPath : MDagPath) (j : Job) : bool * Job :=
  if negb (stripNamespaces (mArgs j)) then (true, j)
  else
    match mUsdPathToDagPathMap j !! path with
    | Some other =>
        if mergeTransformAndShape (mArgs j)
           && bool_decide (extendToShape E other = extendToShape E dagPath)
        then (true, j)
        else
          (false, emit [EvDiagnostic (NameClash (Dag.fullPathName other)
                                                (Dag.fullPathName dagPath))] j)
    | None =>
        (true, set_mUsdPathToDagPathMap (<[path := dagPath]> (mUsdPathToDagPathMap j)) j)
    end.

(** [mJobCtx.CreatePrimWriter]: the registry is asked for a writer; the
    writer defines its prim on the stage when it is created. *)
Definition createPrimWriter (curDagPath : MDagPath) (j : Job) : option PrimWriter * Job :=
  let j := emit [EvCreatePrimWriter curDagPath] j in
  match CreatePrimWriter E curDagPath with
  | Some w =>
      (Some w,
       match writerPrimPath w with
       | Some l => onStage (Usd.DefinePrim l (writerPrimType w)) j
       | None => j
       end)
  | None => (None, j)
  end.

(** [primWriter->Write(usdTime)]: the writer authors the values sampled at
    [t] on its prim. *)
Definition writerWrite (w : PrimWriter) (t : UsdTimeCode) (j : Job) : Job :=
  let j := emit [EvWrite w t] j in
  match writerPrimPath w with
  | Some l => onStage (Usd.alterPrim (Usd.addTimeSample t) l) j
  | None => j
  end.

(** [mDagPathToUsdPathMap.insert(mapping.begin(), mapping.end())]: a key
    that is already mapped keeps its path. *)
Definition insertMapping (mapping : list (MDagPath * SdfPath)) (j : Job) : Job :=
  set_mDagPathToUsdPathMap (mDagPathToUsdPathMap j ∪ list_to_map mapping) j.

(** [_BeginWriting], lines 621-650: what is done at a DAG path that is in
    the scope of the export.  The results are whether the job goes on,
    whether the children are pruned from the traversal, and the job. *)
Definition exportDagPath (curDagPath : MDagPath) (j : Job) : bool * bool * Job :=
  if negb (NeedToTraverse E curDagPath) && bool_decide (0 < length curDagPath) then
    (true, true, j)
  else
    match createPrimWriter curDagPath j with
    | (Some primWriter, j) =>
        let j := set_mMayaPrimWriterList (mMayaPrimWriterList j ++ [primWriter])%list j in
        let usdPrim := writerPrimPath primWriter in
        if primIsValid j usdPrim then
          let '(ok, j) := _CheckNameClashes usdPrim (GetDagPath primWriter) j in
          if negb ok then (false, false, j)
          else
            let j := writerWrite primWriter TimeDefault j in
            let j := insertMapping (GetDagToUsdPathMapping primWriter) j in
            let j := emit [EvOnWritePrim primWriter] j in
            (true, ShouldPruneChildren primWriter, j)
        else (true, ShouldPruneChildren primWriter, j)
    | (None, j) => (true, false, j)
    end.

(** [_BeginWriting], lines 601-652: the depth-first traversal of the Maya
    DAG from [curDagPath], whose node is [node].  [curLeafDagPath] is the
    last arg dagPath met, invalid ([None]) before the first one. *)
Fixpoint traverseDag (argDagPaths argDagPathParents : gset string)
    (curDagPath : MDagPath) (node : DagNode) (curLeafDagPath : option MDagPath) (j : Job)
    {struct node} : bool * option MDagPath * Job :=
  match node with
  | DagNode_ _ children =>
      let curDagPathStr := partialPathName E curDagPath in
      let descend curLeafDagPath j :=
        match exportDagPath curDagPath j with
        | (false, _, j) => (false, curLeafDagPath, j)
        | (true, true, j) => (true, curLeafDagPath, j)
        | (true, false, j) =>
            (fix traverseChildren (cs : list DagNode) (leaf : option MDagPath) (j : Job)
               : bool * option MDagPath * Job :=
               match cs with
               | [] => (true, leaf, j)
               | (DagNode_ name _ as child) :: cs' =>
                   match traverseDag argDagPaths argDagPathParents
                                     (curDagPath ++ [name])%list child leaf j with
                   | (false, leaf, j) => (false, leaf, j)
                   | (true, leaf, j) => traverseChildren cs' leaf j
                   end
               end) children curLeafDagPath j
        end in
      if decide (curDagPathStr ∈ argDagPathParents) then descend curLeafDagPath j
      else if decide (curDagPathStr ∈ argDagPaths) then descend (Some curDagPath) j
      else if negb (from_option (hasParent E curDagPath) false curLeafDagPath) then
        (true, curLeafDagPath, j)
      else descend curLeafDagPath j
  end.

(** [_BeginWriting], lines 686-694: the chasers are created in the order of
    their names; one that cannot be created is reported and left out. *)
Definition populateChasers (j : Job) : Job :=
  foldl (fun j chaserName =>
           let j := emit [EvChaserCreate chaserName] j in
           if ChaserCreate E chaserName
           then set_mChasers (mChasers j ++ [chaserName])%list j
           else emit [EvDiagnostic (FailedToCreateChaser chaserName)] j)
        (set_mChasers [] j) (chaserNames (mArgs j)).

(** [_BeginWriting], lines 697-702. *)
Fixpoint chasersExportDefault (chasers : list Chaser) (j : Job) : bool * Job :=
  match chasers with
  | [] => (true, j)
  | chaser :: rest =>
      let j := emit [EvExportDefault chaser] j in
      if negb (ExportDefault E chaser) then (false, j)
      else chasersExportDefault rest j
  end.

(** [_BeginWriting], lines 536-704: from the collection of the arg dagPaths
    to the default export of the chasers. *)
Definition writeDefaultValues (j : Job) : bool * Job :=
  let '(argDagPaths, argDagPathParents) := collectArgDagPaths (dagPaths (mArgs j)) in
  let '(ok, _, j) :=
    traverseDag argDagPaths argDagPathParents [] (DagNode_ "" (dagWorld E)) None j in
  if negb ok then (false, j)
  else if negb (rootMapFunctionIsNull (mArgs j))
          && bool_decide (size (mDagPathToUsdPathMap j) = 0) then
    (false, emit [EvDiagnostic NoExportRootIntersection] j)
  else
    let j := emit [EvExportShadingEngines] j in
    let j := emit [EvPostProcess] j in
    if negb (PostProcess E) then (false, j)
    else
      let j := emit [EvMakeModelHierarchy] j in
      if negb (MakeModelHierarchy E) then (false, j)
      else
        let j := populateChasers j in
        chasersExportDefault (mChasers j) j.

(** [UsdMaya_WriteJob::_BeginWriting]. *)
Definition _BeginWriting (fileName : string) (append : bool) (j : Job) : bool * Job :=
  let j := normalizeDefaultPrim (selectDefaultPrim j) in
  match findOverlappingRoots (dagPaths (mArgs j)) with
  | Some (path1, path2) =>
      (false, emit [EvDiagnostic (RootsOverlap (Dag.fullPathName path1)
                                               (Dag.fullPathName path2))] j)
  | None =>
      let '(fileExt, fileNameWithExt) := resolveFileName (compatibility (mArgs j)) fileName in
      let '(ok, j) := setupFileStructure fileExt fileNameWithExt append j in
      if negb ok then (false, j)
      else
        let '(ok, j) := setupModelingVariant j in
        if negb ok then (false, j)
        else
          let '(ok, j) := _OpenFile (_fileName j) append j in
          if negb ok then (false, j)
          else writeDefaultValues (setupRenderLayer (setupStage j))
  end.

(** [_PerFrameCallback]. *)
Definition _PerFrameCallback (j : Job) : Job :=
  let j := if bool_decide (melPerFrameCallback (mArgs j) = "") then j
           else emit [EvMel (melPerFrameCallback (mArgs j))] j in
  if bool_decide (pythonPerFrameCallback (mArgs j) = "") then j
  else emit [EvPython (pythonPerFrameCallback (mArgs j))] j.

(** [_PostCallback]. *)
Definition _PostCallback (j : Job) : Job :=
  let j := if bool_decide (melPostCallback (mArgs j) = "") then j
           else emit [EvMel (melPostCallback (mArgs j))] j in
  if bool_decide (pythonPostCallback (mArgs j) = "") then j
  else emit [EvPython (pythonPostCallback (mArgs j))] j.

(** [_WriteFrame], lines 711-716: every writer whose prim is valid writes
    the values sampled at [usdTime]. *)
Fixpoint writersWrite (usdTime : UsdTimeCode) (writers : list PrimWriter) (j : Job) : Job :=
  match writers with
  | [] => j
  | primWriter :: rest =>
      let j := if primIsValid j (writerPrimPath primWriter)
               then writerWrite primWriter usdTime j else j in
      writersWrite usdTime rest j
  end.

(** [_WriteFrame], lines 718-722. *)
Fixpoint chasersExportFrame (iFrame : double) (chasers : list Chaser) (j : Job) : bool * Job :=
  match chasers with
  | [] => (true, j)
  | chaser :: rest =>
      let j := emit [EvExportFrame chaser iFrame] j in
      if negb (ExportFrame E chaser iFrame) then (false, j)
      else chasersExportFrame iFrame rest j
  end.

(** [UsdMaya_WriteJob::_WriteFrame]. *)
Definition _WriteFrame (iFrame : double) (j : Job) : bool * Job :=
  let j := writersWrite (TimeCode iFrame) (mMayaPrimWriterList j) j in
  let '(ok, j) := chasersExportFrame iFrame (mChasers j) j in
  if negb ok then (false, j)
  else (true, _PerFrameCallback j).

(** [isEmptyPrim]. *)
Definition emptyTypes : list TfToken := ["Xform"; "Scope"].

Definition isEmptyPrim (stage : UsdStage) (prim : SdfPath) : bool :=
  if negb (Usd.IsValid stage prim) then false
  else if negb (bool_decide (Usd.GetTypeName stage prim ∈ emptyTypes)) then false
  else if negb (bool_decide (Usd.GetAllChildren stage prim = [])) then false
  else if Usd.HasAuthoredPayloads stage prim then false
  else if Usd.HasAuthoredReferences stage prim then false
  else true.

(** [removeEmptyPrims]: the stage without the prims of [toRemove], and
    their parents, which are to be checked again. *)
Definition removeEmptyPrims (stage : UsdStage) (toRemove : list SdfPath)
    : UsdStage * list SdfPath :=
  foldl (fun '(stage, toRecheck) path =>
           (Usd.RemovePrim path stage, toRecheck ++ [Sdf.GetParentPath path])%list)
        (stage, []) toRemove.

(** The length of a path as a measure: the empty path has none, the
    absolute root one. *)
Definition pathDepth (p : SdfPath) : nat :=
  match p with
  | None => 0
  | Some l => S (length l)
  end.

(** [_PruneEmpties], lines 1093-1101: the loop that removes the empty prims
    and checks their parents again.  [None] would be a loop that is still
    running after [n] rounds. *)
Fixpoint pruneLoop (n : nat) (defaultPrimPath : SdfPath) (stage : UsdStage)
    (toRemove : list SdfPath) : option UsdStage :=
  match toRemove with
  | [] => Some stage
  | _ :: _ =>
      match n with
      | 0 => None
      | S n' =>
          let '(stage, toRecheck) := removeEmptyPrims stage toRemove in
          let toRemove :=
            filter (fun path => defaultPrimPath ≠ path ∧ isEmptyPrim stage path = true)
                   toRecheck in
          pruneLoop n' defaultPrimPath stage toRemove
      end
  end.

(** [_PruneEmpties], lines 1077-1083. *)
Definition defaultPrimPathOf (defaultPrim : string) : SdfPath :=
  match defaultPrim with
  | EmptyString => None
  | String c _ =>
      if negb (Ascii.eqb c "/") then Sdf.ofString ("/" ++ defaultPrim)
      else Sdf.ofString defaultPrim
  end.

(** [_PruneEmpties] on the stage.  A round of the loop only checks parents
    of what the round before removed, so the loop is given as many rounds
    as the longest path to remove has elements, and one more. *)
Definition pruneEmpties (defaultPrim : string) (stage : UsdStage) : option UsdStage :=
  let defaultPrimPath := defaultPrimPathOf defaultPrim in
  let toRemove :=
    foldl (fun toRemove prim =>
             if bool_decide (defaultPrimPath ≠ Some prim) && isEmptyPrim stage (Some prim)
             then toRemove ++ [Some prim] else toRemove)%list
          [] (Usd.Traverse stage) in
  pruneLoop (S (list_max (map pathDepth toRemove))) defaultPrimPath stage toRemove.

(** [UsdMaya_WriteJob::_PruneEmpties]. *)
Definition _PruneEmpties (j : Job) : Job :=
  if includeEmptyTransforms (mArgs j) then j
  else
    match mStage j with
    | Some stage => set_mStage (Some (default stage (pruneEmpties (defaultPrim (mArgs j)) stage))) j
    | None => j
    end.

(** [UsdMaya_WriteJob::_CreatePackage]. *)
Definition _CreatePackage (j : Job) : Job :=
  let firstLayerBaseName := Tf.TfStringGetBeforeSuffix (Tf.TfGetBaseName (_packageName j)) in
  let firstLayerName := firstLayerBaseName ++ "." ++ Tf.TfGetExtension (_fileName j) in
  let arKit := bool_decide (compatibility (mArgs j) = appleArKit (tokens E)) in
  let j := emit [EvCreatePackage arKit (_fileName j) (_packageName j) firstLayerName] j in
  let created :=
    if arKit
    then UsdUtilsCreateNewARKitUsdzPackage E (_fileName j) (_packageName j) firstLayerName
    else UsdUtilsCreateNewUsdzPackage E (_fileName j) (_packageName j) firstLayerName in
  if created then set_fileSystem ({[_packageName j]} ∪ fileSystem j) j
  else emit [EvDiagnostic (CouldNotCreatePackage (_packageName j) (_fileName j))] j.

(** [_WriteVariants], lines 909-925: the path of the prim that carries the
    variants.  Where the C++ reads the first writer of an empty list or the
    first prefix of a path without prefixes, the model goes on with the
    empty path. *)
Definition variantRootPrimPath (j : Job) : SdfPath :=
  if Sdf.IsEmpty (mRootPrimPath j) then
    let firstPrimWriterPathStr :=
      match mMayaPrimWriterList j with
      | firstPrimWriterPtr :: _ => Dag.fullPathName (GetDagPath firstPrimWriterPtr)
      | [] => ""
      end in
    let firstPrimWriterPathStr := Tf.replace "|" "/" firstPrimWriterPathStr in
    let firstPrimWriterPathStr := Tf.replace ":" "_" firstPrimWriterPathStr in
    default None (Sdf.firstPrefix (Sdf.ofString firstPrimWriterPathStr))
  else mRootPrimPath j.

(** [_WriteVariants], lines 959-978: the paths, below the variant root, of
    the members of a render layer that were exported. *)
Definition activePathsOfLayer (usdVariantRootPrimPath : SdfPath) (renderLayer : string)
    (j : Job) : list SdfPath :=
  omap (fun member =>
          match mDagPathToUsdPathMap j !! extendToShape E member with
          | None => None
          | Some usdPrimPath =>
              Some (Sdf.ReplacePrefix usdPrimPath
                      (default None (Sdf.firstPrefix usdPrimPath)) usdVariantRootPrimPath)
          end)
       (listMembers E renderLayer).

(** [_WriteVariants], lines 997-1005: an xformable prim is deactivated when
    no active path is above or below it. *)
Definition isInactiveXformable (stage : UsdStage) (activePaths : list SdfPath)
    (l : list string) : bool :=
  Usd.IsValid stage (Some l)
  && IsA_Xformable E (Usd.GetTypeName stage (Some l))
  && negb (existsb (fun activePath =>
                      Sdf.HasPrefix (Some l) activePath || Sdf.HasPrefix activePath (Some l))
                   activePaths).

(** [_WriteVariants], lines 991-1011: the prims that the traversal of all
    prims collects for deactivation.  The traversal does not go below a
    prim it collects, so a prim is reached when none of its ancestors is
    collected. *)
Definition primsToDeactivate (stage : UsdStage) (activePaths : list SdfPath)
    : list (list string) :=
  filter (fun l => isInactiveXformable stage activePaths l = true
                   ∧ forallb (fun a => negb (isInactiveXformable stage activePaths a))
                             (Usd.ancestors l) = true)
         (Usd.allPaths stage).

(** [UsdVariantSets::AddVariantSet]. *)
Definition AddVariantSet (setName : string) (d : PrimData) : PrimData :=
  Usd.setVariantSets (fun m => match m !! setName with
                               | Some _ => m
                               | None => <[setName := []]> m
                               end) d.

(** [UsdVariantSet::AddVariant]. *)
Definition AddVariant (setName variantName : string) (d : PrimData) : PrimData :=
  Usd.setVariantSets
    (alter (fun vs => if existsb (fun v => String.eqb v.1 variantName) vs then vs
                      else vs ++ [(variantName, [])])%list setName) d.

(** [SetActive(false)] on [prims] under the edit target of a variant. *)
Definition deactivateInVariant (setName variantName : string) (prims : list (list string))
    (d : PrimData) : PrimData :=
  Usd.setVariantSets
    (alter (map (fun v => if String.eqb v.1 variantName then (v.1, v.2 ++ prims)%list else v))
           setName) d.

(** [_WriteVariants], lines 936-1019: one round of the loop over the render
    layers. *)
Definition writeVariantOfLayer (usdVariantRootPrimPath : SdfPath)
    (acc : string * Job) (renderLayer : string) : string * Job :=
  let '(defaultModelingVariant, j) := acc in
  let variantName := renderLayer in
  let defaultModelingVariant :=
    if decide (renderLayer = defaultRenderLayer E) then variantName
    else defaultModelingVariant in
  let j := editRenderLayerGlobals renderLayer j in
  let activePaths := activePathsOfLayer usdVariantRootPrimPath renderLayer j in
  match activePaths with
  | [] => (defaultModelingVariant, j)
  | _ :: _ =>
      let root := default [] usdVariantRootPrimPath in
      let j := onStage (Usd.alterPrim (AddVariantSet "modelingVariant") root) j in
      let j := onStage (Usd.alterPrim (AddVariant "modelingVariant" variantName) root) j in
      let j := onStage (Usd.alterPrim
                          (Usd.setVariantSelection "modelingVariant" variantName) root) j in
      let j := onStage (fun stage =>
                 Usd.alterPrim (deactivateInVariant "modelingVariant" variantName
                                  (primsToDeactivate stage activePaths)) root stage) j in
      (defaultModelingVariant, j)
  end.

(** [UsdMaya_WriteJob::_WriteVariants].  A [UsdVariantSet] is valid when
    its prim is. *)
Definition _WriteVariants (usdRootPrim : list string) (j : Job) : TfToken * Job :=
  let usdVariantRootPrimPath := variantRootPrimPath j in
  let root := default [] usdVariantRootPrimPath in
  let j := onStage (Usd.DefinePrim root "") j in
  let defaultPrim := Sdf.GetName usdVariantRootPrimPath in
  let j := onStage (Usd.alterPrim (Usd.addReference usdRootPrim) root) j in
  let j := onStage (Usd.alterPrim (Usd.setActive true) root) j in
  let j := onStage (Usd.alterPrim (Usd.setActive false) usdRootPrim) j in
  let '(defaultModelingVariant, j) :=
    foldl (writeVariantOfLayer usdVariantRootPrimPath) ("", j) (mRenderLayerObjs j) in
  let j := if primIsValid j usdVariantRootPrimPath
           then onStage (Usd.alterPrim
                           (Usd.setVariantSelection "modelingVariant" defaultModelingVariant)
                           root) j
           else j in
  (defaultPrim, j).

(** [_FinishWriting], lines 812-824. *)
Fixpoint chasersPostExport (chasers : list Chaser) (j : Job) : bool * Job :=
  match chasers with
  | [] => (true, j)
  | chaser :: rest =>
      let j := emit [EvChaserPostExport chaser] j in
      if negb (PostExport E chaser) then (false, j)
      else
        let j := set_extrasPrimsPaths (_extrasPrimsPaths j ++ GetExtraPrimsPaths E chaser)%list j in
        chasersPostExport rest j
  end.

(** [_FinishWriting], lines 733-798: variants and the default prim of the
    root layer. *)
Definition finishDefaultPrim (j : Job) : Job :=
  let usdRootPrims := from_option (fun stage => Usd.GetChildren stage (Some [])) [] (mStage j) in
  let usdRootPrim := head usdRootPrims in
  let defaultPrimName := from_option (fun l => Sdf.GetName (Some l)) "" usdRootPrim in
  let '(defaultPrimName, j) :=
    match usdRootPrim with
    | Some root =>
        if bool_decide (1 < length (mRenderLayerObjs j))
           && negb (Sdf.IsEmpty (usdModelRootOverridePath (mArgs j)))
        then _WriteVariants root j
        else (defaultPrimName, j)
    | None => (defaultPrimName, j)
    end in
  let j := if bool_decide (sceneRenderLayer j = mCurrentRenderLayerName j) then j
           else editRenderLayerGlobals (mCurrentRenderLayerName j) j in
  let j := if negb (PrimFloat.eqb (metersPerUnit (mArgs j)) (internalUnitAsLinearUnit E))
           then emit [EvDiagnostic DistanceUnitWarning] j else j in
  let j := if exportDistanceUnit (mArgs j)
           then onStage (Usd.SetStageMetersPerUnit (metersPerUnit (mArgs j))) j else j in
  if negb (bool_decide (defaultPrim (mArgs j) = "")) then
    if negb (bool_decide (defaultPrim (mArgs j) = "None"))
    then onStage (Usd.SetDefaultPrim (defaultPrim (mArgs j))) j
    else j
  else
    match usdRootPrim with
    | Some _ => onStage (Usd.SetDefaultPrim defaultPrimName) j
    | None => j
    end.

(** [_FinishWriting], lines 832-860: the stage is saved, packaged when a
    package was asked for, and released; the temporary stage file of a
    package is deleted last. *)
Definition saveAndRelease (j : Job) : Job :=
  let j := if _autoAxisAndUnitsChanger j
           then set_autoAxisAndUnitsChanger false (emit [EvRestoreUpAxisAndUnits] j)
           else j in
  let j := if PermissionToSave E (_fileName j)
           then set_fileSystem ({[_fileName j]} ∪ fileSystem j) (emit [EvSave (_fileName j)] j)
           else j in
  let j := if bool_decide (_packageName j = "") then j else _CreatePackage j in
  let j := set_mStage None (emit [EvReleaseStage] j) in
  let j := set_mMayaPrimWriterList [] (emit [EvReleaseWriters] j) in
  if bool_decide (_packageName j = "") then j
  else set_fileSystem (fileSystem j ∖ {[_fileName j]}) (emit [EvDeleteFile (_fileName j)] j).

(** [UsdMaya_WriteJob::_FinishWriting]. *)
Definition _FinishWriting (j : Job) : bool * Job :=
  let j := finishDefaultPrim j in
  let j := foldl (fun j primWriter => emit [EvWriterPostExport primWriter] j)
                 j (mMayaPrimWriterList j) in
  let j := set_extrasPrimsPaths [] j in
  let '(ok, j) := chasersPostExport (mChasers j) j in
  if negb ok then (false, j)
  else
    let j := _PostCallback j in
    let j := _PruneEmpties j in
    (true, saveAndRelease j).

(** [Write], lines 296-313: the loop over the time samples.  [n] counts the
    frames; the interrupt flag is read after each of them. *)
Fixpoint writeTimeSamples (oldCurTime : double) (n : nat) (timeSamples : list double)
    (j : Job) : bool * Job :=
  match timeSamples with
  | [] => (true, j)
  | t :: rest =>
      let j := viewFrame t j in
      let '(ok, j) := _WriteFrame t j in
      if negb ok then (false, viewFrame oldCurTime j)
      else
        let j := emit [EvInterruptPoll n] j in
        if isInterruptRequested E n then (true, j)
        else writeTimeSamples oldCurTime (S n) rest j
  end.

(** [UsdMaya_WriteJob::Write]. *)
Definition Write (fileName : string) (append : bool) (j : Job) : bool * Job :=
  let timeSamples := timeSamplesArg (mArgs j) in
  let '(ok, j) := _BeginWriting fileName append j in
  if negb ok then (false, j)
  else
    let '(ok, j) :=
      match timeSamples with
      | [] => (true, j)
      | _ :: _ =>
          let oldCurTime := sceneTime j in
          let '(ok, j) := writeTimeSamples oldCurTime 1 timeSamples j in
          if negb ok then (false, j) else (true, viewFrame oldCurTime j)
      end in
    if negb ok then (false, j)
    else
      let '(ok, j) := _FinishWriting j in
      if negb ok then (false, j) else (true, j).

End WriteJob.

(** ** A job as it is constructed, and a small scene to run it on *)

(** [UsdMaya_WriteJob::UsdMaya_WriteJob]: the job before [Write], in a
    scene whose current render layer is [renderLayer] and whose files are
    [files]. *)
Definition newJob (iArgs : UsdMayaJobExportArgs) (files : gset string) (renderLayer : string)
    : Job :=
  mkJob iArgs None (rootPrim iArgs) [] [] ∅ ∅ [] "" "" "" [] false
        files renderLayer 0%float [].

Module Scene.

Definition sceneTokens : Tokens :=
  mkTokens "appleArKit" "modelingVariant" "currentLayer" "usd" "usda" "usdc" "usdz".

(** Arguments of an export without options: no roots, no time samples. *)
Definition args : UsdMayaJobExportArgs :=
  mkArgs [] false None [] false true true true false false "" false false []
         "none" "defaultLayer" true None "none" "none" [] [] 1%float false true
         "" "" "" "".

Definition withRoots (exportRoots : list string) (dagPaths : list MDagPath)
    (a : UsdMayaJobExportArgs) : UsdMayaJobExportArgs :=
  mkArgs (timeSamplesArg a) (verbose a) (rootPrim a) exportRoots (exportSelected a)
    (isExportingMeshes a) (isExportingLights a) (isExportingCameras a)
    (exportStagesAsRefs a) (legacyMaterialScope a) (defaultPrim a) (stripNamespaces a)
    (mergeTransformAndShape a) dagPaths (compatibility a) (renderLayerMode a)
    (rootMapFunctionIsNull a) (usdModelRootOverridePath a) (upAxis a) (unit_ a)
    (customLayerData a) (chaserNames a) (metersPerUnit a) (exportDistanceUnit a)
    (includeEmptyTransforms a) (melPerFrameCallback a) (pythonPerFrameCallback a)
    (melPostCallback a) (pythonPostCallback a).

Definition withOptions (stripNamespaces mergeTransformAndShape includeEmptyTransforms : bool)
    (compatibility renderLayerMode : TfToken) (rootMapFunctionIsNull : bool)
    (a : UsdMayaJobExportArgs) : UsdMayaJobExportArgs :=
  mkArgs (timeSamplesArg a) (verbose a) (rootPrim a) (exportRoots a) (exportSelected a)
    (isExportingMeshes a) (isExportingLights a) (isExportingCameras a)
    (exportStagesAsRefs a) (legacyMaterialScope a) (defaultPrim a) stripNamespaces
    mergeTransformAndShape (dagPaths a) compatibility renderLayerMode
    rootMapFunctionIsNull (usdModelRootOverridePath a) (upAxis a) (unit_ a)
    (customLayerData a) (chaserNames a) (metersPerUnit a) (exportDistanceUnit a)
    includeEmptyTransforms (melPerFrameCallback a) (pythonPerFrameCallback a)
    (melPostCallback a) (pythonPostCallback a).

Definition withAnimation (timeSamples : list double) (chaserNames : list string)
    (a : UsdMayaJobExportArgs) : UsdMayaJobExportArgs :=
  mkArgs timeSamples (verbose a) (rootPrim a) (exportRoots a) (exportSelected a)
    (isExportingMeshes a) (isExportingLights a) (isExportingCameras a)
    (exportStagesAsRefs a) (legacyMaterialScope a) (defaultPrim a) (stripNamespaces a)
    (mergeTransformAndShape a) (dagPaths a) (compatibility a) (renderLayerMode a)
    (rootMapFunctionIsNull a) (usdModelRootOverridePath a) (upAxis a) (unit_ a)
    (customLayerData a) chaserNames (metersPerUnit a) (exportDistanceUnit a)
    (includeEmptyTransforms a) (melPerFrameCallback a) (pythonPerFrameCallback a)
    (melPostCallback a) (pythonPostCallback a).

(** The DAG of the scene: a group with a cube, a second cube in a namespace
    and an empty group. *)
Definition dag : list DagNode :=
  [ DagNode_ "grp" [ DagNode_ "cube" [ DagNode_ "cubeShape" [] ];
                     DagNode_ "ns:cube" [ DagNode_ "ns:cubeShape" [] ];
                     DagNode_ "empty" [] ] ].

Definition isShape (p : MDagPath) : bool :=
  String.eqb (List.last p "") "cubeShape" || String.eqb (List.last p "") "ns:cubeShape".

(** The writers of the scene: a transform with one shape is merged with it;
    a group becomes an [Xform]; namespaces are stripped when [strip]; the
    root of the output paths is replaced by [base] when there is one. *)
Definition primName (strip : bool) (n : string) : string :=
  if strip then
    match Tf.rsplit ":" n with Some (_, base) => base | None => n end
  else Tf.replace ":" "_" n.

Definition createWriter (base : option string) (strip : bool) (p : MDagPath)
    : option PrimWriter :=
  match p with
  | [] => None
  | _ :: _ =>
      if isShape p then None
      else
        let names := map (primName strip) p in
        let usd := Some (match base with
                         | Some b => b :: tail names
                         | None => names
                         end) in
        let isXform := String.eqb (List.last p "") "grp" || String.eqb (List.last p "") "empty" in
        Some (mkPrimWriter p usd (if isXform then "Xform" else "Mesh") (negb isXform)
                (if isXform then [(p, usd)]
                 else [(p, usd); ((p ++ [String.append (List.last p "") "Shape"])%list, usd)]))
  end.

(** An environment on this scene.  Its parameters are what the examples
    vary: the writers, the render layers with their members, the interrupt
    flag, the answers of the chasers and of the packaging. *)
Definition env (base : option string) (strip : bool) (layers : list string) (members : string -> list MDagPath)
    (interrupt : nat -> bool) (exportFrame : Chaser -> double -> bool)
    (postExport : Chaser -> bool) (package : bool) : Env :=
  {| tokens := sceneTokens;
     dagWorld := dag;
     partialPathName := Dag.fullPathName;
     dagPathIsValid := fun _ => true;
     hasParent := fun child parent => Sdf.isPrefix parent child;
     extendToShape := fun p => if isShape p then p
                               else (p ++ [String.append (List.last p "") "Shape"])%list;
     listAllRenderLayers := layers;
     defaultRenderLayer := "defaultRenderLayer";
     listMembers := members;
     executePythonCommand := fun _ => ["grp"];
     internalUnitAsLinearUnit := 1%float;
     sceneTimeUnitAsDouble := 24%float;
     generatedUuid := "0000";
     isInterruptRequested := interrupt;
     MayaNodeNameToPrimName := fun n strip => primName strip n;
     TfStringCatPaths := fun dir f => dir ++ f;
     IsA_Xformable := fun t => String.eqb t "Xform" || String.eqb t "Mesh";
     OpenFile_stage := fun _ _ => Some (mkUsdStage ∅ None None None None None None [] []);
     NeedToTraverse := fun _ => true;
     CreatePrimWriter := createWriter base strip;
     PostProcess := true;
     MakeModelHierarchy := true;
     ChaserCreate := fun n => negb (String.eqb n "missing");
     ExportDefault := fun _ => true;
     ExportFrame := exportFrame;
     PostExport := postExport;
     GetExtraPrimsPaths := fun _ => [];
     PermissionToSave := fun _ => true;
     UsdUtilsCreateNewARKitUsdzPackage := fun _ _ _ => package;
     UsdUtilsCreateNewUsdzPackage := fun _ _ _ => package |}.

(** The plain environment: one render layer, no interrupt, chasers and
    packaging that succeed. *)
Definition plain : Env :=
  env None false ["defaultRenderLayer"] (fun _ => []) (fun _ => false) (fun _ _ => true)
      (fun _ => true) true.

(** Writers for the shapes as well: the writer of a shape writes to the
    prim of its transform, and the writer of a transform leaves the
    traversal of its children on. *)
Definition createWriters (base : option string) (strip : bool) (p : MDagPath)
    : option PrimWriter :=
  if isShape p then
    match createWriter base strip (removelast p) with
    | Some w => Some (mkPrimWriter p (writerPrimPath w) "Mesh" true [(p, writerPrimPath w)])
    | None => None
    end
  else
    match createWriter base strip p with
    | Some w => Some (mkPrimWriter p (writerPrimPath w) (writerPrimType w) false
                        [(p, writerPrimPath w)])
    | None => None
    end.

(** The environment [E] with other writers. *)
Definition withWriters (create : MDagPath -> option PrimWriter) (E : Env) : Env :=
  {| tokens := tokens E;
     dagWorld := dagWorld E;
     partialPathName := partialPathName E;
     dagPathIsValid := dagPathIsValid E;
     hasParent := hasParent E;
     extendToShape := extendToShape E;
     listAllRenderLayers := listAllRenderLayers E;
     defaultRenderLayer := defaultRenderLayer E;
     listMembers := listMembers E;
     executePythonCommand := executePythonCommand E;
     internalUnitAsLinearUnit := internalUnitAsLinearUnit E;
     sceneTimeUnitAsDouble := sceneTimeUnitAsDouble E;
     generatedUuid := generatedUuid E;
     isInterruptRequested := isInterruptRequested E;
     MayaNodeNameToPrimName := MayaNodeNameToPrimName E;
     TfStringCatPaths := TfStringCatPaths E;
     IsA_Xformable := IsA_Xformable E;
     OpenFile_stage := OpenFile_stage E;
     NeedToTraverse := NeedToTraverse E;
     CreatePrimWriter := create;
     PostProcess := PostProcess E;
     MakeModelHierarchy := MakeModelHierarchy E;
     ChaserCreate := ChaserCreate E;
     ExportDefault := ExportDefault E;
     ExportFrame := ExportFrame E;
     PostExport := PostExport E;
     GetExtraPrimsPaths := GetExtraPrimsPaths E;
     PermissionToSave := PermissionToSave E;
     UsdUtilsCreateNewARKitUsdzPackage := UsdUtilsCreateNewARKitUsdzPackage E;
     UsdUtilsCreateNewUsdzPackage := UsdUtilsCreateNewUsdzPackage E |}.

End Scene.

(** ** Classes of events, for statements on the trace *)

Definition isNameClash (ev : Event) : bool :=
  match ev with EvDiagnostic (NameClash _ _) => true | _ => false end.

Definition isOpenFile (ev : Event) : bool :=
  match ev with EvOpenFile _ _ => true | _ => false end.

Definition isPython (ev : Event) : bool :=
  match ev with EvPython _ => true | _ => false end.

(** The events of the export of the default values: creation of the
    writers, their default-time writes, the model hierarchy, the creation
    and the default export of the chasers, with the diagnostics of these
    steps. *)
Definition isDefaultExportEvent (ev : Event) : bool :=
  match ev with
  | EvCreatePrimWriter _ | EvWrite _ TimeDefault | EvOnWritePrim _
  | EvExportShadingEngines | EvPostProcess | EvMakeModelHierarchy
  | EvChaserCreate _ | EvExportDefault _
  | EvDiagnostic (NameClash _ _) | EvDiagnostic NoExportRootIntersection
  | EvDiagnostic (FailedToCreateChaser _) => true
  | _ => false
  end.

(** From [j] to [j'] the job keeps its arguments, its file names and the
    file system, and adds to the trace only events of class [P]. *)
Definition grows (P : Event -> bool) (j j' : Job) : Prop :=
  mArgs j' = mArgs j /\ _fileName j' = _fileName j /\ _packageName j' = _packageName j
  /\ fileSystem j' = fileSystem j
  /\ exists evs, trace j' = (trace j ++ evs)%list /\ forallb P evs = true.

(** From [j] to [j'] the trace is extended by events of class [P]. *)
Definition traceGrows (P : Event -> bool) (j j' : Job) : Prop :=
  exists evs, trace j' = (trace j ++ evs)%list /\ forallb P evs = true.

Definition isCleanDefaultExportEvent (ev : Event) : bool :=
  isDefaultExportEvent ev && negb (isNameClash ev).

Definition notNameClash (ev : Event) : bool := negb (isNameClash ev).

(** The extensions that [_BeginWriting] takes as they are. *)
Definition usdExtensions (E : Env) : list TfToken :=
  [UsdFileExtensionDefault (tokens E); UsdFileExtensionASCII (tokens E);
   UsdFileExtensionCrate (tokens E); UsdFileExtensionPackage (tokens E)].

(** An event that opens a layer opens [fileName], and not for appending. *)
Definition opensOnly (fileName : string) (ev : Event) : bool :=
  match ev with
  | EvOpenFile f a => String.eqb f fileName && negb a
  | _ => true
  end.

(** From [j] to [j'] the file names of the job are kept and the trace is
    extended by events of class [P]. *)
Definition keepsNames (P : Event -> bool) (j j' : Job) : Prop :=
  _fileName j' = _fileName j /\ _packageName j' = _packageName j /\ traceGrows P j j'.

Definition isError (ev : Event) : bool :=
  match ev with
  | EvDiagnostic DistanceUnitWarning => false
  | EvDiagnostic _ => true
  | _ => false
  end.

(** ** The trace of the frames *)

(** The events of [_PerFrameCallback]. *)
Definition perFrameCallbackEvents (a : UsdMayaJobExportArgs) : list Event :=
  ((if bool_decide (melPerFrameCallback a = "") then [] else [EvMel (melPerFrameCallback a)])
   ++ (if bool_decide (pythonPerFrameCallback a = "") then []
       else [EvPython (pythonPerFrameCallback a)]))%list.

(** The writes of a frame: one for each recorded writer whose prim is
    valid, in the order of the writers. *)
Definition frameWrites (j : Job) (t : double) : list Event :=
  map (fun w => EvWrite w (TimeCode t))
      (filter (fun w => primIsValid j (writerPrimPath w) = true) (mMayaPrimWriterList j)).

(** The chasers whose per-frame hook runs at [t]: all of them up to the
    first one that fails, this one included. *)
Fixpoint chasersRun (E : Env) (t : double) (chasers : list Chaser) : list Chaser :=
  match chasers with
  | [] => []
  | c :: rest => c :: (if ExportFrame E c t then chasersRun E t rest else [])
  end.

Definition chasersSucceed (E : Env) (t : double) (chasers : list Chaser) : bool :=
  forallb (fun c => ExportFrame E c t) chasers.

(** The events of the [n]-th frame when it is completed, and when a chaser
    makes it abort. *)
Definition completedFrameEvents (j : Job) (n : nat) (t : double) : list Event :=
  ([EvViewFrame t] ++ frameWrites j t ++ map (fun c => EvExportFrame c t) (mChasers j)
   ++ perFrameCallbackEvents (mArgs j) ++ [EvInterruptPoll n])%list.

Definition abortedFrameEvents (E : Env) (j : Job) (t : double) : list Event :=
  ([EvViewFrame t] ++ frameWrites j t
   ++ map (fun c => EvExportFrame c t) (chasersRun E t (mChasers j)))%list.

(** The events of completed frames, the first of which is the [n]-th. *)
Fixpoint completedFramesEvents (j : Job) (n : nat) (ts : list double) : list Event :=
  match ts with
  | [] => []
  | t :: rest => (completedFrameEvents j n t ++ completedFramesEvents j (S n) rest)%list
  end.

(** The stage of the job holds a value sampled at [x] on the prim at [l]. *)
Definition hasSample (j : Job) (l : list string) (x : UsdTimeCode) : Prop :=
  exists stage d, mStage j = Some stage /\ stagePrims stage !! l = Some d
                  /\ x ∈ timeSamples d.

(** From [j] to [j'] the job keeps its arguments, its writers and chasers
    and the validity of the prims, and loses no sample. *)
Definition frameRel (j j' : Job) : Prop :=
  mArgs j' = mArgs j /\ mMayaPrimWriterList j' = mMayaPrimWriterList j
  /\ mChasers j' = mChasers j
  /\ (forall p, primIsValid j' p = primIsValid j p)
  /\ (forall l x, hasSample j l x -> hasSample j' l x).

(** The events of the finalization: none of them is a per-frame hook or a
    poll of the interrupt flag. *)
Definition isFinishEvent (ev : Event) : bool :=
  match ev with
  | EvWrite _ _ | EvExportFrame _ _ | EvInterruptPoll _ | EvViewFrame _
  | EvCreatePrimWriter _ | EvOpenFile _ _ => false
  | _ => true
  end.

(** From [j] to [j'] the finalization keeps arguments, file names, files
    and chasers and adds events of the finalization only. *)
Definition finishRel (j j' : Job) : Prop :=
  grows isFinishEvent j j' /\ mChasers j' = mChasers j.

(** The events of [_CreatePackage] for the job [j]: the call, and the error
    when the package could not be created. *)
Definition packageEvents (E : Env) (j : Job) : list Event :=
  let firstLayerName :=
    Tf.TfStringGetBeforeSuffix (Tf.TfGetBaseName (_packageName j)) ++ "."
    ++ Tf.TfGetExtension (_fileName j) in
  let arKit := bool_decide (compatibility (mArgs j) = appleArKit (tokens E)) in
  let created :=
    if arKit
    then UsdUtilsCreateNewARKitUsdzPackage E (_fileName j) (_packageName j) firstLayerName
    else UsdUtilsCreateNewUsdzPackage E (_fileName j) (_packageName j) firstLayerName in
  EvCreatePackage arKit (_fileName j) (_packageName j) firstLayerName
  :: (if created then []
      else [EvDiagnostic (CouldNotCreatePackage (_packageName j) (_fileName j))]).

(** ** Variants on the stage *)

(** The opinions on the prim at [l] on the stage of the job. *)
Definition primAt (j : Job) (l : list string) : option PrimData :=
  mStage j ≫= (fun stage => stagePrims stage !! l).

(** The names of the variants of a variant set of a prim. *)
Definition variantNamesOf (d : PrimData) (setName : string) : list string :=
  (default [] (variantSets d !! setName)).*1.

(** The steps of [_WriteVariants] on a prim add variants and remove none. *)
Definition keepsVariants (f : PrimData -> PrimData) : Prop :=
  forall d n, n ∈ variantNamesOf d "modelingVariant" ->
              n ∈ variantNamesOf (f d) "modelingVariant".

(** ** Chains of empty prims on the stage *)



(** The traversal of the stage reaches the prim at [k]: the prim is active,
    and so is every prim above it. *)
Definition reached (stage : UsdStage) (k : list string) : Prop :=
  forall a, a <> [] -> a `prefix_of` k ->
    exists d, stagePrims stage !! a = Some d /\ active d = true.




(** One round of the loop of [_PruneEmpties]: the stage after the removals
    and the paths to remove next. *)
Definition pruneRound (defaultPrimPath : SdfPath) (stage : UsdStage) (toRemove : list SdfPath)
    : UsdStage * list SdfPath :=
  let '(stage', toRecheck) := removeEmptyPrims stage toRemove in
  (stage',
   filter (fun path => defaultPrimPath ≠ path /\ isEmptyPrim stage' path = true) toRecheck).







(** ** The change of up-axis and units of the scene

    The static functions of the class [AutoUpAxisAndUnitsChanger], which
    author the up-axis and the units on the stage and prepare the MEL
    script that changes the scene for the time of the export.  The script
    is run (and undone at the end) by the base class [AutoUndoCommands],
    which is not among the sources. *)

Module AutoUpAxisAndUnitsChanger.

(** The tokens of [UsdMayaJobExportArgsTokens] that the class compares. *)
Record UnitTokens := mkUnitTokens {
  none : TfToken;
  mayaPrefs : TfToken;
  z : TfToken;
  nm : TfToken;
  um : TfToken;
  mm : TfToken;
  cm : TfToken;
  dm : TfToken;
  m : TfToken;
  km : TfToken;
  lightyear : TfToken;
  inch : TfToken;
  foot : TfToken;
  yard : TfToken;
  mile : TfToken
}.

(** The constants of [UsdGeomLinearUnits], in meters per unit. *)
Record LinearUnits := mkLinearUnits {
  nanometers : double;
  micrometers : double;
  millimeters : double;
  centimeters : double;
  meters : double;
  kilometers : double;
  lightYears : double;
  inches : double;
  feet : double;
  yards : double;
  miles : double
}.

(** [MDistance::Unit]. *)
Inductive MDistanceUnit :=
| kInvalid | kInches | kFeet | kYards | kMiles | kMillimeters | kCentimeters
| kKilometers | kMeters | kLast.

(** The up-axis that is authored on a stage: [UsdGeomTokens->y] or
    [UsdGeomTokens->z]. *)
Inductive UpAxis := AxisY | AxisZ.

(** What the class reads from the scene: [MDistance::uiUnit()],
    [MDistance::internalUnit()] and [MGlobal::isZAxisUp()]. *)
Record MayaPrefs := mkMayaPrefs {
  uiUnit : MDistanceUnit;
  internalUnit : MDistanceUnit;
  isZAxisUp : bool
}.

Definition newline : string := String "010"%char EmptyString.

Section Changer.

Variable T : UnitTokens.
Variable U : LinearUnits.

(** [TfStringPrintf] of a [double] under the format [%f]. *)
Variable printf_f : double -> string.

Variable scene : MayaPrefs.

(** The static map of [_convertOptionUnitsToUSDUnits].  A key that comes
    twice in the initializer list keeps its first value. *)
Definition unitsConversionMap : gmap string double :=
  list_to_map
    [ (nm T, nanometers U); (um T, micrometers U); (mm T, millimeters U);
      (cm T, centimeters U); (dm T, 0x1.999999999999ap-4%float); (m T, meters U);
      (km T, kilometers U); (lightyear T, lightYears U); (inch T, inches U);
      (foot T, feet U); (yard T, yards U); (mile T, miles U) ].

Definition _convertOptionUnitsToUSDUnits (unitsOption : TfToken) : double :=
  match unitsConversionMap !! unitsOption with
  | None => centimeters U
  | Some factor => factor
  end.

Definition _convertMayaUnitsToOptionUnits (mayaUnits : MDistanceUnit) : TfToken :=
  match mayaUnits with
  | kMillimeters => mm T
  | kCentimeters => cm T
  | kMeters => m T
  | kKilometers => km T
  | kInches => inch T
  | kFeet => foot T
  | kYards => yard T
  | kMiles => mile T
  | _ => cm T
  end.

(** [_prepareUnitsCommands]: the commands and the stage with the units
    authored. *)
Definition _prepareUnitsCommands (stage : UsdStage) (unitsOption : TfToken)
    : string * UsdStage :=
  if decide (unitsOption = none T) then ("", stage)
  else
    let wantMayaPrefs := bool_decide (unitsOption = mayaPrefs T) in
    let mayaUIUnits := _convertMayaUnitsToOptionUnits (uiUnit scene) in
    let mayaDataUnits := _convertMayaUnitsToOptionUnits (internalUnit scene) in
    let wantedUnits := if wantMayaPrefs then mayaUIUnits else unitsOption in
    let usdMetersPerUnit := _convertOptionUnitsToUSDUnits wantedUnits in
    let stage := Usd.SetStageMetersPerUnit usdMetersPerUnit stage in
    if decide (wantedUnits = mayaDataUnits) then ("", stage)
    else
      let mayaMetersPerUnit := _convertOptionUnitsToUSDUnits mayaDataUnits in
      let requiredScale := PrimFloat.div mayaMetersPerUnit usdMetersPerUnit in
      ("scale -relative -pivot 0 0 0 -scaleXYZ " ++ printf_f requiredScale ++ " "
         ++ printf_f requiredScale ++ " " ++ printf_f requiredScale ++ " $groupName;"
         ++ newline,
       stage).

(** [_prepareUpAxisCommands]: the commands and the up-axis that is authored
    on the stage, if any. *)
Definition _prepareUpAxisCommands (upAxisOption : TfToken) : string * option UpAxis :=
  if decide (upAxisOption = none T) then ("", None)
  else
    let wantMayaPrefs := bool_decide (upAxisOption = mayaPrefs T) in
    let isMayaUpAxisZ := isZAxisUp scene in
    let wantUpAxisZ := (wantMayaPrefs && isMayaUpAxisZ) || bool_decide (upAxisOption = z T) in
    let authored := Some (if wantUpAxisZ then AxisZ else AxisY) in
    if Bool.eqb wantUpAxisZ isMayaUpAxisZ then ("", authored)
    else
      let rotationAngle := if wantUpAxisZ then "90" else "-90" in
      ("rotate -relative -euler -pivot 0 0 0 -forceOrderXYZ " ++ rotationAngle
         ++ " 0 0 $groupName;" ++ newline,
       authored).

Definition scriptPrefix : string :=
  "string $selection[] = `ls -selection`;" ++ newline
  ++ "string $rootNodeNames[] = `ls -assemblies`;" ++ newline
  ++ "string $groupName = `group -absolute -world $rootNodeNames`;" ++ newline.

Definition scriptSuffix : string :=
  "ungroup -absolute $groupName;" ++ newline
  ++ "select -replace $selection;" ++ newline.

(** [_prepareCommands]: the script, the stage with the units authored and
    the up-axis authored on it. *)
Definition _prepareCommands (stage : UsdStage) (upAxisOption unitsOption : TfToken)
    : string * UsdStage * option UpAxis :=
  let '(upAxisCommands, authored) := _prepareUpAxisCommands upAxisOption in
  let '(unitsCommands, stage) := _prepareUnitsCommands stage unitsOption in
  if bool_decide (upAxisCommands = "") && bool_decide (unitsCommands = "")
  then ("", stage, authored)
  else (scriptPrefix ++ upAxisCommands ++ unitsCommands ++ scriptSuffix, stage, authored).

(** The meters per unit of a unit of Maya, for the units that the class
    knows; the other values of the enumeration count as centimeters. *)
Definition linearUnitOf (mayaUnits : MDistanceUnit) : double :=
  match mayaUnits with
  | kMillimeters => millimeters U
  | kCentimeters => centimeters U
  | kMeters => meters U
  | kKilometers => kilometers U
  | kInches => inches U
  | kFeet => feet U
  | kYards => yards U
  | kMiles => miles U
  | _ => centimeters U
  end.

(** The tokens of the units. *)
Definition unitTokens : list TfToken :=
  [nm T; um T; mm T; cm T; dm T; m T; km T; lightyear T; inch T; foot T; yard T; mile T].

End Changer.

(** The tokens and the units as the libraries define them. *)
Definition theTokens : UnitTokens :=
  mkUnitTokens "none" "mayaPrefs" "z" "nm" "um" "mm" "cm" "dm" "m" "km" "lightyear"
               "inch" "foot" "yard" "mile".

Definition theUnits : LinearUnits :=
  mkLinearUnits 0x1.12e0be826d695p-30%float 0x1.0c6f7a0b5ed8dp-20%float
                0x1.0624dd2f1a9fcp-10%float 0x1.47ae147ae147bp-7%float 1%float
                1000%float 0x1.0ce3dfb912360p+53%float 0x1.a027525460aa6p-6%float
                0x1.381d7dbf487fdp-2%float 0x1.d42c3c9eecbfbp-1%float
                0x1.925604189374cp+10%float.

End AutoUpAxisAndUnitsChanger.

(** ** Further functions of the job and notions for statements on it *)

(** [UsdMaya_WriteJob::MapDagPathToSdfPath]: [TfMapLookup] leaves the path
    empty when the DAG path is not mapped. *)
Definition MapDagPathToSdfPath (j : Job) (dagPath : MDagPath) : SdfPath :=
  default None (mDagPathToUsdPathMap j !! dagPath).

(** [_BeginWriting], lines 392-488: the steps up to the opening of the
    layer, with the checks that make the job stop before. *)
Definition openLayer (E : Env) (fileName : string) (append : bool) (j : Job) : bool * Job :=
  let j := normalizeDefaultPrim E (selectDefaultPrim E j) in
  match findOverlappingRoots (dagPaths (mArgs j)) with
  | Some (path1, path2) =>
      (false, emit [EvDiagnostic (RootsOverlap (Dag.fullPathName path1)
                                               (Dag.fullPathName path2))] j)
  | None =>
      let '(fileExt, fileNameWithExt) := resolveFileName E (compatibility (mArgs j)) fileName in
      let '(ok, j) := setupFileStructure E fileExt fileNameWithExt append j in
      if negb ok then (false, j)
      else
        let '(ok, j) := setupModelingVariant E j in
        if negb ok then (false, j)
        else _OpenFile E (_fileName j) append j
  end.

(** [_BeginWriting], lines 541-652: the traversal of the Maya DAG from
    the world root, in the scope that the arg dagPaths give. *)
Definition traverseWorld (E : Env) (j : Job) : bool * Job :=
  let '(argDagPaths, argDagPathParents) := collectArgDagPaths E (dagPaths (mArgs j)) in
  let '(ok, _, j) :=
    traverseDag E argDagPaths argDagPathParents [] (DagNode_ "" (dagWorld E)) None j in
  (ok, j).

(** [Write], lines 293-317: the time-sampled export, with the scene time
    set back at its end. *)
Definition writeFrames (E : Env) (timeSamples : list double) (j : Job) : bool * Job :=
  match timeSamples with
  | [] => (true, j)
  | _ :: _ =>
      let oldCurTime := sceneTime j in
      let '(ok, j) := writeTimeSamples E oldCurTime 1 timeSamples j in
      if negb ok then (false, j) else (true, viewFrame oldCurTime j)
  end.

(** The metadata of the root layer of a stage, the prims apart. *)
Definition layerData (st : UsdStage) :=
  (layerDefaultPrim st, startTimeCode st, endTimeCode st, timeCodesPerSecond st,
   framesPerSecond st, stageMetersPerUnit st, layerCustomData st).

(** The elements of [l] up to the first for which [ok] fails, this one
    included: the chasers that a loop over them runs when it stops at the
    first failure. *)
Fixpoint runUntilFail {A : Type} (ok : A -> bool) (l : list A) : list A :=
  match l with
  | [] => []
  | x :: rest => x :: (if ok x then runUntilFail ok rest else [])
  end.

(** The events of the frames: the change of the scene time, the writes at
    a time sample, the per-frame hooks of the chasers and the polls of the
    interrupt flag. *)
Definition isFrameEvent (ev : Event) : bool :=
  match ev with
  | EvViewFrame _ | EvWrite _ (TimeCode _) | EvExportFrame _ _ | EvInterruptPoll _ => true
  | _ => false
  end.

(** The events that [_BeginWriting] can add to the trace of a job whose
    arguments are [a]. *)
Definition isBeginWritingEvent (E : Env) (a : UsdMayaJobExportArgs) (ev : Event) : bool :=
  match ev with
  | EvPython cmd => bool_decide (cmd = defaultPrimCandidatesCommand a)
  | EvMel cmd =>
      bool_decide (cmd = "editRenderLayerGlobals -currentRenderLayer " ++ defaultRenderLayer E)
  | EvOpenFile _ _ | EvChangeUpAxisAndUnits _ _
  | EvWrite _ TimeDefault | EvOnWritePrim _ | EvExportShadingEngines | EvPostProcess
  | EvMakeModelHierarchy | EvChaserCreate _ | EvExportDefault _ => true
  | EvCreatePrimWriter curDagPath =>
      NeedToTraverse E curDagPath || bool_decide (length curDagPath = 0)
  | EvDiagnostic d =>
      match d with
      | CouldNotCreatePackage _ _ | DistanceUnitWarning => false
      | _ => true
      end
  | _ => false
  end.

(** The writers that the registry hands out at the requests of a trace. *)
Definition createdWriters (E : Env) (evs : list Event) : list PrimWriter :=
  omap (fun ev => match ev with
                  | EvCreatePrimWriter curDagPath => CreatePrimWriter E curDagPath
                  | _ => None
                  end) evs.

(** From [d] to [d'] the opinions on a prim differ in the variant sets and
    in the variant selections only. *)
Definition keepsOpinions (d d' : PrimData) : Prop :=
  typeName d' = typeName d /\ active d' = active d
  /\ hasAuthoredPayloads d' = hasAuthoredPayloads d
  /\ internalReferences d' = internalReferences d /\ timeSamples d' = timeSamples d.

Definition isWriterRequest (ev : Event) : bool :=
  match ev with EvCreatePrimWriter _ => true | _ => false end.

(** From [j] to [j'] the job has added to its writers, in their order, the
    writers that the registry handed out at the requests made in between. *)
Definition recordsWriters (E : Env) (j j' : Job) : Prop :=
  exists evs, trace j' = (trace j ++ evs)%list
              /\ mMayaPrimWriterList j' = (mMayaPrimWriterList j ++ createdWriters E evs)%list.

(** The node registered for the USD path of the writer [w] accounts for
    [w]: it is the node of [w], or, with transform and shape merged, a node
    that extends to the same shape.  A writer without USD path has nothing
    to register. *)
Definition registeredIn (E : Env) (j : Job) (w : PrimWriter) : Prop :=
  writerPrimPath w <> None ->
  exists d, mUsdPathToDagPathMap j !! writerPrimPath w = Some d
            /\ (d = GetDagPath w
                \/ (mergeTransformAndShape (mArgs j) = true
                    /\ extendToShape E d = extendToShape E (GetDagPath w))).

Definition writersRegistered (E : Env) (j : Job) : Prop :=
  forall w, w ∈ mMayaPrimWriterList j -> registeredIn E j w.

(** * Properties *)

(** ** Default prim candidates *)

Section DefaultPrimCandidates.

Variable E : Env.

Lemma appendExportRoots_from (acc roots : list string) :
  foldl (fun roots root => if decide (root = "") then roots else roots ++ [root])%list
        acc roots
  = (acc ++ filter (fun root => root ≠ "") roots)%list.
Proof.
  revert acc. induction roots as [|root roots IH]; intros acc; simpl.
  - by rewrite app_nil_r.
  - rewrite IH. rewrite filter_cons. destruct (decide (root = "")) as [->|Hne].
    + by rewrite decide_False by (intros H; by apply H).
    + rewrite decide_True by done. by rewrite <- app_assoc.
Qed.

Lemma appendExportRoots_filter (roots : list string) :
  appendExportRoots roots = filter (fun root => root ≠ "") roots.
Proof. unfold appendExportRoots. by rewrite appendExportRoots_from. Qed.

(** C9.  When no root prim is given, the default prim candidates built from
    the export roots are exactly the non-empty entries, in order; the first
    of them becomes the default prim of a job that has none (and is then
    turned into a prim name); when no entry is left, the candidates come
    from the query to the scene. *)
Theorem default_prim_candidates_skip_empty_roots (j : Job) :
  Sdf.IsEmpty (rootPrim (mArgs j)) = true ->
  legacyMaterialScope (mArgs j) = false ->
  defaultPrim (mArgs j) = "" ->
  match filter (fun root => root ≠ "") (exportRoots (mArgs j)) with
  | first :: rest =>
      GetExportDefaultPrimCandidates E (mArgs j) = (first :: rest, [])
      ∧ defaultPrim (mArgs (selectDefaultPrim E j)) = first
      ∧ defaultPrim (mArgs (normalizeDefaultPrim E (selectDefaultPrim E j)))
        = MayaNodeNameToPrimName E first (stripNamespaces (mArgs j))
  | [] =>
      GetExportDefaultPrimCandidates E (mArgs j)
      = (executePythonCommand E (defaultPrimCandidatesCommand (mArgs j)),
         [EvPython (defaultPrimCandidatesCommand (mArgs j))])
  end.
Proof.
  intros Hroot Hlegacy Hdefault.
  assert (Hcand : GetExportDefaultPrimCandidates E (mArgs j)
    = match filter (fun root => root ≠ "") (exportRoots (mArgs j)) with
      | first :: rest => (first :: rest, [])
      | [] => (executePythonCommand E (defaultPrimCandidatesCommand (mArgs j)),
               [EvPython (defaultPrimCandidatesCommand (mArgs j))])
      end).
  { unfold GetExportDefaultPrimCandidates. rewrite Hroot. simpl.
    rewrite appendExportRoots_filter.
    destruct (exportRoots (mArgs j)) as [|r rs] eqn:Hrs; [done|].
    rewrite bool_decide_true by (simpl; lia). simpl andb.
    destruct (filter _ (r :: rs)) as [|first rest] eqn:Hf; [done|].
    by rewrite bool_decide_true by (simpl; lia). }
  destruct (filter _ (exportRoots (mArgs j))) as [|first rest] eqn:Hf; [done|].
  assert (Hne : first ≠ "").
  { assert (Hin : first ∈ filter (fun root => root ≠ "") (exportRoots (mArgs j))).
    { rewrite Hf. left. }
    apply list_elem_of_filter in Hin. tauto. }
  assert (Hsel : defaultPrim (mArgs (selectDefaultPrim E j)) = first).
  { unfold selectDefaultPrim. rewrite Hlegacy, Hdefault, Hcand. done. }
  split; [done|]. split; [done|].
  unfold normalizeDefaultPrim. rewrite Hsel.
  rewrite bool_decide_false by done. simpl.
  unfold selectDefaultPrim. rewrite Hlegacy, Hdefault, Hcand. done.
Qed.

End DefaultPrimCandidates.

(** The export roots ["", "grp", "", "other"]: the candidates are the two
    names and the default prim is the first. *)
Lemma default_prim_candidates_skip_empty_roots_witness :
  GetExportDefaultPrimCandidates Scene.plain
    (Scene.withRoots [""; "grp"; ""; "other"] [] Scene.args)
  = (["grp"; "other"], [])
  ∧ defaultPrim (mArgs (selectDefaultPrim Scene.plain
       (newJob (Scene.withRoots [""; "grp"; ""; "other"] [] Scene.args) ∅ "layer")))
    = "grp"
  ∧ defaultPrim (mArgs (normalizeDefaultPrim Scene.plain (selectDefaultPrim Scene.plain
       (newJob (Scene.withRoots [""; "grp"; ""; "other"] [] Scene.args) ∅ "layer"))))
    = "grp".
Proof.
  exact (default_prim_candidates_skip_empty_roots Scene.plain
           (newJob (Scene.withRoots [""; "grp"; ""; "other"] [] Scene.args) ∅ "layer")
           eq_refl eq_refl eq_refl).
Defined.

(** ** Invariants of the traversal and of the default export *)

Section Invariants.

Variable E : Env.

Lemma DagNode_forest_ind (P : DagNode -> Prop) :
  (forall name children, Forall P children -> P (DagNode_ name children)) ->
  forall node, P node.
Proof.
  intros H. fix IH 1. intros [name children]. apply H.
  induction children as [|child children IHc]; constructor; [apply IH | exact IHc].
Qed.

(** What holds before the traversal and is kept by every step at a DAG
    path ([I] when the job goes on, [F] when it stops) holds after the
    traversal. *)
Lemma traverseDag_invariant (I F : Job -> Prop) (argDagPaths argDagPathParents : gset string) :
  (forall cur j, I j ->
     if (exportDagPath E cur j).1.1 then I (exportDagPath E cur j).2
     else F (exportDagPath E cur j).2) ->
  forall node cur leaf j, I j ->
    if (traverseDag E argDagPaths argDagPathParents cur node leaf j).1.1
    then I (traverseDag E argDagPaths argDagPathParents cur node leaf j).2
    else F (traverseDag E argDagPaths argDagPathParents cur node leaf j).2.
Proof.
  intros Hstep node. induction node as [name children IH] using DagNode_forest_ind.
  intros cur leaf j HI. simpl.
  assert (Hdescend : forall leaf0,
    let r := match exportDagPath E cur j with
        | (false, _, j) => (false, leaf0, j)
        | (true, true, j) => (true, leaf0, j)
        | (true, false, j) =>
            (fix traverseChildren (cs : list DagNode) (leaf : option MDagPath) (j : Job)
               : bool * option MDagPath * Job :=
               match cs with
               | [] => (true, leaf, j)
               | (DagNode_ name _ as child) :: cs' =>
                   match traverseDag E argDagPaths argDagPathParents
                                     (cur ++ [name])%list child leaf j with
                   | (false, leaf, j) => (false, leaf, j)
                   | (true, leaf, j) => traverseChildren cs' leaf j
                   end
               end) children leaf0 j
        end in
    if r.1.1 then I r.2 else F r.2).
  { intros leaf0. specialize (Hstep cur j HI).
    destruct (exportDagPath E cur j) as [[ok prune] j1]. simpl in Hstep.
    destruct ok; [|exact Hstep]. destruct prune; [exact Hstep|].
    clear HI. revert leaf0 j1 Hstep.
    induction IH as [|child children Hchild _ IHchildren]; intros leaf0 j1 HI1; [exact HI1|].
    destruct child as [cname cchildren].
    specialize (Hchild (cur ++ [cname])%list leaf0 j1 HI1).
    destruct (traverseDag E argDagPaths argDagPathParents (cur ++ [cname])%list
                (DagNode_ cname cchildren) leaf0 j1) as [[ok1 leaf1] j2].
    simpl in Hchild. destruct ok1; [|exact Hchild].
    apply IHchildren. exact Hchild. }
  destruct (decide _); [apply Hdescend|].
  destruct (decide _); [apply Hdescend|].
  destruct (negb _); [exact HI | apply Hdescend].
Qed.

End Invariants.

Section Growth.

Variable E : Env.

Lemma grows_refl P j : grows P j j.
Proof. repeat split; try done. exists []. by rewrite app_nil_r. Qed.

Lemma grows_trans P j1 j2 j3 : grows P j1 j2 -> grows P j2 j3 -> grows P j1 j3.
Proof.
  intros (Ha & Hf & Hp & Hs & evs & Ht & HP) (Ha' & Hf' & Hp' & Hs' & evs' & Ht' & HP').
  repeat split; try congruence.
  exists (evs ++ evs')%list. split.
  - by rewrite Ht', Ht, <- app_assoc.
  - rewrite forallb_app. by rewrite HP, HP'.
Qed.

Lemma grows_weaken (P Q : Event -> bool) j j' :
  (forall ev, P ev = true -> Q ev = true) -> grows P j j' -> grows Q j j'.
Proof.
  intros HPQ (Ha & Hf & Hp & Hs & evs & Ht & HP). repeat split; try done.
  exists evs. split; [done|].
  apply forallb_forall. intros ev Hin.
  apply HPQ. by apply (proj1 (forallb_forall P evs) HP).
Qed.

Lemma grows_emit P evs j : forallb P evs = true -> grows P j (emit evs j).
Proof. intros HP. repeat split; try done. by exists evs. Qed.

(** A change of fields other than those that [grows] watches. *)
Lemma grows_same P j j' :
  mArgs j' = mArgs j -> _fileName j' = _fileName j -> _packageName j' = _packageName j ->
  fileSystem j' = fileSystem j -> trace j' = trace j -> grows P j j'.
Proof.
  intros Ha Hf Hp Hs Ht. repeat split; try done. exists []. by rewrite app_nil_r.
Qed.

Lemma grows_onStage P f j : grows P j (onStage f j).
Proof. by apply grows_same. Qed.

Lemma grows_step P j1 j2 j3 : grows P j2 j3 -> grows P j1 j2 -> grows P j1 j3.
Proof. intros H23 H12. by apply (grows_trans P j1 j2 j3). Qed.

Lemma grows_createPrimWriter P cur j :
  P (EvCreatePrimWriter cur) = true -> grows P j (createPrimWriter E cur j).2.
Proof.
  intros HP. unfold createPrimWriter.
  assert (Hem : grows P j (emit [EvCreatePrimWriter cur] j)).
  { apply grows_emit. simpl. by rewrite HP. }
  destruct (CreatePrimWriter E cur) as [w|]; simpl; [|done].
  destruct (writerPrimPath w); [|done].
  eapply grows_trans; [exact Hem | apply grows_onStage].
Qed.

Lemma grows_writerWrite P w t j :
  P (EvWrite w t) = true -> grows P j (writerWrite w t j).
Proof.
  intros HP. unfold writerWrite.
  assert (Hem : grows P j (emit [EvWrite w t] j)).
  { apply grows_emit. simpl. by rewrite HP. }
  destruct (writerPrimPath w); [|done].
  eapply grows_trans; [exact Hem | apply grows_onStage].
Qed.

(** [_CheckNameClashes] reports a clash exactly when it rejects. *)
Lemma grows_CheckNameClashes path dagPath j :
  if (_CheckNameClashes E path dagPath j).1
  then grows (fun _ => false) j (_CheckNameClashes E path dagPath j).2
  else grows isNameClash j (_CheckNameClashes E path dagPath j).2.
Proof.
  unfold _CheckNameClashes.
  destruct (negb (stripNamespaces (mArgs j))); simpl; [apply grows_refl|].
  destruct (mUsdPathToDagPathMap j !! path) as [other|]; simpl.
  - destruct (_ && _); simpl; [apply grows_refl | by apply grows_emit].
  - by apply grows_same.
Qed.

Lemma grows_exportDagPath cur j :
  if (exportDagPath E cur j).1.1
  then grows isCleanDefaultExportEvent j (exportDagPath E cur j).2
  else grows isDefaultExportEvent j (exportDagPath E cur j).2.
Proof.
  unfold exportDagPath.
  destruct (_ && _); simpl; [apply grows_refl|].
  pose proof (grows_createPrimWriter isCleanDefaultExportEvent cur j eq_refl) as Hc.
  destruct (createPrimWriter E cur j) as [[w|] j1]; simpl in *; [|exact Hc].
  set (j2 := set_mMayaPrimWriterList _ j1).
  assert (H2 : grows isCleanDefaultExportEvent j j2).
  { eapply grows_trans; [exact Hc | by apply grows_same]. }
  destruct (primIsValid j2 (writerPrimPath w)); simpl; [|exact H2].
  pose proof (grows_CheckNameClashes (writerPrimPath w) (GetDagPath w) j2) as Hn.
  destruct (_CheckNameClashes E (writerPrimPath w) (GetDagPath w) j2) as [ok j3].
  simpl in *. destruct ok; simpl.
  - eapply grows_step; [by apply grows_emit|].
    eapply grows_step; [by apply grows_same|].
    eapply grows_step; [by apply grows_writerWrite|].
    eapply grows_step; [|exact H2].
    eapply grows_weaken; [|exact Hn]. done.
  - eapply grows_trans.
    + eapply grows_weaken; [|exact H2]. intros ev. unfold isCleanDefaultExportEvent.
      by intros [? _]%andb_prop.
    + eapply grows_weaken; [|exact Hn]. by intros [[]| | | | | | | | | | | | | | | | | | | | | | |].
Qed.

Lemma grows_traverseDag argDagPaths argDagPathParents node cur leaf j :
  if (traverseDag E argDagPaths argDagPathParents cur node leaf j).1.1
  then grows isCleanDefaultExportEvent j
         (traverseDag E argDagPaths argDagPathParents cur node leaf j).2
  else grows isDefaultExportEvent j
         (traverseDag E argDagPaths argDagPathParents cur node leaf j).2.
Proof.
  apply (traverseDag_invariant E (grows isCleanDefaultExportEvent j)
           (grows isDefaultExportEvent j)); [|apply grows_refl].
  intros cur0 j0 H0. pose proof (grows_exportDagPath cur0 j0) as Hs.
  destruct ((exportDagPath E cur0 j0).1.1).
  - by eapply grows_trans.
  - eapply grows_trans; [|exact Hs]. eapply grows_weaken; [|exact H0].
    intros ev. unfold isCleanDefaultExportEvent. by intros [? _]%andb_prop.
Qed.

Lemma grows_populateChasers j : grows isCleanDefaultExportEvent j (populateChasers E j).
Proof.
  unfold populateChasers.
  assert (H0 : grows isCleanDefaultExportEvent j (set_mChasers [] j)) by by apply grows_same.
  revert H0. generalize (set_mChasers [] j) as j0.
  induction (chaserNames (mArgs j)) as [|name names IH]; intros j0 H0; simpl; [done|].
  apply IH. eapply grows_trans; [exact H0|].
  destruct (ChaserCreate E name).
  - eapply grows_step; [by apply grows_same | by apply grows_emit].
  - eapply grows_step; [by apply grows_emit | by apply grows_emit].
Qed.

Lemma grows_chasersExportDefault chasers j :
  grows isCleanDefaultExportEvent j (chasersExportDefault E chasers j).2.
Proof.
  revert j. induction chasers as [|c cs IH]; intros j; simpl; [apply grows_refl|].
  destruct (negb (ExportDefault E c)); simpl; [by apply grows_emit|].
  eapply grows_trans; [|apply IH]. by apply grows_emit.
Qed.

Lemma grows_writeDefaultValues j :
  if (writeDefaultValues E j).1
  then grows isCleanDefaultExportEvent j (writeDefaultValues E j).2
  else grows isDefaultExportEvent j (writeDefaultValues E j).2.
Proof.
  assert (Hw : forall j1 j2, grows isCleanDefaultExportEvent j1 j2 ->
                 grows isDefaultExportEvent j1 j2).
  { intros j1 j2. apply grows_weaken. intros ev. unfold isCleanDefaultExportEvent.
    by intros [? _]%andb_prop. }
  unfold writeDefaultValues.
  destruct (collectArgDagPaths E (dagPaths (mArgs j))) as [argDagPaths argDagPathParents].
  pose proof (grows_traverseDag argDagPaths argDagPathParents
                (DagNode_ "" (dagWorld E)) [] None j) as Ht.
  destruct (traverseDag E argDagPaths argDagPathParents [] (DagNode_ "" (dagWorld E)) None j)
    as [[ok leaf] j1].
  simpl in Ht. destruct ok; simpl; [|exact Ht].
  destruct (_ && _); simpl.
  { eapply grows_trans; [apply Hw, Ht | by apply grows_emit]. }
  destruct (negb (PostProcess E)); simpl.
  { apply Hw. eapply grows_trans; [exact Ht|].
    eapply grows_step; [by apply grows_emit | by apply grows_emit]. }
  destruct (negb (MakeModelHierarchy E)); simpl.
  { apply Hw. eapply grows_trans; [exact Ht|].
    eapply grows_step; [by apply grows_emit|].
    eapply grows_step; [by apply grows_emit | by apply grows_emit]. }
  match goal with
  | |- context [chasersExportDefault E ?cs ?j0] =>
      assert (Hall : grows isCleanDefaultExportEvent j (chasersExportDefault E cs j0).2)
  end.
  { eapply grows_trans; [|apply grows_chasersExportDefault].
    eapply grows_trans; [|apply grows_populateChasers].
    eapply grows_trans; [exact Ht|].
    eapply grows_step; [by apply grows_emit|].
    eapply grows_step; [by apply grows_emit | by apply grows_emit]. }
  destruct (chasersExportDefault E _ _).1; [exact Hall | apply Hw, Hall].
Qed.

Lemma grows_traceGrows P j j' : grows P j j' -> traceGrows P j j'.
Proof. intros (_ & _ & _ & _ & H). exact H. Qed.

Lemma traceGrows_refl P j : traceGrows P j j.
Proof. exists []. by rewrite app_nil_r. Qed.

Lemma traceGrows_trans P j1 j2 j3 :
  traceGrows P j1 j2 -> traceGrows P j2 j3 -> traceGrows P j1 j3.
Proof.
  intros (evs & Ht & HP) (evs' & Ht' & HP'). exists (evs ++ evs')%list. split.
  - by rewrite Ht', Ht, <- app_assoc.
  - rewrite forallb_app. by rewrite HP, HP'.
Qed.

Lemma traceGrows_weaken (P Q : Event -> bool) j j' :
  (forall ev, P ev = true -> Q ev = true) -> traceGrows P j j' -> traceGrows Q j j'.
Proof.
  intros HPQ (evs & Ht & HP). exists evs. split; [done|].
  apply forallb_forall. intros ev Hin.
  apply HPQ. by apply (proj1 (forallb_forall P evs) HP).
Qed.

Lemma traceGrows_emit P evs j : forallb P evs = true -> traceGrows P j (emit evs j).
Proof. intros HP. by exists evs. Qed.

Lemma traceGrows_same P j j' : trace j' = trace j -> traceGrows P j j'.
Proof. intros Ht. exists []. by rewrite app_nil_r. Qed.

End Growth.

(** ** The checks of [_BeginWriting] that come before the layer is opened *)

Section BeforeOpening.

Variable E : Env.

Lemma isPrefix_prefix_of (l1 l2 : list string) :
  Sdf.isPrefix l1 l2 = true <-> l1 `prefix_of` l2.
Proof.
  revert l2. induction l1 as [|x l1 IH]; intros l2; simpl.
  - split; [intros _; apply prefix_nil | done].
  - destruct l2 as [|y l2].
    + split; [done | intros H; by apply prefix_nil_inv in H].
    + rewrite andb_true_iff, String.eqb_eq, IH. split.
      * intros [-> H]. by apply prefix_cons.
      * intros H. split; [by apply prefix_cons_inv_1 in H | by apply prefix_cons_inv_2 in H].
Qed.

Lemma isAncestorDescendentRelationship_spec (path1 path2 : MDagPath) :
  UsdMayaUtil.isAncestorDescendentRelationship path1 path2 = true
  <-> path1 `prefix_of` path2 \/ path2 `prefix_of` path1.
Proof.
  unfold UsdMayaUtil.isAncestorDescendentRelationship.
  by rewrite orb_true_iff, !isPrefix_prefix_of.
Qed.

(** The pair that the two loops find is a pair of export roots in the
    relationship. *)
Lemma findOverlappingRoots_Some (paths : list MDagPath) path1 path2 :
  findOverlappingRoots paths = Some (path1, path2) ->
  exists i k, i < k /\ paths !! i = Some path1 /\ paths !! k = Some path2
              /\ UsdMayaUtil.isAncestorDescendentRelationship path1 path2 = true.
Proof.
  induction paths as [|p rest IH]; simpl; [done|].
  destruct (List.find _ rest) as [q|] eqn:Hfind.
  - intros [= <- <-]. apply find_some in Hfind as [Hin Hrel].
    apply list_elem_of_In, list_elem_of_lookup in Hin as [k Hk].
    exists 0, (S k). split_and!; [lia | done | done | done].
  - intros H. destruct (IH H) as (i & k & Hik & Hi & Hk & Hrel).
    exists (S i), (S k). split_and!; [lia | done | done | done].
Qed.

(** The two loops miss no pair. *)
Lemma findOverlappingRoots_None (paths : list MDagPath) i k path1 path2 :
  findOverlappingRoots paths = None ->
  i < k -> paths !! i = Some path1 -> paths !! k = Some path2 ->
  UsdMayaUtil.isAncestorDescendentRelationship path1 path2 = false.
Proof.
  revert i k. induction paths as [|p rest IH]; intros i k; simpl; [done|].
  destruct (List.find _ rest) as [q|] eqn:Hfind; [done|].
  intros Hnone Hik Hi Hk. destruct i as [|i]; destruct k as [|k]; try lia; simpl in *.
  - injection Hi as ->.
    apply (find_none _ _ Hfind). apply list_elem_of_In, list_elem_of_lookup. by exists k.
  - apply (IH i k); [done | lia | done | done].
Qed.

(** The choice of the default prim leaves everything but the default prim
    and the trace as it is, and opens nothing. *)
Lemma selectDefaultPrim_frame (j : Job) :
  let j0 := normalizeDefaultPrim E (selectDefaultPrim E j) in
  dagPaths (mArgs j0) = dagPaths (mArgs j)
  /\ compatibility (mArgs j0) = compatibility (mArgs j)
  /\ renderLayerMode (mArgs j0) = renderLayerMode (mArgs j)
  /\ rootMapFunctionIsNull (mArgs j0) = rootMapFunctionIsNull (mArgs j)
  /\ mStage j0 = mStage j /\ fileSystem j0 = fileSystem j
  /\ traceGrows (fun ev => negb (isOpenFile ev)) j j0.
Proof.
  assert (Hs : let j1 := selectDefaultPrim E j in
    dagPaths (mArgs j1) = dagPaths (mArgs j)
    /\ compatibility (mArgs j1) = compatibility (mArgs j)
    /\ renderLayerMode (mArgs j1) = renderLayerMode (mArgs j)
    /\ rootMapFunctionIsNull (mArgs j1) = rootMapFunctionIsNull (mArgs j)
    /\ mStage j1 = mStage j /\ fileSystem j1 = fileSystem j
    /\ traceGrows (fun ev => negb (isOpenFile ev)) j j1).
  { unfold selectDefaultPrim. destruct (_ && _); simpl.
    - assert (Hev : forallb (fun ev => negb (isOpenFile ev))
                      (GetExportDefaultPrimCandidates E (mArgs j)).2 = true).
      { unfold GetExportDefaultPrimCandidates.
        destruct (negb _); [done|]. by destruct (_ && _). }
      destruct (GetExportDefaultPrimCandidates E (mArgs j)) as [roots evs]. simpl in Hev.
      destruct roots; simpl; repeat split; try done; by exists evs.
    - repeat split; try done. apply traceGrows_refl. }
  simpl in *. destruct Hs as (H1 & H2 & H3 & H4 & H5 & H6 & H7).
  unfold normalizeDefaultPrim. destruct (bool_decide _); simpl; [done|].
  repeat split; try done.
Qed.

(** The choice of the default prim only queries the scene. *)
Lemma selectDefaultPrim_trace (j : Job) :
  traceGrows isPython j (normalizeDefaultPrim E (selectDefaultPrim E j)).
Proof.
  apply (traceGrows_trans _ j (selectDefaultPrim E j)).
  - unfold selectDefaultPrim. destruct (_ && _); [|apply traceGrows_refl].
    assert (Hev : forallb isPython (GetExportDefaultPrimCandidates E (mArgs j)).2 = true).
    { unfold GetExportDefaultPrimCandidates.
      destruct (negb _); [done|]. by destruct (_ && _). }
    destruct (GetExportDefaultPrimCandidates E (mArgs j)) as [roots evs]. simpl in Hev.
    destruct roots; by exists evs.
  - unfold normalizeDefaultPrim. destruct (bool_decide _); by apply traceGrows_same.
Qed.

(** C1.  When two of the export roots are ancestor and descendant of each
    other, [Write] fails on the overlap check: the stage and the files are
    as before, no layer has been opened, and the error that ends the trace
    names two export roots that are in this relationship. *)
Theorem overlapping_roots_abort_before_output
    (fileName : string) (append : bool) (j : Job) (i k : nat) (path1 path2 : MDagPath) :
  i < k ->
  dagPaths (mArgs j) !! i = Some path1 ->
  dagPaths (mArgs j) !! k = Some path2 ->
  path1 `prefix_of` path2 \/ path2 `prefix_of` path1 ->
  (Write E fileName append j).1 = false
  /\ mStage (Write E fileName append j).2 = mStage j
  /\ fileSystem (Write E fileName append j).2 = fileSystem j
  /\ traceGrows (fun ev => negb (isOpenFile ev)) j (Write E fileName append j).2
  /\ exists i' k' root1 root2,
       i' < k'
       /\ dagPaths (mArgs j) !! i' = Some root1
       /\ dagPaths (mArgs j) !! k' = Some root2
       /\ (root1 `prefix_of` root2 \/ root2 `prefix_of` root1)
       /\ List.last (trace (Write E fileName append j).2) EvReleaseStage
          = EvDiagnostic (RootsOverlap (Dag.fullPathName root1) (Dag.fullPathName root2)).
Proof.
  intros Hik Hi Hk Hrel.
  pose proof (selectDefaultPrim_frame j) as (Hd & _ & _ & _ & Hst & Hfs & Htr). simpl in *.
  unfold Write, _BeginWriting. rewrite Hd.
  destruct (findOverlappingRoots (dagPaths (mArgs j))) as [[root1 root2]|] eqn:Hfind.
  - simpl. apply findOverlappingRoots_Some in Hfind as (i' & k' & Hik' & Hi' & Hk' & Hrel').
    split_and!; try done.
    + eapply traceGrows_trans; [exact Htr | by apply traceGrows_emit].
    + exists i', k', root1, root2. split_and!; try done.
      * by apply isAncestorDescendentRelationship_spec.
      * unfold emit. simpl. by rewrite last_last.
  - exfalso. apply isAncestorDescendentRelationship_spec in Hrel.
    by rewrite (findOverlappingRoots_None _ i k path1 path2 Hfind Hik Hi Hk) in Hrel.
Qed.

End BeforeOpening.

(** The export roots [|grp|cube] and [|grp]: the second is the parent of
    the first. *)
Lemma overlapping_roots_abort_before_output_witness :
  let j := newJob (Scene.withRoots [] [["grp"; "cube"]; ["grp"]] Scene.args) ∅ "layer" in
  (Write Scene.plain "out.usda" false j).1 = false
  /\ mStage (Write Scene.plain "out.usda" false j).2 = mStage j
  /\ fileSystem (Write Scene.plain "out.usda" false j).2 = fileSystem j
  /\ traceGrows (fun ev => negb (isOpenFile ev)) j (Write Scene.plain "out.usda" false j).2
  /\ exists i' k' root1 root2,
       i' < k'
       /\ dagPaths (mArgs j) !! i' = Some root1
       /\ dagPaths (mArgs j) !! k' = Some root2
       /\ (root1 `prefix_of` root2 \/ root2 `prefix_of` root1)
       /\ List.last (trace (Write Scene.plain "out.usda" false j).2) EvReleaseStage
          = EvDiagnostic (RootsOverlap (Dag.fullPathName root1) (Dag.fullPathName root2)).
Proof.
  intros j.
  apply (overlapping_roots_abort_before_output Scene.plain "out.usda" false j
           0 1 ["grp"; "cube"] ["grp"]).
  - lia.
  - reflexivity.
  - reflexivity.
  - right. by exists ["cube"].
Defined.

(** ** The dispatch on the file extension *)

Section FileExtension.

Variable E : Env.

Lemma keepsNames_trans P j1 j2 j3 :
  keepsNames P j1 j2 -> keepsNames P j2 j3 -> keepsNames P j1 j3.
Proof.
  intros (Hf & Hp & Ht) (Hf' & Hp' & Ht'). split_and!; [congruence | congruence |].
  by eapply traceGrows_trans.
Qed.

Lemma grows_keepsNames (P Q : Event -> bool) j j' :
  (forall ev, P ev = true -> Q ev = true) -> grows P j j' -> keepsNames Q j j'.
Proof.
  intros HPQ H. pose proof (grows_traceGrows P j j' H) as Ht.
  destruct H as (_ & Hf & Hp & _). split_and!; [done | done |].
  by eapply traceGrows_weaken.
Qed.

Lemma keepsNames_setupModelingVariant P j :
  P (EvDiagnostic ExportRootsWithModelingVariant) = true ->
  keepsNames P j (setupModelingVariant E j).2.
Proof.
  intros HP. unfold setupModelingVariant.
  destruct (decide _); simpl; [|split_and!; try done; apply traceGrows_refl].
  destruct (bool_decide _); simpl; [|split_and!; try done; by apply traceGrows_same].
  destruct (negb _); simpl; split_and!; try done.
  - apply (traceGrows_trans P j (set_mRenderLayerObjs (listAllRenderLayers E) j)).
    + by apply traceGrows_same.
    + apply traceGrows_emit. simpl. by rewrite HP.
  - by apply traceGrows_same.
Qed.

Lemma keepsNames_setupStage P j :
  (forall a u, P (EvChangeUpAxisAndUnits a u) = true) ->
  keepsNames P j (setupStage E j).
Proof.
  intros HP. unfold setupStage.
  assert (H1 : forall j1, _fileName j1 = _fileName j -> _packageName j1 = _packageName j ->
                 trace j1 = trace j ->
                 keepsNames P j
                   (match customLayerData (mArgs (set_autoAxisAndUnitsChanger true
                        (emit [EvChangeUpAxisAndUnits (upAxis (mArgs j1)) (unit_ (mArgs j1))] j1)))
                    with
                    | [] => set_autoAxisAndUnitsChanger true
                        (emit [EvChangeUpAxisAndUnits (upAxis (mArgs j1)) (unit_ (mArgs j1))] j1)
                    | d => onStage (Usd.SetCustomLayerData d)
                        (set_autoAxisAndUnitsChanger true
                        (emit [EvChangeUpAxisAndUnits (upAxis (mArgs j1)) (unit_ (mArgs j1))] j1))
                    end)).
  { intros j1 Hf Hp Ht.
    assert (Hex : traceGrows P j (emit [EvChangeUpAxisAndUnits (upAxis (mArgs j1))
                                         (unit_ (mArgs j1))] j1)).
    { eexists. split; [simpl; by rewrite Ht|]. simpl. by rewrite HP. }
    destruct (customLayerData _); split_and!; done. }
  destruct (timeSamplesArg (mArgs j)); by apply H1.
Qed.

Lemma keepsNames_setupRenderLayer P j :
  (forall c, P (EvMel c) = true) -> keepsNames P j (setupRenderLayer E j).
Proof.
  intros HP. unfold setupRenderLayer. destruct (_ && _); split_and!; try done.
  - eexists. split; [reflexivity|]. simpl. by rewrite HP.
  - by apply traceGrows_same.
Qed.

Lemma keepsNames_OpenFile fileName j :
  keepsNames (opensOnly fileName) j (_OpenFile E fileName false j).2.
Proof.
  unfold _OpenFile.
  assert (Hem : traceGrows (opensOnly fileName) j (emit [EvOpenFile fileName false] j)).
  { apply traceGrows_emit. simpl. by rewrite String.eqb_refl. }
  destruct (OpenFile_stage E fileName false); split_and!; done.
Qed.

(** [_BeginWriting] from the moment the file names are set: they stay as
    they are, and a layer that is opened is opened at [_fileName]. *)
Lemma keepsNames_afterFileStructure (j : Job) :
  let r :=
    let '(ok, j) := setupModelingVariant E j in
    if negb ok then (false, j)
    else
      let '(ok, j) := _OpenFile E (_fileName j) false j in
      if negb ok then (false, j)
      else writeDefaultValues E (setupRenderLayer E (setupStage E j)) in
  keepsNames (opensOnly (_fileName j)) j r.2.
Proof.
  simpl.
  pose proof (keepsNames_setupModelingVariant (opensOnly (_fileName j)) j eq_refl) as H1.
  destruct (setupModelingVariant E j) as [ok1 j1]. simpl in H1.
  destruct ok1; simpl; [|exact H1].
  pose proof (keepsNames_OpenFile (_fileName j1) j1) as H2.
  destruct H1 as (Hf1 & Hp1 & Ht1). rewrite Hf1 in H2.
  assert (H12 : keepsNames (opensOnly (_fileName j)) j (_OpenFile E (_fileName j) false j1).2).
  { eapply keepsNames_trans; [|exact H2]. by split_and!. }
  rewrite Hf1. destruct (_OpenFile E (_fileName j) false j1) as [ok2 j2]. simpl in *.
  destruct ok2; simpl; [|exact H12].
  eapply keepsNames_trans; [exact H12|].
  eapply keepsNames_trans; [by apply keepsNames_setupStage|].
  eapply keepsNames_trans; [by apply keepsNames_setupRenderLayer|].
  pose proof (grows_writeDefaultValues E (setupRenderLayer E (setupStage E j2))) as Hw.
  destruct (writeDefaultValues E _).1.
  - eapply grows_keepsNames; [|exact Hw]. by intros [].
  - eapply grows_keepsNames; [|exact Hw]. by intros [].
Qed.

(** C7, amended.  A file name that is not an anonymous layer identifier and
    has none of the USD extensions is given the fallback extension of the
    compatibility profile: the package extension for ARKit, the default
    extension otherwise.  When the export roots do not overlap and the
    resolved extension is the package extension, appending is rejected with
    an error; otherwise the job writes to the temporary stage file named
    from a fresh UUID (it stops with an error when a file of that name
    exists), opens no other layer, and keeps the resolved name as the name
    of the package.  With another resolved extension the job writes to the
    resolved name and keeps no package name. *)
Theorem file_extension_dispatch :
  (forall (compat : TfToken) (fileName : string),
     Tf.IsAnonymousLayerIdentifier fileName = false ->
     Tf.TfGetExtension fileName ∉ usdExtensions E ->
     resolveFileName E compat fileName
     = (_GetFallbackExtension E compat, fileName ++ "." ++ _GetFallbackExtension E compat)
     /\ (compat = appleArKit (tokens E) ->
         _GetFallbackExtension E compat = UsdFileExtensionPackage (tokens E))
     /\ (compat <> appleArKit (tokens E) ->
         _GetFallbackExtension E compat = UsdFileExtensionDefault (tokens E)))
  /\ (forall (fileName : string) (append : bool) (j : Job),
        let j0 := normalizeDefaultPrim E (selectDefaultPrim E j) in
        let resolved := resolveFileName E (compatibility (mArgs j)) fileName in
        let tmp := _MakeTmpStageName E (Tf.TfGetPathName resolved.2) in
        let r := _BeginWriting E fileName append j in
        findOverlappingRoots (dagPaths (mArgs j)) = None ->
        if decide (resolved.1 = UsdFileExtensionPackage (tokens E)) then
          if append then
            r = (false, emit [EvDiagnostic CannotAppendToPackage] j0)
          else if decide (tmp ∈ fileSystem j) then
            r = (false, emit [EvDiagnostic (TemporaryStageExists tmp)] (set_fileName tmp j0))
          else
            _fileName r.2 = tmp /\ _packageName r.2 = resolved.2
            /\ traceGrows (opensOnly tmp) j r.2
        else
          _fileName r.2 = resolved.2 /\ _packageName r.2 = "").
Proof.
  split.
  - intros compat fileName Hanon Hext. unfold resolveFileName. rewrite Hanon.
    unfold usdExtensions in Hext. rewrite !not_elem_of_cons in Hext.
    destruct Hext as (H1 & H2 & H3 & H4 & _).
    rewrite !bool_decide_false by done. simpl.
    split; [done|]. unfold _GetFallbackExtension.
    split; intros Hc; [by rewrite decide_True | by rewrite decide_False].
  - intros fileName append j. simpl. intros Hroots.
    pose proof (selectDefaultPrim_frame E j) as (Hd & Hc & _ & _ & _ & Hfs & Htr).
    simpl in *. unfold _BeginWriting. rewrite Hd, Hroots, Hc.
    destruct (resolveFileName E (compatibility (mArgs j)) fileName) as [fileExt nameExt].
    simpl. unfold setupFileStructure.
    set (j0 := normalizeDefaultPrim E (selectDefaultPrim E j)) in *.
    destruct (decide (fileExt = UsdFileExtensionPackage (tokens E))) as [Hpkg|Hflat].
    + destruct append; [done|]. simpl. rewrite Hfs.
      set (tmp := _MakeTmpStageName E (Tf.TfGetPathName nameExt)).
      destruct (decide (tmp ∈ fileSystem j)); [done|]. simpl.
      pose proof (keepsNames_afterFileStructure (set_packageName nameExt (set_fileName tmp j0)))
        as (Hf & Hp & Ht).
      simpl in *. split_and!; [exact Hf | exact Hp |].
      eapply traceGrows_trans; [|exact Ht].
      apply (traceGrows_trans _ j j0).
      * eapply traceGrows_weaken; [|exact Htr]. by intros [].
      * by apply traceGrows_same.
    + simpl.
      assert (Hrest : forall j1 : Job,
        let r := (let '(ok, j2) := setupModelingVariant E j1 in
                  if negb ok then (false, j2)
                  else let '(ok0, j3) := _OpenFile E (_fileName j2) append j2 in
                       if negb ok0 then (false, j3)
                       else writeDefaultValues E (setupRenderLayer E (setupStage E j3))) in
        _fileName r.2 = _fileName j1 /\ _packageName r.2 = _packageName j1).
      { intros j1. simpl.
        pose proof (keepsNames_setupModelingVariant (fun _ => true) j1 eq_refl) as (Hf1 & Hp1 & _).
        destruct (setupModelingVariant E j1) as [ok1 j2]. simpl in *.
        destruct ok1; simpl; [|done].
        assert (Ho : _fileName (_OpenFile E (_fileName j2) append j2).2 = _fileName j2
                     /\ _packageName (_OpenFile E (_fileName j2) append j2).2 = _packageName j2).
        { unfold _OpenFile. by destruct (OpenFile_stage E _ _). }
        destruct (_OpenFile E (_fileName j2) append j2) as [ok2 j3]. simpl in *.
        destruct Ho as [Hf2 Hp2].
        destruct ok2; simpl; [|split; congruence].
        pose proof (keepsNames_setupStage (fun _ => true) j3 (fun _ _ => eq_refl)) as (Hf3 & Hp3 & _).
        pose proof (keepsNames_setupRenderLayer (fun _ => true) (setupStage E j3)
                      (fun _ => eq_refl)) as (Hf4 & Hp4 & _).
        pose proof (grows_writeDefaultValues E (setupRenderLayer E (setupStage E j3))) as Hw.
        assert (Hw' : _fileName (writeDefaultValues E (setupRenderLayer E (setupStage E j3))).2
                      = _fileName (setupRenderLayer E (setupStage E j3))
                      /\ _packageName (writeDefaultValues E (setupRenderLayer E (setupStage E j3))).2
                         = _packageName (setupRenderLayer E (setupStage E j3))).
        { destruct (writeDefaultValues E _).1; destruct Hw as (_ & ? & ? & _); done. }
        destruct Hw' as [Hf5 Hp5]. split; congruence. }
      apply (Hrest (set_packageName "" (set_fileName nameExt j0))).
Qed.

End FileExtension.

(** An export for ARKit to the name [out], which has no extension: the
    fallback is the package extension, the job writes to the temporary
    stage file and keeps [out.usdz] as the name of the package. *)
Lemma file_extension_dispatch_witness :
  resolveFileName Scene.plain "appleArKit" "out" = ("usdz", "out.usdz")
  /\ (let r := _BeginWriting Scene.plain "out" false
                 (newJob (Scene.withOptions false false false "appleArKit" "defaultLayer" true
                            Scene.args) ∅ "layer") in
      _fileName r.2 = "tmp-0000.usdc" /\ _packageName r.2 = "out.usdz"
      /\ traceGrows (opensOnly "tmp-0000.usdc")
           (newJob (Scene.withOptions false false false "appleArKit" "defaultLayer" true
                      Scene.args) ∅ "layer") r.2).
Proof.
  split.
  - refine (proj1 (proj1 (file_extension_dispatch Scene.plain) "appleArKit" "out" eq_refl _)).
    intros H. apply list_elem_of_In in H. vm_compute in H.
    repeat (destruct H as [H|H]; [discriminate H|]). exact H.
  - exact (proj2 (file_extension_dispatch Scene.plain) "out" false
             (newJob (Scene.withOptions false false false "appleArKit" "defaultLayer" true
                        Scene.args) ∅ "layer") eq_refl).
Defined.

(** The name [anon:scene] has none of the USD extensions, and yet no
    fallback extension is appended to it: the job opens the layer under
    this very name. *)
Lemma anonymous_layer_gets_no_fallback_extension :
  (Tf.TfGetExtension "anon:scene" ∉ usdExtensions Scene.plain)
  /\ (resolveFileName Scene.plain "none" "anon:scene" = ("", "anon:scene"))
  /\ (resolveFileName Scene.plain "none" "anon:scene").2
     <> ("anon:scene" ++ "." ++ _GetFallbackExtension Scene.plain "none")
  /\ _fileName (_BeginWriting Scene.plain "anon:scene" false
                  (newJob Scene.args ∅ "layer")).2 = "anon:scene"
  /\ EvOpenFile "anon:scene" false
       ∈ trace (_BeginWriting Scene.plain "anon:scene" false (newJob Scene.args ∅ "layer")).2.
Proof.
  split_and!.
  - intros H. apply list_elem_of_In in H. vm_compute in H.
    repeat (destruct H as [H|H]; [discriminate H|]). exact H.
  - reflexivity.
  - vm_compute. discriminate.
  - reflexivity.
  - apply list_elem_of_In. vm_compute. tauto.
Qed.

(** ** Export roots and modeling variants *)

Section ModelingVariant.

Variable E : Env.

(** C10.  In the modeling-variant mode, with more than one render layer in
    the scene and an export-root remapping configured, [_BeginWriting] (and
    so [Write]) fails with an error as the last event of the trace, the
    stage of the job is untouched and no layer has been opened; when the
    checks that come first pass, the error is the one that says export roots
    and modeling variants exclude each other. *)
Theorem export_roots_exclude_modeling_variant (fileName : string) (append : bool) (j : Job) :
  renderLayerMode (mArgs j) = modelingVariant (tokens E) ->
  1 < length (listAllRenderLayers E) ->
  rootMapFunctionIsNull (mArgs j) = false ->
  let j0 := normalizeDefaultPrim E (selectDefaultPrim E j) in
  let resolved := resolveFileName E (compatibility (mArgs j)) fileName in
  let r := _BeginWriting E fileName append j in
  r.1 = false
  /\ Write E fileName append j = (false, r.2)
  /\ mStage r.2 = mStage j
  /\ traceGrows (fun ev => negb (isOpenFile ev)) j r.2
  /\ exists ev, List.last (trace r.2) EvReleaseStage = ev /\ isError ev = true
       /\ (findOverlappingRoots (dagPaths (mArgs j)) = None ->
           (setupFileStructure E resolved.1 resolved.2 append j0).1 = true ->
           ev = EvDiagnostic ExportRootsWithModelingVariant).
Proof.
  intros Hmode Hlayers Hmap. simpl.
  pose proof (selectDefaultPrim_frame E j) as (Hd & Hc & Hm & Hr & Hst & Hfs & Htr).
  simpl in *.
  set (j0 := normalizeDefaultPrim E (selectDefaultPrim E j)) in *.
  assert (Hnot : forall j1 evs, traceGrows (fun ev => negb (isOpenFile ev)) j j1 ->
            forallb (fun ev => negb (isOpenFile ev)) evs = true ->
            traceGrows (fun ev => negb (isOpenFile ev)) j (emit evs j1)).
  { intros j1 evs H1 H2. eapply traceGrows_trans; [exact H1 | by apply traceGrows_emit]. }
  assert (Hmain :
    let r := _BeginWriting E fileName append j in
    r.1 = false /\ mStage r.2 = mStage j
    /\ traceGrows (fun ev => negb (isOpenFile ev)) j r.2
    /\ exists ev, List.last (trace r.2) EvReleaseStage = ev /\ isError ev = true
         /\ (findOverlappingRoots (dagPaths (mArgs j)) = None ->
             (setupFileStructure E (resolveFileName E (compatibility (mArgs j)) fileName).1
                (resolveFileName E (compatibility (mArgs j)) fileName).2 append j0).1 = true ->
             ev = EvDiagnostic ExportRootsWithModelingVariant)).
  { simpl. unfold _BeginWriting. fold j0. rewrite Hd, Hc.
    destruct (findOverlappingRoots (dagPaths (mArgs j))) as [[root1 root2]|].
    { simpl. split_and!; try done; [by apply Hnot|].
      eexists. split; [unfold emit; simpl; by rewrite last_last|]. done. }
    destruct (resolveFileName E (compatibility (mArgs j)) fileName) as [fileExt nameExt].
    simpl. unfold setupFileStructure.
    destruct (decide (fileExt = UsdFileExtensionPackage (tokens E))).
    - destruct append; simpl.
      { split_and!; try done; [by apply Hnot|].
        eexists. split; [unfold emit; simpl; by rewrite last_last|]. done. }
      destruct (decide _); simpl.
      { split_and!; try done.
        - apply (traceGrows_trans _ j (set_fileName
              (_MakeTmpStageName E (Tf.TfGetPathName nameExt)) j0)).
          + eapply traceGrows_trans; [exact Htr | by apply traceGrows_same].
          + by apply traceGrows_emit.
        - eexists. split; [unfold emit; simpl; by rewrite last_last|]. done. }
      unfold setupModelingVariant. simpl. rewrite Hm, Hmode, Hr, Hmap.
      rewrite decide_True by done. rewrite bool_decide_true by done. simpl.
      split_and!; try done.
      + eapply traceGrows_trans; [exact Htr|]. by eexists.
      + eexists. split; [by rewrite last_last|]. done.
    - simpl. unfold setupModelingVariant. simpl. rewrite Hm, Hmode, Hr, Hmap.
      rewrite decide_True by done. rewrite bool_decide_true by done. simpl.
      split_and!; try done.
      + eapply traceGrows_trans; [exact Htr|]. by eexists.
      + eexists. split; [by rewrite last_last|]. done. }
  simpl in Hmain. destruct Hmain as (H1 & H2 & H3 & H4).
  split_and!; try done.
  unfold Write. destruct (_BeginWriting E fileName append j) as [ok j1].
  simpl in H1. by rewrite H1.
Qed.

End ModelingVariant.

(** A scene with two render layers, exported as modeling variants with an
    export-root remapping. *)
Lemma export_roots_exclude_modeling_variant_witness :
  let E := Scene.env None false ["defaultRenderLayer"; "layer1"] (fun _ => []) (fun _ => false)
             (fun _ _ => true) (fun _ => true) true in
  let j := newJob (Scene.withOptions false false false "none" "modelingVariant" false
                     Scene.args) ∅ "defaultRenderLayer" in
  let r := _BeginWriting E "out.usda" false j in
  r.1 = false
  /\ Write E "out.usda" false j = (false, r.2)
  /\ mStage r.2 = mStage j
  /\ traceGrows (fun ev => negb (isOpenFile ev)) j r.2
  /\ exists ev, List.last (trace r.2) EvReleaseStage = ev /\ isError ev = true
       /\ (findOverlappingRoots (dagPaths (mArgs j)) = None ->
           (setupFileStructure E (resolveFileName E (compatibility (mArgs j)) "out.usda").1
              (resolveFileName E (compatibility (mArgs j)) "out.usda").2 false
              (normalizeDefaultPrim E (selectDefaultPrim E j))).1 = true ->
           ev = EvDiagnostic ExportRootsWithModelingVariant).
Proof.
  intros E j.
  apply (export_roots_exclude_modeling_variant E "out.usda" false j).
  - reflexivity.
  - simpl. lia.
  - reflexivity.
Defined.

(** ** Name clashes *)

Section NameClashes.

Variable E : Env.

Lemma traceGrows_OpenFile P fileName append j :
  P (EvOpenFile fileName append) = true ->
  traceGrows P j (_OpenFile E fileName append j).2.
Proof.
  intros HP. unfold _OpenFile.
  assert (Hem : traceGrows P j (emit [EvOpenFile fileName append] j)).
  { apply traceGrows_emit. simpl. by rewrite HP. }
  by destruct (OpenFile_stage E fileName append).
Qed.

Lemma traceGrows_setupFileStructure P fileExt nameExt append j :
  (forall d, P (EvDiagnostic d) = true) ->
  traceGrows P j (setupFileStructure E fileExt nameExt append j).2.
Proof.
  intros HP. unfold setupFileStructure.
  destruct (decide _); [|by apply traceGrows_same].
  destruct append; [apply traceGrows_emit; simpl; by rewrite HP|].
  destruct (decide _); simpl; [|by apply traceGrows_same].
  eexists. split; [reflexivity|]. simpl. by rewrite HP.
Qed.

(** A default export that succeeds has reported no name clash. *)
Lemma BeginWriting_ok_no_clash (fileName : string) (append : bool) (j : Job) :
  (_BeginWriting E fileName append j).1 = true ->
  traceGrows notNameClash j (_BeginWriting E fileName append j).2.
Proof.
  assert (H0 : traceGrows notNameClash j (normalizeDefaultPrim E (selectDefaultPrim E j))).
  { eapply traceGrows_weaken; [|apply selectDefaultPrim_trace]. by intros []. }
  unfold _BeginWriting.
  set (j0 := normalizeDefaultPrim E (selectDefaultPrim E j)) in *.
  destruct (findOverlappingRoots (dagPaths (mArgs j0))) as [[root1 root2]|]; [done|].
  destruct (resolveFileName E (compatibility (mArgs j0)) fileName) as [fileExt nameExt].
  pose proof (traceGrows_setupFileStructure (fun _ => true) fileExt nameExt append j0
                (fun _ => eq_refl)) as H1.
  assert (H1' : (setupFileStructure E fileExt nameExt append j0).1 = true ->
                trace (setupFileStructure E fileExt nameExt append j0).2 = trace j0).
  { unfold setupFileStructure. destruct (decide _); [|done].
    destruct append; [done|]. by destruct (decide _). }
  destruct (setupFileStructure E fileExt nameExt append j0) as [ok1 j1]. simpl in *.
  destruct ok1; [|done]. simpl. specialize (H1' eq_refl).
  assert (H2' : (setupModelingVariant E j1).1 = true ->
                trace (setupModelingVariant E j1).2 = trace j1).
  { unfold setupModelingVariant. destruct (decide _); [|done].
    destruct (bool_decide _); [|done]. by destruct (negb _). }
  destruct (setupModelingVariant E j1) as [ok2 j2]. simpl in *.
  destruct ok2; [|done]. simpl. specialize (H2' eq_refl).
  pose proof (traceGrows_OpenFile notNameClash (_fileName j2) append j2 eq_refl) as H3.
  destruct (_OpenFile E (_fileName j2) append j2) as [ok3 j3]. simpl in *.
  destruct ok3; [|done]. simpl. intros Hok.
  pose proof (grows_writeDefaultValues E (setupRenderLayer E (setupStage E j3))) as Hw.
  rewrite Hok in Hw.
  eapply traceGrows_trans; [exact H0|].
  apply (traceGrows_trans _ j0 j2); [apply traceGrows_same; congruence|].
  eapply traceGrows_trans; [exact H3|].
  eapply traceGrows_trans;
    [exact (proj2 (proj2 (keepsNames_setupStage E notNameClash j3 (fun _ _ => eq_refl))))|].
  eapply traceGrows_trans;
    [exact (proj2 (proj2 (keepsNames_setupRenderLayer E notNameClash (setupStage E j3)
                            (fun _ => eq_refl))))|].
  eapply traceGrows_weaken; [|exact (grows_traceGrows _ _ _ Hw)].
  intros ev. unfold isCleanDefaultExportEvent, notNameClash. by intros [_ ?]%andb_prop.
Qed.

End NameClashes.

(** ** Frames *)

Section Frames.

Variable E : Env.

Lemma frameRel_refl j : frameRel j j.
Proof. by split_and!. Qed.

Lemma frameRel_trans j1 j2 j3 : frameRel j1 j2 -> frameRel j2 j3 -> frameRel j1 j3.
Proof.
  intros (Ha & Hw & Hc & Hv & Hs) (Ha' & Hw' & Hc' & Hv' & Hs').
  split_and!; try congruence.
  intros l x H. by apply Hs', Hs.
Qed.

(** A change that leaves arguments, writers, chasers and stage alone. *)
Lemma frameRel_same j j' :
  mArgs j' = mArgs j -> mMayaPrimWriterList j' = mMayaPrimWriterList j ->
  mChasers j' = mChasers j -> mStage j' = mStage j -> frameRel j j'.
Proof.
  intros Ha Hw Hc Hs. split_and!; try done.
  - intros p. unfold primIsValid. by rewrite Hs.
  - intros l x (stage & d & H1 & H2 & H3). exists stage, d. by rewrite Hs.
Qed.

Lemma frameWrites_frameRel j j' t : frameRel j j' -> frameWrites j' t = frameWrites j t.
Proof.
  intros (_ & Hw & _ & Hv & _). unfold frameWrites. rewrite Hw. f_equal.
  apply list_filter_iff. intros w. by rewrite Hv.
Qed.

Lemma completedFrameEvents_frameRel j j' n t :
  frameRel j j' -> completedFrameEvents j' n t = completedFrameEvents j n t.
Proof.
  intros H. unfold completedFrameEvents. rewrite (frameWrites_frameRel j j' t H).
  destruct H as (-> & _ & -> & _). done.
Qed.

(** A write of a writer keeps the prims and adds its sample. *)
Lemma writerWrite_frameRel w t j : frameRel j (writerWrite w t j).
Proof.
  unfold writerWrite. destruct (writerPrimPath w) as [l|]; [|by apply frameRel_same].
  split_and!; try done.
  - intros p. unfold primIsValid, onStage. simpl. destruct (mStage j) as [stage|]; [|done].
    simpl. destruct p as [[|x p]|]; try done. simpl.
    apply bool_decide_ext. unfold Usd.alterPrim. simpl. apply lookup_alter_is_Some.
  - intros l0 x (stage & d & H1 & H2 & H3). unfold hasSample, onStage. simpl. rewrite H1.
    simpl. destruct (decide (l = l0)) as [->|Hne].
    + exists (Usd.alterPrim (Usd.addTimeSample t) l0 stage), (Usd.addTimeSample t d).
      split_and!; [done | |].
      * unfold Usd.alterPrim. simpl. by rewrite lookup_alter_eq, H2.
      * simpl. apply elem_of_app. by left.
    + exists (Usd.alterPrim (Usd.addTimeSample t) l stage), d. split_and!; [done | | done].
      unfold Usd.alterPrim. simpl. by rewrite lookup_alter_ne.
Qed.

Lemma writerWrite_sample w t j l :
  primIsValid j (writerPrimPath w) = true -> writerPrimPath w = Some l -> l <> [] ->
  hasSample (writerWrite w t j) l t.
Proof.
  intros Hvalid Hpath Hne. unfold writerWrite. rewrite Hpath.
  unfold primIsValid in Hvalid. rewrite Hpath in Hvalid.
  destruct (mStage j) as [stage|] eqn:Hstage; [|done]. simpl in Hvalid.
  destruct l as [|x l]; [done|]. simpl in Hvalid.
  apply bool_decide_eq_true in Hvalid as [d Hd].
  exists (Usd.alterPrim (Usd.addTimeSample t) (x :: l) stage), (Usd.addTimeSample t d).
  split_and!.
  - unfold onStage. simpl. by rewrite Hstage.
  - unfold Usd.alterPrim. simpl. by rewrite lookup_alter_eq, Hd.
  - simpl. apply elem_of_app. right. by left.
Qed.

Lemma writerWrite_trace w t j : trace (writerWrite w t j) = (trace j ++ [EvWrite w t])%list.
Proof. unfold writerWrite. by destruct (writerPrimPath w). Qed.

(** The writers of a frame. *)
Lemma writersWrite_spec (t : double) (writers : list PrimWriter) (j : Job) :
  let j' := writersWrite (TimeCode t) writers j in
  frameRel j j'
  /\ trace j'
     = (trace j ++ map (fun w => EvWrite w (TimeCode t))
                       (filter (fun w => primIsValid j (writerPrimPath w) = true) writers))%list
  /\ (forall w l, w ∈ writers -> primIsValid j (writerPrimPath w) = true ->
        writerPrimPath w = Some l -> l <> [] -> hasSample j' l (TimeCode t)).
Proof.
  revert j. induction writers as [|w ws IH]; intros j; simpl.
  - split_and!; [apply frameRel_refl | by rewrite app_nil_r | intros w l Hin; by inversion Hin].
  - set (j1 := if primIsValid j (writerPrimPath w) then writerWrite w (TimeCode t) j else j).
    assert (H1 : frameRel j j1).
    { unfold j1. destruct (primIsValid j _); [apply writerWrite_frameRel | apply frameRel_refl]. }
    destruct (IH j1) as (Hrel & Htrace & Hsample).
    split_and!.
    + by eapply frameRel_trans.
    + rewrite Htrace. rewrite filter_cons.
      assert (Hf : filter (fun w0 => primIsValid j1 (writerPrimPath w0) = true) ws
                   = filter (fun w0 => primIsValid j (writerPrimPath w0) = true) ws).
      { apply list_filter_iff. intros w0. destruct H1 as (_ & _ & _ & Hv & _). by rewrite Hv. }
      rewrite Hf. unfold j1. destruct (primIsValid j (writerPrimPath w)) eqn:Hvalid.
      * rewrite decide_True by done. rewrite writerWrite_trace. simpl.
        by rewrite <- app_assoc.
      * rewrite decide_False by done. done.
    + intros w0 l Hin Hvalid Hpath Hne. apply elem_of_cons in Hin as [->|Hin].
      * destruct Hrel as (_ & _ & _ & _ & Hs). apply Hs. unfold j1. rewrite Hvalid.
        by apply writerWrite_sample.
      * apply (Hsample w0 l Hin); [|done|done].
        destruct H1 as (_ & _ & _ & Hv & _). by rewrite Hv.
Qed.

(** The chasers of a frame. *)
Lemma chasersExportFrame_spec (t : double) (chasers : list Chaser) (j : Job) :
  let r := chasersExportFrame E t chasers j in
  r.1 = chasersSucceed E t chasers
  /\ frameRel j r.2
  /\ trace r.2 = (trace j ++ map (fun c => EvExportFrame c t) (chasersRun E t chasers))%list.
Proof.
  revert j. induction chasers as [|c cs IH]; intros j; simpl.
  - split_and!; [done | apply frameRel_refl | by rewrite app_nil_r].
  - destruct (ExportFrame E c t) eqn:Hc; simpl.
    + destruct (IH (emit [EvExportFrame c t] j)) as (Hr & Hrel & Htrace).
      split_and!; [done | |].
      * eapply frameRel_trans; [|exact Hrel]. by apply frameRel_same.
      * rewrite Htrace. simpl. by rewrite <- app_assoc.
    + split_and!; [done | by apply frameRel_same | done].
Qed.

Lemma chasersRun_succeed t chasers :
  chasersSucceed E t chasers = true -> chasersRun E t chasers = chasers.
Proof.
  induction chasers as [|c cs IH]; simpl; [done|].
  intros [Hc Hcs]%andb_prop. rewrite Hc. by rewrite IH.
Qed.

Lemma PerFrameCallback_spec j :
  frameRel j (_PerFrameCallback j)
  /\ trace (_PerFrameCallback j) = (trace j ++ perFrameCallbackEvents (mArgs j))%list.
Proof.
  unfold _PerFrameCallback, perFrameCallbackEvents.
  destruct (bool_decide (melPerFrameCallback (mArgs j) = "")); simpl;
    destruct (bool_decide (pythonPerFrameCallback (mArgs j) = "")); simpl;
    (split; [by apply frameRel_same|]); rewrite ?app_nil_r; try done.
  by rewrite <- app_assoc.
Qed.

(** [_WriteFrame]: the writers whose prim is valid, then the chasers up to
    the first that fails, then the callback when none fails. *)
Lemma WriteFrame_spec (t : double) (j : Job) :
  let r := _WriteFrame E t j in
  r.1 = chasersSucceed E t (mChasers j)
  /\ frameRel j r.2
  /\ trace r.2
     = (trace j ++ frameWrites j t
        ++ map (fun c => EvExportFrame c t) (chasersRun E t (mChasers j))
        ++ (if chasersSucceed E t (mChasers j) then perFrameCallbackEvents (mArgs j) else []))%list
  /\ (forall w l, w ∈ mMayaPrimWriterList j -> primIsValid j (writerPrimPath w) = true ->
        writerPrimPath w = Some l -> l <> [] -> hasSample r.2 l (TimeCode t)).
Proof.
  simpl. unfold _WriteFrame.
  destruct (writersWrite_spec t (mMayaPrimWriterList j) j) as (Hrel1 & Htr1 & Hs1).
  set (j1 := writersWrite (TimeCode t) (mMayaPrimWriterList j) j) in *.
  destruct (chasersExportFrame_spec t (mChasers j1) j1) as (Hok & Hrel2 & Htr2).
  assert (Hch : mChasers j1 = mChasers j) by by destruct Hrel1 as (_ & _ & ? & _).
  rewrite Hch in *.
  destruct (chasersExportFrame E t (mChasers j) j1) as [ok j2]. simpl in *. subst ok.
  assert (Hrel12 : frameRel j j2) by by eapply frameRel_trans.
  destruct (chasersSucceed E t (mChasers j)); simpl.
  - destruct (PerFrameCallback_spec j2) as (Hrel3 & Htr3).
    split_and!; [done | by eapply frameRel_trans | |].
    + rewrite Htr3, Htr2, Htr1. unfold frameWrites.
      destruct Hrel12 as (-> & _). by rewrite <- !app_assoc.
    + intros w l Hin Hv Hp Hne. destruct Hrel3 as (_ & _ & _ & _ & Hs3).
      destruct Hrel2 as (_ & _ & _ & _ & Hs2). by apply Hs3, Hs2, (Hs1 w l).
  - split_and!; [done | done | |].
    + rewrite Htr2, Htr1. unfold frameWrites. by rewrite app_nil_r, <- !app_assoc.
    + intros w l Hin Hv Hp Hne. destruct Hrel2 as (_ & _ & _ & _ & Hs2).
      by apply Hs2, (Hs1 w l).
Qed.

Lemma completedFramesEvents_frameRel j j' n ts :
  frameRel j j' -> completedFramesEvents j' n ts = completedFramesEvents j n ts.
Proof.
  intros H. revert n. induction ts as [|t ts IH]; intros n; [done|].
  cbn [completedFramesEvents]. by rewrite IH, (completedFrameEvents_frameRel j j' n t H).
Qed.

(** The loop over the time samples, as long as the chasers succeed and no
    interrupt is requested. *)
Lemma writeTimeSamples_completed (oldCurTime : double) (pre rest : list double) (n : nat)
    (j : Job) :
  (forall t, t ∈ pre -> chasersSucceed E t (mChasers j) = true) ->
  (forall i, i < length pre -> isInterruptRequested E (n + i) = false) ->
  exists j',
    writeTimeSamples E oldCurTime n (pre ++ rest) j
    = writeTimeSamples E oldCurTime (n + length pre) rest j'
    /\ frameRel j j'
    /\ trace j' = (trace j ++ completedFramesEvents j n pre)%list
    /\ (forall t w l, t ∈ pre -> w ∈ mMayaPrimWriterList j ->
          primIsValid j (writerPrimPath w) = true -> writerPrimPath w = Some l -> l <> [] ->
          hasSample j' l (TimeCode t)).
Proof.
  revert n j. induction pre as [|t pre IH]; intros n j Hch Hint.
  - exists j. simpl. rewrite Nat.add_0_r, app_nil_r.
    split_and!; [done | apply frameRel_refl | done |]. intros t w l Hin. by inversion Hin.
  - simpl.
    assert (Hv : frameRel j (viewFrame t j)) by by apply frameRel_same.
    destruct (WriteFrame_spec t (viewFrame t j)) as (Hok & Hrel & Htr & Hs).
    assert (Hc : mChasers (viewFrame t j) = mChasers j) by done.
    rewrite Hc in *. rewrite (Hch t) in * by left.
    destruct (_WriteFrame E t (viewFrame t j)) as [ok j2]. simpl in *. subst ok. simpl.
    specialize (Hint 0 ltac:(lia)) as Hint0. rewrite Nat.add_0_r in Hint0. rewrite Hint0.
    set (j3 := emit [EvInterruptPoll n] j2).
    assert (Hrel3 : frameRel j j3).
    { eapply frameRel_trans; [exact Hv|]. eapply frameRel_trans; [exact Hrel|].
      by apply frameRel_same. }
    destruct (IH (S n) j3) as (j' & Heq & Hrel' & Htr' & Hs').
    { intros t' Hin. destruct Hrel3 as (_ & _ & -> & _). apply Hch. by right. }
    { intros i Hi. replace (S n + i) with (n + S i) by lia. apply Hint. lia. }
    exists j'. split_and!.
    + rewrite Heq. f_equal. lia.
    + by eapply frameRel_trans.
    + rewrite Htr'. rewrite (completedFramesEvents_frameRel j j3 _ _ Hrel3).
      unfold j3. simpl. rewrite Htr. simpl. unfold completedFrameEvents.
      rewrite (frameWrites_frameRel j (viewFrame t j) t Hv).
      rewrite (chasersRun_succeed t (mChasers j)) by (apply Hch; left).
      rewrite <- !app_assoc. simpl. rewrite <- ?app_assoc. done.
    + intros t' w l Hin Hw Hvalid Hpath Hne. apply elem_of_cons in Hin as [->|Hin].
      * destruct Hrel' as (_ & _ & _ & _ & Hs2). apply Hs2.
        assert (Hs3 : hasSample j2 l (TimeCode t)).
        { apply (Hs w l); try done. }
        destruct Hs3 as (stage & d & H1 & H2 & H3). by exists stage, d.
      * apply (Hs' t' w l); try done.
        -- destruct Hrel3 as (_ & -> & _). done.
        -- destruct Hrel3 as (_ & _ & _ & Hv3 & _). by rewrite Hv3.
Qed.

End Frames.

Section FrameFailure.

Variable E : Env.

(** C3.  A frame writes with every recorded writer whose prim is valid,
    then runs the per-frame hooks of the chasers in their order up to the
    first that fails, and runs the per-frame callback only when none fails.
    When, after frames that were completed without interrupt, a chaser fails
    in the frame at [t], [Write] returns false; its trace holds the completed
    frames, the aborted frame without callback, and the reset of the time,
    and nothing of the later frames or of the finalization; the job still
    holds its stage, with the samples of the completed frames. *)
Theorem chaser_frame_failure_aborts :
  (forall (t : double) (j : Job),
     (_WriteFrame E t j).1 = chasersSucceed E t (mChasers j)
     /\ trace (_WriteFrame E t j).2
        = (trace j ++ frameWrites j t
           ++ map (fun c => EvExportFrame c t) (chasersRun E t (mChasers j))
           ++ (if chasersSucceed E t (mChasers j)
               then perFrameCallbackEvents (mArgs j) else []))%list)
  /\ (forall (fileName : string) (append : bool) (j jb : Job)
             (pre post : list double) (t : double),
        _BeginWriting E fileName append j = (true, jb) ->
        timeSamplesArg (mArgs j) = (pre ++ t :: post)%list ->
        (forall t', t' ∈ pre -> chasersSucceed E t' (mChasers jb) = true) ->
        (forall i, i < length pre -> isInterruptRequested E (1 + i) = false) ->
        chasersSucceed E t (mChasers jb) = false ->
        let r := Write E fileName append j in
        r.1 = false
        /\ trace r.2
           = (trace jb ++ completedFramesEvents jb 1 pre ++ abortedFrameEvents E jb t
              ++ [EvViewFrame (sceneTime jb)])%list
        /\ frameRel jb r.2
        /\ (forall t' w l, t' ∈ pre -> w ∈ mMayaPrimWriterList jb ->
              primIsValid jb (writerPrimPath w) = true ->
              writerPrimPath w = Some l -> l <> [] ->
              hasSample r.2 l (TimeCode t'))).
Proof.
  split.
  - intros t j. destruct (WriteFrame_spec E t j) as (H1 & _ & H2 & _). by split.
  - intros fileName append j jb pre post t Hbegin Hts Hpre Hint Hfail. simpl.
    unfold Write. rewrite Hbegin, Hts. simpl.
    assert (Hnonempty :
      match (pre ++ t :: post)%list with
      | [] => (true, jb)
      | _ :: _ =>
          let '(ok, j0) := writeTimeSamples E (sceneTime jb) 1 (pre ++ t :: post)%list jb in
          if negb ok then (false, j0) else (true, viewFrame (sceneTime jb) j0)
      end
      = let '(ok, j0) := writeTimeSamples E (sceneTime jb) 1 (pre ++ t :: post)%list jb in
        if negb ok then (false, j0) else (true, viewFrame (sceneTime jb) j0)).
    { by destruct pre. }
    rewrite Hnonempty. clear Hnonempty.
    destruct (writeTimeSamples_completed E (sceneTime jb) pre (t :: post) 1 jb Hpre Hint)
      as (j1 & Heq & Hrel & Htr & Hs).
    rewrite Heq. simpl.
    assert (Hv : frameRel j1 (viewFrame t j1)) by by apply frameRel_same.
    destruct (WriteFrame_spec E t (viewFrame t j1)) as (Hok & Hrel2 & Htr2 & _).
    assert (Hc : mChasers (viewFrame t j1) = mChasers jb).
    { destruct Hrel as (_ & _ & Hc & _). exact Hc. }
    rewrite Hc, Hfail in *.
    destruct (_WriteFrame E t (viewFrame t j1)) as [ok j2]. simpl in *. subst ok. simpl.
    assert (Hrel12 : frameRel jb j2).
    { eapply frameRel_trans; [exact Hrel|]. by eapply frameRel_trans. }
    split_and!; [done | | |].
    + rewrite Htr2. simpl. rewrite Htr. unfold abortedFrameEvents.
      rewrite (frameWrites_frameRel jb (viewFrame t j1) t (frameRel_trans jb j1 _ Hrel Hv)).
      rewrite app_nil_r. rewrite <- !app_assoc. simpl. rewrite <- ?app_assoc. done.
    + eapply frameRel_trans; [exact Hrel12|]. by apply frameRel_same.
    + intros t' w l Hin Hw Hvalid Hpath Hne.
      assert (Hs2 : hasSample j2 l (TimeCode t')).
      { destruct Hrel2 as (_ & _ & _ & _ & Hs2). apply Hs2.
        destruct (Hs t' w l Hin Hw Hvalid Hpath Hne) as (stage & d & H1 & H2 & H3).
        by exists stage, d. }
      destruct Hs2 as (stage & d & H1 & H2 & H3). by exists stage, d.
Qed.

End FrameFailure.

(** Three time samples and two chasers, of which the first fails in the
    second frame: the job stops there and keeps the samples of the first
    frame. *)
Lemma chaser_frame_failure_aborts_witness :
  let E := Scene.env None false ["defaultRenderLayer"] (fun _ => []) (fun _ => false)
             (fun c t => negb (String.eqb c "c1" && PrimFloat.eqb t 2%float))
             (fun _ => true) true in
  let j := newJob (Scene.withAnimation [1%float; 2%float; 3%float] ["c1"; "c2"]
                     (Scene.withRoots [] [["grp"]] Scene.args)) ∅ "defaultRenderLayer" in
  let jb := (_BeginWriting E "out.usda" false j).2 in
  let r := Write E "out.usda" false j in
  r.1 = false
  /\ trace r.2
     = (trace jb ++ completedFramesEvents jb 1 [1%float] ++ abortedFrameEvents E jb 2%float
        ++ [EvViewFrame (sceneTime jb)])%list
  /\ frameRel jb r.2
  /\ (forall t' w l, t' ∈ [1%float] -> w ∈ mMayaPrimWriterList jb ->
        primIsValid jb (writerPrimPath w) = true ->
        writerPrimPath w = Some l -> l <> [] ->
        hasSample r.2 l (TimeCode t')).
Proof.
  intros E j jb.
  apply (proj2 (chaser_frame_failure_aborts E) "out.usda" false j jb
           [1%float] [3%float] 2%float).
  - vm_compute. reflexivity.
  - reflexivity.
  - intros t' Hin. apply list_elem_of_singleton in Hin. subst t'. vm_compute. reflexivity.
  - intros i Hi. reflexivity.
  - vm_compute. reflexivity.
Defined.

(** ** Finalization *)

Section Finish.

Variable E : Env.

Lemma finishRel_refl j : finishRel j j.
Proof. split; [apply grows_refl | done]. Qed.

Lemma finishRel_trans j1 j2 j3 : finishRel j1 j2 -> finishRel j2 j3 -> finishRel j1 j3.
Proof. intros [H1 H1'] [H2 H2']. split; [by eapply grows_trans | congruence]. Qed.

Lemma finishRel_step j1 j2 j3 : finishRel j2 j3 -> finishRel j1 j2 -> finishRel j1 j3.
Proof. intros H23 H12. by apply (finishRel_trans j1 j2 j3). Qed.

Lemma finishRel_same j j' :
  mArgs j' = mArgs j -> _fileName j' = _fileName j -> _packageName j' = _packageName j ->
  fileSystem j' = fileSystem j -> trace j' = trace j -> mChasers j' = mChasers j ->
  finishRel j j'.
Proof. intros. split; [by apply grows_same | done]. Qed.

Lemma finishRel_emit evs j : forallb isFinishEvent evs = true -> finishRel j (emit evs j).
Proof. intros H. split; [by apply grows_emit | done]. Qed.

Lemma finishRel_onStage f j : finishRel j (onStage f j).
Proof. by apply finishRel_same. Qed.

Lemma finishRel_editRenderLayerGlobals name j : finishRel j (editRenderLayerGlobals name j).
Proof.
  unfold editRenderLayerGlobals.
  eapply finishRel_step; [by apply finishRel_same | by apply finishRel_emit].
Qed.

Lemma finishRel_writeVariantOfLayer root acc layer :
  finishRel acc.2 (writeVariantOfLayer E root acc layer).2.
Proof.
  destruct acc as [dmv j]. unfold writeVariantOfLayer. simpl.
  pose proof (finishRel_editRenderLayerGlobals layer j) as H1.
  destruct (activePathsOfLayer E root layer (editRenderLayerGlobals layer j)); simpl; [done|].
  repeat (eapply finishRel_step; [apply finishRel_onStage|]). exact H1.
Qed.

Lemma finishRel_WriteVariants root j : finishRel j (_WriteVariants E root j).2.
Proof.
  unfold _WriteVariants.
  set (j1 := onStage _ (onStage _ (onStage _ (onStage _ j)))).
  assert (H1 : finishRel j j1).
  { unfold j1. repeat (eapply finishRel_step; [apply finishRel_onStage|]).
    apply finishRel_refl. }
  assert (Hfold : forall layers acc, finishRel j acc.2 ->
            finishRel j (foldl (writeVariantOfLayer E (variantRootPrimPath j)) acc layers).2).
  { induction layers as [|layer layers IH]; intros acc Hacc; simpl; [done|].
    apply IH. eapply finishRel_trans; [exact Hacc | apply finishRel_writeVariantOfLayer]. }
  specialize (Hfold (mRenderLayerObjs j1) ("", j1) H1).
  destruct (foldl _ _ _) as [dmv j2]. simpl in *.
  destruct (primIsValid j2 _); simpl; [|done].
  eapply finishRel_trans; [exact Hfold | apply finishRel_onStage].
Qed.

Lemma finishRel_finishDefaultPrim j : finishRel j (finishDefaultPrim E j).
Proof.
  unfold finishDefaultPrim.
  set (usdRootPrim := head _).
  set (r := match usdRootPrim with
            | Some root => if _ && _ then _WriteVariants E root j else (_, j)
            | None => (_, j)
            end).
  assert (H1 : finishRel j r.2).
  { unfold r. destruct usdRootPrim; [|apply finishRel_refl].
    destruct (_ && _); [apply finishRel_WriteVariants | apply finishRel_refl]. }
  destruct r as [name j1]. simpl in H1.
  set (j2 := if bool_decide (sceneRenderLayer j1 = mCurrentRenderLayerName j1) then j1
             else editRenderLayerGlobals (mCurrentRenderLayerName j1) j1).
  assert (H2 : finishRel j j2).
  { unfold j2. destruct (bool_decide _); [done|].
    eapply finishRel_trans; [exact H1 | apply finishRel_editRenderLayerGlobals]. }
  set (j3 := if negb _ then emit [EvDiagnostic DistanceUnitWarning] j2 else j2).
  assert (H3 : finishRel j j3).
  { unfold j3. destruct (negb _); [|done].
    eapply finishRel_trans; [exact H2 | by apply finishRel_emit]. }
  set (j4 := if exportDistanceUnit (mArgs j3) then _ else j3).
  assert (H4 : finishRel j j4).
  { unfold j4. destruct (exportDistanceUnit _); [|done].
    eapply finishRel_trans; [exact H3 | apply finishRel_onStage]. }
  destruct (negb (bool_decide (defaultPrim (mArgs j4) = ""))).
  - destruct (negb (bool_decide (defaultPrim (mArgs j4) = "None"))); [|exact H4].
    eapply finishRel_trans; [exact H4 | apply finishRel_onStage].
  - destruct usdRootPrim; [|exact H4].
    eapply finishRel_trans; [exact H4 | apply finishRel_onStage].
Qed.

Lemma finishRel_writersPostExport writers j :
  finishRel j (foldl (fun j primWriter => emit [EvWriterPostExport primWriter] j) j writers).
Proof.
  revert j. induction writers as [|w ws IH]; intros j; simpl; [apply finishRel_refl|].
  eapply finishRel_trans; [|apply IH]. by apply finishRel_emit.
Qed.

Lemma finishRel_chasersPostExport chasers j :
  finishRel j (chasersPostExport E chasers j).2
  /\ ((forall c, c ∈ chasers -> PostExport E c = true) ->
      (chasersPostExport E chasers j).1 = true).
Proof.
  revert j. induction chasers as [|c cs IH]; intros j; simpl.
  - split; [apply finishRel_refl | done].
  - destruct (PostExport E c) eqn:Hc; simpl.
    + destruct (IH (set_extrasPrimsPaths
                      (_extrasPrimsPaths (emit [EvChaserPostExport c] j)
                       ++ GetExtraPrimsPaths E c)%list
                      (emit [EvChaserPostExport c] j))) as [H1 H2].
      split.
      * eapply finishRel_step; [exact H1|].
        eapply finishRel_step; [by apply finishRel_same | by apply finishRel_emit].
      * intros Hall. apply H2. intros c' Hin. apply Hall. by right.
    + split; [by apply finishRel_emit|]. intros Hall.
      rewrite Hall in Hc by left. done.
Qed.

Lemma finishRel_PostCallback j : finishRel j (_PostCallback j).
Proof.
  unfold _PostCallback.
  destruct (bool_decide (melPostCallback (mArgs j) = "")); simpl;
    destruct (bool_decide _); simpl; try apply finishRel_refl; try by apply finishRel_emit.
  eapply finishRel_step; by apply finishRel_emit.
Qed.

Lemma finishRel_PruneEmpties j : finishRel j (_PruneEmpties j).
Proof.
  unfold _PruneEmpties. destruct (includeEmptyTransforms _); [apply finishRel_refl|].
  destruct (mStage j); [by apply finishRel_same | apply finishRel_refl].
Qed.

(** [_FinishWriting] up to the release: when the post-export hooks of all
    chasers succeed, it ends in [saveAndRelease]. *)
Lemma FinishWriting_ok (j : Job) :
  (forall c, c ∈ mChasers j -> PostExport E c = true) ->
  exists j1, finishRel j j1 /\ _FinishWriting E j = (true, saveAndRelease E j1).
Proof.
  intros Hall. unfold _FinishWriting.
  pose proof (finishRel_finishDefaultPrim j) as H1.
  set (j1 := finishDefaultPrim E j) in *.
  pose proof (finishRel_writersPostExport (mMayaPrimWriterList j1) j1) as H2.
  set (j2 := foldl _ j1 _) in *.
  set (j3 := set_extrasPrimsPaths [] j2).
  assert (H3 : finishRel j j3).
  { eapply finishRel_trans; [exact H1|]. eapply finishRel_trans; [exact H2|].
    by apply finishRel_same. }
  destruct (finishRel_chasersPostExport (mChasers j3) j3) as [H4 H5].
  assert (Hok : (chasersPostExport E (mChasers j3) j3).1 = true).
  { apply H5. intros c Hin. apply Hall. destruct H3 as [_ <-]. exact Hin. }
  destruct (chasersPostExport E (mChasers j3) j3) as [ok j4]. simpl in *. subst ok. simpl.
  eexists. split; [|reflexivity].
  eapply finishRel_trans; [exact H3|]. eapply finishRel_trans; [exact H4|].
  eapply finishRel_trans; [apply finishRel_PostCallback | apply finishRel_PruneEmpties].
Qed.

(** The events of [saveAndRelease], in their order: the scene is restored,
    the layer is saved when this is permitted, the package is created when
    one was asked for, stage and writers are released, and the temporary
    stage file of a package is deleted. *)
Lemma saveAndRelease_spec (j : Job) :
  let j' := saveAndRelease E j in
  trace j'
  = (trace j
     ++ (if _autoAxisAndUnitsChanger j then [EvRestoreUpAxisAndUnits] else [])
     ++ (if PermissionToSave E (_fileName j) then [EvSave (_fileName j)] else [])
     ++ (if bool_decide (_packageName j = "") then [] else packageEvents E j)
     ++ [EvReleaseStage; EvReleaseWriters]
     ++ (if bool_decide (_packageName j = "") then [] else [EvDeleteFile (_fileName j)]))%list
  /\ mStage j' = None /\ mMayaPrimWriterList j' = []
  /\ (_packageName j <> "" -> _fileName j ∉ fileSystem j').
Proof.
  simpl. unfold saveAndRelease.
  set (j1 := if _autoAxisAndUnitsChanger j then _ else j).
  assert (H1 : trace j1 = (trace j ++ (if _autoAxisAndUnitsChanger j
                                       then [EvRestoreUpAxisAndUnits] else []))%list
               /\ _fileName j1 = _fileName j /\ _packageName j1 = _packageName j
               /\ mArgs j1 = mArgs j).
  { unfold j1. destruct (_autoAxisAndUnitsChanger j); simpl; [done|]. by rewrite app_nil_r. }
  destruct H1 as (Ht1 & Hf1 & Hp1 & Ha1).
  set (j2 := if PermissionToSave E (_fileName j1) then _ else j1).
  assert (H2 : trace j2 = (trace j1 ++ (if PermissionToSave E (_fileName j)
                                        then [EvSave (_fileName j)] else []))%list
               /\ _fileName j2 = _fileName j /\ _packageName j2 = _packageName j
               /\ mArgs j2 = mArgs j).
  { unfold j2. rewrite Hf1. destruct (PermissionToSave E (_fileName j)); simpl.
    - by rewrite Hf1.
    - by rewrite app_nil_r. }
  destruct H2 as (Ht2 & Hf2 & Hp2 & Ha2).
  set (j3 := if bool_decide (_packageName j2 = "") then j2 else _CreatePackage E j2).
  assert (H3 : trace j3 = (trace j2 ++ (if bool_decide (_packageName j = "") then []
                                        else packageEvents E j))%list
               /\ _fileName j3 = _fileName j /\ _packageName j3 = _packageName j).
  { unfold j3. rewrite Hp2. destruct (bool_decide (_packageName j = "")).
    - by rewrite app_nil_r.
    - unfold _CreatePackage, packageEvents. simpl. rewrite ?Hf2, ?Hp2, ?Ha2.
      destruct (bool_decide (compatibility (mArgs j) = appleArKit (tokens E))); simpl.
      + destruct (UsdUtilsCreateNewARKitUsdzPackage E (_fileName j) (_packageName j) _);
          simpl; rewrite ?Hf2, ?Hp2; [done|].
        by rewrite <- app_assoc.
      + destruct (UsdUtilsCreateNewUsdzPackage E (_fileName j) (_packageName j) _);
          simpl; rewrite ?Hf2, ?Hp2; [done|].
        by rewrite <- app_assoc. }
  destruct H3 as (Ht3 & Hf3 & Hp3).
  simpl. rewrite Hp3, Hf3.
  destruct (bool_decide (_packageName j = "")) eqn:Hpkg; simpl.
  - rewrite Ht3, Ht2, Ht1. split_and!; try done.
    + rewrite !app_nil_r. by rewrite <- !app_assoc.
    + intros Hne. by apply bool_decide_eq_true in Hpkg.
  - rewrite Ht3, Ht2, Ht1. split_and!; try done.
    + rewrite <- !app_assoc. done.
    + intros _. rewrite elem_of_difference. intros [_ Hn]. apply Hn.
      by apply elem_of_singleton.
Qed.

End Finish.

Section Packaging.

Variable E : Env.

Lemma packageEvents_finishRel j j' :
  finishRel j j' -> packageEvents E j' = packageEvents E j.
Proof.
  intros [(Ha & Hf & Hp & _) _]. unfold packageEvents. by rewrite Ha, Hf, Hp.
Qed.

Lemma traceGrows_saveAndRelease j : traceGrows isFinishEvent j (saveAndRelease E j).
Proof.
  destruct (saveAndRelease_spec E j) as (Ht & _). simpl in Ht.
  eexists. split; [exact Ht|].
  rewrite !forallb_app.
  destruct (_autoAxisAndUnitsChanger j), (PermissionToSave E (_fileName j)),
    (bool_decide (_packageName j = "")); simpl; try done;
    unfold packageEvents; simpl;
    destruct (bool_decide (compatibility (mArgs j) = appleArKit (tokens E))); simpl;
    try (by destruct (UsdUtilsCreateNewARKitUsdzPackage E _ _ _));
    by destruct (UsdUtilsCreateNewUsdzPackage E _ _ _).
Qed.

(** C8.  With a package destination, when the post-export hooks of the
    chasers succeed, [_FinishWriting] returns true whatever the packaging
    does.  Its trace ends with: the save of the temporary layer (when saving
    is permitted), then the packaging (with its error when it fails), then
    the release of the stage and of the writers, then the deletion of the
    temporary file; at the end the job holds neither stage nor writers and
    the temporary file is not among the files. *)
Theorem packaging_failure_does_not_fail_finish (j : Job) :
  _packageName j <> "" ->
  (forall c, c ∈ mChasers j -> PostExport E c = true) ->
  let r := _FinishWriting E j in
  r.1 = true
  /\ mStage r.2 = None
  /\ mMayaPrimWriterList r.2 = []
  /\ (_fileName j ∉ fileSystem r.2)
  /\ exists before,
       trace r.2
       = (before
          ++ (if PermissionToSave E (_fileName j) then [EvSave (_fileName j)] else [])
          ++ packageEvents E j
          ++ [EvReleaseStage; EvReleaseWriters; EvDeleteFile (_fileName j)])%list.
Proof.
  intros Hpkg Hall. simpl.
  destruct (FinishWriting_ok E j Hall) as (j1 & Hrel & ->). simpl.
  destruct (saveAndRelease_spec E j1) as (Ht & Hs & Hw & Hfs). simpl in *.
  pose proof (packageEvents_finishRel j j1 Hrel) as Hpe.
  destruct Hrel as [(Ha & Hf & Hp & _) _].
  rewrite Hf, Hp in *. rewrite Hpe in Ht.
  split_and!; try done; [by apply Hfs|].
  rewrite bool_decide_false in Ht by done.
  eexists. rewrite Ht. rewrite app_assoc. reflexivity.
Qed.

End Packaging.

(** An export to [out.usdz] in a scene where the packaging fails. *)
Lemma packaging_failure_does_not_fail_finish_witness :
  let E := Scene.env None false ["defaultRenderLayer"] (fun _ => []) (fun _ => false)
             (fun _ _ => true) (fun _ => true) false in
  let j := (_BeginWriting E "out.usdz" false
              (newJob (Scene.withRoots [] [["grp"]] Scene.args) ∅ "defaultRenderLayer")).2 in
  let r := _FinishWriting E j in
  r.1 = true
  /\ mStage r.2 = None
  /\ mMayaPrimWriterList r.2 = []
  /\ (_fileName j ∉ fileSystem r.2)
  /\ exists before,
       trace r.2
       = (before
          ++ (if PermissionToSave E (_fileName j) then [EvSave (_fileName j)] else [])
          ++ packageEvents E j
          ++ [EvReleaseStage; EvReleaseWriters; EvDeleteFile (_fileName j)])%list.
Proof.
  intros E j. apply (packaging_failure_does_not_fail_finish E j).
  - vm_compute. discriminate.
  - intros c _. reflexivity.
Defined.

Section Cancellation.

Variable E : Env.

Lemma completedFramesEvents_app j n ts1 ts2 :
  completedFramesEvents j n (ts1 ++ ts2)
  = (completedFramesEvents j n ts1 ++ completedFramesEvents j (n + length ts1) ts2)%list.
Proof.
  revert n. induction ts1 as [|t ts1 IH]; intros n.
  - simpl. by rewrite Nat.add_0_r.
  - cbn [completedFramesEvents app length]. rewrite IH, <- app_assoc.
    by replace (S n + length ts1) with (n + S (length ts1)) by lia.
Qed.

(** C4.  When the interrupt flag is raised at the poll that follows the
    [k]-th frame and not before ([pre] are the first [k] time samples), and
    no chaser fails, [Write] returns true; its trace holds the [k] frames,
    each one whole and followed by its poll, then the reset of the time and
    events of the finalization only: no write of a writer and no per-frame
    hook of a chaser for a later time sample.  The finalization has run to
    its end: the job holds neither stage nor writers. *)
Theorem cancellation_between_frames (fileName : string) (append : bool) (j jb : Job)
    (pre post : list double) :
  _BeginWriting E fileName append j = (true, jb) ->
  timeSamplesArg (mArgs j) = (pre ++ post)%list ->
  pre <> [] ->
  (forall t, t ∈ pre -> chasersSucceed E t (mChasers jb) = true) ->
  (forall i, 1 <= i < length pre -> isInterruptRequested E i = false) ->
  isInterruptRequested E (length pre) = true ->
  (forall c, c ∈ mChasers jb -> PostExport E c = true) ->
  let r := Write E fileName append j in
  r.1 = true
  /\ mStage r.2 = None
  /\ mMayaPrimWriterList r.2 = []
  /\ exists finish,
       trace r.2
       = (trace jb ++ completedFramesEvents jb 1 pre ++ [EvViewFrame (sceneTime jb)]
          ++ finish)%list
       /\ forallb isFinishEvent finish = true.
Proof.
  intros Hbegin Hts Hne Hpre Hint Hlast Hpost. simpl.
  destruct pre as [|t0 pre0] using rev_ind; [done|]. clear IHpre0 Hne.
  rename pre0 into pre, t0 into tk.
  unfold Write. rewrite Hbegin, Hts. simpl.
  assert (Hnonempty :
    match ((pre ++ [tk]) ++ post)%list with
    | [] => (true, jb)
    | _ :: _ =>
        let '(ok, j0) := writeTimeSamples E (sceneTime jb) 1 ((pre ++ [tk]) ++ post)%list jb in
        if negb ok then (false, j0) else (true, viewFrame (sceneTime jb) j0)
    end
    = let '(ok, j0) := writeTimeSamples E (sceneTime jb) 1 ((pre ++ [tk]) ++ post)%list jb in
      if negb ok then (false, j0) else (true, viewFrame (sceneTime jb) j0)).
  { by destruct pre. }
  rewrite Hnonempty. clear Hnonempty.
  rewrite <- app_assoc. simpl.
  destruct (writeTimeSamples_completed E (sceneTime jb) pre (tk :: post) 1 jb)
    as (j1 & Heq & Hrel & Htr & _).
  { intros t Hin. apply Hpre. apply elem_of_app. by left. }
  { intros i Hi. apply Hint. rewrite length_app. simpl. lia. }
  rewrite Heq. simpl.
  assert (Hv : frameRel j1 (viewFrame tk j1)) by by apply frameRel_same.
  destruct (WriteFrame_spec E tk (viewFrame tk j1)) as (Hok & Hrel2 & Htr2 & _).
  assert (Hc : mChasers (viewFrame tk j1) = mChasers jb).
  { destruct Hrel as (_ & _ & Hc & _). exact Hc. }
  rewrite Hc in *. rewrite (Hpre tk) in * by (apply elem_of_app; right; by left).
  destruct (_WriteFrame E tk (viewFrame tk j1)) as [ok j2]. simpl in *. subst ok. simpl.
  rewrite length_app in Hlast. simpl in Hlast.
  replace (length pre + 1) with (S (length pre)) in Hlast by lia. rewrite Hlast. simpl.
  set (j3 := viewFrame (sceneTime jb) (emit [EvInterruptPoll (S (length pre))] j2)).
  assert (Hrel3 : frameRel jb j3).
  { eapply frameRel_trans; [exact Hrel|]. eapply frameRel_trans; [exact Hv|].
    eapply frameRel_trans; [exact Hrel2|]. by apply frameRel_same. }
  assert (Htr3 : trace j3 = (trace jb ++ completedFramesEvents jb 1 (pre ++ [tk])
                             ++ [EvViewFrame (sceneTime jb)])%list).
  { unfold j3. simpl. rewrite Htr2. simpl. rewrite Htr.
    rewrite completedFramesEvents_app. simpl. unfold completedFrameEvents.
    rewrite (frameWrites_frameRel jb (viewFrame tk j1) tk (frameRel_trans jb j1 _ Hrel Hv)).
    rewrite (chasersRun_succeed E tk (mChasers jb))
      by (apply Hpre; apply elem_of_app; right; by left).
    rewrite app_nil_r. destruct Hrel as (-> & _).
    rewrite <- !app_assoc. simpl. rewrite <- ?app_assoc. done. }
  destruct (FinishWriting_ok E j3) as (j4 & Hfin & ->).
  { intros c Hin. apply Hpost. destruct Hrel3 as (_ & _ & <- & _). exact Hin. }
  pose proof (saveAndRelease_spec E j4) as Hsr. cbv zeta in Hsr.
  destruct Hsr as (_ & Hs & Hw & _).
  cbn [fst snd negb]. split_and!; [done | done | done |].
  destruct Hfin as [(_ & _ & _ & _ & evs1 & Ht1 & He1) _].
  destruct (traceGrows_saveAndRelease E j4) as (evs2 & Ht2 & He2).
  exists (evs1 ++ evs2)%list. split.
  - rewrite Ht2, Ht1, Htr3. by rewrite <- !app_assoc.
  - rewrite forallb_app. by rewrite He1, He2.
Qed.

End Cancellation.

(** Ten time samples and an interrupt raised after the third frame. *)
Lemma cancellation_between_frames_witness :
  let E := Scene.env None false ["defaultRenderLayer"] (fun _ => []) (fun n => Nat.eqb n 3)
             (fun _ _ => true) (fun _ => true) true in
  let j := newJob (Scene.withAnimation
                     [1%float; 2%float; 3%float; 4%float; 5%float; 6%float; 7%float;
                      8%float; 9%float; 10%float] ["c1"]
                     (Scene.withRoots [] [["grp"]] Scene.args)) ∅ "defaultRenderLayer" in
  let jb := (_BeginWriting E "out.usda" false j).2 in
  let r := Write E "out.usda" false j in
  r.1 = true
  /\ mStage r.2 = None
  /\ mMayaPrimWriterList r.2 = []
  /\ exists finish,
       trace r.2
       = (trace jb ++ completedFramesEvents jb 1 [1%float; 2%float; 3%float]
          ++ [EvViewFrame (sceneTime jb)] ++ finish)%list
       /\ forallb isFinishEvent finish = true.
Proof.
  intros E j jb.
  apply (cancellation_between_frames E "out.usda" false j jb [1%float; 2%float; 3%float]
           [4%float; 5%float; 6%float; 7%float; 8%float; 9%float; 10%float]).
  - vm_compute. reflexivity.
  - reflexivity.
  - discriminate.
  - intros t _. reflexivity.
  - intros i Hi. simpl in Hi. destruct i as [|[|[|i]]]; try reflexivity; lia.
  - reflexivity.
  - intros c _. reflexivity.
Defined.

(** ** Variants *)

Section Variants.

Variable E : Env.

Lemma primAt_alterPrim f l l' j :
  primAt (onStage (Usd.alterPrim f l) j) l'
  = if decide (l = l') then f <$> primAt j l else primAt j l'.
Proof.
  unfold primAt, onStage. simpl. destruct (mStage j) as [stage|]; simpl.
  - unfold Usd.alterPrim. simpl. apply lookup_alter.
  - by destruct (decide _).
Qed.

Lemma primAt_DefinePrim l type j stage :
  mStage j = Some stage -> l <> [] -> is_Some (primAt (onStage (Usd.DefinePrim l type) j) l).
Proof.
  intros Hs Hne. unfold primAt, onStage. simpl. rewrite Hs. simpl.
  destruct l as [|x l]; [done|]. unfold Usd.DefinePrim. simpl.
  match goal with |- context [foldr ?f ?m ?a] => set (m1 := foldr f m a) end.
  destruct (m1 !! (x :: l)) as [d|] eqn:Hd.
  - by rewrite Hd.
  - by rewrite lookup_insert_eq.
Qed.

Lemma keepsVariants_setActive b : keepsVariants (Usd.setActive b).
Proof. by intros d n. Qed.

Lemma keepsVariants_addReference t : keepsVariants (Usd.addReference t).
Proof. by intros d n. Qed.

Lemma keepsVariants_setVariantSelection s v : keepsVariants (Usd.setVariantSelection s v).
Proof. by intros d n. Qed.

Lemma keepsVariants_AddVariantSet : keepsVariants (AddVariantSet "modelingVariant").
Proof.
  intros d n. unfold variantNamesOf, AddVariantSet. simpl.
  destruct (variantSets d !! "modelingVariant") as [vs|] eqn:Hvs; simpl.
  - by rewrite Hvs.
  - intros H. by inversion H.
Qed.

Lemma keepsVariants_AddVariant v : keepsVariants (AddVariant "modelingVariant" v).
Proof.
  intros d n. unfold variantNamesOf, AddVariant. simpl. rewrite lookup_alter_eq.
  destruct (variantSets d !! "modelingVariant") as [vs|]; simpl; [|done].
  destruct (existsb _ vs); [done|]. rewrite fmap_app. intros H. apply elem_of_app. by left.
Qed.

Lemma keepsVariants_deactivateInVariant v prims :
  keepsVariants (deactivateInVariant "modelingVariant" v prims).
Proof.
  intros d n. unfold variantNamesOf, deactivateInVariant. simpl. rewrite lookup_alter_eq.
  destruct (variantSets d !! "modelingVariant") as [vs|]; simpl; [|done].
  assert (Heq : (map (fun v0 : string * list (list string) =>
                        if String.eqb v0.1 v then (v0.1, (v0.2 ++ prims)%list) else v0) vs).*1
                = vs.*1).
  { induction vs as [|[a b] vs IH]; [done|]. simpl.
    destruct (String.eqb a v); simpl; f_equal; exact IH. }
  by rewrite Heq.
Qed.

(** After [AddVariantSet] and [AddVariant] the variant is there. *)
Lemma AddVariant_adds v d :
  v ∈ variantNamesOf (AddVariant "modelingVariant" v (AddVariantSet "modelingVariant" d))
        "modelingVariant".
Proof.
  unfold variantNamesOf, AddVariant, AddVariantSet. simpl. rewrite lookup_alter_eq.
  destruct (variantSets d !! "modelingVariant") as [vs|] eqn:Hvs; simpl.
  - rewrite Hvs. simpl. destruct (existsb _ vs) eqn:Hex.
    + apply existsb_exists in Hex as ([a b] & Hin & Heq). simpl in Heq.
      apply String.eqb_eq in Heq. subst a.
      apply list_elem_of_fmap. exists (v, b). split; [done|]. by apply list_elem_of_In.
    + rewrite fmap_app. apply elem_of_app. right. simpl. by left.
  - rewrite lookup_insert_eq. simpl. by left.
Qed.

Lemma primAt_alterPrim_dep (h : UsdStage -> PrimData -> PrimData) l j d :
  primAt j l = Some d ->
  exists stage, primAt (onStage (fun stage => Usd.alterPrim (h stage) l stage) j) l
                = Some (h stage d).
Proof.
  unfold primAt, onStage. simpl. destruct (mStage j) as [stage|]; simpl; [|done].
  intros Hd. exists stage. unfold Usd.alterPrim. simpl. by rewrite lookup_alter_eq, Hd.
Qed.

Lemma activePathsOfLayer_ext root layer j j' :
  mDagPathToUsdPathMap j' = mDagPathToUsdPathMap j ->
  activePathsOfLayer E root layer j' = activePathsOfLayer E root layer j.
Proof. intros H. unfold activePathsOfLayer. by rewrite H. Qed.

(** One round of the loop over the render layers: the prim that carries
    the variants stays, with the variants it has; the default modeling
    variant becomes the layer when the layer is the default render layer;
    a layer with exported members gets its variant. *)
Lemma writeVariantOfLayer_step (root : list string) (acc : string * Job) (layer : string) d :
  primAt acc.2 root = Some d ->
  let acc' := writeVariantOfLayer E (Some root) acc layer in
  mDagPathToUsdPathMap acc'.2 = mDagPathToUsdPathMap acc.2
  /\ acc'.1 = (if decide (layer = defaultRenderLayer E) then layer else acc.1)
  /\ exists d', primAt acc'.2 root = Some d'
       /\ (forall n, n ∈ variantNamesOf d "modelingVariant" ->
                     n ∈ variantNamesOf d' "modelingVariant")
       /\ (activePathsOfLayer E (Some root) layer acc.2 <> [] ->
           layer ∈ variantNamesOf d' "modelingVariant").
Proof.
  destruct acc as [dmv j]. simpl. intros Hd. unfold writeVariantOfLayer.
  set (j1 := editRenderLayerGlobals layer j).
  assert (H1 : primAt j1 root = Some d) by done.
  rewrite (activePathsOfLayer_ext (Some root) layer j j1) by done.
  destruct (activePathsOfLayer E (Some root) layer j) as [|a paths] eqn:Hpaths; simpl.
  - split_and!; [done | done |]. exists d. split_and!; done.
  - set (j2 := onStage (Usd.alterPrim (AddVariantSet "modelingVariant") root) j1).
    set (j3 := onStage (Usd.alterPrim (AddVariant "modelingVariant" layer) root) j2).
    set (j4 := onStage (Usd.alterPrim (Usd.setVariantSelection "modelingVariant" layer) root) j3).
    assert (H2 : primAt j2 root = Some (AddVariantSet "modelingVariant" d)).
    { unfold j2. rewrite primAt_alterPrim, decide_True by done. by rewrite H1. }
    assert (H3 : primAt j3 root
                 = Some (AddVariant "modelingVariant" layer (AddVariantSet "modelingVariant" d))).
    { unfold j3. rewrite primAt_alterPrim, decide_True by done. by rewrite H2. }
    assert (H4 : primAt j4 root
                 = Some (Usd.setVariantSelection "modelingVariant" layer
                           (AddVariant "modelingVariant" layer
                              (AddVariantSet "modelingVariant" d)))).
    { unfold j4. rewrite primAt_alterPrim, decide_True by done. by rewrite H3. }
    destruct (primAt_alterPrim_dep
                (fun stage => deactivateInVariant "modelingVariant" layer
                                (primsToDeactivate E stage (a :: paths)))
                root j4 _ H4) as (stage & H5).
    split_and!; [done | done |]. eexists. split; [exact H5|]. split.
    + intros n Hn. apply keepsVariants_deactivateInVariant, keepsVariants_setVariantSelection,
        keepsVariants_AddVariant, keepsVariants_AddVariantSet, Hn.
    + intros _. apply keepsVariants_deactivateInVariant, keepsVariants_setVariantSelection,
        AddVariant_adds.
Qed.

(** The loop over the render layers. *)
Lemma writeVariants_loop (root : list string) (M : gmap (list string) (option (list string)))
    (layers : list string) (acc : string * Job) d :
  mDagPathToUsdPathMap acc.2 = M ->
  primAt acc.2 root = Some d ->
  (forall j, mDagPathToUsdPathMap j = M ->
             activePathsOfLayer E (Some root) (defaultRenderLayer E) j <> []) ->
  defaultRenderLayer E ∈ layers
  \/ (acc.1 = defaultRenderLayer E
      /\ defaultRenderLayer E ∈ variantNamesOf d "modelingVariant") ->
  let acc' := foldl (writeVariantOfLayer E (Some root)) acc layers in
  acc'.1 = defaultRenderLayer E
  /\ exists d', primAt acc'.2 root = Some d'
       /\ defaultRenderLayer E ∈ variantNamesOf d' "modelingVariant".
Proof.
  revert acc d. induction layers as [|layer layers IH]; intros acc d HM Hd Hactive Hseen; simpl.
  - destruct Hseen as [Hin|[H1 H2]]; [by inversion Hin|]. split; [done|]. by exists d.
  - destruct (writeVariantOfLayer_step root acc layer d Hd) as (HM' & Hdmv & d' & Hd' & Hkeep & Hadd).
    apply (IH _ d'); [congruence | done | done |].
    destruct (decide (layer = defaultRenderLayer E)) as [->|Hne].
    + right. split; [done|]. apply Hadd. by apply Hactive.
    + destruct Hseen as [Hin|[H1 H2]].
      * apply elem_of_cons in Hin as [Heq|Hin]; [done | by left].
      * right. split; [congruence | by apply Hkeep].
Qed.

End Variants.

Section VariantSelection.

Variable E : Env.

Lemma primIsValid_primAt j x l d :
  primAt j (x :: l) = Some d -> primIsValid j (Some (x :: l)) = true.
Proof.
  unfold primAt, primIsValid. destruct (mStage j) as [stage|]; simpl; [|done].
  intros Hd. apply bool_decide_eq_true. by exists d.
Qed.

(** C5.  When the default render layer is among the render layers of the
    job and has exported members, then after [_WriteVariants], in whatever
    order the render layers are processed, the prim that carries the
    variants has a variant named after the default render layer in its
    variant set [modelingVariant], and this variant is the selection of the
    set: the selection is made once, after the loop over the layers. *)
Theorem default_variant_selected (usdRootPrim : list string) (j : Job) (stage : UsdStage)
    (x : string) (l : list string) (layers : list string) :
  mStage j = Some stage ->
  variantRootPrimPath j = Some (x :: l) ->
  defaultRenderLayer E ∈ mRenderLayerObjs j ->
  activePathsOfLayer E (Some (x :: l)) (defaultRenderLayer E) j <> [] ->
  layers ≡ₚ mRenderLayerObjs j ->
  exists d,
    primAt (_WriteVariants E usdRootPrim (set_mRenderLayerObjs layers j)).2 (x :: l) = Some d
    /\ variantSelection d !! "modelingVariant" = Some (defaultRenderLayer E)
    /\ defaultRenderLayer E ∈ variantNamesOf d "modelingVariant".
Proof.
  intros Hstage Hroot Hdefault Hactive Hperm.
  unfold _WriteVariants.
  assert (Hroot' : variantRootPrimPath (set_mRenderLayerObjs layers j) = Some (x :: l))
    by exact Hroot.
  rewrite Hroot'. simpl default.
  set (j0 := set_mRenderLayerObjs layers j).
  set (j1 := onStage (Usd.DefinePrim (x :: l) "") j0).
  destruct (primAt_DefinePrim (x :: l) "" j0 stage Hstage ltac:(done)) as [d1 Hd1].
  fold j1 in Hd1.
  set (j2 := onStage (Usd.alterPrim (Usd.addReference usdRootPrim) (x :: l)) j1).
  set (j3 := onStage (Usd.alterPrim (Usd.setActive true) (x :: l)) j2).
  set (j4 := onStage (Usd.alterPrim (Usd.setActive false) usdRootPrim) j3).
  assert (Hd4 : is_Some (primAt j4 (x :: l))).
  { unfold j4, j3, j2. rewrite !primAt_alterPrim.
    rewrite !(decide_True (P := (x :: l = x :: l))) by done. rewrite Hd1.
    destruct (decide (usdRootPrim = x :: l)) as [->|];
      [rewrite !decide_True by done|]; by eexists. }
  destruct Hd4 as [d4 Hd4].
  assert (Hlayers : mRenderLayerObjs j4 = layers) by done.
  rewrite Hlayers.
  destruct (writeVariants_loop E (x :: l) (mDagPathToUsdPathMap j) layers ("", j4) d4)
    as (Hdmv & d5 & Hd5 & Hin5); [done | done | | |].
  { intros j' HM. by rewrite (activePathsOfLayer_ext E (Some (x :: l)) _ j j'). }
  { left. by rewrite Hperm. }
  destruct (foldl _ _ _) as [dmv j5]. simpl in *. subst dmv.
  rewrite (primIsValid_primAt j5 x l d5 Hd5).
  rewrite primAt_alterPrim, decide_True, Hd5 by done. simpl.
  eexists. split; [reflexivity|]. split.
  - simpl. apply lookup_insert_eq.
  - by apply keepsVariants_setVariantSelection.
Qed.

End VariantSelection.

(** Three render layers, exported as modeling variants; the default render
    layer holds the first cube and [layerA] the second.  The layers are
    processed in the reverse of their order in the job. *)
Lemma default_variant_selected_witness :
  let E := Scene.env (Some "_BaseModel_") false ["layerA"; "defaultRenderLayer"; "layerC"]
             (fun layer => if String.eqb layer "defaultRenderLayer" then [["grp"; "cube"]]
                           else if String.eqb layer "layerA" then [["grp"; "ns:cube"]]
                           else [])
             (fun _ => false) (fun _ _ => true) (fun _ => true) true in
  let j := (_BeginWriting E "out.usda" false
              (newJob (Scene.withOptions false false true "none" "modelingVariant" true
                         (Scene.withRoots [] [["grp"]] Scene.args))
                      ∅ "defaultRenderLayer")).2 in
  exists d,
    primAt (_WriteVariants E ["_BaseModel_"]
              (set_mRenderLayerObjs (reverse (mRenderLayerObjs j)) j)).2 ["grp"] = Some d
    /\ variantSelection d !! "modelingVariant" = Some "defaultRenderLayer"
    /\ "defaultRenderLayer" ∈ variantNamesOf d "modelingVariant".
Proof.
  intros E j.
  apply (default_variant_selected E ["_BaseModel_"] j
           (default (mkUsdStage ∅ None None None None None None [] []) (mStage j))
           "grp" [] (reverse (mRenderLayerObjs j))).
  - vm_compute. reflexivity.
  - vm_compute. reflexivity.
  - apply list_elem_of_In. vm_compute. tauto.
  - vm_compute. discriminate.
  - apply reverse_Permutation.
Defined.

(** ** Pruning *)

Section Pruning.


Lemma removeEmptyPrims_from stage toRecheck toRemove :
  foldl (fun '(stage, toRecheck) path =>
           (Usd.RemovePrim path stage, toRecheck ++ [Sdf.GetParentPath path])%list)
        (stage, toRecheck) toRemove
  = (foldl (fun stage path => Usd.RemovePrim path stage) stage toRemove,
     (toRecheck ++ map Sdf.GetParentPath toRemove)%list).
Proof.
  revert stage toRecheck. induction toRemove as [|p ps IH]; intros stage toRecheck; simpl.
  - by rewrite app_nil_r.
  - rewrite IH. by rewrite <- app_assoc.
Qed.







(** Reaching a prim depends on the prims at and above it only. *)
Lemma reached_ext stage stage' k :
  (forall a, a `prefix_of` k -> is_Some (stagePrims stage !! a) ->
             stagePrims stage' !! a = stagePrims stage !! a) ->
  reached stage k -> reached stage' k.
Proof.
  intros Hsame Hk a Ha Hpre. destruct (Hk a Ha Hpre) as (d & Hd & Hact).
  exists d. split; [|done]. rewrite Hsame; [done | done | by exists d].
Qed.













Lemma pruneLoop_unfold n dp stage p toRemove :
  pruneLoop (S n) dp stage (p :: toRemove)
  = pruneLoop n dp (pruneRound dp stage (p :: toRemove)).1
                   (pruneRound dp stage (p :: toRemove)).2.
Proof.
  cbn [pruneLoop]. unfold pruneRound.
  by destruct (removeEmptyPrims stage (p :: toRemove)).
Qed.
























End Pruning.

(** ** The pruning of a job *)

Section PruningFixedPoint.




End PruningFixedPoint.
(** * What the steps of the job leave as it is *)

(** ** The phases of the job *)

Section Phases.

Variable E : Env.

Lemma BeginWriting_openLayer fileName append j :
  _BeginWriting E fileName append j
  = if (openLayer E fileName append j).1
    then writeDefaultValues E
           (setupRenderLayer E (setupStage E (openLayer E fileName append j).2))
    else (false, (openLayer E fileName append j).2).
Proof.
  unfold _BeginWriting, openLayer.
  destruct (findOverlappingRoots _) as [[path1 path2]|]; [done|].
  destruct (resolveFileName E _ fileName) as [fileExt fileNameWithExt].
  destruct (setupFileStructure E _ _ _ _) as [[|] j1]; simpl; [|done].
  destruct (setupModelingVariant E j1) as [[|] j2]; simpl; [|done].
  by destruct (_OpenFile E _ _ _) as [[|] j3].
Qed.

Lemma Write_phases fileName append j :
  Write E fileName append j
  = if (_BeginWriting E fileName append j).1 then
      if (writeFrames E (timeSamplesArg (mArgs j)) (_BeginWriting E fileName append j).2).1
      then _FinishWriting E
             (writeFrames E (timeSamplesArg (mArgs j)) (_BeginWriting E fileName append j).2).2
      else (false,
            (writeFrames E (timeSamplesArg (mArgs j)) (_BeginWriting E fileName append j).2).2)
    else (false, (_BeginWriting E fileName append j).2).
Proof.
  unfold Write, writeFrames.
  destruct (_BeginWriting E fileName append j) as [[|] jb]; simpl; [|done].
  destruct (timeSamplesArg (mArgs j)) as [|t ts]; simpl.
  - by destruct (_FinishWriting E jb) as [[|] j3].
  - match goal with
    | |- context [let '(a, b) := ?x in _] => destruct x as [[|] jf]
    end; simpl; [|done].
    by destruct (_FinishWriting E _) as [[|] j3].
Qed.

Lemma writeDefaultValues_traverseWorld j :
  writeDefaultValues E j
  = let t := traverseWorld E j in
    if negb t.1 then (false, t.2)
    else if negb (rootMapFunctionIsNull (mArgs t.2))
            && bool_decide (size (mDagPathToUsdPathMap t.2) = 0)
    then (false, emit [EvDiagnostic NoExportRootIntersection] t.2)
    else if negb (PostProcess E)
    then (false, emit [EvPostProcess] (emit [EvExportShadingEngines] t.2))
    else if negb (MakeModelHierarchy E)
    then (false, emit [EvMakeModelHierarchy]
                   (emit [EvPostProcess] (emit [EvExportShadingEngines] t.2)))
    else
      let jp := populateChasers E
                  (emit [EvMakeModelHierarchy]
                     (emit [EvPostProcess] (emit [EvExportShadingEngines] t.2))) in
      chasersExportDefault E (mChasers jp) jp.
Proof.
  unfold writeDefaultValues, traverseWorld.
  destruct (collectArgDagPaths E _) as [argDagPaths argDagPathParents].
  by destruct (traverseDag E _ _ _ _ _ _) as [[ok leaf] j1].
Qed.

End Phases.

(** ** Frame lemmas

    [f] reads a part of the job; each hypothesis says that [f] does not
    read what one kind of step writes.  A lemma holds under the hypotheses
    on the steps of the function it is about. *)

Section Preserved.

Variable E : Env.
Context {A : Type} (f : Job -> A).

Hypothesis f_trace : forall v j, f (set_trace v j) = f j.
Hypothesis f_prims :
  forall v j, layerData <$> v = layerData <$> mStage j -> f (set_mStage v j) = f j.
Hypothesis f_writers : forall v j, f (set_mMayaPrimWriterList v j) = f j.
Hypothesis f_usdToDag : forall v j, f (set_mUsdPathToDagPathMap v j) = f j.
Hypothesis f_dagToUsd : forall v j, f (set_mDagPathToUsdPathMap v j) = f j.
Hypothesis f_chasers : forall v j, f (set_mChasers v j) = f j.
Hypothesis f_time : forall v j, f (set_sceneTime v j) = f j.
Hypothesis f_sceneLayer : forall v j, f (set_sceneRenderLayer v j) = f j.
Hypothesis f_stage : forall v j, f (set_mStage v j) = f j.
Hypothesis f_extras : forall v j, f (set_extrasPrimsPaths v j) = f j.
Hypothesis f_changer : forall v j, f (set_autoAxisAndUnitsChanger v j) = f j.
Hypothesis f_files : forall v j, f (set_fileSystem v j) = f j.
Hypothesis f_defaultPrim : forall v j, f (set_mArgs (set_defaultPrim v (mArgs j)) j) = f j.
Hypothesis f_override :
  forall v j, f (set_mArgs (set_usdModelRootOverridePath v (mArgs j)) j) = f j.
Hypothesis f_fileName : forall v j, f (set_fileName v j) = f j.
Hypothesis f_packageName : forall v j, f (set_packageName v j) = f j.
Hypothesis f_layers : forall v j, f (set_mRenderLayerObjs v j) = f j.
Hypothesis f_curLayer : forall v j, f (set_mCurrentRenderLayerName v j) = f j.

Lemma pres_emit evs j : f (emit evs j) = f j.
Proof. apply f_trace. Qed.

Lemma pres_onStage g j :
  (forall st, layerData (g st) = layerData st) -> f (onStage g j) = f j.
Proof.
  intros Hg. apply f_prims. destruct (mStage j); simpl; [by rewrite Hg | done].
Qed.

Lemma layerData_DefinePrim l t st : layerData (Usd.DefinePrim l t st) = layerData st.
Proof. by destruct l. Qed.

Lemma layerData_RemovePrim p st : layerData (Usd.RemovePrim p st) = layerData st.
Proof. by destruct p as [[|x l]|]. Qed.

Lemma pres_createPrimWriter cur j : f (createPrimWriter E cur j).2 = f j.
Proof.
  unfold createPrimWriter. destruct (CreatePrimWriter E cur) as [w|]; simpl.
  - destruct (writerPrimPath w).
    + rewrite pres_onStage by apply layerData_DefinePrim. apply pres_emit.
    + apply pres_emit.
  - apply pres_emit.
Qed.

Lemma pres_writerWrite w t j : f (writerWrite w t j) = f j.
Proof.
  unfold writerWrite. destruct (writerPrimPath w).
  - rewrite pres_onStage by done. apply pres_emit.
  - apply pres_emit.
Qed.

Lemma pres_CheckNameClashes path dagPath j : f (_CheckNameClashes E path dagPath j).2 = f j.
Proof.
  unfold _CheckNameClashes. destruct (negb _); [done|].
  destruct (_ !! path); simpl; [|apply f_usdToDag].
  destruct (_ && _); simpl; [done | apply pres_emit].
Qed.

(** A step of the traversal leaves [f] as it is when the writers'
    contributions to the DAG-to-USD mapping do. *)
Lemma pres_exportDagPath cur j : f (exportDagPath E cur j).2 = f j.
Proof.
  unfold exportDagPath. destruct (_ && _); [done|].
  pose proof (pres_createPrimWriter cur j) as Hc.
  destruct (createPrimWriter E cur j) as [[w|] j1]; simpl in *; [|done].
  destruct (primIsValid _ _).
  - pose proof (pres_CheckNameClashes (writerPrimPath w) (GetDagPath w)
                  (set_mMayaPrimWriterList (mMayaPrimWriterList j1 ++ [w]) j1)) as Hn.
    destruct (_CheckNameClashes E _ _ _) as [ok j2]. simpl in Hn.
    rewrite f_writers in Hn. destruct ok; simpl; [|congruence].
    rewrite pres_emit. unfold insertMapping. rewrite f_dagToUsd, pres_writerWrite. congruence.
  - simpl. by rewrite f_writers.
Qed.

Lemma pres_traverseDag argDagPaths argDagPathParents node cur leaf j :
  f (traverseDag E argDagPaths argDagPathParents cur node leaf j).2 = f j.
Proof.
  pose proof (traverseDag_invariant E (fun j' => f j' = f j) (fun j' => f j' = f j)
                argDagPaths argDagPathParents) as H.
  specialize (H (fun cur0 j0 H0 =>
    match (exportDagPath E cur0 j0).1.1 as b
      return (if b then f (exportDagPath E cur0 j0).2 = f j
              else f (exportDagPath E cur0 j0).2 = f j)
    with
    | true => eq_trans (pres_exportDagPath cur0 j0) H0
    | false => eq_trans (pres_exportDagPath cur0 j0) H0
    end) node cur leaf j eq_refl).
  by destruct (traverseDag E _ _ _ _ _ _).1.1.
Qed.

Lemma pres_traverseWorld j : f (traverseWorld E j).2 = f j.
Proof.
  unfold traverseWorld.
  destruct (collectArgDagPaths E _) as [argDagPaths argDagPathParents].
  pose proof (pres_traverseDag argDagPaths argDagPathParents
                (DagNode_ "" (dagWorld E)) [] None j) as Ht.
  by destruct (traverseDag E _ _ _ _ _ _) as [[ok leaf] j1].
Qed.

Lemma pres_populateChasers j : f (populateChasers E j) = f j.
Proof.
  unfold populateChasers. transitivity (f (set_mChasers [] j)); [|apply f_chasers].
  generalize (set_mChasers [] j) as j0.
  induction (chaserNames (mArgs j)) as [|name names IH]; intros j0; simpl; [done|].
  rewrite IH. destruct (ChaserCreate E name).
  - by rewrite f_chasers, pres_emit.
  - by rewrite !pres_emit.
Qed.

Lemma pres_chasersExportDefault chasers j : f (chasersExportDefault E chasers j).2 = f j.
Proof.
  revert j. induction chasers as [|c cs IH]; intros j; simpl; [done|].
  destruct (negb _); simpl; [apply pres_emit|]. by rewrite IH, pres_emit.
Qed.

Lemma pres_writeDefaultValues j : f (writeDefaultValues E j).2 = f j.
Proof.
  unfold writeDefaultValues.
  destruct (collectArgDagPaths E _) as [argDagPaths argDagPathParents].
  pose proof (pres_traverseDag argDagPaths argDagPathParents
                (DagNode_ "" (dagWorld E)) [] None j) as Ht.
  destruct (traverseDag E _ _ _ _ _ _) as [[ok leaf] j1]. simpl in Ht.
  destruct (negb ok); simpl; [done|].
  destruct (_ && _); simpl; [by rewrite pres_emit|].
  destruct (negb (PostProcess E)); simpl; [by rewrite !pres_emit|].
  destruct (negb (MakeModelHierarchy E)); simpl; [by rewrite !pres_emit|].
  by rewrite pres_chasersExportDefault, pres_populateChasers, !pres_emit.
Qed.

(** *** The frames *)

Lemma pres_writersWrite t writers j : f (writersWrite t writers j) = f j.
Proof.
  revert j. induction writers as [|w ws IH]; intros j; simpl; [done|].
  rewrite IH. destruct (primIsValid _ _); [apply pres_writerWrite | done].
Qed.

Lemma pres_chasersExportFrame t chasers j : f (chasersExportFrame E t chasers j).2 = f j.
Proof.
  revert j. induction chasers as [|c cs IH]; intros j; simpl; [done|].
  destruct (negb _); simpl; [apply pres_emit|]. by rewrite IH, pres_emit.
Qed.

Lemma pres_PerFrameCallback j : f (_PerFrameCallback j) = f j.
Proof.
  unfold _PerFrameCallback.
  destruct (bool_decide (melPerFrameCallback _ = _)),
           (bool_decide (pythonPerFrameCallback _ = _)); by rewrite ?pres_emit.
Qed.

Lemma pres_WriteFrame t j : f (_WriteFrame E t j).2 = f j.
Proof.
  unfold _WriteFrame.
  pose proof (pres_chasersExportFrame t (mChasers (writersWrite (TimeCode t)
                (mMayaPrimWriterList j) j)) (writersWrite (TimeCode t)
                (mMayaPrimWriterList j) j)) as Hc.
  destruct (chasersExportFrame E t _ _) as [ok j1]. simpl in Hc.
  rewrite pres_writersWrite in Hc.
  destruct (negb ok); simpl; [done|]. by rewrite pres_PerFrameCallback.
Qed.

Lemma pres_viewFrame t j : f (viewFrame t j) = f j.
Proof. unfold viewFrame. by rewrite f_time, pres_emit. Qed.

Lemma pres_writeTimeSamples old n ts j : f (writeTimeSamples E old n ts j).2 = f j.
Proof.
  revert n j. induction ts as [|t ts IH]; intros n j; simpl; [done|].
  pose proof (pres_WriteFrame t (viewFrame t j)) as Hw.
  destruct (_WriteFrame E t (viewFrame t j)) as [ok j1]. simpl in Hw.
  rewrite pres_viewFrame in Hw.
  destruct (negb ok); simpl; [by rewrite pres_viewFrame|].
  destruct (isInterruptRequested E n); simpl; [by rewrite pres_emit|].
  by rewrite IH, pres_emit.
Qed.

(** *** The finalization *)

Lemma pres_editRenderLayerGlobals name j : f (editRenderLayerGlobals name j) = f j.
Proof. unfold editRenderLayerGlobals. by rewrite f_sceneLayer, pres_emit. Qed.

Lemma pres_writeVariantOfLayer root acc layer :
  f (writeVariantOfLayer E root acc layer).2 = f acc.2.
Proof.
  destruct acc as [dv j]. unfold writeVariantOfLayer. simpl.
  destruct (activePathsOfLayer E root layer _); simpl.
  - apply pres_editRenderLayerGlobals.
  - rewrite 4!pres_onStage by done. apply pres_editRenderLayerGlobals.
Qed.

Lemma pres_writeVariants_loop root layers acc :
  f (foldl (writeVariantOfLayer E root) acc layers).2 = f acc.2.
Proof.
  revert acc. induction layers as [|layer layers IH]; intros acc; simpl; [done|].
  by rewrite IH, pres_writeVariantOfLayer.
Qed.

Lemma pres_WriteVariants usdRootPrim j : f (_WriteVariants E usdRootPrim j).2 = f j.
Proof.
  unfold _WriteVariants.
  match goal with
  | |- context [foldl (writeVariantOfLayer E ?r) ?acc ?ls] =>
      pose proof (pres_writeVariants_loop r ls acc) as Hl;
      destruct (foldl (writeVariantOfLayer E r) acc ls) as [dv j1]
  end.
  simpl in *.
  assert (Hl' : f j1 = f j).
  { rewrite Hl. rewrite 3!pres_onStage by done.
    by rewrite pres_onStage by apply layerData_DefinePrim. }
  destruct (primIsValid j1 _); [by rewrite pres_onStage | done].
Qed.

Lemma pres_chasersPostExport chasers j : f (chasersPostExport E chasers j).2 = f j.
Proof.
  revert j. induction chasers as [|c cs IH]; intros j; simpl; [done|].
  destruct (negb _); simpl; [apply pres_emit|]. by rewrite IH, f_extras, pres_emit.
Qed.

Lemma pres_PostCallback j : f (_PostCallback j) = f j.
Proof.
  unfold _PostCallback.
  destruct (bool_decide (melPostCallback _ = _)),
           (bool_decide (pythonPostCallback _ = _)); by rewrite ?pres_emit.
Qed.

Lemma pres_writersPostExport writers j :
  f (foldl (fun j primWriter => emit [EvWriterPostExport primWriter] j) j writers) = f j.
Proof.
  revert j. induction writers as [|w ws IH]; intros j; simpl; [done|].
  by rewrite IH, pres_emit.
Qed.

Lemma pres_finishDefaultPrim j : f (finishDefaultPrim E j) = f j.
Proof.
  assert (Hon : forall g j0, f (onStage g j0) = f j0) by (intros; apply f_stage).
  unfold finishDefaultPrim.
  set (root := head _).
  assert (Hv : forall n, f (match root with
                            | Some r =>
                                if bool_decide (1 < length (mRenderLayerObjs j))
                                   && negb (Sdf.IsEmpty (usdModelRootOverridePath (mArgs j)))
                                then _WriteVariants E r j
                                else (n, j)
                            | None => (n, j)
                            end).2 = f j).
  { intros n. destruct root; [|done]. destruct (_ && _); [|done].
    (* the variants *)
    unfold _WriteVariants.
    match goal with
    | |- context [foldl (writeVariantOfLayer E ?r) ?acc ?ls] =>
        pose proof (pres_writeVariants_loop r ls acc) as Hl;
        destruct (foldl (writeVariantOfLayer E r) acc ls) as [dv j1]
    end.
    simpl in *. rewrite !Hon in Hl.
    destruct (primIsValid j1 _); [by rewrite Hon | done]. }
  match goal with
  | |- context [let '(a, b) := ?x in _] => specialize (Hv (from_option
      (fun l => Sdf.GetName (Some l)) "" root)); destruct x as [dn j1]
  end.
  simpl in Hv.
  repeat match goal with
  | |- context [if ?b then _ else _] => destruct b
  | |- context [match ?x with Some _ => _ | None => _ end] => destruct x
  end; rewrite ?Hon, ?pres_emit, ?pres_editRenderLayerGlobals, ?Hon, ?pres_emit; done.
Qed.

Lemma layerData_removeAll stage toRemove :
  layerData (foldl (fun stage path => Usd.RemovePrim path stage) stage toRemove)
  = layerData stage.
Proof.
  revert stage. induction toRemove as [|p ps IH]; intros stage; simpl; [done|].
  by rewrite IH, layerData_RemovePrim.
Qed.

Lemma layerData_pruneLoop n dp stage toRemove stage' :
  pruneLoop n dp stage toRemove = Some stage' -> layerData stage' = layerData stage.
Proof.
  revert stage toRemove. induction n as [|n IH]; intros stage toRemove.
  - destruct toRemove; simpl; [by intros [= <-] | done].
  - destruct toRemove as [|p T]; [by intros [= <-]|].
    rewrite pruneLoop_unfold. intros H. apply IH in H. rewrite H.
    unfold pruneRound.
    pose proof (removeEmptyPrims_from stage [] (p :: T)) as Hr. unfold removeEmptyPrims.
    rewrite Hr. simpl. rewrite layerData_removeAll. apply layerData_RemovePrim.
Qed.

Lemma pres_PruneEmpties j : f (_PruneEmpties j) = f j.
Proof.
  unfold _PruneEmpties. destruct (includeEmptyTransforms _); [done|].
  destruct (mStage j) as [stage|] eqn:Hs; [|done]. apply f_prims. rewrite Hs. simpl.
  destruct (pruneEmpties _ stage) as [stage'|] eqn:Hp; simpl; [|done].
  unfold pruneEmpties in Hp. by rewrite (layerData_pruneLoop _ _ _ _ _ Hp).
Qed.

Lemma pres_CreatePackage j : f (_CreatePackage E j) = f j.
Proof.
  unfold _CreatePackage.
  match goal with |- context [if ?b then _ else _] => destruct b end.
  - by rewrite f_files, pres_emit.
  - by rewrite !pres_emit.
Qed.

Lemma pres_saveAndRelease j : f (saveAndRelease E j) = f j.
Proof.
  unfold saveAndRelease.
  repeat match goal with
  | |- context [if ?b then _ else _] => destruct b
  end;
  rewrite ?f_files, ?pres_emit, ?f_writers, ?pres_emit, ?f_stage, ?pres_emit,
    ?pres_CreatePackage, ?f_files, ?pres_emit, ?f_changer, ?pres_emit; done.
Qed.

Lemma pres_FinishWriting_tail j : f (_FinishWriting E j).2 = f (finishDefaultPrim E j).
Proof.
  unfold _FinishWriting.
  match goal with
  | |- context [chasersPostExport E ?cs ?j0] =>
      pose proof (pres_chasersPostExport cs j0) as Hc;
      destruct (chasersPostExport E cs j0) as [ok j1]
  end.
  simpl in Hc. rewrite f_extras, pres_writersPostExport in Hc.
  destruct (negb ok); simpl; [done|].
  by rewrite pres_saveAndRelease, pres_PruneEmpties, pres_PostCallback.
Qed.

Lemma pres_FinishWriting j : f (_FinishWriting E j).2 = f j.
Proof. by rewrite pres_FinishWriting_tail, pres_finishDefaultPrim. Qed.

Lemma pres_writeFrames ts j : f (writeFrames E ts j).2 = f j.
Proof.
  unfold writeFrames. destruct ts as [|t ts]; [done|].
  pose proof (pres_writeTimeSamples (sceneTime j) 1 (t :: ts) j) as Hw.
  destruct (writeTimeSamples E _ _ _ _) as [ok j1]. simpl in Hw.
  destruct (negb ok); simpl; [done|]. by rewrite pres_viewFrame.
Qed.

(** *** The steps of [_BeginWriting] up to the opening of the layer *)

Lemma pres_selectDefaultPrim j : f (selectDefaultPrim E j) = f j.
Proof.
  unfold selectDefaultPrim. destruct (_ && _); [|done].
  destruct (GetExportDefaultPrimCandidates E (mArgs j)) as [[|root0 roots] evs].
  - apply pres_emit.
  - by rewrite f_defaultPrim, pres_emit.
Qed.

Lemma pres_normalizeDefaultPrim j : f (normalizeDefaultPrim E j) = f j.
Proof. unfold normalizeDefaultPrim. destruct (bool_decide _); [done | apply f_defaultPrim]. Qed.

Lemma pres_setupFileStructure fileExt fileNameWithExt append j :
  f (setupFileStructure E fileExt fileNameWithExt append j).2 = f j.
Proof.
  unfold setupFileStructure. destruct (decide _); simpl.
  - destruct append; simpl; [apply pres_emit|].
    destruct (decide _); simpl.
    + by rewrite pres_emit, f_fileName.
    + by rewrite f_packageName, f_fileName.
  - by rewrite f_packageName, f_fileName.
Qed.

Lemma pres_setupModelingVariant j : f (setupModelingVariant E j).2 = f j.
Proof.
  unfold setupModelingVariant. destruct (decide _); cbn [fst snd]; [|done].
  destruct (bool_decide _); cbn [fst snd]; [|apply f_layers].
  destruct (negb _); cbn [fst snd].
  - by rewrite pres_emit, f_layers.
  - by rewrite f_override, f_layers.
Qed.

Lemma pres_OpenFile fileName append j : f (_OpenFile E fileName append j).2 = f j.
Proof.
  unfold _OpenFile. destruct (OpenFile_stage E fileName append); simpl.
  - by rewrite f_stage, f_files, pres_emit.
  - apply pres_emit.
Qed.

Lemma pres_openLayer fileName append j : f (openLayer E fileName append j).2 = f j.
Proof.
  unfold openLayer.
  assert (H0 : f (normalizeDefaultPrim E (selectDefaultPrim E j)) = f j)
    by (by rewrite pres_normalizeDefaultPrim, pres_selectDefaultPrim).
  generalize dependent (normalizeDefaultPrim E (selectDefaultPrim E j)). intros j0 H0.
  destruct (findOverlappingRoots _) as [[path1 path2]|]; simpl; [by rewrite pres_emit|].
  destruct (resolveFileName E _ fileName) as [fileExt fileNameWithExt].
  pose proof (pres_setupFileStructure fileExt fileNameWithExt append j0) as H1.
  destruct (setupFileStructure E fileExt fileNameWithExt append j0) as [ok1 j1]. simpl in H1.
  destruct (negb ok1); simpl; [congruence|].
  pose proof (pres_setupModelingVariant j1) as H2.
  destruct (setupModelingVariant E j1) as [ok2 j2]. simpl in H2.
  destruct (negb ok2); simpl; [congruence|].
  rewrite pres_OpenFile. congruence.
Qed.

Lemma pres_setupStage j : f (setupStage E j) = f j.
Proof.
  assert (Hon : forall g j0, f (onStage g j0) = f j0) by (intros; apply f_stage).
  unfold setupStage.
  destruct (timeSamplesArg (mArgs j)); destruct (customLayerData _);
    by rewrite ?Hon, f_changer, pres_emit, ?Hon.
Qed.

Lemma pres_setupRenderLayer j : f (setupRenderLayer E j) = f j.
Proof.
  unfold setupRenderLayer. destruct (_ && _).
  - by rewrite pres_editRenderLayerGlobals, f_curLayer.
  - apply f_curLayer.
Qed.

Lemma pres_BeginWriting fileName append j : f (_BeginWriting E fileName append j).2 = f j.
Proof.
  rewrite BeginWriting_openLayer. destruct (openLayer E fileName append j).1; cbn [snd].
  - by rewrite pres_writeDefaultValues, pres_setupRenderLayer, pres_setupStage,
      pres_openLayer.
  - apply pres_openLayer.
Qed.

End Preserved.


(** ** The state of the scene around a job *)

Section SceneState.

Variable E : Env.

Lemma writeTimeSamples_failure old n ts j :
  (writeTimeSamples E old n ts j).1 = false ->
  sceneTime (writeTimeSamples E old n ts j).2 = old.
Proof.
  revert n j. induction ts as [|t ts IH]; intros n j; simpl; [done|].
  destruct (_WriteFrame E t (viewFrame t j)) as [ok j1].
  destruct (negb ok); simpl; [done|].
  destruct (isInterruptRequested E n); simpl; [done|]. apply IH.
Qed.

Lemma sceneTime_writeFrames ts j : sceneTime (writeFrames E ts j).2 = sceneTime j.
Proof.
  unfold writeFrames. destruct ts as [|t ts]; [done|].
  pose proof (writeTimeSamples_failure (sceneTime j) 1 (t :: ts) j) as Hf.
  destruct (writeTimeSamples E _ _ _ _) as [[|] j1]; simpl in *; [done | by apply Hf].
Qed.

(** X1.  [Write] leaves the current time of the scene as it found it, on
    every path: when [_BeginWriting] fails the time has not been touched,
    when a frame fails and after the last frame (or the interrupt) the time
    is set back, and the finalization does not touch it. *)
Theorem write_restores_scene_time (fileName : string) (append : bool) (j : Job) :
  sceneTime (Write E fileName append j).2 = sceneTime j.
Proof.
  rewrite Write_phases.
  assert (Hb : sceneTime (_BeginWriting E fileName append j).2 = sceneTime j)
    by by apply pres_BeginWriting.
  destruct (_BeginWriting E fileName append j).1; [|done].
  destruct (writeFrames E _ _).1.
  - rewrite (pres_FinishWriting E sceneTime) by done. by rewrite sceneTime_writeFrames.
  - simpl. by rewrite sceneTime_writeFrames.
Qed.

Lemma finishDefaultPrim_renderLayer j :
  sceneRenderLayer (finishDefaultPrim E j) = mCurrentRenderLayerName j.
Proof.
  unfold finishDefaultPrim.
  set (root := head _).
  assert (Hv : forall n, mCurrentRenderLayerName
                  (match root with
                   | Some r =>
                       if bool_decide (1 < length (mRenderLayerObjs j))
                          && negb (Sdf.IsEmpty (usdModelRootOverridePath (mArgs j)))
                       then _WriteVariants E r j
                       else (n, j)
                   | None => (n, j)
                   end).2 = mCurrentRenderLayerName j).
  { intros n. destruct root; [|done]. destruct (_ && _); [|done].
    by apply pres_WriteVariants. }
  match goal with
  | |- context [let '(a, b) := ?x in _] => specialize (Hv (from_option
      (fun l => Sdf.GetName (Some l)) "" root)); destruct x as [dn j1]
  end.
  simpl in Hv. rewrite <- Hv.
  destruct (bool_decide (sceneRenderLayer j1 = mCurrentRenderLayerName j1)) eqn:Hcur.
  - apply bool_decide_eq_true in Hcur.
    repeat match goal with
    | |- context [if ?b then _ else _] => destruct b
    | |- context [match ?x with Some _ => _ | None => _ end] => destruct x
    end; done.
  - repeat match goal with
    | |- context [if ?b then _ else _] => destruct b
    | |- context [match ?x with Some _ => _ | None => _ end] => destruct x
    end; done.
Qed.

Lemma BeginWriting_renderLayer fileName append j :
  (_BeginWriting E fileName append j).1 = true ->
  mCurrentRenderLayerName (_BeginWriting E fileName append j).2 = sceneRenderLayer j
  /\ (renderLayerMode (mArgs j) <> currentLayer (tokens E) ->
      sceneRenderLayer (_BeginWriting E fileName append j).2 = defaultRenderLayer E).
Proof.
  rewrite BeginWriting_openLayer. destruct (openLayer E fileName append j).1; [|done].
  intros _.
  pose proof (pres_openLayer E sceneRenderLayer ltac:(done) ltac:(done) ltac:(done)
                ltac:(done) ltac:(done) ltac:(done) ltac:(done) ltac:(done)
                fileName append j) as Hlayer.
  pose proof (pres_openLayer E (fun j => renderLayerMode (mArgs j)) ltac:(done) ltac:(done)
                ltac:(done) ltac:(done) ltac:(done) ltac:(done) ltac:(done) ltac:(done)
                fileName append j) as Hmode.
  cbn beta in Hmode.
  set (jo := (openLayer E fileName append j).2) in *. clearbody jo.
  split.
  - rewrite (pres_writeDefaultValues E mCurrentRenderLayerName) by done.
    unfold setupRenderLayer. rewrite <- Hlayer.
    assert (Hs : sceneRenderLayer (setupStage E jo) = sceneRenderLayer jo)
      by by apply pres_setupStage.
    destruct (_ && _); simpl; by rewrite Hs.
  - intros Hmode'.
    rewrite (pres_writeDefaultValues E sceneRenderLayer) by done.
    unfold setupRenderLayer.
    assert (Hm : renderLayerMode (mArgs (setupStage E jo)) = renderLayerMode (mArgs j)).
    { rewrite <- Hmode. by apply (pres_setupStage E (fun j => renderLayerMode (mArgs j))). }
    simpl. rewrite Hm. rewrite (bool_decide_false _ Hmode'). simpl.
    destruct (bool_decide (sceneRenderLayer (setupStage E jo) = defaultRenderLayer E)) eqn:Hd;
      simpl; [by apply bool_decide_eq_true in Hd | done].
Qed.

(** X2.  A [Write] that gets through [_BeginWriting] and the frames leaves
    the scene on the render layer it found it on, whatever the mode of the
    render layers; in between, unless the mode is [currentLayer], the scene
    is on the default render layer. *)
Theorem write_restores_render_layer (fileName : string) (append : bool) (j : Job) :
  (_BeginWriting E fileName append j).1 = true ->
  (renderLayerMode (mArgs j) <> currentLayer (tokens E) ->
   sceneRenderLayer (_BeginWriting E fileName append j).2 = defaultRenderLayer E)
  /\ ((writeFrames E (timeSamplesArg (mArgs j)) (_BeginWriting E fileName append j).2).1
      = true ->
      sceneRenderLayer (Write E fileName append j).2 = sceneRenderLayer j).
Proof.
  intros Hb. destruct (BeginWriting_renderLayer fileName append j Hb) as [Hcur Hdef].
  split; [exact Hdef|]. intros Hw. rewrite Write_phases, Hb, Hw.
  rewrite (pres_FinishWriting_tail E sceneRenderLayer) by done.
  rewrite finishDefaultPrim_renderLayer.
  rewrite (pres_writeFrames E mCurrentRenderLayerName) by done. exact Hcur.
Qed.

End SceneState.

(** An export of the scene from the render layer [layerA], with two time
    samples and the render layers as modeling variants. *)
Lemma write_restores_render_layer_witness :
  let E := Scene.env (Some "_BaseModel_") false ["layerA"; "defaultRenderLayer"]
             (fun layer => if String.eqb layer "defaultRenderLayer" then [["grp"; "cube"]]
                           else [["grp"; "ns:cube"]])
             (fun _ => false) (fun _ _ => true) (fun _ => true) true in
  let j := newJob (Scene.withAnimation [1%float; 2%float] []
                     (Scene.withOptions false false true "none" "modelingVariant" true
                        (Scene.withRoots [] [["grp"]] Scene.args)))
                  ∅ "layerA" in
  sceneRenderLayer (_BeginWriting E "out.usda" false j).2 = "defaultRenderLayer"
  /\ sceneRenderLayer (Write E "out.usda" false j).2 = "layerA".
Proof.
  intros E j.
  destruct (write_restores_render_layer E "out.usda" false j) as [Hdef Hend].
  - vm_compute. reflexivity.
  - split.
    + apply Hdef. vm_compute. discriminate.
    + apply Hend. vm_compute. reflexivity.
Defined.

(** ** The events of [_BeginWriting] *)

Section DefaultExportEvents.

Variable E : Env.
Variable a : UsdMayaJobExportArgs.

Local Abbreviation P := (isBeginWritingEvent E a).

Lemma grows_populateChasers_class (Q : Event -> bool) j :
  (forall n, Q (EvChaserCreate n) = true) ->
  (forall n, Q (EvDiagnostic (FailedToCreateChaser n)) = true) ->
  grows Q j (populateChasers E j).
Proof.
  intros Hc Hd. unfold populateChasers.
  assert (H0 : grows Q j (set_mChasers [] j)) by by apply grows_same.
  revert H0. generalize (set_mChasers [] j) as j0.
  induction (chaserNames (mArgs j)) as [|name names IH]; intros j0 H0; simpl; [done|].
  apply IH. eapply grows_trans; [exact H0|].
  destruct (ChaserCreate E name).
  - eapply grows_step; [by apply grows_same|]. apply grows_emit. simpl. by rewrite Hc.
  - eapply grows_step; apply grows_emit; simpl; by rewrite ?Hc, ?Hd.
Qed.

Lemma grows_chasersExportDefault_class (Q : Event -> bool) chasers j :
  (forall c, Q (EvExportDefault c) = true) ->
  grows Q j (chasersExportDefault E chasers j).2.
Proof.
  intros Hc. revert j. induction chasers as [|c cs IH]; intros j; simpl; [apply grows_refl|].
  assert (He : grows Q j (emit [EvExportDefault c] j)).
  { apply grows_emit. simpl. by rewrite Hc. }
  destruct (negb (ExportDefault E c)); simpl; [done|].
  eapply grows_trans; [exact He | apply IH].
Qed.

Lemma grows_exportDagPath_begin cur j : grows P j (exportDagPath E cur j).2.
Proof.
  unfold exportDagPath.
  destruct (negb (NeedToTraverse E cur) && bool_decide (0 < length cur)) eqn:Hprune;
    simpl; [apply grows_refl|].
  assert (Hcreate : P (EvCreatePrimWriter cur) = true).
  { simpl. apply andb_false_iff in Hprune as [H|H].
    - apply negb_false_iff in H. by rewrite H.
    - apply bool_decide_eq_false in H. rewrite (bool_decide_true (length cur = 0)) by lia.
      apply orb_true_r. }
  pose proof (grows_createPrimWriter E P cur j Hcreate) as Hc.
  destruct (createPrimWriter E cur j) as [[w|] j1]; simpl in *; [|exact Hc].
  set (j2 := set_mMayaPrimWriterList _ j1).
  assert (H2 : grows P j j2).
  { eapply grows_trans; [exact Hc | by apply grows_same]. }
  destruct (primIsValid j2 (writerPrimPath w)); simpl; [|exact H2].
  pose proof (grows_CheckNameClashes E (writerPrimPath w) (GetDagPath w) j2) as Hn.
  destruct (_CheckNameClashes E (writerPrimPath w) (GetDagPath w) j2) as [ok j3].
  simpl in *. destruct ok; simpl.
  - eapply grows_step; [by apply grows_emit|].
    eapply grows_step; [by apply grows_same|].
    eapply grows_step; [by apply grows_writerWrite|].
    eapply grows_step; [|exact H2].
    eapply grows_weaken; [|exact Hn]. done.
  - eapply grows_trans; [exact H2|].
    eapply grows_weaken; [|exact Hn].
    by intros [[]| | | | | | | | | | | | | | | | | | | | | | |].
Qed.

Lemma grows_traverseDag_begin argDagPaths argDagPathParents node cur leaf j :
  grows P j (traverseDag E argDagPaths argDagPathParents cur node leaf j).2.
Proof.
  pose proof (traverseDag_invariant E (grows P j) (grows P j)
                argDagPaths argDagPathParents) as H.
  assert (Hstep : forall cur0 j0, grows P j j0 ->
            if (exportDagPath E cur0 j0).1.1 then grows P j (exportDagPath E cur0 j0).2
            else grows P j (exportDagPath E cur0 j0).2).
  { intros cur0 j0 H0.
    assert (grows P j (exportDagPath E cur0 j0).2)
      by (eapply grows_trans; [exact H0 | apply grows_exportDagPath_begin]).
    by destruct (exportDagPath E cur0 j0).1.1. }
  specialize (H Hstep node cur leaf j (grows_refl P j)).
  by destruct (traverseDag E _ _ _ _ _ _).1.1.
Qed.

Lemma grows_writeDefaultValues_begin j : grows P j (writeDefaultValues E j).2.
Proof.
  unfold writeDefaultValues.
  destruct (collectArgDagPaths E (dagPaths (mArgs j))) as [argDagPaths argDagPathParents].
  pose proof (grows_traverseDag_begin argDagPaths argDagPathParents
                (DagNode_ "" (dagWorld E)) [] None j) as Ht.
  destruct (traverseDag E argDagPaths argDagPathParents [] (DagNode_ "" (dagWorld E)) None j)
    as [[ok leaf] j1].
  simpl in Ht. destruct ok; simpl; [|exact Ht].
  destruct (_ && _); simpl.
  { eapply grows_trans; [exact Ht | by apply grows_emit]. }
  destruct (negb (PostProcess E)); simpl.
  { eapply grows_trans; [exact Ht|].
    eapply grows_step; [by apply grows_emit | by apply grows_emit]. }
  destruct (negb (MakeModelHierarchy E)); simpl.
  { eapply grows_trans; [exact Ht|].
    eapply grows_step; [by apply grows_emit|].
    eapply grows_step; [by apply grows_emit | by apply grows_emit]. }
  eapply grows_trans; [|by apply grows_chasersExportDefault_class].
  eapply grows_trans; [|by apply grows_populateChasers_class].
  eapply grows_trans; [exact Ht|].
  eapply grows_step; [by apply grows_emit|].
  eapply grows_step; [by apply grows_emit | by apply grows_emit].
Qed.

End DefaultExportEvents.

(** The steps of [_BeginWriting] before the traversal add events of any
    class [Q] that holds the events of these steps. *)
Section SetupEvents.

Variable E : Env.
Variable a : UsdMayaJobExportArgs.
Variable Q : Event -> bool.

Hypothesis Q_python : Q (EvPython (defaultPrimCandidatesCommand a)) = true.
Hypothesis Q_overlap : forall p1 p2, Q (EvDiagnostic (RootsOverlap p1 p2)) = true.
Hypothesis Q_append : Q (EvDiagnostic CannotAppendToPackage) = true.
Hypothesis Q_temporary : forall f, Q (EvDiagnostic (TemporaryStageExists f)) = true.
Hypothesis Q_variant : Q (EvDiagnostic ExportRootsWithModelingVariant) = true.
Hypothesis Q_open : forall f ap, Q (EvOpenFile f ap) = true.
Hypothesis Q_axis : forall u v, Q (EvChangeUpAxisAndUnits u v) = true.
Hypothesis Q_layer :
  Q (EvMel ("editRenderLayerGlobals -currentRenderLayer " ++ defaultRenderLayer E)) = true.

Lemma traceGrows_selectDefaultPrim_class j :
  mArgs j = a -> traceGrows Q j (normalizeDefaultPrim E (selectDefaultPrim E j)).
Proof.
  intros Ha. apply (traceGrows_trans _ j (selectDefaultPrim E j)).
  - unfold selectDefaultPrim. destruct (_ && _); [|apply traceGrows_refl].
    assert (Hev : forallb Q (GetExportDefaultPrimCandidates E (mArgs j)).2 = true).
    { unfold GetExportDefaultPrimCandidates.
      destruct (negb _); [done|]. destruct (_ && _); [done|].
      rewrite Ha. cbn [snd forallb]. by rewrite Q_python. }
    destruct (GetExportDefaultPrimCandidates E (mArgs j)) as [roots evs]. simpl in Hev.
    destruct roots; by exists evs.
  - unfold normalizeDefaultPrim. destruct (bool_decide _); by apply traceGrows_same.
Qed.

Lemma traceGrows_setupFileStructure_class fileExt nameExt append j :
  traceGrows Q j (setupFileStructure E fileExt nameExt append j).2.
Proof.
  unfold setupFileStructure. destruct (decide _); simpl; [|by apply traceGrows_same].
  destruct append; simpl.
  { apply traceGrows_emit. cbn [forallb]. by rewrite Q_append. }
  destruct (decide _); simpl; [|by apply traceGrows_same].
  eexists. split; [reflexivity|]. cbn [forallb]. by rewrite Q_temporary.
Qed.

Lemma traceGrows_setupRenderLayer_class j : traceGrows Q j (setupRenderLayer E j).
Proof.
  unfold setupRenderLayer. destruct (_ && _); [|by apply traceGrows_same].
  eexists. split; [reflexivity|]. cbn [forallb]. by rewrite Q_layer.
Qed.

Lemma traceGrows_openLayer_class fileName append j :
  mArgs j = a -> traceGrows Q j (openLayer E fileName append j).2.
Proof.
  intros Ha. unfold openLayer.
  pose proof (traceGrows_selectDefaultPrim_class j Ha) as H0.
  generalize dependent (normalizeDefaultPrim E (selectDefaultPrim E j)). intros j0 H0.
  destruct (findOverlappingRoots _) as [[path1 path2]|]; simpl.
  { eapply traceGrows_trans; [exact H0|]. apply traceGrows_emit. cbn [forallb].
    by rewrite Q_overlap. }
  destruct (resolveFileName E _ fileName) as [fileExt fileNameWithExt].
  pose proof (traceGrows_setupFileStructure_class fileExt fileNameWithExt append j0) as H1.
  destruct (setupFileStructure E fileExt fileNameWithExt append j0) as [ok1 j1]. simpl in H1.
  assert (H01 : traceGrows Q j j1) by (by eapply traceGrows_trans).
  destruct (negb ok1); simpl; [done|].
  pose proof (keepsNames_setupModelingVariant E Q j1 Q_variant) as (_ & _ & H2).
  destruct (setupModelingVariant E j1) as [ok2 j2]. simpl in H2.
  assert (H02 : traceGrows Q j j2) by (by eapply traceGrows_trans).
  destruct (negb ok2); simpl; [done|].
  eapply traceGrows_trans; [exact H02 | by apply traceGrows_OpenFile].
Qed.

(** The steps from the opening of the layer to the traversal. *)
Lemma traceGrows_beforeTraversal j :
  traceGrows Q j (setupRenderLayer E (setupStage E j)).
Proof.
  eapply traceGrows_trans; [|apply traceGrows_setupRenderLayer_class].
  by pose proof (keepsNames_setupStage E Q j Q_axis) as (_ & _ & H).
Qed.

End SetupEvents.

Section BeginWritingEvents.

Variable E : Env.
Variable a : UsdMayaJobExportArgs.

Lemma BeginWriting_events (fileName : string) (append : bool) (j : Job) :
  mArgs j = a ->
  traceGrows (isBeginWritingEvent E a) j (_BeginWriting E fileName append j).2.
Proof.
  intros Ha. rewrite BeginWriting_openLayer.
  assert (Hlayer : isBeginWritingEvent E a
                     (EvMel ("editRenderLayerGlobals -currentRenderLayer "
                             ++ defaultRenderLayer E)) = true)
    by apply bool_decide_eq_true_2, eq_refl.
  assert (Hpython : isBeginWritingEvent E a (EvPython (defaultPrimCandidatesCommand a)) = true)
    by apply bool_decide_eq_true_2, eq_refl.
  pose proof (traceGrows_openLayer_class E a (isBeginWritingEvent E a) Hpython
                ltac:(done) ltac:(done) ltac:(done) ltac:(done) ltac:(done)
                fileName append j Ha) as Ho.
  destruct (openLayer E fileName append j).1; cbn [snd]; [|exact Ho].
  eapply traceGrows_trans; [exact Ho|].
  eapply traceGrows_trans; [by apply traceGrows_beforeTraversal|].
  apply grows_traceGrows, grows_writeDefaultValues_begin.
Qed.

(** X3.  What [_BeginWriting] does to the world, whether it succeeds or
    not, is among the following: the Python query for the default prim
    candidates; the opening of the layer; the change of up-axis and units;
    the MEL command that switches to the default render layer; requests for
    prim writers, and only for DAG paths that need to be traversed or for
    the world root; writes at the default time; the notifications of the
    model hierarchy, the shading and post-processing steps; the creation
    and the default export of the chasers; errors other than that of the
    packaging.  No frame is written, no callback of the user runs, nothing
    is saved, packaged, released or deleted. *)
Theorem begin_writing_events (fileName : string) (append : bool) (j : Job) :
  mArgs j = a ->
  traceGrows (isBeginWritingEvent E a) j (_BeginWriting E fileName append j).2.
Proof. apply BeginWriting_events. Qed.

End BeginWritingEvents.

(** The export of the group of the scene: every event of [_BeginWriting]
    is of the kinds above. *)
Lemma begin_writing_events_witness :
  let j := newJob (Scene.withRoots [] [["grp"]] Scene.args) ∅ "layerA" in
  traceGrows (isBeginWritingEvent Scene.plain (mArgs j)) j
    (_BeginWriting Scene.plain "out.usda" false j).2.
Proof.
  intros j. apply (begin_writing_events Scene.plain (mArgs j) "out.usda" false j).
  reflexivity.
Defined.

Section NoFrames.

Variable E : Env.

Lemma traceGrows_FinishWriting j : traceGrows isFinishEvent j (_FinishWriting E j).2.
Proof.
  unfold _FinishWriting.
  set (j1 := set_extrasPrimsPaths [] _).
  assert (H1 : finishRel j j1).
  { unfold j1. eapply finishRel_step; [by apply finishRel_same|].
    eapply finishRel_step; [apply finishRel_writersPostExport|].
    apply finishRel_finishDefaultPrim. }
  pose proof (finishRel_chasersPostExport E (mChasers j1) j1) as [Hc _].
  destruct (chasersPostExport E (mChasers j1) j1) as [ok j2]. simpl in Hc.
  assert (H2 : finishRel j j2) by (by eapply finishRel_trans).
  destruct (negb ok); simpl.
  - apply grows_traceGrows, H2.
  - eapply traceGrows_trans; [|apply traceGrows_saveAndRelease].
    apply grows_traceGrows.
    assert (H3 : finishRel j (_PruneEmpties (_PostCallback j2))); [|apply H3].
    eapply finishRel_step; [apply finishRel_PruneEmpties|].
    eapply finishRel_step; [apply finishRel_PostCallback | exact H2].
Qed.

(** X4.  An export without time samples adds no event of a frame to the
    trace: the time of the scene is not changed, no writer writes at a time
    sample, no per-frame hook of a chaser runs and the interrupt flag is
    not read. *)
Theorem no_time_samples_no_frame_events (fileName : string) (append : bool) (j : Job) :
  timeSamplesArg (mArgs j) = [] ->
  traceGrows (fun ev => negb (isFrameEvent ev)) j (Write E fileName append j).2.
Proof.
  intros Hts. rewrite Write_phases, Hts. simpl.
  assert (Hb : traceGrows (fun ev => negb (isFrameEvent ev)) j
                 (_BeginWriting E fileName append j).2).
  { eapply traceGrows_weaken; [|by apply (BeginWriting_events E (mArgs j))].
    intros [| | | | | | | |w [|t]| | | | | | | | | | | | | | |]; done. }
  destruct (_BeginWriting E fileName append j).1; [|exact Hb].
  eapply traceGrows_trans; [exact Hb|].
  eapply traceGrows_weaken; [|apply traceGrows_FinishWriting].
  intros [| | | | | | | |w [|t]| | | | | | | | | | | | | | |]; done.
Qed.

End NoFrames.

(** The export of the group of the scene without time samples. *)
Lemma no_time_samples_no_frame_events_witness :
  let j := newJob (Scene.withRoots [] [["grp"]] Scene.args) ∅ "defaultRenderLayer" in
  traceGrows (fun ev => negb (isFrameEvent ev)) j (Write Scene.plain "out.usda" false j).2.
Proof.
  intros j. apply (no_time_samples_no_frame_events Scene.plain "out.usda" false j).
  reflexivity.
Defined.

(** ** The chasers *)

Section Chasers.

Variable E : Env.

Lemma populateChasers_from names j chasers evs :
  let r := foldl (fun j chaserName =>
                    if ChaserCreate E chaserName
                    then set_mChasers (mChasers (emit [EvChaserCreate chaserName] j)
                                       ++ [chaserName])%list
                                      (emit [EvChaserCreate chaserName] j)
                    else emit [EvDiagnostic (FailedToCreateChaser chaserName)]
                              (emit [EvChaserCreate chaserName] j))
                 j names in
  mChasers j = chasers -> trace j = evs ->
  mChasers r = (chasers ++ filter (fun n => ChaserCreate E n = true) names)%list
  /\ trace r
     = (evs ++ flat_map (fun n => EvChaserCreate n
                                  :: (if ChaserCreate E n then []
                                      else [EvDiagnostic (FailedToCreateChaser n)]))
                        names)%list
  /\ mArgs r = mArgs j /\ mStage r = mStage j.
Proof.
  revert j chasers evs. induction names as [|n names IH]; intros j chasers evs r Hc He.
  - subst r. simpl. by rewrite !app_nil_r.
  - subst r. cbn [foldl flat_map]. rewrite filter_cons.
    destruct (ChaserCreate E n) eqn:Hn.
    + edestruct (IH (set_mChasers (mChasers (emit [EvChaserCreate n] j) ++ [n])%list
                       (emit [EvChaserCreate n] j)))
        as (H1 & H2 & H3 & H4); [reflexivity | reflexivity |].
      rewrite decide_True by done. rewrite H1, H2, H3, H4. simpl. rewrite Hc, He.
      by rewrite <- !app_assoc.
    + edestruct (IH (emit [EvDiagnostic (FailedToCreateChaser n)]
                       (emit [EvChaserCreate n] j)))
        as (H1 & H2 & H3 & H4); [reflexivity | reflexivity |].
      rewrite decide_False by done. rewrite H1, H2, H3, H4. simpl. rewrite Hc, He.
      by rewrite <- !app_assoc.
Qed.

Lemma populateChasers_spec (j : Job) :
  mChasers (populateChasers E j)
  = filter (fun n => ChaserCreate E n = true) (chaserNames (mArgs j))
  /\ trace (populateChasers E j)
     = (trace j ++ flat_map (fun n => EvChaserCreate n
                                      :: (if ChaserCreate E n then []
                                          else [EvDiagnostic (FailedToCreateChaser n)]))
                            (chaserNames (mArgs j)))%list
  /\ mArgs (populateChasers E j) = mArgs j
  /\ mStage (populateChasers E j) = mStage j.
Proof.
  unfold populateChasers.
  apply (populateChasers_from (chaserNames (mArgs j)) (set_mChasers [] j) [] (trace j));
    reflexivity.
Qed.

(** X5.  [_BeginWriting] creates the chasers in the order of their names
    in the arguments: the chasers of the job are then the names for which
    the registry hands out a chaser, whatever chasers the job held before;
    a name for which it hands out none is reported with an error and left
    out, and the job goes on with the next name. *)
Theorem populate_chasers (j : Job) :
  mChasers (populateChasers E j)
  = filter (fun n => ChaserCreate E n = true) (chaserNames (mArgs j))
  /\ trace (populateChasers E j)
     = (trace j ++ flat_map (fun n => EvChaserCreate n
                                      :: (if ChaserCreate E n then []
                                          else [EvDiagnostic (FailedToCreateChaser n)]))
                            (chaserNames (mArgs j)))%list
  /\ mArgs (populateChasers E j) = mArgs j
  /\ mStage (populateChasers E j) = mStage j.
Proof. apply populateChasers_spec. Qed.

Lemma chasersExportDefault_spec chasers j :
  (chasersExportDefault E chasers j).1 = forallb (ExportDefault E) chasers
  /\ trace (chasersExportDefault E chasers j).2
     = (trace j ++ map EvExportDefault (runUntilFail (ExportDefault E) chasers))%list.
Proof.
  revert j. induction chasers as [|c cs IH]; intros j; simpl.
  - by rewrite app_nil_r.
  - destruct (ExportDefault E c); simpl; [|done].
    destruct (IH (emit [EvExportDefault c] j)) as [H1 H2]. rewrite H1, H2. simpl.
    by rewrite <- app_assoc.
Qed.

Lemma BeginWriting_chasers fileName append j :
  (_BeginWriting E fileName append j).1 = true ->
  mChasers (_BeginWriting E fileName append j).2
  = filter (fun n => ChaserCreate E n = true) (chaserNames (mArgs j))
  /\ forallb (ExportDefault E) (mChasers (_BeginWriting E fileName append j).2) = true.
Proof.
  rewrite BeginWriting_openLayer. destruct (openLayer E fileName append j).1; [|done].
  rewrite writeDefaultValues_traverseWorld. cbv zeta.
  set (js := setupRenderLayer E (setupStage E (openLayer E fileName append j).2)).
  assert (Hn : chaserNames (mArgs (traverseWorld E js).2) = chaserNames (mArgs j)).
  { rewrite (pres_traverseWorld E (fun j => chaserNames (mArgs j))) by done. unfold js.
    rewrite (pres_setupRenderLayer E (fun j => chaserNames (mArgs j))) by done.
    rewrite (pres_setupStage E (fun j => chaserNames (mArgs j))) by done.
    by rewrite (pres_openLayer E (fun j => chaserNames (mArgs j))) by done. }
  clearbody js.
  destruct (negb (traverseWorld E js).1); [done|].
  destruct (_ && _); [done|].
  destruct (negb (PostProcess E)); [done|].
  destruct (negb (MakeModelHierarchy E)); [done|].
  set (j2 := emit [EvMakeModelHierarchy] _).
  destruct (populateChasers_spec j2) as (Hp & _ & _ & _).
  assert (Hn2 : chaserNames (mArgs j2) = chaserNames (mArgs j)).
  { unfold j2. by rewrite !(pres_emit (fun j => chaserNames (mArgs j)) (fun _ _ => eq_refl)). }
  clearbody j2.
  destruct (chasersExportDefault_spec (mChasers (populateChasers E j2))
              (populateChasers E j2)) as [H1 _].
  intros Hok. rewrite H1 in Hok.
  rewrite (pres_chasersExportDefault E mChasers) by done.
  rewrite Hp, Hn2 in *. done.
Qed.

(** X6.  The default export of the chasers runs them in their order and
    stops at the first whose [ExportDefault] fails: the later ones are not
    run and the result is a failure.  So when [_BeginWriting] succeeds, the
    chasers of the job are the chasers that the registry could create from
    the names of the arguments, and the default export of every one of them
    has succeeded. *)
Theorem chasers_export_default :
  (forall (chasers : list Chaser) (j : Job),
     (chasersExportDefault E chasers j).1 = forallb (ExportDefault E) chasers
     /\ trace (chasersExportDefault E chasers j).2
        = (trace j ++ map EvExportDefault (runUntilFail (ExportDefault E) chasers))%list)
  /\ (forall (fileName : string) (append : bool) (j : Job),
        (_BeginWriting E fileName append j).1 = true ->
        mChasers (_BeginWriting E fileName append j).2
        = filter (fun n => ChaserCreate E n = true) (chaserNames (mArgs j))
        /\ forall c, c ∈ mChasers (_BeginWriting E fileName append j).2 ->
                     ExportDefault E c = true).
Proof.
  split; [apply chasersExportDefault_spec|].
  intros fileName append j Hok.
  destruct (BeginWriting_chasers fileName append j Hok) as [H1 H2].
  split; [exact H1|]. intros c Hc. rewrite forallb_forall in H2. apply H2.
  by apply list_elem_of_In.
Qed.

Lemma chasersPostExport_spec chasers j :
  (chasersPostExport E chasers j).1 = forallb (PostExport E) chasers
  /\ trace (chasersPostExport E chasers j).2
     = (trace j ++ map EvChaserPostExport (runUntilFail (PostExport E) chasers))%list
  /\ (forallb (PostExport E) chasers = true ->
      _extrasPrimsPaths (chasersPostExport E chasers j).2
      = (_extrasPrimsPaths j ++ flat_map (GetExtraPrimsPaths E) chasers)%list).
Proof.
  revert j. induction chasers as [|c cs IH]; intros j; simpl.
  - by rewrite !app_nil_r.
  - destruct (PostExport E c); simpl; [|done].
    destruct (IH (set_extrasPrimsPaths (_extrasPrimsPaths j ++ GetExtraPrimsPaths E c)%list
                    (emit [EvChaserPostExport c] j))) as (H1 & H2 & H3).
    simpl in H2, H3. rewrite H1, H2. split_and!; [done | by rewrite <- app_assoc |].
    intros Hall. rewrite (H3 Hall). by rewrite <- app_assoc.
Qed.

Lemma writersPostExport_trace writers j :
  trace (foldl (fun j primWriter => emit [EvWriterPostExport primWriter] j) j writers)
  = (trace j ++ map EvWriterPostExport writers)%list.
Proof.
  revert j. induction writers as [|w ws IH]; intros j; simpl; [by rewrite app_nil_r|].
  rewrite IH. simpl. by rewrite <- app_assoc.
Qed.

(** X7.  When the post-export hook of a chaser fails, [_FinishWriting]
    returns false right there: the hooks of the later chasers and the post
    callbacks do not run, the empty prims are not pruned, the up-axis and
    units of the scene are not restored, and nothing is saved, packaged or
    released; the job still holds the stage and the writers. *)
Theorem post_export_failure_stops_finish (j : Job) :
  forallb (PostExport E) (mChasers j) = false ->
  let r := _FinishWriting E j in
  r.1 = false
  /\ trace r.2
     = (trace (finishDefaultPrim E j) ++ map EvWriterPostExport (mMayaPrimWriterList j)
        ++ map EvChaserPostExport (runUntilFail (PostExport E) (mChasers j)))%list
  /\ mStage r.2 = mStage (finishDefaultPrim E j)
  /\ mMayaPrimWriterList r.2 = mMayaPrimWriterList j
  /\ fileSystem r.2 = fileSystem j
  /\ _autoAxisAndUnitsChanger r.2 = _autoAxisAndUnitsChanger j.
Proof.
  intros Hfail. unfold _FinishWriting.
  set (j0 := finishDefaultPrim E j).
  assert (Hw : mMayaPrimWriterList j0 = mMayaPrimWriterList j)
    by by apply pres_finishDefaultPrim.
  assert (Hc : mChasers j0 = mChasers j) by by apply pres_finishDefaultPrim.
  assert (Hf : fileSystem j0 = fileSystem j) by by apply pres_finishDefaultPrim.
  assert (Ha : _autoAxisAndUnitsChanger j0 = _autoAxisAndUnitsChanger j)
    by by apply pres_finishDefaultPrim.
  clearbody j0.
  set (j1 := set_extrasPrimsPaths [] _).
  assert (Ht1 : trace j1 = (trace j0 ++ map EvWriterPostExport (mMayaPrimWriterList j))%list).
  { unfold j1. rewrite Hw. apply writersPostExport_trace. }
  assert (Hs1 : mStage j1 = mStage j0)
    by (unfold j1; simpl; by rewrite (pres_writersPostExport mStage)).
  assert (Hw1 : mMayaPrimWriterList j1 = mMayaPrimWriterList j)
    by (unfold j1; simpl; by rewrite (pres_writersPostExport mMayaPrimWriterList)).
  assert (Hc1 : mChasers j1 = mChasers j)
    by (unfold j1; simpl; by rewrite (pres_writersPostExport mChasers)).
  assert (Hf1 : fileSystem j1 = fileSystem j)
    by (unfold j1; simpl; by rewrite (pres_writersPostExport fileSystem)).
  assert (Ha1 : _autoAxisAndUnitsChanger j1 = _autoAxisAndUnitsChanger j)
    by (unfold j1; simpl; by rewrite (pres_writersPostExport _autoAxisAndUnitsChanger)).
  clearbody j1. rewrite Hc1.
  destruct (chasersPostExport_spec (mChasers j) j1) as (H1 & H2 & _).
  pose proof (pres_chasersPostExport E mStage ltac:(done) ltac:(done) (mChasers j) j1) as H3.
  pose proof (pres_chasersPostExport E mMayaPrimWriterList ltac:(done) ltac:(done)
                (mChasers j) j1) as H4.
  pose proof (pres_chasersPostExport E fileSystem ltac:(done) ltac:(done)
                (mChasers j) j1) as H5.
  pose proof (pres_chasersPostExport E _autoAxisAndUnitsChanger ltac:(done) ltac:(done)
                (mChasers j) j1) as H6.
  destruct (chasersPostExport E (mChasers j) j1) as [ok j2]. simpl in *.
  rewrite Hfail in H1. subst ok. simpl.
  split_and!; try congruence. rewrite H2, Ht1. by rewrite <- app_assoc.
Qed.

(** X8.  When the post-export hooks of all chasers succeed,
    [_FinishWriting] succeeds and the extra prim paths of the job are those
    of its chasers, in the order of the chasers; paths collected by an
    earlier export are dropped. *)
Theorem extra_prims_paths_collected (j : Job) :
  forallb (PostExport E) (mChasers j) = true ->
  (_FinishWriting E j).1 = true
  /\ _extrasPrimsPaths (_FinishWriting E j).2 = flat_map (GetExtraPrimsPaths E) (mChasers j).
Proof.
  intros Hall. unfold _FinishWriting.
  set (j0 := finishDefaultPrim E j).
  assert (Hc : mChasers j0 = mChasers j) by by apply pres_finishDefaultPrim.
  clearbody j0.
  set (j1 := set_extrasPrimsPaths [] _).
  assert (Hc1 : mChasers j1 = mChasers j)
    by (unfold j1; simpl; by rewrite (pres_writersPostExport mChasers)).
  assert (He1 : _extrasPrimsPaths j1 = []) by done.
  clearbody j1. rewrite Hc1.
  destruct (chasersPostExport_spec (mChasers j) j1) as (H1 & _ & H3).
  specialize (H3 Hall).
  destruct (chasersPostExport E (mChasers j) j1) as [ok j2]. simpl in *.
  rewrite Hall in H1. subst ok. simpl. split; [done|].
  rewrite (pres_saveAndRelease E _extrasPrimsPaths) by done.
  rewrite (pres_PruneEmpties _extrasPrimsPaths) by done.
  rewrite (pres_PostCallback _extrasPrimsPaths) by done.
  by rewrite H3, He1.
Qed.

End Chasers.

(** ** The mapping from DAG paths to USD paths and the writers *)

Section Mapping.

Variable E : Env.

Lemma exportDagPath_keeps_mapping cur j k u :
  mDagPathToUsdPathMap j !! k = Some u ->
  mDagPathToUsdPathMap (exportDagPath E cur j).2 !! k = Some u.
Proof.
  intros Hk. unfold exportDagPath. destruct (_ && _); [done|].
  pose proof (pres_createPrimWriter E mDagPathToUsdPathMap ltac:(done) ltac:(done) cur j)
    as Hc.
  destruct (createPrimWriter E cur j) as [[w|] j1]; simpl in *; [|congruence].
  destruct (primIsValid _ _); simpl; [|congruence].
  pose proof (pres_CheckNameClashes E mDagPathToUsdPathMap ltac:(done) ltac:(done)
                (writerPrimPath w) (GetDagPath w)
                (set_mMayaPrimWriterList (mMayaPrimWriterList j1 ++ [w]) j1)) as Hn.
  destruct (_CheckNameClashes E _ _ _) as [ok j2]. simpl in Hn.
  destruct ok; simpl; [|congruence].
  rewrite (pres_writerWrite mDagPathToUsdPathMap) by done.
  apply lookup_union_Some_l. congruence.
Qed.

Lemma traverseWorld_keeps_mapping j k u :
  mDagPathToUsdPathMap j !! k = Some u ->
  mDagPathToUsdPathMap (traverseWorld E j).2 !! k = Some u.
Proof.
  intros Hk. unfold traverseWorld.
  destruct (collectArgDagPaths E _) as [argDagPaths argDagPathParents].
  pose proof (traverseDag_invariant E
                (fun j' => mDagPathToUsdPathMap j' !! k = Some u)
                (fun j' => mDagPathToUsdPathMap j' !! k = Some u)
                argDagPaths argDagPathParents) as H.
  assert (Hstep : forall cur0 j0, mDagPathToUsdPathMap j0 !! k = Some u ->
            if (exportDagPath E cur0 j0).1.1
            then mDagPathToUsdPathMap (exportDagPath E cur0 j0).2 !! k = Some u
            else mDagPathToUsdPathMap (exportDagPath E cur0 j0).2 !! k = Some u).
  { intros cur0 j0 H0. pose proof (exportDagPath_keeps_mapping cur0 j0 k u H0).
    by destruct (exportDagPath E cur0 j0).1.1. }
  specialize (H Hstep (DagNode_ "" (dagWorld E)) [] None j Hk).
  destruct (traverseDag E _ _ _ _ _ _) as [[ok leaf] j1]. simpl in *. by destruct ok.
Qed.

(** What [writeDefaultValues] does to the mapping is what the traversal
    does to it. *)
Lemma writeDefaultValues_mapping j :
  mDagPathToUsdPathMap (writeDefaultValues E j).2
  = mDagPathToUsdPathMap (traverseWorld E j).2.
Proof.
  rewrite writeDefaultValues_traverseWorld. cbv zeta.
  destruct (negb (traverseWorld E j).1); [done|].
  destruct (_ && _); [done|].
  destruct (negb (PostProcess E)); [done|].
  destruct (negb (MakeModelHierarchy E)); [done|].
  rewrite (pres_chasersExportDefault E mDagPathToUsdPathMap) by done.
  by rewrite (pres_populateChasers E mDagPathToUsdPathMap) by done.
Qed.

Lemma BeginWriting_keeps_mapping fileName append j k u :
  mDagPathToUsdPathMap j !! k = Some u ->
  mDagPathToUsdPathMap (_BeginWriting E fileName append j).2 !! k = Some u.
Proof.
  intros Hk. rewrite BeginWriting_openLayer.
  assert (Ho : mDagPathToUsdPathMap (openLayer E fileName append j).2
               = mDagPathToUsdPathMap j) by by apply pres_openLayer.
  destruct (openLayer E fileName append j).1; cbn [snd]; [|by rewrite Ho].
  rewrite writeDefaultValues_mapping. apply traverseWorld_keeps_mapping.
  rewrite (pres_setupRenderLayer E mDagPathToUsdPathMap) by done.
  rewrite (pres_setupStage E mDagPathToUsdPathMap) by done. by rewrite Ho.
Qed.

Lemma Write_mapping fileName append j :
  mDagPathToUsdPathMap (Write E fileName append j).2
  = mDagPathToUsdPathMap (_BeginWriting E fileName append j).2.
Proof.
  rewrite Write_phases.
  destruct (_BeginWriting E fileName append j).1; [|done].
  destruct (writeFrames E _ _).1; cbn [snd].
  - rewrite (pres_FinishWriting E mDagPathToUsdPathMap) by done.
    by apply pres_writeFrames.
  - by apply pres_writeFrames.
Qed.

(** X9.  [MapDagPathToSdfPath] answers with the empty path for a DAG path
    that is not mapped.  A DAG path that is mapped keeps its USD path
    through the whole export: the contribution of a later writer for the
    same DAG path does not replace it, and the mapping is not cleared when
    the stage and the writers are released. *)
Theorem dag_path_mapping_is_kept :
  (forall (j : Job) (dagPath : MDagPath),
     mDagPathToUsdPathMap j !! dagPath = None -> MapDagPathToSdfPath j dagPath = None)
  /\ (forall (fileName : string) (append : bool) (j : Job) (dagPath : MDagPath)
             (usdPath : SdfPath),
        mDagPathToUsdPathMap j !! dagPath = Some usdPath ->
        MapDagPathToSdfPath (_BeginWriting E fileName append j).2 dagPath = usdPath
        /\ MapDagPathToSdfPath (Write E fileName append j).2 dagPath = usdPath).
Proof.
  split.
  - intros j dagPath H. unfold MapDagPathToSdfPath. by rewrite H.
  - intros fileName append j dagPath usdPath H. unfold MapDagPathToSdfPath.
    rewrite Write_mapping. by rewrite (BeginWriting_keeps_mapping fileName append j _ _ H).
Qed.

(** X10.  With an export-root remapping configured, [_BeginWriting]
    succeeds only when the traversal has mapped a DAG path: the mapping of
    the job is then not empty. *)
Theorem export_roots_need_a_mapped_path (fileName : string) (append : bool) (j : Job) :
  rootMapFunctionIsNull (mArgs j) = false ->
  (_BeginWriting E fileName append j).1 = true ->
  size (mDagPathToUsdPathMap (_BeginWriting E fileName append j).2) <> 0.
Proof.
  intros Hroot. rewrite BeginWriting_openLayer.
  assert (Ho : rootMapFunctionIsNull (mArgs (openLayer E fileName append j).2) = false).
  { by rewrite (pres_openLayer E (fun j => rootMapFunctionIsNull (mArgs j))) by done. }
  destruct (openLayer E fileName append j).1; [|done].
  rewrite writeDefaultValues_mapping.
  set (js := setupRenderLayer E (setupStage E (openLayer E fileName append j).2)).
  assert (Hs : rootMapFunctionIsNull (mArgs (traverseWorld E js).2) = false).
  { rewrite (pres_traverseWorld E (fun j => rootMapFunctionIsNull (mArgs j))) by done.
    unfold js.
    rewrite (pres_setupRenderLayer E (fun j => rootMapFunctionIsNull (mArgs j))) by done.
    by rewrite (pres_setupStage E (fun j => rootMapFunctionIsNull (mArgs j))) by done. }
  clearbody js. rewrite writeDefaultValues_traverseWorld. cbv zeta.
  destruct (negb (traverseWorld E js).1); [done|]. rewrite Hs.
  destruct (bool_decide (size (mDagPathToUsdPathMap (traverseWorld E js).2) = 0)) eqn:Hz;
    [done|].
  intros _. by apply bool_decide_eq_false in Hz.
Qed.

(** *** The writers *)

Lemma createdWriters_app evs1 evs2 :
  createdWriters E (evs1 ++ evs2) = (createdWriters E evs1 ++ createdWriters E evs2)%list.
Proof. apply omap_app. Qed.

Lemma createdWriters_none evs :
  forallb (fun ev => negb (isWriterRequest ev)) evs = true -> createdWriters E evs = [].
Proof.
  induction evs as [|ev evs IH]; [done|]. simpl. intros [H1 H2]%andb_prop.
  unfold createdWriters in *. simpl. destruct ev; try done; by apply IH.
Qed.

Lemma recordsWriters_refl j : recordsWriters E j j.
Proof. exists []. by rewrite !app_nil_r. Qed.

Lemma recordsWriters_trans j1 j2 j3 :
  recordsWriters E j1 j2 -> recordsWriters E j2 j3 -> recordsWriters E j1 j3.
Proof.
  intros (evs1 & Ht1 & Hw1) (evs2 & Ht2 & Hw2). exists (evs1 ++ evs2)%list.
  rewrite Ht2, Ht1, Hw2, Hw1, createdWriters_app. by rewrite !app_assoc.
Qed.

(** Steps that make no request and leave the writers as they are. *)
Lemma recordsWriters_quiet j j' :
  traceGrows (fun ev => negb (isWriterRequest ev)) j j' ->
  mMayaPrimWriterList j' = mMayaPrimWriterList j -> recordsWriters E j j'.
Proof.
  intros (evs & Ht & Hq) Hw. exists evs. split; [done|].
  by rewrite (createdWriters_none evs Hq), app_nil_r.
Qed.

Lemma recordsWriters_exportDagPath cur j : recordsWriters E j (exportDagPath E cur j).2.
Proof.
  unfold exportDagPath. destruct (_ && _); [apply recordsWriters_refl|].
  unfold createPrimWriter. destruct (CreatePrimWriter E cur) as [w|] eqn:Hcreate.
  2:{ cbn [fst snd]. exists [EvCreatePrimWriter cur]. split; [done|].
      unfold createdWriters. simpl. by rewrite Hcreate, app_nil_r. }
  set (j1 := match writerPrimPath w with
             | Some l => onStage (Usd.DefinePrim l (writerPrimType w))
                                 (emit [EvCreatePrimWriter cur] j)
             | None => emit [EvCreatePrimWriter cur] j
             end).
  assert (Ht1 : trace j1 = (trace j ++ [EvCreatePrimWriter cur])%list)
    by (unfold j1; by destruct (writerPrimPath w)).
  assert (Hw1 : mMayaPrimWriterList j1 = mMayaPrimWriterList j)
    by (unfold j1; by destruct (writerPrimPath w)).
  clearbody j1.
  set (j2 := set_mMayaPrimWriterList (mMayaPrimWriterList j1 ++ [w]) j1).
  assert (H2 : recordsWriters E j j2).
  { exists [EvCreatePrimWriter cur]. split; [done|].
    unfold createdWriters. simpl. by rewrite Hcreate, Hw1. }
  destruct (primIsValid j2 (writerPrimPath w)); cbn [fst snd]; [|exact H2].
  pose proof (grows_CheckNameClashes E (writerPrimPath w) (GetDagPath w) j2) as Hn.
  pose proof (pres_CheckNameClashes E mMayaPrimWriterList ltac:(done) ltac:(done)
                (writerPrimPath w) (GetDagPath w) j2) as Hnw.
  destruct (_CheckNameClashes E (writerPrimPath w) (GetDagPath w) j2) as [ok j3].
  cbn [fst snd] in *. eapply recordsWriters_trans; [exact H2|].
  destruct ok; cbn [negb fst snd].
  - apply recordsWriters_quiet.
    + apply grows_traceGrows.
      eapply grows_step; [by apply grows_emit|].
      eapply grows_step; [by apply grows_same|].
      eapply grows_step; [by apply grows_writerWrite|].
      eapply grows_weaken; [|exact Hn]. done.
    + simpl. rewrite (pres_writerWrite mMayaPrimWriterList) by done. exact Hnw.
  - apply recordsWriters_quiet; [|exact Hnw].
    apply grows_traceGrows. eapply grows_weaken; [|exact Hn].
    by intros [[]| | | | | | | | | | | | | | | | | | | | | | |].
Qed.

Lemma recordsWriters_traverseWorld j : recordsWriters E j (traverseWorld E j).2.
Proof.
  unfold traverseWorld.
  destruct (collectArgDagPaths E _) as [argDagPaths argDagPathParents].
  pose proof (traverseDag_invariant E (recordsWriters E j) (recordsWriters E j)
                argDagPaths argDagPathParents) as H.
  assert (Hstep : forall cur0 j0, recordsWriters E j j0 ->
            if (exportDagPath E cur0 j0).1.1
            then recordsWriters E j (exportDagPath E cur0 j0).2
            else recordsWriters E j (exportDagPath E cur0 j0).2).
  { intros cur0 j0 H0.
    assert (recordsWriters E j (exportDagPath E cur0 j0).2)
      by (eapply recordsWriters_trans; [exact H0 | apply recordsWriters_exportDagPath]).
    by destruct (exportDagPath E cur0 j0).1.1. }
  specialize (H Hstep (DagNode_ "" (dagWorld E)) [] None j (recordsWriters_refl j)).
  destruct (traverseDag E _ _ _ _ _ _) as [[ok leaf] j1]. simpl in *. by destruct ok.
Qed.

Lemma recordsWriters_writeDefaultValues j : recordsWriters E j (writeDefaultValues E j).2.
Proof.
  rewrite writeDefaultValues_traverseWorld. cbv zeta.
  pose proof (recordsWriters_traverseWorld j) as Ht.
  destruct (negb (traverseWorld E j).1); [exact Ht|].
  eapply recordsWriters_trans; [exact Ht|]. generalize (traverseWorld E j).2 as j1.
  intros j1. clear Ht.
  assert (He : forall evs j0 j', forallb (fun ev => negb (isWriterRequest ev)) evs = true ->
                 trace j' = (trace j0 ++ evs)%list ->
                 mMayaPrimWriterList j' = mMayaPrimWriterList j0 ->
                 recordsWriters E j0 j').
  { intros evs j0 j' Hq Ht Hw. apply recordsWriters_quiet; [by exists evs | done]. }
  destruct (_ && _); cbn [snd]; [by apply (He [EvDiagnostic NoExportRootIntersection])|].
  destruct (negb (PostProcess E)); cbn [snd].
  { apply (He [EvExportShadingEngines; EvPostProcess]); [done | | done].
    simpl. by rewrite <- app_assoc. }
  destruct (negb (MakeModelHierarchy E)); cbn [snd].
  { apply (He [EvExportShadingEngines; EvPostProcess; EvMakeModelHierarchy]); [done | | done].
    simpl. by rewrite <- !app_assoc. }
  set (j2 := emit [EvMakeModelHierarchy] _).
  assert (H2 : recordsWriters E j1 j2).
  { apply (He [EvExportShadingEngines; EvPostProcess; EvMakeModelHierarchy]); [done | | done].
    simpl. by rewrite <- !app_assoc. }
  clearbody j2. eapply recordsWriters_trans; [exact H2|].
  apply (recordsWriters_trans _ (populateChasers E j2)).
  - apply recordsWriters_quiet.
    + apply grows_traceGrows. by apply grows_populateChasers_class.
    + by apply pres_populateChasers.
  - apply recordsWriters_quiet.
    + apply grows_traceGrows. by apply grows_chasersExportDefault_class.
    + by apply pres_chasersExportDefault.
Qed.

(** X11.  Whether [_BeginWriting] succeeds or not, the writers it has added
    to the job are, in their order, the writers that the registry has handed
    out at the requests of the traversal: every writer that is handed out is
    recorded, also one that defines no prim or whose path clashes, and no
    other writer is. *)
Theorem begin_writing_records_writers (fileName : string) (append : bool) (j : Job) :
  recordsWriters E j (_BeginWriting E fileName append j).2.
Proof.
  rewrite BeginWriting_openLayer.
  assert (Ho : recordsWriters E j (openLayer E fileName append j).2).
  { apply recordsWriters_quiet; [|by apply pres_openLayer].
    by apply (traceGrows_openLayer_class E (mArgs j)). }
  destruct (openLayer E fileName append j).1; cbn [snd]; [|exact Ho].
  eapply recordsWriters_trans; [exact Ho|].
  eapply recordsWriters_trans; [|apply recordsWriters_writeDefaultValues].
  apply recordsWriters_quiet.
  - by apply traceGrows_beforeTraversal.
  - rewrite (pres_setupRenderLayer E mMayaPrimWriterList) by done.
    by apply pres_setupStage.
Qed.

End Mapping.

(** ** The metadata of the root layer *)

Section LayerMetadata.

Variable E : Env.

Lemma openLayer_ok fileName append j :
  (openLayer E fileName append j).1 = true ->
  is_Some (mStage (openLayer E fileName append j).2).
Proof.
  unfold openLayer.
  destruct (findOverlappingRoots _) as [[path1 path2]|]; [done|].
  destruct (resolveFileName E _ fileName) as [fileExt fileNameWithExt].
  destruct (setupFileStructure E _ _ _ _) as [[|] j1]; cbn [negb]; [|done].
  destruct (setupModelingVariant E j1) as [[|] j2]; cbn [negb]; [|done].
  unfold _OpenFile. by destruct (OpenFile_stage E _ _).
Qed.

Lemma setupStage_stage j opened :
  mStage j = Some opened ->
  exists stage,
    mStage (setupStage E j) = Some stage
    /\ stagePrims stage = stagePrims opened
    /\ match timeSamplesArg (mArgs j) with
       | [] =>
           startTimeCode stage = startTimeCode opened
           /\ endTimeCode stage = endTimeCode opened
           /\ timeCodesPerSecond stage = timeCodesPerSecond opened
           /\ framesPerSecond stage = framesPerSecond opened
       | first :: rest =>
           startTimeCode stage = Some first
           /\ endTimeCode stage = Some (List.last rest first)
           /\ timeCodesPerSecond stage = Some (sceneTimeUnitAsDouble E)
           /\ framesPerSecond stage = Some (sceneTimeUnitAsDouble E)
       end
    /\ layerCustomData stage
       = match customLayerData (mArgs j) with
         | [] => layerCustomData opened
         | d => d
         end.
Proof.
  intros Hs. unfold setupStage, onStage.
  destruct (timeSamplesArg (mArgs j)) as [|first rest] eqn:Hts; simpl; rewrite Hs;
    destruct (customLayerData (mArgs j)) as [|d ds] eqn:Hd; simpl; rewrite ?Hs; simpl;
    eexists; (split; [reflexivity|]); simpl; split_and!; try done.
  - by destruct rest.
  - by destruct rest.
Qed.

(** X12.  When [_BeginWriting] succeeds, the stage of the job is the stage
    that was opened, with the time range set for an animated export and
    only for it: the start and end time codes are the first and the last
    time sample, the time codes and the frames per second are the time unit
    of the scene; without time samples the four stay as they were opened.
    The custom layer data are those of the arguments when there are any,
    and stay as they were opened otherwise.  The export of the default
    values does not touch the metadata of the layer. *)
Theorem begin_writing_layer_metadata (fileName : string) (append : bool) (j : Job) :
  (_BeginWriting E fileName append j).1 = true ->
  exists opened stage,
    mStage (openLayer E fileName append j).2 = Some opened
    /\ mStage (_BeginWriting E fileName append j).2 = Some stage
    /\ match timeSamplesArg (mArgs j) with
       | [] =>
           startTimeCode stage = startTimeCode opened
           /\ endTimeCode stage = endTimeCode opened
           /\ timeCodesPerSecond stage = timeCodesPerSecond opened
           /\ framesPerSecond stage = framesPerSecond opened
       | first :: rest =>
           startTimeCode stage = Some first
           /\ endTimeCode stage = Some (List.last rest first)
           /\ timeCodesPerSecond stage = Some (sceneTimeUnitAsDouble E)
           /\ framesPerSecond stage = Some (sceneTimeUnitAsDouble E)
       end
    /\ layerCustomData stage
       = match customLayerData (mArgs j) with
         | [] => layerCustomData opened
         | d => d
         end.
Proof.
  rewrite BeginWriting_openLayer.
  pose proof (openLayer_ok fileName append j) as Hopen.
  pose proof (pres_openLayer E (fun j => timeSamplesArg (mArgs j)) ltac:(done) ltac:(done)
                ltac:(done) ltac:(done) ltac:(done) ltac:(done) ltac:(done) ltac:(done)
                fileName append j) as Hts.
  pose proof (pres_openLayer E (fun j => customLayerData (mArgs j)) ltac:(done) ltac:(done)
                ltac:(done) ltac:(done) ltac:(done) ltac:(done) ltac:(done) ltac:(done)
                fileName append j) as Hcd.
  cbn beta in Hts, Hcd.
  destruct (openLayer E fileName append j).1; [|done]. intros _.
  destruct (Hopen eq_refl) as [opened Ho].
  set (jo := (openLayer E fileName append j).2) in *. clearbody jo.
  destruct (setupStage_stage jo opened Ho) as (stage0 & Hs0 & _ & Htime & Hdata).
  rewrite Hts in Htime. rewrite Hcd in Hdata.
  assert (Hl : layerData <$> mStage (writeDefaultValues E (setupRenderLayer E
                                       (setupStage E jo))).2
               = layerData <$> Some stage0).
  { rewrite <- Hs0.
    rewrite (pres_writeDefaultValues E (fun j => layerData <$> mStage j)) by done.
    by rewrite (pres_setupRenderLayer E (fun j => layerData <$> mStage j)) by done. }
  destruct (mStage (writeDefaultValues E _).2) as [stage|]; [|done].
  cbn in Hl. injection Hl as H1 H2 H3 H4 H5 H6 H7.
  exists opened, stage. split_and!; [done | done | | congruence].
  destruct (timeSamplesArg (mArgs j)); destruct Htime as (T1 & T2 & T3 & T4);
    split_and!; congruence.
Qed.

Lemma WriteVariants_name (usdRootPrim : list string) (j : Job) :
  (_WriteVariants E usdRootPrim j).1 = Sdf.GetName (variantRootPrimPath j).
Proof.
  unfold _WriteVariants. cbv zeta.
  by destruct (foldl (writeVariantOfLayer E (variantRootPrimPath j)) _ _) as [dv j1].
Qed.

Lemma finishDefaultPrim_variants (j : Job) (root : option (list string)) (n : TfToken) :
  let r := match root with
           | Some r =>
               if bool_decide (1 < length (mRenderLayerObjs j))
                  && negb (Sdf.IsEmpty (usdModelRootOverridePath (mArgs j)))
               then _WriteVariants E r j
               else (n, j)
           | None => (n, j)
           end in
  layerData <$> mStage r.2 = layerData <$> mStage j /\ mArgs r.2 = mArgs j
  /\ r.1 = match root with
           | Some _ =>
               if bool_decide (1 < length (mRenderLayerObjs j))
                  && negb (Sdf.IsEmpty (usdModelRootOverridePath (mArgs j)))
               then Sdf.GetName (variantRootPrimPath j)
               else n
           | None => n
           end.
Proof.
  destruct root as [r|]; [|done]. destruct (_ && _); [|done]. split_and!.
  - by apply (pres_WriteVariants E (fun j => layerData <$> mStage j)).
  - by apply pres_WriteVariants.
  - apply WriteVariants_name.
Qed.

(** X13.  The default prim of the root layer at the end of an export.  An
    explicit [defaultPrim] argument is written as it is, also when variants
    were written, unless it is the word [None], which leaves the default
    prim of the layer as it was.  Without the argument, the root prim of
    the export is the first child of the pseudo-root in namespace order
    that is active: when there is none (no root prim, or inactive ones
    only), the default prim of the layer is left as it was; otherwise it
    becomes the name of this root prim, or the name of the variant root
    when the variants are written.  The meters per unit of the stage are
    set from the arguments when [exportDistanceUnit] is set, and left as
    they were otherwise; the time codes and the custom layer data are not
    touched. *)
Theorem finish_default_prim (j : Job) (stage : UsdStage) :
  mStage j = Some stage ->
  exists stage',
    mStage (finishDefaultPrim E j) = Some stage'
    /\ (defaultPrim (mArgs j) = "None" -> layerDefaultPrim stage' = layerDefaultPrim stage)
    /\ (defaultPrim (mArgs j) <> "" -> defaultPrim (mArgs j) <> "None" ->
        layerDefaultPrim stage' = Some (defaultPrim (mArgs j)))
    /\ (defaultPrim (mArgs j) = "" ->
        match Usd.GetChildren stage (Some []) with
        | [] => layerDefaultPrim stage' = layerDefaultPrim stage
        | usdRootPrim :: _ =>
            layerDefaultPrim stage'
            = Some (if bool_decide (1 < length (mRenderLayerObjs j))
                       && negb (Sdf.IsEmpty (usdModelRootOverridePath (mArgs j)))
                    then Sdf.GetName (variantRootPrimPath j)
                    else Sdf.GetName (Some usdRootPrim))
        end)
    /\ stageMetersPerUnit stage'
       = (if exportDistanceUnit (mArgs j) then Some (metersPerUnit (mArgs j))
          else stageMetersPerUnit stage)
    /\ startTimeCode stage' = startTimeCode stage
    /\ endTimeCode stage' = endTimeCode stage
    /\ timeCodesPerSecond stage' = timeCodesPerSecond stage
    /\ framesPerSecond stage' = framesPerSecond stage
    /\ layerCustomData stage' = layerCustomData stage.
Proof.
  intros Hs. unfold finishDefaultPrim. rewrite Hs. cbn [from_option].
  generalize (Usd.GetChildren stage (Some [])). intros usdRootPrims.
  pose proof (finishDefaultPrim_variants j (head usdRootPrims)
                (from_option (fun l => Sdf.GetName (Some l)) "" (head usdRootPrims))) as Hv.
  cbv zeta in Hv.
  match goal with
  | |- context [let '(a, b) := ?x in _] => destruct x as [dn j1]
  end.
  cbn [fst snd] in Hv. destruct Hv as (Hl & Ha & ->). rewrite Hs in Hl.
  destruct (mStage j1) as [st1|] eqn:Hs1; [|done].
  cbn in Hl. injection Hl as H1 H2 H3 H4 H5 H6 H7.
  set (j2 := if bool_decide (sceneRenderLayer j1 = mCurrentRenderLayerName j1) then j1
             else editRenderLayerGlobals (mCurrentRenderLayerName j1) j1).
  assert (Hs2 : mStage j2 = Some st1 /\ mArgs j2 = mArgs j).
  { unfold j2. by destruct (bool_decide _). }
  clearbody j2. destruct Hs2 as [Hs2 Ha2].
  set (j3 := if negb (PrimFloat.eqb (metersPerUnit (mArgs j2)) (internalUnitAsLinearUnit E))
             then emit [EvDiagnostic DistanceUnitWarning] j2 else j2).
  assert (Hs3 : mStage j3 = Some st1 /\ mArgs j3 = mArgs j).
  { unfold j3. by destruct (negb _). }
  clearbody j3. destruct Hs3 as [Hs3 Ha3].
  rewrite Ha3.
  set (j4 := if exportDistanceUnit (mArgs j)
             then onStage (Usd.SetStageMetersPerUnit (metersPerUnit (mArgs j))) j3 else j3).
  assert (Hs4 : exists st4, mStage j4 = Some st4
            /\ layerDefaultPrim st4 = layerDefaultPrim stage
            /\ stageMetersPerUnit st4
               = (if exportDistanceUnit (mArgs j) then Some (metersPerUnit (mArgs j))
                  else stageMetersPerUnit stage)
            /\ startTimeCode st4 = startTimeCode stage
            /\ endTimeCode st4 = endTimeCode stage
            /\ timeCodesPerSecond st4 = timeCodesPerSecond stage
            /\ framesPerSecond st4 = framesPerSecond stage
            /\ layerCustomData st4 = layerCustomData stage
            /\ mArgs j4 = mArgs j).
  { unfold j4. destruct (exportDistanceUnit (mArgs j)).
    - eexists. unfold onStage. rewrite Hs3. cbn. split; [reflexivity|]. by cbn.
    - exists st1. by split_and!. }
  clearbody j4. destruct Hs4 as (st4 & Hs4 & D1 & D2 & D3 & D4 & D5 & D6 & D7 & Ha4).
  rewrite Ha4.
  destruct (bool_decide (defaultPrim (mArgs j) = "")) eqn:Hempty; cbn [negb].
  - apply bool_decide_eq_true in Hempty. destruct usdRootPrims as [|r rest]; cbn [head] in *.
    + exists st4. split_and!; try done;
        try (intros Hnone; rewrite Hnone in Hempty; discriminate Hempty).
    + eexists. unfold onStage. rewrite Hs4. cbn. split; [reflexivity|]. cbn.
      split_and!; try done;
        try (intros Hnone; rewrite Hnone in Hempty; discriminate Hempty).
  - apply bool_decide_eq_false in Hempty.
    destruct (bool_decide (defaultPrim (mArgs j) = "None")) eqn:Hnone; cbn [negb].
    + apply bool_decide_eq_true in Hnone. exists st4. split_and!; try done.
    + apply bool_decide_eq_false in Hnone. eexists. unfold onStage. rewrite Hs4. cbn.
      split; [reflexivity|]. cbn. split_and!; try done.
Qed.

End LayerMetadata.

(** ** The properties above on the scene *)

(** Three chaser names of which the registry knows two. *)
Lemma chasers_export_default_witness :
  let j := newJob (Scene.withAnimation [] ["c1"; "missing"; "c2"]
                     (Scene.withRoots [] [["grp"]] Scene.args)) ∅ "defaultRenderLayer" in
  mChasers (_BeginWriting Scene.plain "out.usda" false j).2 = ["c1"; "c2"]
  /\ forall c, c ∈ mChasers (_BeginWriting Scene.plain "out.usda" false j).2 ->
               ExportDefault Scene.plain c = true.
Proof.
  intros j.
  destruct (proj2 (chasers_export_default Scene.plain) "out.usda" false j) as [H1 H2].
  - vm_compute. reflexivity.
  - split; [|exact H2]. rewrite H1. vm_compute. reflexivity.
Defined.

(** Three chasers of which the second fails in its post-export hook. *)
Lemma post_export_failure_stops_finish_witness :
  let E := Scene.env None false ["defaultRenderLayer"] (fun _ => []) (fun _ => false)
             (fun _ _ => true) (fun c => negb (String.eqb c "c2")) true in
  let j := (_BeginWriting E "out.usda" false
              (newJob (Scene.withAnimation [] ["c1"; "c2"; "c3"]
                         (Scene.withRoots [] [["grp"]] Scene.args))
                      ∅ "defaultRenderLayer")).2 in
  let r := _FinishWriting E j in
  r.1 = false
  /\ trace r.2
     = (trace (finishDefaultPrim E j) ++ map EvWriterPostExport (mMayaPrimWriterList j)
        ++ map EvChaserPostExport (runUntilFail (PostExport E) (mChasers j)))%list
  /\ mStage r.2 = mStage (finishDefaultPrim E j)
  /\ mMayaPrimWriterList r.2 = mMayaPrimWriterList j
  /\ fileSystem r.2 = fileSystem j
  /\ _autoAxisAndUnitsChanger r.2 = _autoAxisAndUnitsChanger j.
Proof.
  intros E j. apply (post_export_failure_stops_finish E j). vm_compute. reflexivity.
Defined.

(** Two chasers whose post-export hooks succeed, in a job that holds a
    path from an earlier export. *)
Lemma extra_prims_paths_collected_witness :
  let j := set_extrasPrimsPaths [Some ["old"]]
             (_BeginWriting Scene.plain "out.usda" false
                (newJob (Scene.withAnimation [] ["c1"; "c2"]
                           (Scene.withRoots [] [["grp"]] Scene.args))
                        ∅ "defaultRenderLayer")).2 in
  (_FinishWriting Scene.plain j).1 = true
  /\ _extrasPrimsPaths (_FinishWriting Scene.plain j).2 = [].
Proof.
  intros j. destruct (extra_prims_paths_collected Scene.plain j) as [H1 H2].
  - vm_compute. reflexivity.
  - split; [exact H1|]. rewrite H2. vm_compute. reflexivity.
Defined.

(** A job in which the group is mapped already: the writer of the group,
    which contributes another path for it, does not replace it. *)
Lemma dag_path_mapping_is_kept_witness :
  let j := set_mDagPathToUsdPathMap {[ ["grp"] := Some ["first"] ]}
             (newJob (Scene.withRoots [] [["grp"]] Scene.args) ∅ "defaultRenderLayer") in
  MapDagPathToSdfPath (_BeginWriting Scene.plain "out.usda" false j).2 ["grp"]
  = Some ["first"]
  /\ MapDagPathToSdfPath (Write Scene.plain "out.usda" false j).2 ["grp"] = Some ["first"].
Proof.
  intros j. apply (proj2 (dag_path_mapping_is_kept Scene.plain) "out.usda" false j).
  vm_compute. reflexivity.
Defined.

(** The export of the group with an export-root remapping. *)
Lemma export_roots_need_a_mapped_path_witness :
  let j := newJob (Scene.withOptions false false true "none" "defaultLayer" false
                     (Scene.withRoots ["grp"] [["grp"]] Scene.args))
                  ∅ "defaultRenderLayer" in
  size (mDagPathToUsdPathMap (_BeginWriting Scene.plain "out.usda" false j).2) <> 0.
Proof.
  intros j. apply (export_roots_need_a_mapped_path Scene.plain "out.usda" false j).
  - reflexivity.
  - vm_compute. reflexivity.
Defined.

(** An animated export with three time samples. *)
Lemma begin_writing_layer_metadata_witness :
  let j := newJob (Scene.withAnimation [1%float; 2%float; 3%float] []
                     (Scene.withRoots [] [["grp"]] Scene.args)) ∅ "defaultRenderLayer" in
  exists opened stage,
    mStage (openLayer Scene.plain "out.usda" false j).2 = Some opened
    /\ mStage (_BeginWriting Scene.plain "out.usda" false j).2 = Some stage
    /\ (startTimeCode stage = Some 1%float
        /\ endTimeCode stage = Some 3%float
        /\ timeCodesPerSecond stage = Some 24%float
        /\ framesPerSecond stage = Some 24%float)
    /\ layerCustomData stage = layerCustomData opened.
Proof.
  intros j.
  apply (begin_writing_layer_metadata Scene.plain "out.usda" false j).
  vm_compute. reflexivity.
Defined.

(** A stage whose root prims are, in namespace order, [/off], which is not
    active, [/alpha] and [/zeta], at the end of an export without the
    argument: the default prim of the layer becomes [alpha].  With [/off]
    as the only root prim the default prim of the layer stays as it was.
    The export of the group of the scene has [grp] as its default prim. *)
Lemma finish_default_prim_witness :
  let off := Usd.setActive false (Usd.newPrim "Xform") in
  let three :=
    mkUsdStage (<[["off"] := off]>
                 (<[["alpha"] := Usd.newPrim "Xform"]>
                   (<[["zeta"] := Usd.newPrim "Xform"]> ∅)))
               (Some "kept") None None None None None []
               [["off"]; ["alpha"]; ["zeta"]] in
  let one :=
    mkUsdStage (<[["off"] := off]> ∅) (Some "kept") None None None None None [] [["off"]] in
  let job stage := set_mStage (Some stage) (newJob Scene.args ∅ "defaultRenderLayer") in
  let exported := (_BeginWriting Scene.plain "out.usda" false
                     (newJob (Scene.withRoots [] [["grp"]] Scene.args)
                             ∅ "defaultRenderLayer")).2 in
  (exists stage', mStage (finishDefaultPrim Scene.plain (job three)) = Some stage'
                  /\ layerDefaultPrim stage' = Some "alpha")
  /\ (exists stage', mStage (finishDefaultPrim Scene.plain (job one)) = Some stage'
                     /\ layerDefaultPrim stage' = Some "kept")
  /\ (exists stage', mStage (finishDefaultPrim Scene.plain exported) = Some stage'
                     /\ layerDefaultPrim stage' = Some "grp").
Proof.
  intros off three one job exported. split_and!.
  - destruct (finish_default_prim Scene.plain (job three) three eq_refl)
      as (stage' & Hs & _ & _ & Hfirst & _).
    exists stage'. split; [exact Hs|]. exact (Hfirst eq_refl).
  - destruct (finish_default_prim Scene.plain (job one) one eq_refl)
      as (stage' & Hs & _ & _ & Hfirst & _).
    exists stage'. split; [exact Hs|]. exact (Hfirst eq_refl).
  - destruct (finish_default_prim Scene.plain exported
                (default three (mStage exported)))
      as (stage' & Hs & _ & Hexplicit & _).
    + vm_compute. reflexivity.
    + exists stage'. split; [exact Hs|]. rewrite Hexplicit.
      * vm_compute. reflexivity.
      * vm_compute. discriminate.
      * vm_compute. discriminate.
Defined.

(** ** The prims that a variant deactivates *)

Section Deactivation.

Variable E : Env.

Lemma ancestors_spec (l a : list string) :
  a ∈ Usd.ancestors l <-> a <> [] /\ a `prefix_of` l /\ length a < length l.
Proof.
  unfold Usd.ancestors. rewrite list_elem_of_fmap. split.
  - intros (n & -> & Hn). apply elem_of_seq in Hn.
    assert (Hlen : length (take n l) = n) by (rewrite length_take; lia).
    split_and!.
    + intros H. rewrite H in Hlen. simpl in Hlen. lia.
    + apply prefix_take.
    + lia.
  - intros (Hne & [s Hs] & Hlen). exists (length a). split.
    + by rewrite Hs, take_app_length.
    + apply elem_of_seq. destruct a; [done|]. simpl in *. lia.
Qed.





End Deactivation.


(** ** The structure that [_WriteVariants] builds *)

Section VariantStructure.

Variable E : Env.

Lemma keepsOpinions_refl d : keepsOpinions d d.
Proof. by repeat split. Qed.

Lemma keepsOpinions_trans d1 d2 d3 :
  keepsOpinions d1 d2 -> keepsOpinions d2 d3 -> keepsOpinions d1 d3.
Proof.
  intros (A1 & A2 & A3 & A4 & A5) (B1 & B2 & B3 & B4 & B5).
  repeat split; congruence.
Qed.

Lemma lookup_DefinePrim_ancestors (ancs : list (list string))
    (m : gmap (list string) PrimData) k :
  let m1 := foldr (fun a acc => match acc !! a with
                                | Some _ => acc
                                | None => <[a := Usd.newPrim ""]> acc
                                end) m ancs in
  (forall d, m !! k = Some d -> m1 !! k = Some d)
  /\ (k ∉ ancs -> m1 !! k = m !! k).
Proof.
  induction ancs as [|a ancs IH]; simpl; [done|].
  destruct IH as [IH1 IH2].
  destruct (foldr _ m ancs !! a) eqn:Ha.
  - split; [done|]. intros Hk. apply IH2. intros H. apply Hk. by right.
  - split.
    + intros d Hd. destruct (decide (a = k)) as [->|Hne].
      * rewrite (IH1 d Hd) in Ha. discriminate Ha.
      * rewrite lookup_insert_ne by done. by apply IH1.
    + intros Hk. rewrite lookup_insert_ne.
      * apply IH2. intros H. apply Hk. by right.
      * intros ->. apply Hk. by left.
Qed.

(** [DefinePrim] leaves the prims that are there as they are, and defines
    the prim at its path when it is not there. *)
Lemma lookup_DefinePrim l t st :
  (forall k d, stagePrims st !! k = Some d ->
     stagePrims (Usd.DefinePrim l t st) !! k = Some d)
  /\ (l <> [] -> stagePrims st !! l = None ->
      stagePrims (Usd.DefinePrim l t st) !! l = Some (Usd.newPrim t)).
Proof.
  destruct l as [|x l]; [done|]. unfold Usd.DefinePrim, Usd.setOrder, Usd.setPrims.
  cbn [stagePrims].
  set (ancs := Usd.ancestors (x :: l)).
  split.
  - intros k d Hd.
    destruct (lookup_DefinePrim_ancestors ancs (stagePrims st) k) as [H1 _].
    cbv zeta in H1. specialize (H1 d Hd).
    destruct (foldr _ (stagePrims st) ancs !! (x :: l)) eqn:Hl; [done|].
    destruct (decide (x :: l = k)) as [<-|Hne]; [congruence|].
    by rewrite lookup_insert_ne.
  - intros _ Hnone.
    destruct (lookup_DefinePrim_ancestors ancs (stagePrims st) (x :: l)) as [_ H2].
    cbv zeta in H2. rewrite H2, Hnone.
    + by rewrite lookup_insert_eq.
    + unfold ancs. intros Hin. apply ancestors_spec in Hin as (_ & _ & Hlt). lia.
Qed.

Lemma primAt_onStage (g : UsdStage -> UsdStage) j k st :
  mStage j = Some st -> primAt (onStage g j) k = stagePrims (g st) !! k.
Proof. intros Hs. unfold primAt, onStage. simpl. by rewrite Hs. Qed.

Lemma primAt_alter_other (h : UsdStage -> PrimData -> PrimData) l k j :
  l <> k -> primAt (onStage (fun stage => Usd.alterPrim (h stage) l stage) j) k = primAt j k.
Proof.
  intros Hne. unfold primAt, onStage. destruct (mStage j) as [st|]; [|done].
  cbn. by apply lookup_alter_ne.
Qed.

Lemma primAt_editRenderLayerGlobals name j k :
  primAt (editRenderLayerGlobals name j) k = primAt j k.
Proof. done. Qed.

(** A round of the loop over the render layers touches the prim that
    carries the variants only, and there the variant sets and selections
    only; it does nothing to the stage for a render layer of which no member
    was exported. *)
Lemma writeVariantOfLayer_prims (root : list string) (acc : string * Job) (layer : string) :
  let acc' := writeVariantOfLayer E (Some root) acc layer in
  (forall k, k <> root -> primAt acc'.2 k = primAt acc.2 k)
  /\ (forall d, primAt acc.2 root = Some d ->
        exists d', primAt acc'.2 root = Some d' /\ keepsOpinions d d'
                   /\ (activePathsOfLayer E (Some root) layer acc.2 = [] -> d' = d))
  /\ mDagPathToUsdPathMap acc'.2 = mDagPathToUsdPathMap acc.2.
Proof.
  destruct acc as [dv j]. unfold writeVariantOfLayer. cbn [snd].
  change (default [] (Some root)) with root.
  assert (Hact : activePathsOfLayer E (Some root) layer (editRenderLayerGlobals layer j)
                 = activePathsOfLayer E (Some root) layer j)
    by by apply activePathsOfLayer_ext.
  rewrite Hact. destruct (activePathsOfLayer E (Some root) layer j) as [|p ps]; cbn [snd].
  - split_and!; [done | | done]. intros d Hd. exists d. split_and!; [done | | done].
    apply keepsOpinions_refl.
  - split_and!.
    + intros k Hk. rewrite primAt_alter_other by done.
      by rewrite !primAt_alterPrim, !decide_False by done.
    + intros d Hd.
      set (j3 := onStage (Usd.alterPrim (Usd.setVariantSelection "modelingVariant" layer) root)
                   _).
      assert (H3 : primAt j3 root
                   = Some (Usd.setVariantSelection "modelingVariant" layer
                             (AddVariant "modelingVariant" layer
                                (AddVariantSet "modelingVariant" d)))).
      { unfold j3. rewrite !primAt_alterPrim, !decide_True by done.
        rewrite primAt_editRenderLayerGlobals, Hd. done. }
      clearbody j3.
      destruct (primAt_alterPrim_dep
                  (fun stage => deactivateInVariant "modelingVariant" layer
                                  (primsToDeactivate E stage (p :: ps)))
                  root j3 _ H3) as [stage Hst].
      eexists. split; [exact Hst|]. split; [|done]. by repeat split.
    + done.
Qed.

Lemma writeVariants_loop_prims (root : list string) (layers : list string)
    (acc : string * Job) :
  let acc' := foldl (writeVariantOfLayer E (Some root)) acc layers in
  (forall k, k <> root -> primAt acc'.2 k = primAt acc.2 k)
  /\ (forall d, primAt acc.2 root = Some d ->
        exists d', primAt acc'.2 root = Some d' /\ keepsOpinions d d'
                   /\ ((forall layer, layer ∈ layers ->
                          activePathsOfLayer E (Some root) layer acc.2 = []) -> d' = d)).
Proof.
  revert acc. induction layers as [|layer layers IH]; intros acc; cbn [foldl].
  - split; [done|]. intros d Hd. exists d. split_and!; [done | | done].
    apply keepsOpinions_refl.
  - destruct (writeVariantOfLayer_prims root acc layer) as (H1 & H2 & H3).
    cbv zeta in *.
    destruct (IH (writeVariantOfLayer E (Some root) acc layer)) as [I1 I2].
    split.
    + intros k Hk. by rewrite I1, H1.
    + intros d Hd. destruct (H2 d Hd) as (d1 & Hd1 & K1 & E1).
      destruct (I2 d1 Hd1) as (d2 & Hd2 & K2 & E2).
      exists d2. split_and!; [done | by eapply keepsOpinions_trans |].
      intros Hnone. rewrite E2.
      * apply E1, Hnone. left.
      * intros layer' Hin. rewrite (activePathsOfLayer_ext E _ _ acc.2 _ H3).
        apply Hnone. by right.
Qed.

(** X15.  What [_WriteVariants] leaves on the stage, for a variant root
    that is not the root prim of the export.  It returns the name of the
    variant root.  The variant root is on the stage, active, with an
    internal reference to the root prim; the root prim is deactivated and
    otherwise as it was; every other prim that was on the stage is as it
    was.  When no render layer has a member that was exported, the variant
    root gets no variant set: the reference and the deactivation are there
    all the same. *)
Theorem write_variants_structure (usdRootPrim : list string) (j : Job) (stage : UsdStage)
    (x : string) (l : list string) :
  mStage j = Some stage ->
  variantRootPrimPath j = Some (x :: l) ->
  usdRootPrim <> x :: l ->
  let r := _WriteVariants E usdRootPrim j in
  r.1 = Sdf.GetName (Some (x :: l))
  /\ (exists dv,
        primAt r.2 (x :: l) = Some dv /\ active dv = true
        /\ usdRootPrim ∈ internalReferences dv
        /\ ((forall layer, layer ∈ mRenderLayerObjs j ->
               activePathsOfLayer E (Some (x :: l)) layer j = []) ->
            variantSets dv = from_option variantSets ∅ (stagePrims stage !! (x :: l))))
  /\ (forall d0, stagePrims stage !! usdRootPrim = Some d0 ->
        primAt r.2 usdRootPrim = Some (Usd.setActive false d0))
  /\ (forall k d, stagePrims stage !! k = Some d -> k <> x :: l -> k <> usdRootPrim ->
        primAt r.2 k = Some d).
Proof.
  intros Hs Hroot Hne. unfold _WriteVariants. rewrite Hroot.
  change (default [] (Some (x :: l))) with (x :: l).
  set (root := x :: l) in *.
  set (j1 := onStage (Usd.DefinePrim root "") j).
  assert (Hkeep : forall k d, stagePrims stage !! k = Some d -> primAt j1 k = Some d).
  { intros k d Hk. unfold j1. rewrite (primAt_onStage _ _ _ _ Hs).
    by apply lookup_DefinePrim. }
  assert (Hd1 : exists d1, primAt j1 root = Some d1
            /\ variantSets d1 = from_option variantSets ∅ (stagePrims stage !! root)).
  { destruct (stagePrims stage !! root) as [d|] eqn:Hr.
    - exists d. split; [by apply Hkeep | done].
    - exists (Usd.newPrim ""). split; [|done].
      unfold j1. rewrite (primAt_onStage _ _ _ _ Hs). by apply lookup_DefinePrim. }
  destruct Hd1 as (d1 & Hd1 & Hvs1).
  assert (Hm1 : mDagPathToUsdPathMap j1 = mDagPathToUsdPathMap j) by done.
  assert (Hl1 : mRenderLayerObjs j1 = mRenderLayerObjs j) by done.
  clearbody j1.
  set (j4 := onStage (Usd.alterPrim (Usd.setActive false) usdRootPrim) _).
  assert (H4r : primAt j4 root = Some (Usd.setActive true (Usd.addReference usdRootPrim d1))).
  { unfold j4. rewrite primAt_alterPrim, decide_False by done.
    rewrite !primAt_alterPrim, !decide_True by done. by rewrite Hd1. }
  assert (H4u : forall d0, stagePrims stage !! usdRootPrim = Some d0 ->
                  primAt j4 usdRootPrim = Some (Usd.setActive false d0)).
  { intros d0 Hd0. unfold j4. rewrite primAt_alterPrim, decide_True by done.
    rewrite !primAt_alterPrim, !decide_False by done. by rewrite (Hkeep _ _ Hd0). }
  assert (H4k : forall k d, stagePrims stage !! k = Some d -> k <> root ->
                  k <> usdRootPrim -> primAt j4 k = Some d).
  { intros k d Hk Hkr Hku. unfold j4. rewrite primAt_alterPrim, decide_False by done.
    rewrite !primAt_alterPrim, !decide_False by done. by apply Hkeep. }
  assert (Hm4 : mDagPathToUsdPathMap j4 = mDagPathToUsdPathMap j) by done.
  assert (Hl4 : mRenderLayerObjs j4 = mRenderLayerObjs j) by done.
  clearbody j4. rewrite Hl4.
  destruct (writeVariants_loop_prims root (mRenderLayerObjs j) ("", j4)) as [L1 L2].
  cbv zeta in L1, L2. cbn [snd] in L1, L2.
  destruct (L2 _ H4r) as (d5 & Hd5 & K5 & E5). clear L2.
  destruct (foldl (writeVariantOfLayer E (Some root)) ("", j4) (mRenderLayerObjs j))
    as [dmv j5].
  cbn [fst snd] in *.
  assert (Hvalid : primIsValid j5 (Some root) = true)
    by (by eapply primIsValid_primAt).
  rewrite Hvalid. cbn [fst snd]. split_and!.
  - done.
  - exists (Usd.setVariantSelection "modelingVariant" dmv d5).
    rewrite primAt_alterPrim, decide_True by done. rewrite Hd5.
    destruct K5 as (_ & Ka & _ & Kr & _). split_and!; [done | | |].
    + cbn. by rewrite Ka.
    + cbn. rewrite Kr. cbn. apply elem_of_app. right. by left.
    + intros Hnone. cbn. rewrite E5; [by rewrite <- Hvs1|].
      intros layer Hin. rewrite (activePathsOfLayer_ext E _ _ j _ Hm4). by apply Hnone.
  - intros d0 Hd0. rewrite primAt_alterPrim, decide_False by done.
    rewrite L1 by done. by apply H4u.
  - intros k d Hk Hkr Hku. rewrite primAt_alterPrim, decide_False by done.
    rewrite L1 by done. by apply H4k.
Qed.

End VariantStructure.

(** The scene exported with the group as root prim, under the base model
    path, and no member in any render layer. *)
Lemma write_variants_structure_witness :
  let E := Scene.env (Some "_BaseModel_") false ["layerA"; "defaultRenderLayer"]
             (fun _ => []) (fun _ => false) (fun _ _ => true) (fun _ => true) true in
  let j := (_BeginWriting E "out.usda" false
              (newJob (Scene.withOptions false false true "none" "modelingVariant" true
                         (Scene.withRoots [] [["grp"]] Scene.args))
                      ∅ "defaultRenderLayer")).2 in
  let r := _WriteVariants E ["_BaseModel_"] j in
  r.1 = "grp"
  /\ (exists dv,
        primAt r.2 ["grp"] = Some dv /\ active dv = true
        /\ ["_BaseModel_"] ∈ internalReferences dv /\ variantSets dv = ∅)
  /\ (exists d0, primAt r.2 ["_BaseModel_"] = Some d0 /\ active d0 = false).
Proof.
  intros E j r.
  destruct (write_variants_structure E ["_BaseModel_"] j
              (default (mkUsdStage ∅ None None None None None None [] []) (mStage j))
              "grp" [])
    as (H1 & (dv & Hdv & Ha & Hr & Hv) & H3 & _).
  - vm_compute. reflexivity.
  - vm_compute. reflexivity.
  - discriminate.
  - split_and!.
    + exact H1.
    + exists dv. split_and!; [exact Hdv | exact Ha | exact Hr |].
      rewrite Hv; [vm_compute; reflexivity|].
      intros layer Hin. vm_compute. reflexivity.
    + eexists. split; [apply H3; vm_compute; reflexivity|]. reflexivity.
Defined.

(** ** What the pruning removes *)

Section PruningSafety.





End PruningSafety.


(** ** The change of up-axis and units *)

Section UpAxisAndUnits.

Import AutoUpAxisAndUnitsChanger.

Variable T : UnitTokens.
Variable U : LinearUnits.
Variable printf_f : double -> string.
Variable scene : MayaPrefs.

Lemma unitsConversionMap_lookup (tok : TfToken) (factor : double) :
  NoDup (unitTokens T) ->
  (tok, factor) ∈ [ (nm T, nanometers U); (um T, micrometers U); (mm T, millimeters U);
                    (cm T, centimeters U); (dm T, 0x1.999999999999ap-4%float);
                    (m T, meters U); (km T, kilometers U); (lightyear T, lightYears U);
                    (inch T, inches U); (foot T, feet U); (yard T, yards U);
                    (mile T, miles U) ] ->
  _convertOptionUnitsToUSDUnits T U tok = factor.
Proof.
  intros Hnd Hin. unfold _convertOptionUnitsToUSDUnits, unitsConversionMap.
  erewrite elem_of_list_to_map_1; [reflexivity | | exact Hin]. exact Hnd.
Qed.

Lemma convert_maya_units (mayaUnits : MDistanceUnit) :
  NoDup (unitTokens T) ->
  _convertOptionUnitsToUSDUnits T U (_convertMayaUnitsToOptionUnits T mayaUnits)
  = linearUnitOf U mayaUnits.
Proof.
  intros Hnd. apply unitsConversionMap_lookup; [done|].
  apply list_elem_of_In. destruct mayaUnits; simpl; tauto.
Qed.

(** X17.  The two tables of units agree.  When the tokens of the units are
    distinct, the factor that [_convertOptionUnitsToUSDUnits] gives for the
    token that [_convertMayaUnitsToOptionUnits] gives for a unit of Maya is
    the meters per unit of this unit; a value of the enumeration that is not
    a unit counts as centimeters.  A token that is not the token of a unit
    (such as the tokens of the options [none] and [mayaPrefs]) gives the
    factor of centimeters, and the decimeter gives one tenth. *)
Theorem unit_tables_agree :
  NoDup (unitTokens T) ->
  (forall mayaUnits,
     _convertOptionUnitsToUSDUnits T U (_convertMayaUnitsToOptionUnits T mayaUnits)
     = linearUnitOf U mayaUnits)
  /\ (forall tok, tok ∉ unitTokens T ->
        _convertOptionUnitsToUSDUnits T U tok = centimeters U)
  /\ _convertOptionUnitsToUSDUnits T U (dm T) = 0x1.999999999999ap-4%float.
Proof.
  intros Hnd. split_and!.
  - intros mayaUnits. by apply convert_maya_units.
  - intros tok Hout. unfold _convertOptionUnitsToUSDUnits, unitsConversionMap.
    rewrite not_elem_of_list_to_map_1; [done | exact Hout].
  - apply unitsConversionMap_lookup; [done|]. apply list_elem_of_In. simpl. tauto.
Qed.

Lemma scriptPrefix_nonempty s : scriptPrefix ++ s <> "".
Proof. done. Qed.

Lemma units_commands_empty stage unitsOption :
  (_prepareUnitsCommands T U printf_f scene stage unitsOption).1 = ""
  <-> unitsOption = none T
      \/ (if bool_decide (unitsOption = mayaPrefs T)
          then _convertMayaUnitsToOptionUnits T (uiUnit scene) else unitsOption)
         = _convertMayaUnitsToOptionUnits T (internalUnit scene).
Proof.
  unfold _prepareUnitsCommands. destruct (decide (unitsOption = none T)) as [Hn|Hn].
  - split; [by left | done].
  - cbv zeta. destruct (decide (_ = _)) as [Hw|Hw].
    + split; [by right | done].
    + split; [done|]. by intros [?|?].
Qed.

Lemma upAxis_commands_empty upAxisOption :
  (_prepareUpAxisCommands T scene upAxisOption).1 = ""
  <-> upAxisOption = none T
      \/ (bool_decide (upAxisOption = mayaPrefs T) && isZAxisUp scene
          || bool_decide (upAxisOption = z T)) = isZAxisUp scene.
Proof.
  unfold _prepareUpAxisCommands. destruct (decide (upAxisOption = none T)) as [Hn|Hn].
  - split; [by left | done].
  - cbv zeta.
    destruct (Bool.eqb _ (isZAxisUp scene)) eqn:Heq.
    + apply Bool.eqb_prop in Heq. split; [by right | done].
    + split.
      * by destruct (_ || _).
      * intros [?|Hw]; [done|]. rewrite Hw, Bool.eqb_reflx in Heq. discriminate Heq.
Qed.

(** X18.  The script that [_prepareCommands] hands to the undoable command
    is empty exactly when the scene needs no change: the up-axis option is
    [none] or the wanted up-axis is the one of the scene, and the units
    option is [none] or the wanted units are the internal units of the
    scene.  Otherwise the script is the commands of the up-axis and of the
    units, in this order, between the prefix that groups the root nodes and
    the suffix that ungroups them and restores the selection.  The prims of
    the stage are not touched, and with both options [none] neither is its
    metadata. *)
Theorem prepare_commands (stage : UsdStage) (upAxisOption unitsOption : TfToken) :
  let r := _prepareCommands T U printf_f scene stage upAxisOption unitsOption in
  let upAxisCommands := (_prepareUpAxisCommands T scene upAxisOption).1 in
  let unitsCommands := (_prepareUnitsCommands T U printf_f scene stage unitsOption).1 in
  (r.1.1 = ""
   <-> (upAxisOption = none T
        \/ (bool_decide (upAxisOption = mayaPrefs T) && isZAxisUp scene
            || bool_decide (upAxisOption = z T)) = isZAxisUp scene)
       /\ (unitsOption = none T
           \/ (if bool_decide (unitsOption = mayaPrefs T)
               then _convertMayaUnitsToOptionUnits T (uiUnit scene) else unitsOption)
              = _convertMayaUnitsToOptionUnits T (internalUnit scene)))
  /\ (r.1.1 <> "" ->
      r.1.1 = scriptPrefix ++ upAxisCommands ++ unitsCommands ++ scriptSuffix)
  /\ stagePrims r.1.2 = stagePrims stage
  /\ (upAxisOption = none T -> unitsOption = none T -> r = ("", stage, None)).
Proof.
  cbv zeta. unfold _prepareCommands.
  pose proof (upAxis_commands_empty upAxisOption) as Hup.
  pose proof (units_commands_empty stage unitsOption) as Hun.
  assert (Hprims : stagePrims (_prepareUnitsCommands T U printf_f scene stage unitsOption).2
                   = stagePrims stage).
  { unfold _prepareUnitsCommands. destruct (decide _); [done|]. cbv zeta.
    by destruct (decide _). }
  assert (Hnone : upAxisOption = none T -> unitsOption = none T ->
            _prepareUpAxisCommands T scene upAxisOption = ("", None)
            /\ _prepareUnitsCommands T U printf_f scene stage unitsOption = ("", stage)).
  { intros H1 H2. unfold _prepareUpAxisCommands, _prepareUnitsCommands.
    by rewrite !decide_True by done. }
  destruct (_prepareUpAxisCommands T scene upAxisOption) as [upc authored].
  destruct (_prepareUnitsCommands T U printf_f scene stage unitsOption) as [unc stage'].
  cbn [fst snd] in *.
  destruct (bool_decide (upc = "")) eqn:H1; destruct (bool_decide (unc = "")) eqn:H2;
    cbn [andb fst snd].
  - apply bool_decide_eq_true in H1, H2. split_and!; [| done | done |].
    + split; [intros _; split; [by apply Hup | by apply Hun] | done].
    + intros Ha Hu. destruct (Hnone Ha Hu) as [[= _ <-] [= _ <-]]. done.
  - apply bool_decide_eq_false in H2. split_and!; [| done | done |].
    + split; [intros H; by apply scriptPrefix_nonempty in H|].
      intros [_ Hu]. by apply Hun in Hu.
    + intros Ha Hu. by destruct (Hnone Ha Hu) as [_ [= ? _]].
  - apply bool_decide_eq_false in H1. split_and!; [| done | done |].
    + split; [intros H; by apply scriptPrefix_nonempty in H|].
      intros [Ha _]. by apply Hup in Ha.
    + intros Ha Hu. by destruct (Hnone Ha Hu) as [[= ? _] _].
  - apply bool_decide_eq_false in H1. split_and!; [| done | done |].
    + split; [intros H; by apply scriptPrefix_nonempty in H|].
      intros [Ha _]. by apply Hup in Ha.
    + intros Ha Hu. by destruct (Hnone Ha Hu) as [[= ? _] _].
Qed.

(** X19.  With the option [mayaPrefs] for the up-axis and for the units, in
    a scene whose unit of the user interface is its internal unit, the
    script is empty, so the scene is not changed, and the stage is given the
    up-axis of the scene and the meters per unit of its unit. *)
Theorem maya_prefs_leave_scene (stage : UsdStage) :
  NoDup (unitTokens T) ->
  mayaPrefs T <> none T -> mayaPrefs T <> z T ->
  uiUnit scene = internalUnit scene ->
  _prepareCommands T U printf_f scene stage (mayaPrefs T) (mayaPrefs T)
  = ("",
     Usd.SetStageMetersPerUnit (linearUnitOf U (internalUnit scene)) stage,
     Some (if isZAxisUp scene then AxisZ else AxisY)).
Proof.
  intros Hnd Hn Hz Hui. unfold _prepareCommands, _prepareUpAxisCommands, _prepareUnitsCommands.
  rewrite !decide_False by done. cbv zeta.
  rewrite !bool_decide_true by done. rewrite (bool_decide_false (mayaPrefs T = z T)) by done.
  rewrite Hui. rewrite decide_True by done.
  rewrite convert_maya_units by done.
  by destruct (isZAxisUp scene).
Qed.

End UpAxisAndUnits.

(** The units of the libraries: a scene in centimeters, and a scene whose
    user interface is in meters and whose up-axis is Z. *)
Lemma unit_tables_agree_witness :
  AutoUpAxisAndUnitsChanger._convertOptionUnitsToUSDUnits
    AutoUpAxisAndUnitsChanger.theTokens AutoUpAxisAndUnitsChanger.theUnits
    (AutoUpAxisAndUnitsChanger._convertMayaUnitsToOptionUnits
       AutoUpAxisAndUnitsChanger.theTokens AutoUpAxisAndUnitsChanger.kInches)
  = 0x1.a027525460aa6p-6%float
  /\ AutoUpAxisAndUnitsChanger._convertOptionUnitsToUSDUnits
       AutoUpAxisAndUnitsChanger.theTokens AutoUpAxisAndUnitsChanger.theUnits "mayaPrefs"
     = 0x1.47ae147ae147bp-7%float.
Proof.
  assert (Hnd : NoDup (AutoUpAxisAndUnitsChanger.unitTokens
                         AutoUpAxisAndUnitsChanger.theTokens)).
  { refine (bool_decide_unpack _ _); vm_compute; exact I. }
  destruct (unit_tables_agree AutoUpAxisAndUnitsChanger.theTokens
              AutoUpAxisAndUnitsChanger.theUnits Hnd) as (H1 & H2 & _).
  split.
  - exact (H1 AutoUpAxisAndUnitsChanger.kInches).
  - apply H2. refine (bool_decide_unpack _ _); vm_compute; exact I.
Defined.

Lemma maya_prefs_leave_scene_witness :
  AutoUpAxisAndUnitsChanger._prepareCommands
    AutoUpAxisAndUnitsChanger.theTokens AutoUpAxisAndUnitsChanger.theUnits (fun _ => "1.0")
    (AutoUpAxisAndUnitsChanger.mkMayaPrefs AutoUpAxisAndUnitsChanger.kCentimeters
       AutoUpAxisAndUnitsChanger.kCentimeters true)
    (mkUsdStage ∅ None None None None None None [] []) "mayaPrefs" "mayaPrefs"
  = ("",
     Usd.SetStageMetersPerUnit 0x1.47ae147ae147bp-7%float
       (mkUsdStage ∅ None None None None None None [] []),
     Some AutoUpAxisAndUnitsChanger.AxisZ).
Proof.
  apply (maya_prefs_leave_scene AutoUpAxisAndUnitsChanger.theTokens
           AutoUpAxisAndUnitsChanger.theUnits (fun _ => "1.0")
           (AutoUpAxisAndUnitsChanger.mkMayaPrefs AutoUpAxisAndUnitsChanger.kCentimeters
              AutoUpAxisAndUnitsChanger.kCentimeters true)).
  - refine (bool_decide_unpack _ _); vm_compute; exact I.
  - discriminate.
  - discriminate.
  - reflexivity.
Defined.

(** ** The arg dagPaths and their parents *)

Section ArgDagPaths.

Variable E : Env.

Lemma pop_spec (p up : MDagPath) :
  Dag.pop p = Some up ->
  up `prefix_of` p /\ S (length up) = length p
  /\ forall q, q `prefix_of` p -> q <> p -> q `prefix_of` up.
Proof.
  destruct p as [|x p] using rev_ind; [done|]. clear IHp.
  unfold Dag.pop. destruct (p ++ [x])%list eqn:Hp; [by destruct p|].
  rewrite <- Hp. intros [= <-]. rewrite removelast_last.
  split_and!.
  - by apply prefix_app_r.
  - rewrite length_app. simpl. lia.
  - intros q [k Hq] Hne. destruct k as [|y k] using rev_ind.
    + rewrite app_nil_r in Hq. by subst.
    + clear IHk. rewrite app_assoc in Hq. apply app_inj_tail in Hq as [-> _].
      by apply prefix_app_r.
Qed.

Lemma pop_None (p : MDagPath) : Dag.pop p = None -> p = [].
Proof. by destruct p. Qed.

(** The step of the loop over the arg dagPaths. *)
Lemma collectArgDagPaths_snoc (l : list MDagPath) (p : MDagPath) :
  collectArgDagPaths E (l ++ [p])
  = (if negb (dagPathIsValid E p) then collectArgDagPaths E l
     else
       match Dag.pop p with
       | None =>
           ({[partialPathName E p]} ∪ (collectArgDagPaths E l).1,
            (collectArgDagPaths E l).2)
       | Some up =>
           ({[partialPathName E p]} ∪ (collectArgDagPaths E l).1,
            addDagPathParents E (S (length up)) up (collectArgDagPaths E l).2)
       end).
Proof.
  unfold collectArgDagPaths. rewrite foldl_snoc.
  destruct (foldl _ _ l) as [A P]. cbn [fst snd].
  destruct (negb (dagPathIsValid E p)); [done|]. by destruct (Dag.pop p).
Qed.

Lemma addDagPathParents_sound (n : nat) (cur : MDagPath) (P : gset string) (s : string) :
  s ∈ addDagPathParents E n cur P ->
  s ∈ P \/ exists q, q `prefix_of` cur /\ dagPathIsValid E q = true
                     /\ s = partialPathName E q.
Proof.
  revert cur P. induction n as [|n IH]; intros cur P; simpl; [by left|].
  destruct (dagPathIsValid E cur) eqn:Hv; [|by left].
  destruct (decide (partialPathName E cur ∈ P)); [by left|].
  assert (Hhere : s ∈ ({[partialPathName E cur]} ∪ P : gset string) ->
                  s ∈ P \/ exists q, q `prefix_of` cur /\ dagPathIsValid E q = true
                                     /\ s = partialPathName E q).
  { intros [->%elem_of_singleton|H]%elem_of_union; [right|by left]. by exists cur. }
  destruct (Dag.pop cur) as [up|] eqn:Hpop; [|exact Hhere].
  intros [H|(q & Hq & Hvq & ->)]%IH; [by apply Hhere|].
  right. exists q. split_and!; [|done..].
  etrans; [exact Hq|]. by apply pop_spec.
Qed.

Lemma addDagPathParents_mono (n : nat) (cur : MDagPath) (P : gset string) :
  P ⊆ addDagPathParents E n cur P.
Proof.
  revert cur P. induction n as [|n IH]; intros cur P; simpl; [done|].
  destruct (dagPathIsValid E cur); [|done].
  destruct (decide (partialPathName E cur ∈ P)); [done|].
  destruct (Dag.pop cur) as [up|]; [|set_solver].
  etrans; [|apply IH]. set_solver.
Qed.

Lemma collectArgDagPaths_sound (paths : list MDagPath) :
  (forall s, s ∈ (collectArgDagPaths E paths).1
             <-> exists p, p ∈ paths /\ dagPathIsValid E p = true
                           /\ s = partialPathName E p)
  /\ (forall s, s ∈ (collectArgDagPaths E paths).2 ->
        exists p q, p ∈ paths /\ dagPathIsValid E p = true
                    /\ q `prefix_of` p /\ q <> p /\ dagPathIsValid E q = true
                    /\ s = partialPathName E q).
Proof.
  induction paths as [|p l [IH1 IH2]] using rev_ind.
  { split; [|set_solver]. intros s. split; [set_solver|].
    intros (p & Hp & _). by apply elem_of_nil in Hp. }
  rewrite collectArgDagPaths_snoc.
  assert (Hold1 : forall s,
            (exists p0, p0 ∈ l /\ dagPathIsValid E p0 = true /\ s = partialPathName E p0) ->
            exists p0, p0 ∈ (l ++ [p])%list /\ dagPathIsValid E p0 = true
                       /\ s = partialPathName E p0).
  { intros s (p0 & H & H'). exists p0. split; [|done]. apply elem_of_app. by left. }
  assert (Hold2 : forall s, s ∈ (collectArgDagPaths E l).2 ->
            exists p0 q, p0 ∈ (l ++ [p])%list /\ dagPathIsValid E p0 = true
                         /\ q `prefix_of` p0 /\ q <> p0 /\ dagPathIsValid E q = true
                         /\ s = partialPathName E q).
  { intros s (p0 & q & H & H')%IH2. exists p0, q. split; [|done].
    apply elem_of_app. by left. }
  destruct (dagPathIsValid E p) eqn:Hv; cbn [negb].
  2:{ split; [|exact Hold2]. intros s. rewrite IH1. split; [apply Hold1|].
      intros (p0 & [H|H%list_elem_of_singleton]%elem_of_app & Hv0 & ->).
      - by exists p0.
      - subst. congruence. }
  assert (Hnew1 : forall (A : gset string) s,
            (forall s, s ∈ A <-> s ∈ ({[partialPathName E p]} ∪ (collectArgDagPaths E l).1
                                       : gset string)) ->
            s ∈ A <-> exists p0, p0 ∈ (l ++ [p])%list /\ dagPathIsValid E p0 = true
                                 /\ s = partialPathName E p0).
  { intros A s HA. rewrite HA, elem_of_union, elem_of_singleton, IH1. split.
    - intros [->|H]; [|by apply Hold1]. exists p. split; [|done].
      apply elem_of_app. right. by apply list_elem_of_singleton.
    - intros (p0 & [H|H%list_elem_of_singleton]%elem_of_app & Hv0 & ->).
      + right. by exists p0.
      + left. by subst. }
  destruct (Dag.pop p) as [up|] eqn:Hpop; cbn [fst snd].
  - split; [intros s; by apply Hnew1|].
    intros s [H|(q & Hq & Hvq & ->)]%addDagPathParents_sound; [by apply Hold2|].
    destruct (pop_spec p up Hpop) as (Hup & Hlen & _).
    exists p, q. split_and!; try done.
    + apply elem_of_app. right. by apply list_elem_of_singleton.
    + by etrans.
    + intros ->. apply prefix_length in Hq. lia.
  - split; [intros s; by apply Hnew1|exact Hold2].
Qed.

(** *** The walk to the world root may stop at a recorded parent *)

Section Complete.

Variable paths : list MDagPath.

(** The paths at or above a valid arg dagPath. *)
Local Abbreviation relevant q :=
  (exists p, p ∈ paths /\ dagPathIsValid E p = true /\ q `prefix_of` p).

Hypothesis parents_valid : forall q, relevant q -> dagPathIsValid E q = true.

Hypothesis names_unique :
  forall q q', relevant q -> relevant q' ->
               partialPathName E q = partialPathName E q' -> q = q'.

(** All the paths above a recorded one are recorded. *)
Local Abbreviation closed P :=
  (forall q, relevant q -> partialPathName E q ∈ P ->
             forall q', q' `prefix_of` q -> partialPathName E q' ∈ (P : gset string)).

(** During the walk from an arg dagPath, at [cur]: the paths recorded by
    this walk are below [cur], and what is above them is recorded or is at
    or above [cur]. *)
#[warnings="-inconsistent-scopes"]
Local Abbreviation walking P cur :=
  (forall q, relevant q -> partialPathName E q ∈ (P : gset string) ->
     (forall q', q' `prefix_of` q -> partialPathName E q' ∈ P)
     \/ (length cur < length q
         /\ forall q', q' `prefix_of` q ->
                       partialPathName E q' ∈ P \/ q' `prefix_of` cur)).

Lemma addDagPathParents_closed (n : nat) (cur : MDagPath) (P : gset string) :
  relevant cur -> length cur < n -> walking P cur ->
  closed (addDagPathParents E n cur P)
  /\ partialPathName E cur ∈ addDagPathParents E n cur P.
Proof.
  revert cur P. induction n as [|n IH]; intros cur P Hrel Hlen Hwalk; [lia|].
  cbn [addDagPathParents]. rewrite (parents_valid cur Hrel).
  destruct (decide (partialPathName E cur ∈ P)) as [Hin|Hnin].
  { split; [|done].
    assert (Hcur : forall q', q' `prefix_of` cur -> partialPathName E q' ∈ P).
    { destruct (Hwalk cur Hrel Hin) as [H|[H _]]; [exact H|lia]. }
    intros q Hq Hqin q' Hq'.
    destruct (Hwalk q Hq Hqin) as [H|[_ H]]; [by apply H|].
    destruct (H q' Hq') as [H'|H']; [done|by apply Hcur]. }
  destruct (Dag.pop cur) as [up|] eqn:Hpop.
  - destruct (pop_spec cur up Hpop) as (Hup & Hl & Hstrict).
    assert (Hrelup : relevant up).
    { destruct Hrel as (p & Hp & Hv & Hpre). exists p. split_and!; [done..|by etrans]. }
    destruct (IH up ({[partialPathName E cur]} ∪ P)) as [Hc Hi]; [done|lia| |].
    + intros q Hq [Heq%elem_of_singleton|Hqin]%elem_of_union.
      * apply names_unique in Heq; [|done..]. subst q. right. split; [lia|].
        intros q' Hq'. destruct (decide (q' = cur)) as [->|Hne].
        -- left. apply elem_of_union_l, elem_of_singleton; reflexivity.
        -- right. by apply Hstrict.
      * destruct (Hwalk q Hq Hqin) as [H|[Hlq H]].
        -- left. intros q' Hq'. apply elem_of_union. right. by apply H.
        -- right. split; [lia|]. intros q' Hq'.
           destruct (H q' Hq') as [H'|H']; [left; by apply elem_of_union_r|].
           destruct (decide (q' = cur)) as [->|Hne]; [left; apply elem_of_union_l, elem_of_singleton; reflexivity|].
           right. by apply Hstrict.
    + split; [exact Hc|].
      eapply addDagPathParents_mono. apply elem_of_union_l, elem_of_singleton; reflexivity.
  - apply pop_None in Hpop. subst cur. split; [|apply elem_of_union_l, elem_of_singleton; reflexivity].
    intros q Hq [Heq%elem_of_singleton|Hqin]%elem_of_union q' Hq'.
    + apply names_unique in Heq; [|done..]. subst q.
      apply prefix_nil_inv in Hq'. subst q'. apply elem_of_union_l, elem_of_singleton; reflexivity.
    + destruct (Hwalk q Hq Hqin) as [H|[_ H]]; [by apply elem_of_union_r, H|].
      destruct (H q' Hq') as [H'|H']; [by apply elem_of_union_r|].
      apply prefix_nil_inv in H'. subst q'. apply elem_of_union_l, elem_of_singleton; reflexivity.
Qed.

Lemma collectArgDagPaths_closed (l : list MDagPath) :
  (forall p, p ∈ l -> p ∈ paths) ->
  closed (collectArgDagPaths E l).2
  /\ forall p q, p ∈ l -> dagPathIsValid E p = true -> q `prefix_of` p -> q <> p ->
                 partialPathName E q ∈ (collectArgDagPaths E l).2.
Proof.
  induction l as [|p l IH] using rev_ind; intros Hsub.
  { split; [set_solver|]. intros p q Hp. by apply elem_of_nil in Hp. }
  destruct IH as [IHc IHp].
  { intros p0 Hp0. apply Hsub, elem_of_app. by left. }
  rewrite collectArgDagPaths_snoc.
  destruct (dagPathIsValid E p) eqn:Hv; cbn [negb].
  2:{ split; [exact IHc|].
      intros p0 q [H|H%list_elem_of_singleton]%elem_of_app Hv0; [by apply IHp|].
      subst. congruence. }
  assert (Hp : p ∈ paths).
  { apply Hsub, elem_of_app. right. by apply list_elem_of_singleton. }
  destruct (Dag.pop p) as [up|] eqn:Hpop; cbn [snd].
  - destruct (pop_spec p up Hpop) as (Hup & Hl & Hstrict).
    destruct (addDagPathParents_closed (S (length up)) up (collectArgDagPaths E l).2)
      as [Hc Hi].
    + by exists p.
    + lia.
    + intros q Hq Hqin. left. by apply IHc.
    + split; [exact Hc|].
      intros p0 q [H|H%list_elem_of_singleton]%elem_of_app Hv0 Hq Hne.
      * eapply addDagPathParents_mono. by eapply IHp.
      * subst p0. apply (Hc up); [by exists p|done|by apply Hstrict].
  - apply pop_None in Hpop. split; [exact IHc|].
    intros p0 q [H|H%list_elem_of_singleton]%elem_of_app Hv0 Hq Hne; [by eapply IHp|].
    subst. apply prefix_nil_inv in Hq. by subst.
Qed.

(** X21.  When every path above a valid arg dagPath is valid and the paths
    at or above the valid arg dagPaths have distinct partial path names,
    the second set holds all the parents of the valid arg dagPaths, all the
    way up to the world root: the walk up from an arg dagPath stops at a
    parent that is recorded already, and nothing is lost by it. *)
Theorem arg_dag_path_parents_complete (p q : MDagPath) :
  p ∈ paths -> dagPathIsValid E p = true -> q `prefix_of` p -> q <> p ->
  partialPathName E q ∈ (collectArgDagPaths E paths).2.
Proof.
  intros Hp Hv Hq Hne.
  by apply (proj2 (collectArgDagPaths_closed paths (fun _ H => H)) p q).
Qed.

End Complete.

(** X20.  The two sets that [_BeginWriting] builds from the arg dagPaths.
    The first holds the partial path names of the valid arg dagPaths and
    nothing else; an invalid arg dagPath contributes to neither set.  Every
    member of the second is the partial path name of a valid path that is
    strictly above a valid arg dagPath. *)
Theorem arg_dag_paths_collected (paths : list MDagPath) :
  (forall s, s ∈ (collectArgDagPaths E paths).1
             <-> exists p, p ∈ paths /\ dagPathIsValid E p = true
                           /\ s = partialPathName E p)
  /\ (forall s, s ∈ (collectArgDagPaths E paths).2 ->
        exists p q, p ∈ paths /\ dagPathIsValid E p = true
                    /\ q `prefix_of` p /\ q <> p /\ dagPathIsValid E q = true
                    /\ s = partialPathName E q).
Proof. apply collectArgDagPaths_sound. Qed.

End ArgDagPaths.


(** The paths at or above [p], from the world root down. *)
Lemma prefix_of_take (q p : MDagPath) :
  q `prefix_of` p -> q ∈ map (fun i => take i p) (seq 0 (S (length p))).
Proof.
  intros [k ->]. apply list_elem_of_In, in_map_iff. exists (length q). split.
  - by rewrite take_app_length.
  - apply in_seq. rewrite length_app. lia.
Qed.

Lemma scene_names_unique (q q' : MDagPath) :
  (exists p, p ∈ [["grp"; "cube"; "cubeShape"]; ["grp"; "empty"]; ["grp"]]
             /\ dagPathIsValid Scene.plain p = true /\ q `prefix_of` p) ->
  (exists p, p ∈ [["grp"; "cube"; "cubeShape"]; ["grp"; "empty"]; ["grp"]]
             /\ dagPathIsValid Scene.plain p = true /\ q' `prefix_of` p) ->
  partialPathName Scene.plain q = partialPathName Scene.plain q' -> q = q'.
Proof.
  intros (p & Hp & _ & Hq%prefix_of_take) (p' & Hp' & _ & Hq'%prefix_of_take).
  repeat (apply elem_of_cons in Hp as [->|Hp]); [| | |by apply elem_of_nil in Hp];
    (repeat (apply elem_of_cons in Hp' as [->|Hp']); [| | |by apply elem_of_nil in Hp']);
    cbn in Hq, Hq';
    repeat (apply elem_of_cons in Hq as [->|Hq]); try (by apply elem_of_nil in Hq);
    repeat (apply elem_of_cons in Hq' as [->|Hq']); try (by apply elem_of_nil in Hq');
    vm_compute; intros H; first [reflexivity | discriminate H].
Qed.

(** Three arg dagPaths of the scene, two of them below the group: the walk
    from the second and from the third stops at the group. *)
Lemma arg_dag_path_parents_complete_witness :
  partialPathName Scene.plain ["grp"]
  ∈ (collectArgDagPaths Scene.plain
       [["grp"; "cube"; "cubeShape"]; ["grp"; "empty"]; ["grp"]]).2.
Proof.
  apply (arg_dag_path_parents_complete Scene.plain
           [["grp"; "cube"; "cubeShape"]; ["grp"; "empty"]; ["grp"]]
           (fun _ _ => eq_refl) scene_names_unique ["grp"; "empty"] ["grp"]).
  - apply elem_of_cons. right. apply elem_of_cons. by left.
  - reflexivity.
  - by exists ["empty"].
  - discriminate.
Defined.

(** ** The scope of the traversal *)

Section TraversalScope.

Variable E : Env.

(** The step at a DAG path asks for the writer of this path only. *)
Lemma exportDagPath_requests cur j :
  exists evs, trace (exportDagPath E cur j).2 = (trace j ++ evs)%list
              /\ forall c, EvCreatePrimWriter c ∈ evs -> c = cur.
Proof.
  set (Q := fun ev => match ev with
                      | EvCreatePrimWriter c => bool_decide (c = cur)
                      | _ => true
                      end).
  assert (Hg : grows Q j (exportDagPath E cur j).2).
  { unfold exportDagPath. destruct (_ && _); cbn [fst snd]; [apply grows_refl|].
    assert (Hcreate : Q (EvCreatePrimWriter cur) = true)
      by (by apply bool_decide_eq_true_2).
    pose proof (grows_createPrimWriter E Q cur j Hcreate) as Hc.
    destruct (createPrimWriter E cur j) as [[w|] j1]; cbn [fst snd] in *; [|exact Hc].
    set (j2 := set_mMayaPrimWriterList _ j1).
    assert (H2 : grows Q j j2).
    { eapply grows_trans; [exact Hc | by apply grows_same]. }
    destruct (primIsValid j2 (writerPrimPath w)); cbn [fst snd]; [|exact H2].
    pose proof (grows_CheckNameClashes E (writerPrimPath w) (GetDagPath w) j2) as Hn.
    destruct (_CheckNameClashes E (writerPrimPath w) (GetDagPath w) j2) as [ok j3].
    cbn [fst snd] in *. destruct ok; cbn [negb fst snd].
    - eapply grows_step; [by apply grows_emit|].
      eapply grows_step; [by apply grows_same|].
      eapply grows_step; [by apply grows_writerWrite|].
      eapply grows_step; [|exact H2].
      eapply grows_weaken; [|exact Hn]. done.
    - eapply grows_trans; [exact H2|].
      eapply grows_weaken; [|exact Hn].
      intros ev Hev. by destruct ev as [| | | | | | | | | | | | | | | | | | | | | | |[]]. }
  destruct Hg as (_ & _ & _ & _ & evs & Ht & Hall).
  exists evs. split; [exact Ht|]. intros c Hc.
  rewrite forallb_forall in Hall. apply list_elem_of_In, Hall in Hc.
  by apply bool_decide_eq_true in Hc.
Qed.

Section Sets.

Variables argDagPaths argDagPathParents : gset string.

(** A DAG path that the traversal does not prune: a parent of an arg
    dagPath, an arg dagPath, or a path that has an arg dagPath as parent. *)
Local Abbreviation inScope c :=
  (partialPathName E c ∈ argDagPathParents \/ partialPathName E c ∈ argDagPaths
   \/ exists leaf, partialPathName E leaf ∈ argDagPaths /\ hasParent E c leaf = true).

Local Abbreviation requestsInScope j j' :=
  (exists evs, trace j' = (trace j ++ evs)%list
               /\ forall c, EvCreatePrimWriter c ∈ evs -> inScope c).

Local Abbreviation isArg leaf :=
  (forall l : MDagPath, leaf = Some l -> partialPathName E l ∈ argDagPaths).

Lemma requestsInScope_trans j1 j2 j3 :
  requestsInScope j1 j2 -> requestsInScope j2 j3 -> requestsInScope j1 j3.
Proof.
  intros (evs1 & H1 & Hs1) (evs2 & H2 & Hs2). exists (evs1 ++ evs2)%list. split.
  - by rewrite H2, H1, app_assoc.
  - intros c [H|H]%elem_of_app; [by apply Hs1 | by apply Hs2].
Qed.

Lemma traverseDag_scope node :
  forall cur leaf j, isArg leaf ->
    isArg (traverseDag E argDagPaths argDagPathParents cur node leaf j).1.2
    /\ requestsInScope j (traverseDag E argDagPaths argDagPathParents cur node leaf j).2.
Proof.
  induction node as [name children IH] using DagNode_forest_ind.
  intros cur leaf j Hleaf. cbn [traverseDag].
  assert (Hrefl : forall j0, requestsInScope j0 j0).
  { intros j0. exists []. split; [by rewrite app_nil_r|]. intros c Hc.
    by apply elem_of_nil in Hc. }
  assert (Hdescend : forall leaf0, isArg leaf0 -> inScope cur ->
    let r := match exportDagPath E cur j with
        | (false, _, j) => (false, leaf0, j)
        | (true, true, j) => (true, leaf0, j)
        | (true, false, j) =>
            (fix traverseChildren (cs : list DagNode) (leaf : option MDagPath) (j : Job)
               : bool * option MDagPath * Job :=
               match cs with
               | [] => (true, leaf, j)
               | (DagNode_ name _ as child) :: cs' =>
                   match traverseDag E argDagPaths argDagPathParents
                                     (cur ++ [name])%list child leaf j with
                   | (false, leaf, j) => (false, leaf, j)
                   | (true, leaf, j) => traverseChildren cs' leaf j
                   end
               end) children leaf0 j
        end in
    isArg r.1.2 /\ requestsInScope j r.2).
  { intros leaf0 Hleaf0 Hcur.
    assert (Hstep : requestsInScope j (exportDagPath E cur j).2).
    { destruct (exportDagPath_requests cur j) as (evs & Ht & Hc).
      exists evs. split; [exact Ht|]. intros c ->%Hc. exact Hcur. }
    destruct (exportDagPath E cur j) as [[ok prune] j1]. cbn [fst snd] in Hstep.
    destruct ok; [|by split]. destruct prune; [by split|].
    revert leaf0 j1 Hleaf0 Hstep.
    induction IH as [|child children Hchild _ IHchildren]; intros leaf0 j1 Hleaf0 Hstep;
      [by split|].
    destruct child as [cname cchildren].
    destruct (Hchild (cur ++ [cname])%list leaf0 j1 Hleaf0) as [Hl Hr].
    destruct (traverseDag E argDagPaths argDagPathParents (cur ++ [cname])%list
                (DagNode_ cname cchildren) leaf0 j1) as [[ok1 leaf1] j2].
    cbn [fst snd] in Hl, Hr.
    assert (H2 : requestsInScope j j2) by (by eapply requestsInScope_trans).
    destruct ok1; [|by split].
    by apply IHchildren. }
  destruct (decide (partialPathName E cur ∈ argDagPathParents)) as [Hp|Hnp].
  { apply Hdescend; [exact Hleaf | by left]. }
  destruct (decide (partialPathName E cur ∈ argDagPaths)) as [Ha|Hna].
  { apply Hdescend; [by intros l [= <-] | by right; left]. }
  destruct leaf as [l|]; cbn [from_option negb].
  - destruct (hasParent E cur l) eqn:Hhp; cbn [negb].
    + apply Hdescend; [exact Hleaf|]. right. right. exists l. split; [by apply Hleaf|done].
    + cbn [fst snd]. by split.
  - cbn [fst snd]. by split.
Qed.

End Sets.

Lemma traverseWorld_scope j :
  exists evs, trace (traverseWorld E j).2 = (trace j ++ evs)%list
    /\ forall c, EvCreatePrimWriter c ∈ evs ->
         partialPathName E c ∈ (collectArgDagPaths E (dagPaths (mArgs j))).2
         \/ partialPathName E c ∈ (collectArgDagPaths E (dagPaths (mArgs j))).1
         \/ exists leaf, partialPathName E leaf ∈ (collectArgDagPaths E (dagPaths (mArgs j))).1
                         /\ hasParent E c leaf = true.
Proof.
  unfold traverseWorld.
  destruct (collectArgDagPaths E (dagPaths (mArgs j))) as [argDagPaths argDagPathParents].
  destruct (traverseDag_scope argDagPaths argDagPathParents (DagNode_ "" (dagWorld E))
              [] None j) as [_ H]; [done|].
  by destruct (traverseDag E _ _ _ _ _ _) as [[ok leaf] j1].
Qed.

(** *** Writer requests whose paths satisfy [S] *)

Section Requests.

Variable S : MDagPath -> Prop.

Local Abbreviation requests j j' :=
  (exists evs, trace j' = (trace j ++ evs)%list
               /\ forall c, EvCreatePrimWriter c ∈ evs -> S c).

Lemma requests_trans j1 j2 j3 : requests j1 j2 -> requests j2 j3 -> requests j1 j3.
Proof.
  intros (evs1 & H1 & Hs1) (evs2 & H2 & Hs2). exists (evs1 ++ evs2)%list.
  split; [by rewrite H2, H1, app_assoc|].
  intros c [H|H]%elem_of_app; [by apply Hs1 | by apply Hs2].
Qed.

Lemma requests_quiet j j' :
  traceGrows (fun ev => negb (isWriterRequest ev)) j j' -> requests j j'.
Proof.
  intros (evs & Ht & Hall). exists evs. split; [exact Ht|]. intros c Hc.
  rewrite forallb_forall in Hall. by apply list_elem_of_In, Hall in Hc.
Qed.

Lemma requests_emit evs j :
  forallb (fun ev => negb (isWriterRequest ev)) evs = true -> requests j (emit evs j).
Proof. intros Hev. by apply requests_quiet, traceGrows_emit. Qed.

Lemma requests_writeDefaultValues j :
  requests j (traverseWorld E j).2 -> requests j (writeDefaultValues E j).2.
Proof.
  intros Ht. rewrite writeDefaultValues_traverseWorld. cbv zeta.
  generalize dependent (traverseWorld E j). intros [ok jt] Ht. cbn [fst snd] in *.
  destruct (negb ok); cbn [snd]; [exact Ht|].
  destruct (negb _ && bool_decide _); cbn [snd].
  { eapply requests_trans; [exact Ht | by apply requests_emit]. }
  assert (H3 : requests j (emit [EvPostProcess] (emit [EvExportShadingEngines] jt))).
  { eapply requests_trans; [|by apply requests_emit].
    eapply requests_trans; [exact Ht | by apply requests_emit]. }
  destruct (negb (PostProcess E)); cbn [snd]; [exact H3|].
  assert (H4 : requests j (emit [EvMakeModelHierarchy]
                             (emit [EvPostProcess] (emit [EvExportShadingEngines] jt)))).
  { eapply requests_trans; [exact H3 | by apply requests_emit]. }
  destruct (negb (MakeModelHierarchy E)); cbn [snd]; [exact H4|].
  eapply requests_trans; [exact H4|].
  eapply requests_trans.
  - apply requests_quiet, grows_traceGrows.
    by apply (grows_populateChasers_class E (fun ev => negb (isWriterRequest ev))).
  - apply requests_quiet, grows_traceGrows.
    by apply (grows_chasersExportDefault_class E (fun ev => negb (isWriterRequest ev))).
Qed.

Lemma requests_openLayer fileName append j :
  requests j (openLayer E fileName append j).2.
Proof.
  apply requests_quiet.
  by apply (traceGrows_openLayer_class E (mArgs j) (fun ev => negb (isWriterRequest ev))).
Qed.

Lemma requests_beforeTraversal j : requests j (setupRenderLayer E (setupStage E j)).
Proof.
  apply requests_quiet.
  by apply (traceGrows_beforeTraversal E (fun ev => negb (isWriterRequest ev))).
Qed.

Lemma requests_BeginWriting fileName append j :
  (forall js, dagPaths (mArgs js) = dagPaths (mArgs j) -> requests js (traverseWorld E js).2) ->
  requests j (_BeginWriting E fileName append j).2.
Proof.
  intros Ht. rewrite BeginWriting_openLayer.
  pose proof (requests_openLayer fileName append j) as Ho.
  pose proof (pres_openLayer E (fun j => dagPaths (mArgs j)) ltac:(done) ltac:(done)
                ltac:(done) ltac:(done) ltac:(done) ltac:(done) ltac:(done) ltac:(done)
                fileName append j) as Hd.
  cbn beta in Hd.
  destruct (openLayer E fileName append j) as [ok jo]. cbn [fst snd] in *.
  destruct ok; cbn [snd]; [|exact Ho].
  eapply requests_trans; [exact Ho|].
  eapply requests_trans; [apply requests_beforeTraversal|].
  apply requests_writeDefaultValues, Ht.
  rewrite (pres_setupRenderLayer E (fun j => dagPaths (mArgs j))) by done.
  by rewrite (pres_setupStage E (fun j => dagPaths (mArgs j))).
Qed.

End Requests.

(** X24.  The DAG paths for which [_BeginWriting] asks for a prim writer
    are in the scope of the arg dagPaths: the partial path name of such a
    path is the name of a parent of an arg dagPath or of an arg dagPath, or
    the path has as parent an arg dagPath that the traversal has met.  So
    an export whose arg dagPaths are all invalid, or that has none, asks
    for no writer at all. *)
Theorem traversal_scope (fileName : string) (append : bool) (j : Job) :
  exists evs,
    trace (_BeginWriting E fileName append j).2 = (trace j ++ evs)%list
    /\ (forall c, EvCreatePrimWriter c ∈ evs ->
          partialPathName E c ∈ (collectArgDagPaths E (dagPaths (mArgs j))).2
          \/ partialPathName E c ∈ (collectArgDagPaths E (dagPaths (mArgs j))).1
          \/ exists leaf,
               partialPathName E leaf ∈ (collectArgDagPaths E (dagPaths (mArgs j))).1
               /\ hasParent E c leaf = true)
    /\ ((forall p, p ∈ dagPaths (mArgs j) -> dagPathIsValid E p = false) ->
        forall c, EvCreatePrimWriter c ∉ evs).
Proof.
  destruct (requests_BeginWriting
              (fun c : MDagPath =>
                 partialPathName E c ∈ (collectArgDagPaths E (dagPaths (mArgs j))).2
                 \/ partialPathName E c ∈ (collectArgDagPaths E (dagPaths (mArgs j))).1
                 \/ exists leaf,
                      partialPathName E leaf ∈ (collectArgDagPaths E (dagPaths (mArgs j))).1
                      /\ hasParent E c leaf = true)
              fileName append j) as (evs & Ht & Hs).
  { intros js Hd. rewrite <- Hd. apply traverseWorld_scope. }
  exists evs. split_and!; [exact Ht | exact Hs |].
  intros Hinv c Hc.
  destruct (collectArgDagPaths_sound E (dagPaths (mArgs j))) as [H1 H2].
  assert (Hno : forall s, s ∉ (collectArgDagPaths E (dagPaths (mArgs j))).1).
  { intros s (p & Hp & Hv & _)%H1. rewrite (Hinv p Hp) in Hv. discriminate. }
  destruct (Hs c Hc) as [H|[H|(leaf & H & _)]].
  - apply H2 in H as (p & q & Hp & Hv & _). rewrite (Hinv p Hp) in Hv. discriminate.
  - by apply Hno in H.
  - by apply Hno in H.
Qed.

End TraversalScope.

(** ** An export that stops in a frame *)

Section AbortedExport.

Variable E : Env.

Lemma setupStage_changer j : _autoAxisAndUnitsChanger (setupStage E j) = true.
Proof. unfold setupStage. by destruct (customLayerData _). Qed.

Lemma BeginWriting_changer fileName append j :
  (_BeginWriting E fileName append j).1 = true ->
  _autoAxisAndUnitsChanger (_BeginWriting E fileName append j).2 = true.
Proof.
  rewrite BeginWriting_openLayer. destruct (openLayer E fileName append j).1; [|done].
  intros _. rewrite (pres_writeDefaultValues E _autoAxisAndUnitsChanger) by done.
  rewrite (pres_setupRenderLayer E _autoAxisAndUnitsChanger) by done.
  apply setupStage_changer.
Qed.

(** X22.  When a frame fails after a successful [_BeginWriting], [Write]
    returns false without any of the finalization: the scene stays on the
    render layer that [_BeginWriting] has put it on (the default render
    layer, unless the mode is [currentLayer]) and is not put back on the
    render layer of the user, whose name the job still holds; the job still
    holds the changer of up-axis and units and its writers, and no file is
    written or deleted. *)
Theorem frame_failure_leaves_export_open (fileName : string) (append : bool) (j : Job) :
  (_BeginWriting E fileName append j).1 = true ->
  (writeFrames E (timeSamplesArg (mArgs j)) (_BeginWriting E fileName append j).2).1
  = false ->
  let jb := (_BeginWriting E fileName append j).2 in
  let r := Write E fileName append j in
  r.1 = false
  /\ sceneRenderLayer r.2 = sceneRenderLayer jb
  /\ (renderLayerMode (mArgs j) <> currentLayer (tokens E) ->
      sceneRenderLayer r.2 = defaultRenderLayer E)
  /\ mCurrentRenderLayerName r.2 = sceneRenderLayer j
  /\ _autoAxisAndUnitsChanger r.2 = true
  /\ mMayaPrimWriterList r.2 = mMayaPrimWriterList jb
  /\ fileSystem r.2 = fileSystem jb.
Proof.
  intros Hb Hw jb r. unfold r, jb. rewrite Write_phases, Hb, Hw. cbn [fst snd].
  destruct (BeginWriting_renderLayer E fileName append j Hb) as [Hcur Hdef].
  split_and!.
  - done.
  - by apply (pres_writeFrames E sceneRenderLayer).
  - intros Hmode. rewrite (pres_writeFrames E sceneRenderLayer) by done. by apply Hdef.
  - by rewrite (pres_writeFrames E mCurrentRenderLayerName).
  - rewrite (pres_writeFrames E _autoAxisAndUnitsChanger) by done.
    by apply BeginWriting_changer.
  - by apply (pres_writeFrames E mMayaPrimWriterList).
  - by apply (pres_writeFrames E fileSystem).
Qed.

End AbortedExport.

(** An export from the render layer [layerA] with two time samples and a
    chaser whose per-frame hook fails at the second. *)
Lemma frame_failure_leaves_export_open_witness :
  let E := Scene.env None false ["layerA"; "defaultRenderLayer"] (fun _ => [])
             (fun _ => false)
             (fun _ t => negb (PrimFloat.eqb t 2%float)) (fun _ => true) true in
  let j := newJob (Scene.withAnimation [1%float; 2%float] ["c1"]
                     (Scene.withRoots [] [["grp"]] Scene.args))
                  ∅ "layerA" in
  let r := Write E "out.usda" false j in
  r.1 = false
  /\ sceneRenderLayer r.2 = "defaultRenderLayer"
  /\ mCurrentRenderLayerName r.2 = "layerA"
  /\ _autoAxisAndUnitsChanger r.2 = true
  /\ fileSystem r.2 = fileSystem (_BeginWriting E "out.usda" false j).2.
Proof.
  intros E j r.
  destruct (frame_failure_leaves_export_open E "out.usda" false j)
    as (H1 & _ & H3 & H4 & H5 & _ & H7).
  - vm_compute. reflexivity.
  - vm_compute. reflexivity.
  - split_and!; [exact H1 | | exact H4 | exact H5 | exact H7].
    apply H3. vm_compute. discriminate.
Defined.

(** ** The default prim of the arguments *)

Section DefaultPrimArgument.

Variable E : Env.

Lemma openLayer_defaultPrim fileName append j :
  defaultPrim (mArgs (openLayer E fileName append j).2)
  = defaultPrim (mArgs (normalizeDefaultPrim E (selectDefaultPrim E j))).
Proof.
  unfold openLayer.
  generalize (normalizeDefaultPrim E (selectDefaultPrim E j)). intros j0.
  destruct (findOverlappingRoots _) as [[path1 path2]|]; cbn [fst snd]; [done|].
  destruct (resolveFileName E _ fileName) as [fileExt fileNameWithExt].
  pose proof (pres_setupFileStructure E (fun j => defaultPrim (mArgs j))
                ltac:(done) ltac:(done) ltac:(done) fileExt fileNameWithExt append j0) as H1.
  destruct (setupFileStructure E fileExt fileNameWithExt append j0) as [ok1 j1].
  cbn [fst snd] in *.
  destruct (negb ok1); cbn [fst snd]; [done|].
  pose proof (pres_setupModelingVariant E (fun j => defaultPrim (mArgs j))
                ltac:(done) ltac:(done) ltac:(done) j1) as H2.
  destruct (setupModelingVariant E j1) as [ok2 j2]. cbn [fst snd] in *.
  destruct (negb ok2); cbn [fst snd]; [congruence|].
  rewrite (pres_OpenFile E (fun j => defaultPrim (mArgs j))) by done. congruence.
Qed.

Lemma selectDefaultPrim_strip j :
  stripNamespaces (mArgs (selectDefaultPrim E j)) = stripNamespaces (mArgs j).
Proof. by apply (pres_selectDefaultPrim E (fun j => stripNamespaces (mArgs j))). Qed.

(** X23.  The default prim that a job works with.  When the arguments name
    no default prim and the legacy material scope is off, [_BeginWriting]
    takes the first of the default prim candidates; a name given in the
    arguments is not replaced.  The name is then turned into a prim name,
    and the job keeps it through the rest of [_BeginWriting], whether it
    succeeds or not.  With a root prim in the arguments, the candidate is
    the name of the root prim, and the scene is not asked. *)
Theorem begin_writing_default_prim (fileName : string) (append : bool) (j : Job) :
  let chosen :=
    if negb (legacyMaterialScope (mArgs j)) && bool_decide (defaultPrim (mArgs j) = "")
    then default "" (head (GetExportDefaultPrimCandidates E (mArgs j)).1)
    else defaultPrim (mArgs j) in
  defaultPrim (mArgs (_BeginWriting E fileName append j).2)
  = (if bool_decide (chosen = "") then ""
     else MayaNodeNameToPrimName E chosen (stripNamespaces (mArgs j)))
  /\ (Sdf.IsEmpty (rootPrim (mArgs j)) = false ->
      GetExportDefaultPrimCandidates E (mArgs j) = ([Sdf.GetName (rootPrim (mArgs j))], [])).
Proof.
  intros chosen. split.
  - transitivity (defaultPrim (mArgs (normalizeDefaultPrim E (selectDefaultPrim E j)))).
    { rewrite BeginWriting_openLayer.
      destruct (openLayer E fileName append j).1 eqn:Ho; cbn [snd].
      - rewrite (pres_writeDefaultValues E (fun j => defaultPrim (mArgs j))) by done.
        rewrite (pres_setupRenderLayer E (fun j => defaultPrim (mArgs j))) by done.
        rewrite (pres_setupStage E (fun j => defaultPrim (mArgs j))) by done.
        apply openLayer_defaultPrim.
      - apply openLayer_defaultPrim. }
    assert (Hsel : defaultPrim (mArgs (selectDefaultPrim E j)) = chosen).
    { unfold chosen, selectDefaultPrim.
      destruct (negb _ && bool_decide _) eqn:Hc; [|done].
      apply andb_true_iff in Hc as [_ Hc%bool_decide_eq_true].
      destruct (GetExportDefaultPrimCandidates E (mArgs j)) as [[|root0 roots] evs];
        cbn [fst snd head default]; [exact Hc | done]. }
    unfold normalizeDefaultPrim. rewrite Hsel, selectDefaultPrim_strip.
    destruct (bool_decide (chosen = "")) eqn:Hch; [|reflexivity].
    apply bool_decide_eq_true in Hch. congruence.
  - intros Hroot. unfold GetExportDefaultPrimCandidates. by rewrite Hroot.
Qed.

End DefaultPrimArgument.

(** ** Name clashes in the traversal *)

Section PathUniqueness.

Variable E : Env.

Lemma IsValid_DefinePrim l t st : Usd.IsValid (Usd.DefinePrim l t st) (Some l) = true.
Proof.
  destruct l as [|x l]; [done|].
  unfold Usd.IsValid. apply bool_decide_eq_true.
  destruct (lookup_DefinePrim (x :: l) t st) as [Hkeep Hnew].
  destruct (stagePrims st !! (x :: l)) as [d|] eqn:Hd.
  - exists d. by apply Hkeep.
  - eexists. by apply Hnew.
Qed.

(** What the check does on a path that is not registered, and on one that
    is. *)
Lemma CheckNameClashes_spec (path : SdfPath) (dagPath : MDagPath) (j : Job) :
  stripNamespaces (mArgs j) = true ->
  match mUsdPathToDagPathMap j !! path with
  | None =>
      _CheckNameClashes E path dagPath j
      = (true, set_mUsdPathToDagPathMap (<[path := dagPath]> (mUsdPathToDagPathMap j)) j)
  | Some other =>
      if mergeTransformAndShape (mArgs j)
         && bool_decide (extendToShape E other = extendToShape E dagPath)
      then _CheckNameClashes E path dagPath j = (true, j)
      else _CheckNameClashes E path dagPath j
           = (false, emit [EvDiagnostic (NameClash (Dag.fullPathName other)
                                                   (Dag.fullPathName dagPath))] j)
  end.
Proof.
  intros Hstrip. unfold _CheckNameClashes. rewrite Hstrip. cbn [negb].
  destruct (mUsdPathToDagPathMap j !! path) as [other|]; [|done].
  by destruct (_ && _).
Qed.

(** A check that succeeds for the writer [w] registers it and keeps what
    is registered. *)
Lemma CheckNameClashes_registers (w : PrimWriter) (ws : list PrimWriter) (j : Job) :
  stripNamespaces (mArgs j) = true ->
  (forall w', w' ∈ ws -> registeredIn E j w') ->
  (_CheckNameClashes E (writerPrimPath w) (GetDagPath w) j).1 = true ->
  forall w', w' ∈ (ws ++ [w])%list ->
    registeredIn E (_CheckNameClashes E (writerPrimPath w) (GetDagPath w) j).2 w'.
Proof.
  intros Hstrip Hold Hok.
  pose proof (CheckNameClashes_spec (writerPrimPath w) (GetDagPath w) j Hstrip) as Hspec.
  destruct (mUsdPathToDagPathMap j !! writerPrimPath w) as [other|] eqn:Hfound.
  - destruct (mergeTransformAndShape (mArgs j)
              && bool_decide (extendToShape E other = extendToShape E (GetDagPath w)))
      eqn:Hmerge; rewrite Hspec in Hok |- *; [|done].
    cbn [snd]. apply andb_true_iff in Hmerge as [Hm Hs%bool_decide_eq_true].
    intros w' [Hin| ->%list_elem_of_singleton]%elem_of_app; [by apply Hold|].
    intros _. exists other. split; [done|]. by right.
  - rewrite Hspec. cbn [snd].
    intros w' [Hin| ->%list_elem_of_singleton]%elem_of_app.
    + intros Hpath. destruct (Hold w' Hin Hpath) as (d & Hd & Hacc).
      exists d. split; [|exact Hacc].
      cbn. rewrite lookup_insert_ne; [done|]. intros Heq. rewrite Heq in Hfound. congruence.
    + intros _. exists (GetDagPath w). split; [|by left]. cbn. by rewrite lookup_insert_eq.
Qed.

(** The step of the traversal at a DAG path keeps the writers registered,
    when it does not stop the job. *)
Lemma exportDagPath_registered cur j :
  stripNamespaces (mArgs j) = true -> is_Some (mStage j) -> writersRegistered E j ->
  (exportDagPath E cur j).1.1 = true ->
  stripNamespaces (mArgs (exportDagPath E cur j).2) = true
  /\ is_Some (mStage (exportDagPath E cur j).2)
  /\ writersRegistered E (exportDagPath E cur j).2.
Proof.
  intros Hstrip [st Hst] Hreg. unfold exportDagPath.
  destruct (_ && _); cbn [fst snd]; [intros _; split_and!; [done | by exists st | done]|].
  unfold createPrimWriter.
  destruct (CreatePrimWriter E cur) as [w|]; cbn [fst snd];
    [|intros _; split_and!; [done | by exists st | done]].
  set (j1 := match writerPrimPath w with
             | Some l => onStage (Usd.DefinePrim l (writerPrimType w))
                                 (emit [EvCreatePrimWriter cur] j)
             | None => emit [EvCreatePrimWriter cur] j
             end).
  assert (H1 : mArgs j1 = mArgs j /\ mMayaPrimWriterList j1 = mMayaPrimWriterList j
               /\ mUsdPathToDagPathMap j1 = mUsdPathToDagPathMap j
               /\ is_Some (mStage j1)
               /\ (writerPrimPath w <> None -> primIsValid j1 (writerPrimPath w) = true)).
  { unfold j1. destruct (writerPrimPath w) as [l|]; [|by split_and!].
    split_and!; try done.
    - unfold onStage. cbn. rewrite Hst. by eexists.
    - intros _. unfold primIsValid, onStage. cbn. rewrite Hst. cbn.
      apply IsValid_DefinePrim. }
  clearbody j1. destruct H1 as (Ha1 & Hw1 & Hm1 & Hs1 & Hv1).
  set (j2 := set_mMayaPrimWriterList (mMayaPrimWriterList j1 ++ [w]) j1).
  assert (Hold : forall w', w' ∈ mMayaPrimWriterList j -> registeredIn E j2 w').
  { intros w' Hin Hpath. destruct (Hreg w' Hin Hpath) as (d & Hd & Hacc).
    exists d. unfold j2. cbn. rewrite Hm1, Ha1. by split. }
  assert (Hstrip2 : stripNamespaces (mArgs j2) = true) by (unfold j2; cbn; by rewrite Ha1).
  destruct (primIsValid j2 (writerPrimPath w)) eqn:Hvalid; cbn [fst snd].
  - pose proof (CheckNameClashes_registers w (mMayaPrimWriterList j) j2 Hstrip2 Hold) as Hc.
    pose proof (pres_CheckNameClashes E (fun j => stripNamespaces (mArgs j))
                  ltac:(done) ltac:(done) (writerPrimPath w) (GetDagPath w) j2) as Hs3.
    pose proof (pres_CheckNameClashes E mMayaPrimWriterList
                  ltac:(done) ltac:(done) (writerPrimPath w) (GetDagPath w) j2) as Hw3.
    pose proof (pres_CheckNameClashes E (fun j => is_Some (mStage j))
                  ltac:(done) ltac:(done) (writerPrimPath w) (GetDagPath w) j2) as Hst3.
    cbn beta in Hs3, Hst3.
    destruct (_CheckNameClashes E (writerPrimPath w) (GetDagPath w) j2) as [ok j3].
    cbn [fst snd] in *. destruct ok; cbn [negb fst snd]; [|done]. intros _.
    specialize (Hc eq_refl).
    split_and!.
    + cbn. rewrite (pres_writerWrite (fun j => stripNamespaces (mArgs j))) by done.
      by rewrite Hs3.
    + cbn. unfold writerWrite. destruct (writerPrimPath w) as [l|]; cbn;
        try apply fmap_is_Some; rewrite Hst3; unfold j2; cbn; exact Hs1.
    + intros w' Hin Hpath.
      assert (Hin' : w' ∈ (mMayaPrimWriterList j ++ [w])%list).
      { revert Hin. cbn. rewrite (pres_writerWrite mMayaPrimWriterList) by done.
        rewrite Hw3. unfold j2. cbn. by rewrite Hw1. }
      destruct (Hc w' Hin' Hpath) as (d & Hd & Hacc). exists d.
      cbn. rewrite (pres_writerWrite mUsdPathToDagPathMap) by done.
      rewrite (pres_writerWrite (fun j => mergeTransformAndShape (mArgs j))) by done.
      by split.
  - intros _. split_and!; [done | by unfold j2 |].
    intros w' Hin. unfold j2 in Hin. cbn in Hin. rewrite Hw1 in Hin.
    apply elem_of_app in Hin as [Hin| ->%list_elem_of_singleton]; [by apply Hold|].
    intros Hpath. specialize (Hv1 Hpath).
    change (primIsValid j1 (writerPrimPath w) = false) in Hvalid. congruence.
Qed.

Lemma traverseWorld_registered j :
  stripNamespaces (mArgs j) = true -> is_Some (mStage j) -> writersRegistered E j ->
  (traverseWorld E j).1 = true ->
  writersRegistered E (traverseWorld E j).2
  /\ mergeTransformAndShape (mArgs (traverseWorld E j).2) = mergeTransformAndShape (mArgs j).
Proof.
  intros Hstrip Hst Hreg Hok. split; [|by apply (pres_traverseWorld E
                                          (fun j => mergeTransformAndShape (mArgs j)))].
  revert Hok. unfold traverseWorld.
  destruct (collectArgDagPaths E _) as [argDagPaths argDagPathParents].
  pose proof (traverseDag_invariant E
                (fun j' => stripNamespaces (mArgs j') = true /\ is_Some (mStage j')
                           /\ writersRegistered E j')
                (fun _ => True) argDagPaths argDagPathParents) as H.
  assert (Hstep : forall cur0 j0,
            stripNamespaces (mArgs j0) = true /\ is_Some (mStage j0)
            /\ writersRegistered E j0 ->
            if (exportDagPath E cur0 j0).1.1
            then stripNamespaces (mArgs (exportDagPath E cur0 j0).2) = true
                 /\ is_Some (mStage (exportDagPath E cur0 j0).2)
                 /\ writersRegistered E (exportDagPath E cur0 j0).2
            else True).
  { intros cur0 j0 (H1 & H2 & H3).
    pose proof (exportDagPath_registered cur0 j0 H1 H2 H3) as Hs.
    destruct (exportDagPath E cur0 j0).1.1; [by apply Hs | done]. }
  specialize (H Hstep (DagNode_ "" (dagWorld E)) [] None j ltac:(by split_and!)).
  destruct (traverseDag E _ _ _ _ _ _) as [[ok leaf] j1]. cbn [fst snd] in *.
  intros ->. by destruct H as (_ & _ & H).
Qed.

Lemma BeginWriting_registered (fileName : string) (append : bool) (j : Job) :
  stripNamespaces (mArgs j) = true -> mMayaPrimWriterList j = [] ->
  (_BeginWriting E fileName append j).1 = true ->
  writersRegistered E (_BeginWriting E fileName append j).2
  /\ mergeTransformAndShape (mArgs (_BeginWriting E fileName append j).2)
     = mergeTransformAndShape (mArgs j).
Proof.
  intros Hstrip Hnone Hok.
  split; [|by apply (pres_BeginWriting E (fun j => mergeTransformAndShape (mArgs j)))].
  revert Hok. rewrite BeginWriting_openLayer.
  pose proof (openLayer_ok E fileName append j) as Hopen.
  pose proof (pres_openLayer E (fun j => stripNamespaces (mArgs j)) ltac:(done) ltac:(done)
                ltac:(done) ltac:(done) ltac:(done) ltac:(done) ltac:(done) ltac:(done)
                fileName append j) as Hs.
  pose proof (pres_openLayer E mMayaPrimWriterList ltac:(done) ltac:(done)
                ltac:(done) ltac:(done) ltac:(done) ltac:(done) ltac:(done) ltac:(done)
                fileName append j) as Hw.
  cbn beta in Hs.
  destruct (openLayer E fileName append j).1; [|done].
  destruct (Hopen eq_refl) as [opened Ho].
  set (jo := (openLayer E fileName append j).2) in *. clearbody jo.
  destruct (setupStage_stage E jo opened Ho) as (stage0 & Hs0 & _).
  set (js := setupRenderLayer E (setupStage E jo)).
  assert (Hjs : stripNamespaces (mArgs js) = true /\ is_Some (mStage js)
                /\ mMayaPrimWriterList js = []).
  { unfold js. split_and!.
    - rewrite (pres_setupRenderLayer E (fun j => stripNamespaces (mArgs j))) by done.
      rewrite (pres_setupStage E (fun j => stripNamespaces (mArgs j))) by done. congruence.
    - rewrite (pres_setupRenderLayer E mStage) by done. by eexists.
    - rewrite (pres_setupRenderLayer E mMayaPrimWriterList) by done.
      rewrite (pres_setupStage E mMayaPrimWriterList) by done. congruence. }
  clearbody js. destruct Hjs as (Hs1 & Hst1 & Hw1).
  assert (Hreg : writersRegistered E js).
  { intros w Hin. rewrite Hw1 in Hin. by apply elem_of_nil in Hin. }
  pose proof (traverseWorld_registered js Hs1 Hst1 Hreg) as Ht.
  rewrite writeDefaultValues_traverseWorld. cbv zeta.
  destruct (traverseWorld E js) as [okt jt]. cbn [fst snd] in *.
  destruct okt; cbn [negb]; [|done]. destruct (Ht eq_refl) as [Hregt _].
  destruct (negb _ && bool_decide _); [done|].
  destruct (negb (PostProcess E)); [done|].
  destruct (negb (MakeModelHierarchy E)); [done|].
  intros _ w Hin Hpath.
  rewrite (pres_chasersExportDefault E mMayaPrimWriterList) in Hin by done.
  rewrite (pres_populateChasers E mMayaPrimWriterList) in Hin by done.
  destruct (Hregt w Hin Hpath) as (d & Hd & Hacc). exists d.
  rewrite (pres_chasersExportDefault E mUsdPathToDagPathMap) by done.
  rewrite (pres_populateChasers E mUsdPathToDagPathMap) by done.
  rewrite (pres_chasersExportDefault E (fun j => mergeTransformAndShape (mArgs j))) by done.
  rewrite (pres_populateChasers E (fun j => mergeTransformAndShape (mArgs j))) by done.
  by split.
Qed.

(** C2.  Without namespace stripping the check allows every node and
    registers nothing.  With stripping, the check registers the node of an
    output path that is not registered yet, and allows it.  A node whose
    output path is registered for another node is allowed if and only if
    transform and shape are merged and both nodes extend to the same shape,
    and then nothing changes; otherwise the check rejects it with the error
    that names both nodes.  So of two nodes that are checked one after the
    other for one output path, the second is allowed exactly under this
    condition.  In the traversal of a job that starts without writers, with
    stripping: when [_BeginWriting] succeeds, two writers of the job that
    have the same output path, a valid prim, are writers of one node or,
    with transform and shape merged, of nodes that extend to the same shape.
    A rejection makes the job fail: a [Write] that succeeds has a default
    export that succeeded, and such an export has reported no name clash. *)
Theorem name_clash_check (path : SdfPath) (dagPath : MDagPath) (j : Job) :
  (stripNamespaces (mArgs j) = false -> _CheckNameClashes E path dagPath j = (true, j))
  /\ (stripNamespaces (mArgs j) = true ->
      mUsdPathToDagPathMap j !! path = None ->
      _CheckNameClashes E path dagPath j
      = (true, set_mUsdPathToDagPathMap (<[path := dagPath]> (mUsdPathToDagPathMap j)) j))
  /\ (forall other : MDagPath,
        stripNamespaces (mArgs j) = true ->
        mUsdPathToDagPathMap j !! path = Some other ->
        ((_CheckNameClashes E path dagPath j).1 = true
         <-> mergeTransformAndShape (mArgs j) = true
             /\ extendToShape E other = extendToShape E dagPath)
        /\ ((_CheckNameClashes E path dagPath j).1 = true ->
            _CheckNameClashes E path dagPath j = (true, j))
        /\ ((_CheckNameClashes E path dagPath j).1 = false ->
            _CheckNameClashes E path dagPath j
            = (false, emit [EvDiagnostic (NameClash (Dag.fullPathName other)
                                                    (Dag.fullPathName dagPath))] j)))
  /\ (forall next : MDagPath,
        stripNamespaces (mArgs j) = true ->
        mUsdPathToDagPathMap j !! path = None ->
        let j1 := (_CheckNameClashes E path dagPath j).2 in
        ((_CheckNameClashes E path next j1).1 = true
         <-> mergeTransformAndShape (mArgs j) = true
             /\ extendToShape E dagPath = extendToShape E next)
        /\ ((_CheckNameClashes E path next j1).1 = false ->
            _CheckNameClashes E path next j1
            = (false, emit [EvDiagnostic (NameClash (Dag.fullPathName dagPath)
                                                    (Dag.fullPathName next))] j1)))
  /\ (forall (fileName : string) (append : bool),
        stripNamespaces (mArgs j) = true ->
        mMayaPrimWriterList j = [] ->
        (_BeginWriting E fileName append j).1 = true ->
        forall w1 w2,
          w1 ∈ mMayaPrimWriterList (_BeginWriting E fileName append j).2 ->
          w2 ∈ mMayaPrimWriterList (_BeginWriting E fileName append j).2 ->
          writerPrimPath w1 = writerPrimPath w2 ->
          primIsValid (_BeginWriting E fileName append j).2 (writerPrimPath w1) = true ->
          GetDagPath w1 = GetDagPath w2
          \/ (mergeTransformAndShape (mArgs j) = true
              /\ extendToShape E (GetDagPath w1) = extendToShape E (GetDagPath w2)))
  /\ (forall (fileName : string) (append : bool),
        (Write E fileName append j).1 = true ->
        (_BeginWriting E fileName append j).1 = true
        /\ traceGrows notNameClash j (_BeginWriting E fileName append j).2).
Proof.
  assert (Hreg : forall other : MDagPath,
            stripNamespaces (mArgs j) = true ->
            mUsdPathToDagPathMap j !! path = Some other ->
            forall dagPath' : MDagPath,
            ((_CheckNameClashes E path dagPath' j).1 = true
             <-> mergeTransformAndShape (mArgs j) = true
                 /\ extendToShape E other = extendToShape E dagPath')
            /\ ((_CheckNameClashes E path dagPath' j).1 = true ->
                _CheckNameClashes E path dagPath' j = (true, j))
            /\ ((_CheckNameClashes E path dagPath' j).1 = false ->
                _CheckNameClashes E path dagPath' j
                = (false, emit [EvDiagnostic (NameClash (Dag.fullPathName other)
                                                        (Dag.fullPathName dagPath'))] j))).
  { intros other Hstrip Hfound dagPath'.
    pose proof (CheckNameClashes_spec path dagPath' j Hstrip) as Hspec.
    rewrite Hfound in Hspec.
    destruct (mergeTransformAndShape (mArgs j)); cbn [andb] in Hspec.
    - destruct (bool_decide (extendToShape E other = extendToShape E dagPath')) eqn:Hbd;
        rewrite Hspec; cbn [fst].
      + apply bool_decide_eq_true in Hbd. by split_and!.
      + apply bool_decide_eq_false in Hbd. split_and!; [|done|done].
        split; [done | by intros [_ ?]].
    - rewrite Hspec. cbn [fst]. split_and!; [|done|done]. split; [done | by intros [? _]]. }
  split_and!.
  - intros Hstrip. unfold _CheckNameClashes. by rewrite Hstrip.
  - intros Hstrip Hnone.
    pose proof (CheckNameClashes_spec path dagPath j Hstrip) as Hspec.
    by rewrite Hnone in Hspec.
  - intros other Hstrip Hfound. by apply Hreg.
  - intros next Hstrip Hnone.
    pose proof (CheckNameClashes_spec path dagPath j Hstrip) as Hspec.
    rewrite Hnone in Hspec. rewrite Hspec. cbn [snd].
    set (j1 := set_mUsdPathToDagPathMap _ j).
    pose proof (CheckNameClashes_spec path next j1 Hstrip) as Hspec1.
    unfold j1 in Hspec1 at 1. cbn [mUsdPathToDagPathMap set_mUsdPathToDagPathMap] in Hspec1.
    rewrite lookup_insert_eq in Hspec1.
    change (mergeTransformAndShape (mArgs j1)) with (mergeTransformAndShape (mArgs j))
      in Hspec1.
    destruct (mergeTransformAndShape (mArgs j)); cbn [andb] in Hspec1.
    + destruct (bool_decide (extendToShape E dagPath = extendToShape E next)) eqn:Hbd;
        rewrite Hspec1; cbn [fst].
      * apply bool_decide_eq_true in Hbd. by split.
      * apply bool_decide_eq_false in Hbd. split; [|done].
        split; [done | by intros [_ ?]].
    + rewrite Hspec1. cbn [fst]. split; [|done]. split; [done | by intros [? _]].
  - intros fileName append Hstrip Hnone Hok w1 w2 Hw1 Hw2 Hpath Hvalid.
    destruct (BeginWriting_registered fileName append j Hstrip Hnone Hok) as [Hr Hm].
    assert (Hsome : writerPrimPath w1 <> None).
    { intros Heq. rewrite Heq in Hvalid. unfold primIsValid in Hvalid.
      by destruct (mStage (_BeginWriting E fileName append j).2). }
    destruct (Hr w1 Hw1 Hsome) as (d1 & Hd1 & Hacc1).
    destruct (Hr w2 Hw2) as (d2 & Hd2 & Hacc2); [by rewrite <- Hpath|].
    rewrite <- Hpath, Hd1 in Hd2. injection Hd2 as <-. rewrite Hm in Hacc1, Hacc2.
    destruct Hacc1 as [->|[Hm1 He1]], Hacc2 as [Heq|[Hm2 He2]].
    + by left.
    + right. by split.
    + right. split; [done|]. by rewrite <- He1, Heq.
    + right. split; [done|]. by rewrite <- He1, <- He2.
  - intros fileName append Hok.
    assert (Hb : (_BeginWriting E fileName append j).1 = true).
    { unfold Write in Hok. destruct (_BeginWriting E fileName append j) as [ok j1].
      by destruct ok. }
    split; [exact Hb | by apply BeginWriting_ok_no_clash].
Qed.

End PathUniqueness.

(** The scene with writers for the shapes, namespaces stripped.  With
    transform and shape merged, the check registers [|grp|cube] for
    [/grp/cube], then allows its shape and rejects [|grp|ns:cube], and the
    export of the cube succeeds with two writers on [/grp/cube], of the
    transform and of its shape.  The export of the whole group meets the
    cube of the namespace on [/grp/cube] and fails, and so does [Write]. *)
Lemma name_clash_check_witness :
  let E := Scene.withWriters (Scene.createWriters None true)
             (Scene.env None true ["defaultRenderLayer"] (fun _ => []) (fun _ => false)
                        (fun _ _ => true) (fun _ => true) true) in
  let job roots :=
    newJob (Scene.withOptions true true false "none" "defaultLayer" true
              (Scene.withRoots [] roots Scene.args))
           ∅ "defaultRenderLayer" in
  let cube := ["grp"; "cube"] in
  let shape := ["grp"; "cube"; "cubeShape"] in
  let other := ["grp"; "ns:cube"] in
  let checked := (_CheckNameClashes E (Some cube) cube (job [cube])).2 in
  let exported := (_BeginWriting E "out.usda" false (job [cube])).2 in
  let ofTransform := mkPrimWriter cube (Some cube) "Mesh" false [(cube, Some cube)] in
  let ofShape := mkPrimWriter shape (Some cube) "Mesh" true [(shape, Some cube)] in
  (_CheckNameClashes E (Some cube) cube (job [cube])).1 = true
  /\ mUsdPathToDagPathMap checked !! Some cube = Some cube
  /\ (_CheckNameClashes E (Some cube) shape checked).1 = true
  /\ _CheckNameClashes E (Some cube) other checked
     = (false, emit [EvDiagnostic (NameClash "|grp|cube" "|grp|ns:cube")] checked)
  /\ (_BeginWriting E "out.usda" false (job [cube])).1 = true
  /\ ofTransform ∈ mMayaPrimWriterList exported
  /\ ofShape ∈ mMayaPrimWriterList exported
  /\ extendToShape E cube = extendToShape E shape
  /\ (_BeginWriting E "out.usda" false (job [["grp"]])).1 = false
  /\ (Write E "out.usda" false (job [["grp"]])).1 = false.
Proof.
  intros E job cube shape other checked exported ofTransform ofShape.
  destruct (name_clash_check E (Some cube) cube (job [cube]))
    as (_ & Hfirst & _ & Hnext & Hunique & _).
  destruct (name_clash_check E (Some cube) cube (job [["grp"]]))
    as (_ & _ & _ & _ & _ & Hwrite).
  specialize (Hfirst eq_refl eq_refl).
  destruct (Hnext shape eq_refl eq_refl) as [Hshape _].
  destruct (Hnext other eq_refl eq_refl) as [Hother Hclash].
  assert (Hin1 : ofTransform ∈ mMayaPrimWriterList exported).
  { apply list_elem_of_In. vm_compute. tauto. }
  assert (Hin2 : ofShape ∈ mMayaPrimWriterList exported).
  { apply list_elem_of_In. vm_compute. tauto. }
  assert (Hok : (_BeginWriting E "out.usda" false (job [cube])).1 = true)
    by (vm_compute; reflexivity).
  assert (Hfail : (_BeginWriting E "out.usda" false (job [["grp"]])).1 = false)
    by (vm_compute; reflexivity).
  split_and!.
  - by rewrite Hfirst.
  - unfold checked. rewrite Hfirst. cbn [snd mUsdPathToDagPathMap set_mUsdPathToDagPathMap].
    apply lookup_insert_eq.
  - apply Hshape. split; reflexivity.
  - apply Hclash. apply not_true_is_false. intros Hc.
    apply Hother in Hc as [_ Hc]. vm_compute in Hc. discriminate Hc.
  - exact Hok.
  - exact Hin1.
  - exact Hin2.
  - destruct (Hunique "out.usda" false eq_refl eq_refl Hok ofTransform ofShape Hin1 Hin2
                eq_refl) as [Heq | [_ Heq]].
    + vm_compute. reflexivity.
    + vm_compute in Heq. discriminate Heq.
    + exact Heq.
  - exact Hfail.
  - apply not_true_is_false. intros Hw.
    apply Hwrite in Hw as [Hb _]. rewrite Hfail in Hb. discriminate Hb.
Defined.
